(* ===== verification/_CoqProject ===== *)
-Q . S2P
Prelude.v
Utf8.v
Errors.v
LdCache.v
LoaderLock.v
LinkMap.v
DebugList.v
Machine.v
Layout.v
Abi.v
CStr.v
MemRoutines.v
Heap.v
Dtv.v
Tls.v
Resolver.v
Manager.v
DlError.v
Open.v
DlApi.v
Threads.v
Concurrent.v
Sessions.v
Introspect.v
Library.v
Stack.v
SelfReloc.v
Glibc.v
Cli.v
CliReturns.v
Symbols.v
Rtld.v
Startup.v
Boot.v
Handover.v
Entry.v
Versions.v
Host.v
Os.v
