(* ===== verification/Prelude.v ===== *)
(** * Verification of the dynamic linker: root file

    The repository is a dynamic linker in Rust: a crate (src/) that opens
    libraries in a running process and exports dlopen, dlsym, dladdr and their
    kin, and a runtime linker (rtld/impl/src/) that the kernel starts as the
    interpreter of a program in place of glibc's.  Mapping files, relocating
    them and looking up their symbols is the work of a third-party loader crate.
    This library models the code of the repository as executable Rocq
    definitions and proves what each part promises.  File names below are
    relative to the repository.

    ** The parts and how they interact

    In a process that another linker started, the constructor of the crate
    (Host.v) adopts that linker's libraries into the registry (Manager.v) and
    the debugger's list (DebugList.v).  An open (DlApi.v, Open.v) takes the
    loader lock (LoaderLock.v), has the loader crate map and relocate over the
    registry, searches the loader cache (LdCache.v), and leaves its outcome in
    the error state of the thread (DlError.v).  Queries (Introspect.v) take
    leases on the modules they visit.  The calls of all threads meet at the loader
    lock (Threads.v, Concurrent.v, Sessions.v); a Rust program holds libraries
    as values instead of handles (Library.v).  In a process of its own, the runtime
    linker (Entry.v, Startup.v) relocates itself (SelfReloc.v), reads the kernel's stack
    (Stack.v), handles its options when started by hand (Cli.v), lays out
    thread-local storage (Tls.v, Dtv.v, through Resolver.v), has the program
    linked by the registry (Rtld.v), and publishes what libc reads by offset
    (Glibc.v, Layout.v) before any constructor runs; libc calls it back through
    the symbols of Symbols.v.  Its memory comes from Heap.v and MemRoutines.v.
    Boot.v composes the stages into one run, and Handover.v that run with the
    threads that the program starts afterwards.

    ** Files and sources

    - Prelude: outcomes (return, panic, fault, out of fuel), results, the state
      monad, arithmetic of [usize], [isize], [u32], [u8] with wrapping, checked and
      panicking operations, little-endian bytes; the hints and tactics of the
      development.
    - Utf8: validation and lossy decoding of the standard library's strings.
    - Errors: src/error.rs, the flags of src/lib.rs.
    - LdCache: src/dlopen/ld_cache.rs.
    - LoaderLock: src/registry/loader_lock.rs; StdLock and FutexLock are step
      relations over all threads, ReentrantLock the interface of both, Registry
      the cell behind the lock.
    - LinkMap, Abi: src/abi.rs, its functions and the C layout of its structures.
      DebugList: src/runtime/debug.rs, the list part of
      src/runtime/host.rs and of bootstrap/publish.rs, over a store of link maps.
    - Machine: memory as a partial map from addresses to bytes.  Layout: the
      layout of repr(C) structures and structures in memory.  CStr: C strings.
    - MemRoutines: memory.rs.  Heap: the allocator of runtime.rs.
    - Dtv: glibc/v2_39/tls.rs.  Tls: tls.rs, symbols/tls.rs, arch/x86_64/mod.rs.
      Resolver: the resolver of src/runtime/rtld.rs and its installation.
    - Manager: src/registry/manager.rs, src/registry/cxa.rs and the handle type of
      src/library.rs.  DlError: src/api/dlerror.rs, both builds.
    - Open: src/dlopen/run.rs, src/dlopen/observer.rs.  DlApi: src/api/dlopen.rs,
      dlsym.rs, mod.rs, src/cdylib/src/lib.rs.  Introspect: src/api/dladdr.rs, dl_iterate_phdr.rs,
      dl_find_object.rs, the library type of src/library.rs.
    - Threads: calls in the sections of the loader lock, over any state, and
      their serializability.  Concurrent: the calls of DlApi.v cut into those
      sections; they agree with DlApi.v for user code that does not use the error
      state, which DlApi.v lets constructors and finalizers change.  Sessions:
      threads that open, close and look up over one registry, and what an open
      owes when it fails.
    - Library: src/library.rs and src/lib.rs for Rust programs, the ownership of
      leases included.  Versions: versions.rs, the directives of the exported
      symbols.
    - Entry: the assembly of src/api/dlopen.rs, dlsym.rs, arch/ and main.rs, as
      moves between registers, words of the stack and calls.
    - Stack: bootstrap/stack.rs.  SelfReloc: bootstrap/self_reloc.rs.
    - Glibc: glibc/v2_39/mod.rs, globals.rs.  Cli: cli.rs, the output of runtime.rs.
      CliReturns: no code of its own, the phase of the options ends whatever the
      files hold and whichever reads fail.
      Symbols: symbols/.
    - Rtld: src/runtime/rtld.rs.  Startup: bootstrap/startup.rs, publish.rs, mod.rs.
      Boot: no code of its own, the theorems about one run of Startup.  Handover:
      the leases of that run, and the composition with Sessions.
    - Host: src/runtime/host.rs.  Os: src/os/linux.rs.

    In each file the component is a Module whose definitions carry the names of
    the source; the theorems are in the Module of that name with [Props].

    ** Conventions

    A machine word is a [Z] in its range, with every wrap-around, checked or
    panicking operation written out; the class [Build] says whether plain
    arithmetic panics on overflow and which architecture is built.  Code with raw pointers runs on byte memory,
    where an access outside of what is mapped is [Fault].  Code of the crate
    threads its state through a state monad; errors are values of [result].
    Interfaces are classes: [ReentrantLock], [ErrorState], [Build], and for code
    that is not in the repository the loader crate ([LinkCtx], [ModuleApi],
    [Linker], [Image], [RawLoader], [HostLoader], [DefaultResolver]) and the
    kernel ([Kernel], [Files], [FileCalls], [StdFds]).  Operations and the laws that
    theorems rely on are separate classes ([LinkCtxLaws], [LinkerLaws],
    [AliasLaws], [LinkerLeases], [StartupLeases], [Linked], [BootLaws], [KernelLaws],
    [FilesSpec], [FilesReturn], [FileCallsSpec], [StdFdsSpec]); every law class has a concrete instance, on which the witnesses of the theorems
    evaluate.

    ** What the theorems show

    - Concurrency: mutual exclusion of both locks, refinement of the futex lock
      to an abstract re-entrant lock, the borrow discipline of the registry, no
      lost wake-up of the std lock, and a lost wake-up of the futex lock.
      The calls of all threads are serializable: whenever the lock is free,
      their effects are those of whole critical sections, one at a time.
      Threads that open, look up and close over one registry never panic, never
      get stuck and lose no lease; over the abstract lock they can always finish
      (not so over the futex lock, which can lose a wake-up; not shown for the std lock).
    - Rust interface: a library owns exactly one lease until it is dropped or
      its owner forgets it.
    - Registry: handles refine counters, an open always returns with the cell
      free and undoes itself on failure, NOLOAD never loads, the flags and the
      counters after a load, the error protocol of the C entry points with user
      code that makes calls of its own, and the agreement of both error states
      for every interleaving.  A failed open gives back every lease that it took.
    - Data formats: the cache lookup equals a linear scan, reading ELF headers in
      pieces equals parsing the whole file, file reads are whole or fail, the
      structures of glibc have the asserted layout and hold what was published,
      the search-path protocol fits its buffer.
    - Process start: a direct invocation leaves the stack the kernel would have
      built, the option walk equals a decision on the strings, a program is
      entered untouched exactly when nothing has to be linked; the registers and
      the stack that the program is entered with are those of the kernel.  One
      whole run ends, for a program that the kernel mapped and for a direct
      invocation, and everything libc and the debugger read is in place before
      the first constructor; the finalizers run once, also when one of them exits.
    - Storage: the static TLS blocks that the linker places never overlap (a
      module recorded at an offset of the caller's choice is taken at its word),
      new threads and dynamic blocks hold their images, up to the 64 slots of the
      vector, the allocator and the C memory routines meet their contracts.
    - Host: the recovered dynamic table is the one of the file, adopted modules
      cover exactly their segments.

    ** Fuel

    Structural recursion is used where the code walks a list or counts up to a
    known bound.  Loops over memory or files take fuel; running out is the
    outcome [OutOfFuel], which no theorem about a result allows, so each of
    them proves that the stated fuel is enough: more than the length of the
    string, table, list or file for a walk over it ([CStr], [Stack], [DebugList],
    [Host], [Os]), the number of bytes for a copy ([MemRoutines], [Heap]), the
    number of entries for the cache search, whose interval shrinks with every
    step ([LdCache]), the number of arguments for the options ([Cli]), and the
    number of live blocks for the end of a thread ([Tls]).

    ** Not modelled

    - Logging, [Debug] formatting, and the panic handler, which exits.
    - Examples, benchmarks, tests and build scripts.
    - Instructions: the assembly at the entry points is modelled by what each
      instruction moves, not by its encoding.
    - Weak memory: interleavings of the lock are sequentially consistent.

    ** What modelling showed

    Each of these is a theorem: the futex lock can sleep through an unlock
    ([futex_lost_wakeup]); the allocator does not honour alignments above a page
    ([over_aligned_alloc]); a dynamic block leaks per access while the image of
    its module is not published ([unpublished_module_leaks]); a cached origin
    outlives its object ([origin_cache_stale]); argv taken from libc is the
    address of the variable ([argv_is_the_address]); a host program at base 0
    is read at address 0 ([base_zero_faults]); on riscv64 the entries of the cache
    for the double-float ABI are skipped ([riscv_double_rejected]); the preload
    library drops every error message ([preload_dlerror_silent]).

    ** Open ends

    In the contract of the loader crate at startup ([BootLaws]) the work of the
    observer (src/dlopen/observer.rs), which lists a link map for each new
    module, belongs to mapping and relocation; and what the crate's [Linked]
    groups promise is asked of startup only, not of later opens.  Mapping a
    binary before it is linked ([Open.map_root]) leaves out the observer in the same way.
    The reader of inspected files is compared with the whole-file parser for
    reads that do not fail; that the option phase ends is shown for all.  An
    ELF module is taken to have its link map when startup collects the maps,
    and the TLS offset of an adopted module not to be the one word that has no
    negation. *)

From Stdlib Require Export ZArith Lia.
From stdpp Require Export base tactics numbers list gmap strings.

#[global] Open Scope Z_scope.

(** ** Outcomes of a call

    A Rust call returns, panics, or (in [unsafe] code) touches memory that is
    not mapped.  Loops whose recursion is not structural run on fuel;
    [OutOfFuel] is a separate value so that totality theorems can exclude it. *)

Inductive outcome (A : Type) : Type :=
  | Ret (a : A)
  | Panic
  | Fault
  | OutOfFuel.
Arguments Ret {A} a.
Arguments Panic {A}.
Arguments Fault {A}.
Arguments OutOfFuel {A}.

(** The value of a call that returned. *)
Definition outcome_value {A} (o : outcome A) : option A :=
  match o with Ret a => Some a | _ => None end.

#[export] Instance outcome_ret : MRet outcome := λ A, Ret.
#[export] Instance outcome_bind : MBind outcome := λ A B k m,
  match m with
  | Ret a => k a
  | Panic => Panic
  | Fault => Fault
  | OutOfFuel => OutOfFuel
  end.

(** Rust's [Result<A, E>]. *)
Inductive result (E A : Type) : Type :=
  | Ok (a : A)
  | Err (e : E).
Arguments Ok {E A} a.
Arguments Err {E A} e.

#[export] Instance result_ret {E} : MRet (result E) := λ A, Ok.
#[export] Instance result_bind {E} : MBind (result E) := λ A B k m,
  match m with Ok a => k a | Err e => Err e end.

Definition result_ok {E A} (r : result E A) : option A :=
  match r with Ok a => Some a | Err _ => None end.

(** ** State-passing code with outcomes *)

Definition st (S A : Type) : Type := S → outcome (A * S).

#[export] Instance st_ret {S} : MRet (st S) := λ A a s, Ret (a, s).
#[export] Instance st_bind {S} : MBind (st S) := λ A B k m s,
  match m s with
  | Ret (a, s') => k a s'
  | Panic => Panic
  | Fault => Fault
  | OutOfFuel => OutOfFuel
  end.

Definition st_get {S} : st S S := λ s, Ret (s, s).
Definition st_put {S} (s : S) : st S unit := λ _, Ret (tt, s).
Definition st_lift {S A} (o : outcome A) : st S A :=
  λ s, a ← o; Ret (a, s).
Definition st_fail {S A} (o : outcome Empty_set) : st S A :=
  λ _, a ← o; match a : Empty_set with end.

(** The [?] operator: on an [Option] inside an outcome, and on a [Result] or
    an [Option] returned by stateful code. *)
Definition try_opt {A B} (k : A → outcome (option B)) (m : outcome (option A)) : outcome (option B) :=
  o ← m; match o with Some a => k a | None => mret None end.
Definition try_res {S E A B} (k : A → st S (result E B)) (m : st S (result E A)) : st S (result E B) :=
  r ← m; match r with Ok a => k a | Err e => mret (Err e) end.
Definition try_some {S A B} (k : A → st S (option B)) (m : st S (option A)) : st S (option B) :=
  r ← m; match r with Some a => k a | None => mret None end.
Notation "x ←? m ; k" := (try_opt (λ x, k) m)
  (at level 20, m at level 100, k at level 200, right associativity).
Notation "x ←! m ; k" := (try_res (λ x, k) m)
  (at level 20, m at level 100, k at level 200, right associativity).
Notation "x ←!? m ; k" := (try_some (λ x, k) m)
  (at level 20, m at level 100, k at level 200, right associativity).

(** ** Machine integers

    [usize] is 64 bits wide on every target the crate accepts.  Plain [+],
    [-] and [*] panic on overflow when the build has overflow checks and wrap
    when it has not.  The build is a parameter, with the target, which has one
    of the architectures that src/lib.rs accepts; few functions depend on it. *)

Inductive arch := X86_64 | Aarch64 | Riscv64.
Class Build := { overflow_checks : bool; target_arch : arch }.

Definition usize_mod : Z := 2 ^ 64.
Definition usize_max : Z := 2 ^ 64 - 1.
Definition isize_max : Z := 2 ^ 63 - 1.

Definition in_usize (z : Z) : Prop := 0 ≤ z < 2 ^ 64.
#[export] Instance in_usize_dec z : Decision (in_usize z).
Proof. unfold in_usize. apply _. Defined.

Definition wrap (z : Z) : Z := z mod 2 ^ 64.
Definition wrapping_add (a b : Z) : Z := wrap (a + b).
Definition wrapping_sub (a b : Z) : Z := wrap (a - b).
Definition checked_add (a b : Z) : option Z :=
  if decide (a + b < 2 ^ 64) then Some (a + b) else None.
Definition checked_mul (a b : Z) : option Z :=
  if decide (a * b < 2 ^ 64) then Some (a * b) else None.
Definition saturating_sub (a b : Z) : Z := Z.max 0 (a - b).
Definition saturating_add (a b : Z) : Z := Z.min usize_max (a + b).

Definition not_usize (z : Z) : Z := usize_max - z.

Definition is_power_of_two (z : Z) : bool := (0 <? z) && (2 ^ Z.log2 z =? z).
Definition checked_next_power_of_two (z : Z) : option Z :=
  let p := if z <=? 1 then 1 else 2 ^ Z.log2_up z in
  if decide (p < 2 ^ 64) then Some p else None.

Definition u_arith `{Build} (z : Z) : outcome Z :=
  if decide (in_usize z) then Ret z
  else if overflow_checks then Panic else Ret (wrap z).
Definition uadd `{Build} (a b : Z) : outcome Z := u_arith (a + b).
Definition usub `{Build} (a b : Z) : outcome Z := u_arith (a - b).
Definition umul `{Build} (a b : Z) : outcome Z := u_arith (a * b).

(** [x as isize], [x as u32], [x as u16], [x as c_int]. *)
Definition as_isize (z : Z) : Z := if decide (z < 2 ^ 63) then z else z - 2 ^ 64.
Definition as_u32 (z : Z) : Z := z mod 2 ^ 32.
Definition as_u16 (z : Z) : Z := z mod 2 ^ 16.
Definition as_u8 (z : Z) : Z := z mod 2 ^ 8.
Definition as_i32 (z : Z) : Z :=
  let w := z mod 2 ^ 32 in if decide (w < 2 ^ 31) then w else w - 2 ^ 32.

Lemma wrap_small z : in_usize z → wrap z = z.
Proof. intros H. apply Z.mod_small, H. Qed.

Lemma wrap_range z : in_usize (wrap z).
Proof. unfold in_usize, wrap. apply Z.mod_pos_bound. lia. Qed.

Lemma u_arith_small `{Build} z : in_usize z → u_arith z = Ret z.
Proof. intros. unfold u_arith. by rewrite decide_True. Qed.

Lemma uadd_small `{Build} a b : 0 ≤ a + b < 2 ^ 64 → uadd a b = Ret (a + b).
Proof. apply u_arith_small. Qed.
Lemma usub_small `{Build} a b : 0 ≤ a - b < 2 ^ 64 → usub a b = Ret (a - b).
Proof. apply u_arith_small. Qed.
Lemma umul_small `{Build} a b : 0 ≤ a * b < 2 ^ 64 → umul a b = Ret (a * b).
Proof. apply u_arith_small. Qed.

Lemma checked_add_Some a b c :
  checked_add a b = Some c ↔ c = a + b ∧ a + b < 2 ^ 64.
Proof.
  unfold checked_add. case_decide; (split; [intros [=]|intros [-> ?]]);
    subst; done || lia.
Qed.
Lemma checked_add_None a b : checked_add a b = None ↔ 2 ^ 64 ≤ a + b.
Proof. unfold checked_add. case_decide; split; intros; try done; lia. Qed.

Lemma is_power_of_two_spec z : is_power_of_two z = true ↔ ∃ k, 0 ≤ k ∧ z = 2 ^ k.
Proof.
  unfold is_power_of_two. rewrite andb_true_iff, Z.ltb_lt, Z.eqb_eq. split.
  - intros [H1 H2]. exists (Z.log2 z). split; [apply Z.log2_nonneg|done].
  - intros (k & Hk & ->). rewrite Z.log2_pow2 by done. split; [by apply Z.pow_pos_nonneg|done].
Qed.

Lemma checked_next_power_of_two_Some z p :
  checked_next_power_of_two z = Some p →
  ∃ k, 0 ≤ k < 64 ∧ p = 2 ^ k ∧ z ≤ p ∧ (1 < z → p < 2 * z).
Proof.
  unfold checked_next_power_of_two. case_decide as Hp; [|done]. intros [= <-].
  destruct (Z.leb_spec z 1) as [Hz|Hz]; [exists 0; lia|].
  exists (Z.log2_up z). pose proof (Z.log2_up_nonneg z) as Hn.
  destruct (Z.log2_up_spec z Hz) as [Hlo Hhi]. split_and!; try done.
  - apply (Z.pow_lt_mono_r_iff 2); lia.
  - intros _. rewrite <-(Z.succ_pred (Z.log2_up z)), Z.pow_succ_r; [lia|].
    pose proof (Z.log2_up_pos z Hz). lia.
Qed.

Lemma checked_next_power_of_two_pow2 k :
  0 ≤ k < 64 → checked_next_power_of_two (2 ^ k) = Some (2 ^ k).
Proof.
  intros Hk. unfold checked_next_power_of_two.
  assert ((if 2 ^ k <=? 1 then 1 else 2 ^ Z.log2_up (2 ^ k)) = 2 ^ k) as ->.
  { destruct (Z.leb_spec (2 ^ k) 1) as [H|H]; [|by rewrite Z.log2_up_pow2 by lia].
    assert (0 < 2 ^ k) by (apply Z.pow_pos_nonneg; lia). lia. }
  rewrite decide_True; [done|]. apply Z.pow_lt_mono_r; lia.
Qed.
Lemma is_power_of_two_pow2 k : 0 ≤ k → is_power_of_two (2 ^ k) = true.
Proof. intros Hk. apply is_power_of_two_spec. by exists k. Qed.

Lemma checked_add_lt a b : a + b < 2 ^ 64 → checked_add a b = Some (a + b).
Proof. intros. unfold checked_add. by rewrite decide_True. Qed.
Lemma checked_add_ge a b : ¬ (a + b < 2 ^ 64) → checked_add a b = None.
Proof. intros. unfold checked_add. by rewrite decide_False. Qed.

Lemma try_opt_Some {A B} (k : A → outcome (option B)) a : try_opt k (Ret (Some a)) = k a.
Proof. done. Qed.
Lemma try_opt_mret_Some {A B} (k : A → outcome (option B)) a : try_opt k (mret (Some a)) = k a.
Proof. done. Qed.
Lemma try_opt_None {A B} (k : A → outcome (option B)) : try_opt k (Ret None) = Ret None.
Proof. done. Qed.
Lemma try_opt_mret_None {A B} (k : A → outcome (option B)) : try_opt k (mret None) = Ret None.
Proof. done. Qed.

(** [x & !(2^k - 1)] and [x & (2^k - 1)]. *)
Lemma land_not_mask x k :
  0 ≤ k < 64 → in_usize x → Z.land x (not_usize (2 ^ k - 1)) = x - x mod 2 ^ k.
Proof.
  intros Hk Hx. unfold not_usize, usize_max, in_usize in *.
  assert (0 < 2 ^ k) by (apply Z.pow_pos_nonneg; lia).
  replace (2 ^ 64 - 1 - (2 ^ k - 1)) with (Z.ldiff (Z.ones 64) (Z.ones k)).
  - rewrite Z.ldiff_ones_r by lia.
    transitivity (Z.ldiff (Z.land x (Z.ones 64)) (Z.ones k)).
    + rewrite !Z.ldiff_land, <-Z.land_assoc, <-!Z.ldiff_land. f_equal.
      by rewrite Z.ldiff_ones_r by lia.
    + rewrite Z.land_ones, Z.mod_small by lia.
      rewrite Z.ldiff_ones_r, Z.shiftl_mul_pow2, Z.shiftr_div_pow2 by lia.
      pose proof (Z.div_mod x (2 ^ k)). lia.
  - rewrite <-Z.sub_nocarry_ldiff; [rewrite !Z.ones_equiv; lia|].
    apply Z.bits_inj'. intros n Hn. rewrite Z.ldiff_spec, Z.bits_0, !Z.testbit_ones_nonneg by lia.
    destruct (Z.ltb_spec n k), (Z.ltb_spec n 64); try done; lia.
Qed.

Lemma land_mask x k : 0 ≤ k → Z.land x (2 ^ k - 1) = x mod 2 ^ k.
Proof. intros Hk. rewrite <-Z.land_ones by done. by rewrite Z.ones_equiv. Qed.

(** ** Slices and bytes

    A byte is a [Z] between 0 and 255; a byte slice is a list of them.  Rust
    checks every slice bound and panics outside. *)

Definition is_byte (b : Z) : Prop := 0 ≤ b < 256.
#[export] Instance is_byte_dec b : Decision (is_byte b).
Proof. unfold is_byte. apply _. Defined.

Definition zlen {A} (l : list A) : Z := Z.of_nat (length l).

(** [&l[a..b]], [&l[a..]], [l[i]]. *)
Definition slice {A} (l : list A) (a b : Z) : outcome (list A) :=
  if decide (0 ≤ a ∧ a ≤ b ∧ b ≤ zlen l)
  then Ret (take (Z.to_nat (b - a)) (drop (Z.to_nat a) l)) else Panic.
Definition slice_from {A} (l : list A) (a : Z) : outcome (list A) :=
  if decide (0 ≤ a ∧ a ≤ zlen l) then Ret (drop (Z.to_nat a) l) else Panic.
Definition index {A} (l : list A) (i : Z) : outcome A :=
  if decide (0 ≤ i) then
    match l !! Z.to_nat i with Some x => Ret x | None => Panic end
  else Panic.

Lemma zlen_nonneg {A} (l : list A) : 0 ≤ zlen l.
Proof. unfold zlen. lia. Qed.
Lemma zlen_app {A} (l k : list A) : zlen (l ++ k) = zlen l + zlen k.
Proof. unfold zlen. rewrite length_app. lia. Qed.
Lemma zlen_cons {A} (x : A) l : zlen (x :: l) = zlen l + 1.
Proof. unfold zlen. rewrite length_cons. lia. Qed.
Lemma zlen_nil {A} : zlen ([] : list A) = 0.
Proof. done. Qed.
Lemma zlen_drop {A} (l : list A) n :
  0 ≤ n ≤ zlen l → zlen (drop (Z.to_nat n) l) = zlen l - n.
Proof. unfold zlen. rewrite length_drop. lia. Qed.

Lemma slice_Ret {A} (l : list A) a b :
  0 ≤ a → a ≤ b → b ≤ zlen l →
  slice l a b = Ret (take (Z.to_nat (b - a)) (drop (Z.to_nat a) l)).
Proof. intros. unfold slice. by rewrite decide_True. Qed.
Lemma slice_from_Ret {A} (l : list A) a :
  0 ≤ a → a ≤ zlen l → slice_from l a = Ret (drop (Z.to_nat a) l).
Proof. intros. unfold slice_from. by rewrite decide_True. Qed.

(** [from_le_bytes] and [to_le_bytes]. *)
Fixpoint le_decode (l : list Z) : Z :=
  match l with [] => 0 | b :: t => b + 256 * le_decode t end.
Fixpoint le_encode (n : nat) (z : Z) : list Z :=
  match n with O => [] | S n => z mod 256 :: le_encode n (z / 256) end.

Lemma length_le_encode n z : length (le_encode n z) = n.
Proof. revert z. induction n; intros; simpl; [done|]. by rewrite IHn. Qed.

Lemma le_encode_bytes n z : Forall is_byte (le_encode n z).
Proof.
  revert z. induction n; intros z; simpl; constructor; [|done].
  unfold is_byte. apply Z.mod_pos_bound. lia.
Qed.

Lemma le_decode_bound l :
  Forall is_byte l → 0 ≤ le_decode l < 2 ^ (8 * zlen l).
Proof.
  induction 1 as [|b l Hb Hl IH]; [done|].
  rewrite zlen_cons. simpl. unfold is_byte in Hb.
  replace (8 * (zlen l + 1)) with (8 * zlen l + 8) by lia.
  pose proof (zlen_nonneg l).
  rewrite Z.pow_add_r by lia. change (2 ^ 8) with 256. lia.
Qed.

Lemma le_decode_encode n z : le_decode (le_encode n z) = z mod 2 ^ (8 * Z.of_nat n).
Proof.
  revert z. induction n as [|n IH]; intros z; cbn [le_encode le_decode].
  { by rewrite Z.mod_1_r. }
  rewrite IH. replace (8 * Z.of_nat (S n)) with (8 + 8 * Z.of_nat n) by lia.
  rewrite Z.pow_add_r by lia. change (2 ^ 8) with 256.
  rewrite Z.rem_mul_r by (try apply Z.pow_nonzero; lia). lia.
Qed.

Lemma le_encode_decode l :
  Forall is_byte l → le_encode (length l) (le_decode l) = l.
Proof.
  induction 1 as [|b l Hb Hl IH]; [done|]. simpl. unfold is_byte in Hb.
  replace (b + 256 * le_decode l) with (b + le_decode l * 256) by lia.
  rewrite Z.mod_add, Z.div_add by lia.
  rewrite Z.mod_small, (Z.div_small b) by lia. rewrite Z.add_0_l, IH. done.
Qed.

Lemma Forall_take_drop {A} (P : A → Prop) l n m :
  Forall P l → Forall P (take n (drop m l)).
Proof. intros. by apply Forall_take, Forall_drop. Qed.

Lemma existsb_false {A} (f : A → bool) l : existsb f l = false ↔ ∀ x, x ∈ l → f x = false.
Proof.
  induction l as [|y l IH]; simpl; [split; [intros _ x Hx; by apply elem_of_nil in Hx|done]|].
  rewrite orb_false_iff, IH. split.
  - intros [Hy Hl] x [-> |Hx]%elem_of_cons; auto.
  - intros H. split; [apply H; left|intros x Hx; apply H; by right].
Qed.

(** ** Byte strings *)

Definition bytes_of_string (s : string) : list Z :=
  (λ a, Z.of_N (Ascii.N_of_ascii a)) <$> String.list_ascii_of_string s.

(** The bytes of a [str] as a Rocq string, for [format!]. *)
Definition string_of_bytes (l : list Z) : string :=
  String.string_of_list_ascii ((λ b, Ascii.ascii_of_N (Z.to_N b)) <$> l).

(** Rust's [Ord] for [str] and for byte slices: lexicographic on bytes. *)
Fixpoint str_cmp (a b : list Z) : comparison :=
  match a, b with
  | [], [] => Eq
  | [], _ :: _ => Lt
  | _ :: _, [] => Gt
  | x :: a, y :: b =>
      match Z.compare x y with Eq => str_cmp a b | c => c end
  end.

Definition starts_with (p s : list Z) : bool := bool_decide (take (length p) s = p).

Lemma bytes_of_string_of_bytes l : Forall is_byte l → bytes_of_string (string_of_bytes l) = l.
Proof.
  unfold bytes_of_string, string_of_bytes. rewrite String.list_ascii_of_string_of_list_ascii.
  induction 1 as [|b l Hb Hl IH]; [done|]. rewrite !fmap_cons, IH. f_equal. unfold is_byte in Hb.
  rewrite Ascii.N_ascii_embedding by lia. lia.
Qed.

Lemma bytes_of_string_app a b : bytes_of_string (a +:+ b) = bytes_of_string a ++ bytes_of_string b.
Proof. unfold bytes_of_string. induction a as [|c a IH]; [done|]. simpl. f_equal. apply IH. Qed.

Lemma str_cmp_refl a : str_cmp a a = Eq.
Proof. induction a as [|x a IH]; simpl; [done|]. by rewrite Z.compare_refl. Qed.

Lemma str_cmp_eq a b : str_cmp a b = Eq ↔ a = b.
Proof.
  split; [|intros ->; apply str_cmp_refl].
  revert b. induction a as [|x a IH]; intros [|y b]; simpl; try done.
  destruct (Z.compare_spec x y); try done. intros. f_equal; auto.
Qed.

Lemma str_cmp_antisym a b : str_cmp b a = CompOpp (str_cmp a b).
Proof.
  revert b. induction a as [|x a IH]; intros [|y b]; simpl; try done.
  rewrite (Z.compare_antisym x y). destruct (Z.compare x y); simpl; auto.
Qed.

Lemma str_cmp_lt_trans a b c :
  str_cmp a b = Lt → str_cmp b c = Lt → str_cmp a c = Lt.
Proof.
  revert b c. induction a as [|x a IH]; intros [|y b] [|z c]; simpl; try done.
  destruct (Z.compare_spec x y), (Z.compare_spec y z), (Z.compare_spec x z);
    intros; try done; try lia; eauto.
Qed.

(** ** Automation shared by the components *)

Create HintDb linker.
Create Rewrite HintDb linker.
#[export] Hint Resolve zlen_nonneg le_encode_bytes Forall_take_drop wrap_range : linker.
#[export] Hint Rewrite @zlen_app @zlen_cons length_le_encode : linker.

Lemma bind_Ret {A B} (a : A) (k : A → outcome B) : (Ret a ≫= k) = k a.
Proof. done. Qed.

Lemma bind_Ret_inv {A B} (m : outcome A) (k : A → outcome B) b :
  m ≫= k = Ret b → ∃ a, m = Ret a ∧ k a = Ret b.
Proof. destruct m; naive_solver. Qed.

Lemma st_bind_Ret_inv {S A B} (m : st S A) (k : A → st S B) s b s'' :
  (m ≫= k) s = Ret (b, s'') → ∃ a s', m s = Ret (a, s') ∧ k a s' = Ret (b, s'').
Proof.
  unfold mbind, st_bind. destruct (m s) as [[a s']| | |]; naive_solver.
Qed.

(** Run the first computation of a sequence in the current state. *)
Lemma st_bind_run {S A B} (m : st S A) (k : A → st S B) s a s' :
  m s = Ret (a, s') → (m ≫= k) s = k a s'.
Proof. unfold mbind, st_bind. by intros ->. Qed.
Lemma st_bind_ret {S A B} (a : A) (k : A → st S B) s :
  ((mret a : st S A) ≫= k) s = k a s.
Proof. done. Qed.
Lemma st_bind_get {S B} (k : S → st S B) s : (st_get ≫= k) s = k s s.
Proof. done. Qed.
Lemma st_bind_assoc {S A B C} (m : st S A) (k : A → st S B) (h : B → st S C) s :
  ((m ≫= k) ≫= h) s = (m ≫= λ a, k a ≫= h) s.
Proof. unfold mbind, st_bind. by destruct (m s) as [[a s']| | |]. Qed.

(** Compare two continuations of the same computation. *)
Lemma st_bind_ext {S A B} (m : st S A) (k1 k2 : A → st S B) s :
  (∀ a s', m s = Ret (a, s') → k1 a s' = k2 a s') → (m ≫= k1) s = (m ≫= k2) s.
Proof. intros Hk. unfold mbind, st_bind. destruct (m s) as [[a s']| | |]; by auto. Qed.

Lemma try_res_inv {S E A B} (c : st S (result E A)) (k : A → st S (result E B)) s r s'' :
  try_res k c s = Ret (r, s'') →
  (∃ e, c s = Ret (Err e, s'') ∧ r = Err e) ∨ (∃ a s', c s = Ret (Ok a, s') ∧ k a s' = Ret (r, s'')).
Proof.
  unfold try_res. intros ([a|e] & s' & H1 & H2)%st_bind_Ret_inv.
  - right. by exists a, s'.
  - left. injection H2 as <- <-. by exists e.
Qed.

Lemma try_res_ok {S E A B} (c : st S (result E A)) (k : A → st S (result E B)) s a s' :
  c s = Ret (Ok a, s') → try_res k c s = k a s'.
Proof. intros Hc. unfold try_res. by erewrite st_bind_run by done. Qed.
Lemma try_res_err {S E A B} (c : st S (result E A)) (k : A → st S (result E B)) s e s' :
  c s = Ret (Err e, s') → try_res k c s = Ret (Err e, s').
Proof. intros Hc. unfold try_res. by erewrite st_bind_run by done. Qed.
Lemma try_res_step {S E A B} (c : st S (result E A)) (k : A → st S (result E B)) s r s' :
  c s = Ret (r, s') → try_res k c s = match r with Ok a => k a s' | Err e => Ret (Err e, s') end.
Proof. intros Hc. unfold try_res. erewrite st_bind_run by done. by destruct r. Qed.
Lemma try_some_run {S A B} (c : st S (option A)) (k : A → st S (option B)) s o s' :
  c s = Ret (o, s') →
  try_some k c s = match o with Some a => k a s' | None => Ret (None, s') end.
Proof. intros Hc. unfold try_some. erewrite st_bind_run by done. by destruct o. Qed.

Lemma st_lift_inv {S A} (o : outcome A) (s : S) a s' :
  st_lift o s = Ret (a, s') → o = Ret a ∧ s' = s.
Proof. unfold st_lift. destruct o; try done. by intros [= <- <-]. Qed.

Lemma st_lift_run {S A} (o : outcome A) (s : S) a : o = Ret a → st_lift o s = Ret (a, s).
Proof. unfold st_lift. by intros ->. Qed.

(** Invert a hypothesis that says that a computation returned. *)
Ltac inv_ret :=
  repeat match goal with
  | H : _ ≫= _ = Ret _ |- _ =>
      apply bind_Ret_inv in H; destruct H as (?&?&?)
  | H : mbind _ _ = Ret _ |- _ =>
      apply bind_Ret_inv in H; destruct H as (?&?&?)
  | H : Ret _ = Ret _ |- _ => injection H as H; try subst
  | H : Panic = Ret _ |- _ => discriminate H
  | H : Fault = Ret _ |- _ => discriminate H
  | H : OutOfFuel = Ret _ |- _ => discriminate H
  end.

(** Discharge the machine arithmetic that stays in range. *)
Ltac u_small_with tac :=
  repeat first
    [ rewrite uadd_small by tac | rewrite usub_small by tac
    | rewrite umul_small by tac | rewrite bind_Ret ].
Ltac u_small := u_small_with ltac:(lia).
