(* ===== verification/Utf8.v ===== *)
(** * UTF-8 validation

    [core::str::from_utf8] and [CStr::to_str] of the Rust standard library, as
    the code relies on them: a byte string is accepted when it is a sequence of
    well-formed UTF-8 scalar values (Unicode table 3-7). *)

From S2P Require Import Prelude.

Definition utf8_cont (b : Z) : bool := (128 <=? b) && (b <=? 191).

(** Number of continuation bytes after a leading byte and the bounds of the
    first of them; [None] for a byte that cannot lead. *)
Definition utf8_lead (b : Z) : option (nat * Z * Z) :=
  if (0 <=? b) && (b <=? 127) then Some (O, 128, 191)
  else if (194 <=? b) && (b <=? 223) then Some (1%nat, 128, 191)
  else if b =? 224 then Some (2%nat, 160, 191)
  else if b =? 237 then Some (2%nat, 128, 159)
  else if (225 <=? b) && (b <=? 239) then Some (2%nat, 128, 191)
  else if b =? 240 then Some (3%nat, 144, 191)
  else if (241 <=? b) && (b <=? 243) then Some (3%nat, 128, 191)
  else if b =? 244 then Some (3%nat, 128, 143)
  else None.

(** [need] continuation bytes are expected, the next one in [lo..hi]. *)
Fixpoint utf8_scan (need : nat) (lo hi : Z) (l : list Z) : bool :=
  match l, need with
  | [], O => true
  | [], S _ => false
  | b :: l, O =>
      match utf8_lead b with
      | Some (n, lo, hi) => utf8_scan n lo hi l
      | None => false
      end
  | b :: l, S n => (lo <=? b) && (b <=? hi) && utf8_scan n 128 191 l
  end.

Definition utf8_valid (l : list Z) : bool := utf8_scan O 128 191 l.

(** [from_utf8(bytes).ok()] *)
Definition from_utf8 (l : list Z) : option (list Z) :=
  if utf8_valid l then Some l else None.

Lemma from_utf8_Some l s : from_utf8 l = Some s ↔ s = l ∧ utf8_valid l = true.
Proof.
  unfold from_utf8. destruct (utf8_valid l); (split; [intros [=]|intros [-> Hv]]);
    subst; done.
Qed.

Lemma utf8_ascii l : Forall (λ b, 0 ≤ b < 128) l → utf8_valid l = true.
Proof.
  unfold utf8_valid. induction 1 as [|b l Hb Hl IH]; [done|].
  cbn [utf8_scan]. unfold utf8_lead.
  rewrite (proj2 (Z.leb_le 0 b)), (proj2 (Z.leb_le b 127)) by lia. done.
Qed.

Lemma from_utf8_ascii l : Forall (λ b, 0 ≤ b < 128) l → from_utf8 l = Some l.
Proof. intros H. unfold from_utf8. by rewrite utf8_ascii. Qed.

(** ** [CStr::to_string_lossy]

    Well-formed sequences are kept; the longest prefix of one at an ill-formed
    place becomes U+FFFD. *)
Definition replacement : list Z := [239; 191; 189].
Fixpoint cont_run (need : nat) (lo hi : Z) (l : list Z) : nat :=
  match need, l with
  | S need, b :: l => if (lo <=? b) && (b <=? hi) then S (cont_run need 128 191 l) else 0
  | _, _ => 0
  end.
Fixpoint lossy (fuel : nat) (l : list Z) : list Z :=
  match fuel, l with
  | S fuel, b :: l =>
      match utf8_lead b with
      | Some (need, lo, hi) =>
          let k := cont_run need lo hi l in
          if decide (k = need) then b :: take need l ++ lossy fuel (drop need l)
          else replacement ++ lossy fuel (drop k l)
      | None => replacement ++ lossy fuel l
      end
  | _, _ => []
  end.
Definition to_string_lossy (l : list Z) : list Z := lossy (length l) l.

Lemma utf8_scan_cont need lo hi l :
  utf8_scan need lo hi l = true →
  cont_run need lo hi l = need ∧ utf8_scan 0 128 191 (drop need l) = true.
Proof.
  revert lo hi l. induction need as [|need IH]; intros lo hi l; [by destruct l|].
  destruct l as [|b l]; cbn [utf8_scan cont_run drop]; [done|].
  intros [Hb Hl]%andb_true_iff. rewrite Hb. destruct (IH _ _ _ Hl) as [-> ?]. done.
Qed.

Lemma to_string_lossy_valid l : utf8_valid l = true → to_string_lossy l = l.
Proof.
  unfold utf8_valid, to_string_lossy. generalize (Nat.le_refl (length l)). generalize (length l) at 2 3 as n.
  intros n. revert l. induction n as [|n IH]; intros l Hn Hv; [by destruct l; [|simpl in Hn; lia]|].
  destruct l as [|b l]; [done|]. cbn [lossy utf8_scan] in *.
  destruct (utf8_lead b) as [[[need lo] hi]|]; [|done].
  destruct (utf8_scan_cont _ _ _ _ Hv) as [-> Hd]. rewrite decide_True by done.
  rewrite IH; [by rewrite take_drop|rewrite length_drop; simpl in Hn; lia|done].
Qed.
