(* ===== verification/Errors.v ===== *)
(** * Errors (src/error.rs) and open flags (src/lib.rs)

    The crate's [Error] enumeration with its constructors and its [Display],
    and [OpenFlags], a 32-bit mask with the operations of [bitflags]. *)

From S2P Require Import Prelude.

(** The error type of the ELF loader crate is a parameter. *)
Inductive Error (LoaderErr : Type) : Type :=
  | LoaderError (err : LoaderErr)
  | FindLibError (msg : string)
  | FindSymbolError (msg : string)
  | ParseLdCacheError (msg : string)
  | Unsupported
  | IO (msg : string).
Arguments LoaderError {LoaderErr} err.
Arguments FindLibError {LoaderErr} msg.
Arguments FindSymbolError {LoaderErr} msg.
Arguments ParseLdCacheError {LoaderErr} msg.
Arguments Unsupported {LoaderErr}.
Arguments IO {LoaderErr} msg.

(** [Display for Error]; [fmt_loader] prints the loader's own errors. *)
Definition Error_fmt {LoaderErr} (fmt_loader : LoaderErr → string)
    (self : Error LoaderErr) : string :=
  match self with
  | LoaderError err => fmt_loader err
  | FindLibError msg => msg
  | FindSymbolError msg => msg
  | ParseLdCacheError msg => msg
  | Unsupported => "unsupported"
  | IO err => "IO error: " +:+ err
  end.

Definition find_lib_error {LoaderErr} (msg : string) : Error LoaderErr := FindLibError msg.
Definition find_symbol_error {LoaderErr} (msg : string) : Error LoaderErr := FindSymbolError msg.
Definition parse_ld_cache_error {LoaderErr} (msg : string) : Error LoaderErr :=
  ParseLdCacheError msg.

(** ** OpenFlags *)
Module OpenFlags.

(** The [bits] field of the bitflags structure. *)
Definition t : Type := Z.

Definition RTLD_LOCAL : t := 0.
Definition RTLD_LAZY : t := 1.
Definition RTLD_NOW : t := 2.
Definition RTLD_NOLOAD : t := 4.
Definition RTLD_DEEPBIND : t := 8.
Definition RTLD_GLOBAL : t := 256.
Definition RTLD_NODELETE : t := 4096.

Definition empty : t := 0.
(** [from_bits_retain(flags as u32)]: unknown bits are kept. *)
Definition from_bits_retain (bits : Z) : t := as_u32 bits.
Definition union (a b : t) : t := Z.lor a b.
Definition inter (a b : t) : t := Z.land a b.
Definition contains (self other : t) : bool := Z.land self other =? other.

Definition is_global (self : t) : bool := contains self RTLD_GLOBAL.
Definition is_nodelete (self : t) : bool := contains self RTLD_NODELETE.
Definition is_now (self : t) : bool := contains self RTLD_NOW.
Definition is_noload (self : t) : bool := contains self RTLD_NOLOAD.
Definition is_deepbind (self : t) : bool := contains self RTLD_DEEPBIND.
Definition promotable (self : t) : t := inter self (union RTLD_GLOBAL RTLD_NODELETE).

(** A named flag is one bit; [contains] tests that bit. *)
Lemma contains_pow2 self n :
  0 ≤ n → contains self (2 ^ n) = Z.testbit self n.
Proof.
  intros Hn. unfold contains. destruct (Z.testbit self n) eqn:E.
  - apply Z.eqb_eq. apply Z.bits_inj'. intros m Hm.
    rewrite Z.land_spec, Z.pow2_bits_eqb by done.
    destruct (Z.eqb_spec n m); subst; [by rewrite E|by rewrite andb_false_r].
  - apply Z.eqb_neq. intros Heq. apply (f_equal (λ z, Z.testbit z n)) in Heq.
    rewrite Z.land_spec, Z.pow2_bits_true, E in Heq by done. done.
Qed.

Lemma is_global_bit self : is_global self = Z.testbit self 8.
Proof. by apply (contains_pow2 self 8). Qed.
Lemma is_nodelete_bit self : is_nodelete self = Z.testbit self 12.
Proof. by apply (contains_pow2 self 12). Qed.
Lemma is_now_bit self : is_now self = Z.testbit self 1.
Proof. by apply (contains_pow2 self 1). Qed.
Lemma is_noload_bit self : is_noload self = Z.testbit self 2.
Proof. by apply (contains_pow2 self 2). Qed.
Lemma is_deepbind_bit self : is_deepbind self = Z.testbit self 3.
Proof. by apply (contains_pow2 self 3). Qed.

Lemma promotable_bit self n :
  0 ≤ n → Z.testbit (promotable self) n
          = Z.testbit self n && ((n =? 8) || (n =? 12)).
Proof.
  intros Hn. unfold promotable, inter. rewrite Z.land_spec. f_equal.
  change (union RTLD_GLOBAL RTLD_NODELETE) with (Z.lor (2 ^ 8) (2 ^ 12)).
  rewrite Z.lor_spec, !Z.pow2_bits_eqb by lia.
  by rewrite (Z.eqb_sym 8), (Z.eqb_sym 12).
Qed.

Lemma union_is_global a b : is_global (union a b) = is_global a || is_global b.
Proof. rewrite !is_global_bit. apply Z.lor_spec. Qed.
Lemma union_is_nodelete a b : is_nodelete (union a b) = is_nodelete a || is_nodelete b.
Proof. rewrite !is_nodelete_bit. apply Z.lor_spec. Qed.
Lemma promotable_is_global a : is_global (promotable a) = is_global a.
Proof. rewrite !is_global_bit, promotable_bit by lia. apply andb_true_r. Qed.
Lemma promotable_is_nodelete a : is_nodelete (promotable a) = is_nodelete a.
Proof. rewrite !is_nodelete_bit, promotable_bit by lia. apply andb_true_r. Qed.

End OpenFlags.

#[export] Hint Rewrite OpenFlags.union_is_global OpenFlags.union_is_nodelete
  OpenFlags.promotable_is_global OpenFlags.promotable_is_nodelete : linker.
