(* ===== verification/LdCache.v ===== *)
(** * The loader cache (src/dlopen/ld_cache.rs)

    [LdCache] holds the bytes of /etc/ld.so.cache; [new] validates the header,
    [get_name], [get_path] and [check_flags] decode one entry, and [lookup]
    finds a library by binary search on the byte order of the names, in either
    direction, then scans the block of equal names.  Logging is erased. *)

From S2P Require Import Prelude Utf8 Errors.

Module LdCache.

Definition HEADER_SIZE : Z := 48.
Definition ENTRY_SIZE : Z := 24.
Definition FLAG_TYPE_MASK : Z := 255.
Definition FLAG_LIBC6 : Z := 3.
Definition FLAG_ARCH_CURRENT `{Build} : Z :=
  match target_arch with X86_64 => 0x0300 | Aarch64 => 0x0200 | Riscv64 => 0x0500 end.
Definition MAGIC_NEW : list Z := bytes_of_string "glibc-ld.so.cache1.1".

Record LdCache := mk {
  data : list Z;
  header_offset : Z;
  nlibs : Z;
  string_table_offset : Z }.

(** [windows(pat.len()).position(|w| w == pat)] *)
Fixpoint find_window (pat l : list Z) (i : Z) : option Z :=
  if starts_with pat l then Some i
  else match l with [] => None | _ :: l => find_window pat l (i + 1) end.

Section code.
Context `{Build} {LoaderErr : Type}.

(** [u32::from_le_bytes(l[a..b].try_into().unwrap()) as usize] *)
Definition read_u32_le (l : list Z) (a : Z) : outcome Z :=
  b ← uadd a 4; bs ← slice l a b; Ret (le_decode bs).

(** [LdCache::new], given what [read_file] returned. *)
Definition new (file : result (Error LoaderErr) (list Z))
    : outcome (result (Error LoaderErr) LdCache) :=
  match file with
  | Err e => Ret (Err e)
  | Ok buffer =>
      match find_window MAGIC_NEW buffer 0 with
      | None =>
          Ret (Err (parse_ld_cache_error "Could not find glibc-ld.so.cache1.1 magic"))
      | Some start_offset =>
          header ← slice_from buffer start_offset;
          if zlen header <? HEADER_SIZE then
            Ret (Err (parse_ld_cache_error "Cache file too small for header"))
          else
            n ← read_u32_le header 20;
            entries ← umul n ENTRY_SIZE;
            h ← uadd start_offset HEADER_SIZE;
            string_table_offset ← uadd h entries;
            if zlen buffer <? string_table_offset then
              Ret (Err (parse_ld_cache_error "Cache entries exceed file size"))
            else
              Ret (Ok (mk buffer start_offset n string_table_offset))
      end
  end.

(** Position of the first NUL, or the length. *)
Fixpoint nul_position (l : list Z) : nat :=
  match l with
  | [] => O
  | c :: l => if c =? 0 then O else S (nul_position l)
  end.

Definition extract_str (table : list Z) (offset : Z) : outcome (option (list Z)) :=
  if zlen table <=? offset then Ret None
  else
    slice ← slice_from table offset;
    Ret (from_utf8 (take (nul_position slice) slice)).

Definition entry_offset (self : LdCache) (idx : Z) : outcome Z :=
  h ← uadd (header_offset self) HEADER_SIZE;
  o ← umul idx ENTRY_SIZE;
  uadd h o.

(** [s.starts_with('/')] *)
Definition is_absolute (s : list Z) : bool := starts_with [47] s.

Definition get_name (self : LdCache) (idx : Z) : outcome (option (list Z)) :=
  entry_offset ← entry_offset self idx;
  e ← uadd entry_offset 8;
  if zlen (data self) <? e then Ret None
  else
    k ← uadd entry_offset 4;
    key_idx ← read_u32_le (data self) k;
    header ← slice_from (data self) (header_offset self);
    rel ← extract_str header key_idx;
    match rel with
    | Some s =>
        if negb (bool_decide (s = [])) && negb (is_absolute s) then Ret (Some s)
        else
          table ← slice_from (data self) (string_table_offset self);
          extract_str table key_idx
    | None =>
        table ← slice_from (data self) (string_table_offset self);
        extract_str table key_idx
    end.

Definition get_path (self : LdCache) (idx : Z) : outcome (option (list Z)) :=
  entry_offset ← entry_offset self idx;
  e ← uadd entry_offset 12;
  if zlen (data self) <? e then Ret None
  else
    v ← uadd entry_offset 8;
    val_idx ← read_u32_le (data self) v;
    header ← slice_from (data self) (header_offset self);
    rel ← extract_str header val_idx;
    match rel with
    | Some s =>
        if is_absolute s then Ret (Some s)
        else
          table ← slice_from (data self) (string_table_offset self);
          extract_str table val_idx
    | None =>
        table ← slice_from (data self) (string_table_offset self);
        extract_str table val_idx
    end.

Definition flags_ok (flags : Z) : bool :=
  if negb (Z.land flags FLAG_TYPE_MASK =? FLAG_LIBC6) then false
  else if negb (FLAG_ARCH_CURRENT =? 0) && (Z.land flags FLAG_ARCH_CURRENT =? 0) then false
  else true.

Definition check_flags (self : LdCache) (idx : Z) : outcome bool :=
  entry_offset ← entry_offset self idx;
  e ← uadd entry_offset 4;
  if zlen (data self) <? e then Ret false
  else flags ← read_u32_le (data self) entry_offset; Ret (flags_ok flags).

(** "Search backward to find the first entry with the same name". *)
Fixpoint block_start (fuel : nat) (self : LdCache) (name : list Z) (start : Z) : outcome Z :=
  match fuel with
  | O => OutOfFuel
  | S fuel =>
      if 0 <? start then
        p ← usub start 1;
        prev ← get_name self p;
        if bool_decide (prev = Some name) then block_start fuel self name p else Ret start
      else Ret start
  end.

(** "Scan forward from the first match". *)
Fixpoint scan_block (fuel : nat) (self : LdCache) (name : list Z) (i : Z)
    : outcome (option (list Z)) :=
  match fuel with
  | O => OutOfFuel
  | S fuel =>
      if i <? nlibs self then
        here ← get_name self i;
        if bool_decide (here = Some name) then
          ok ← check_flags self i;
          path ← (if ok : bool then get_path self i else Ret None);
          match path with
          | Some path => Ret (Some path)
          | None => next ← uadd i 1; scan_block fuel self name next
          end
        else Ret None
      else Ret None
  end.

(** The [while left < right] loop. *)
Fixpoint search (fuel : nat) (self : LdCache) (lib_name : list Z) (is_descending : bool)
    (left right : Z) : outcome (option (list Z)) :=
  match fuel with
  | O => OutOfFuel
  | S fuel =>
      if left <? right then
        d ← usub right left;
        mid ← uadd left (d / 2);
        name ← get_name self mid;
        match name with
        | None => Ret None
        | Some name =>
            match (if is_descending then str_cmp name lib_name else str_cmp lib_name name) with
            | Eq =>
                start ← block_start (S (Z.to_nat mid)) self name mid;
                scan_block (S (Z.to_nat (nlibs self - start))) self name start
            | Lt => search fuel self lib_name is_descending left mid
            | Gt => next ← uadd mid 1; search fuel self lib_name is_descending next right
            end
        end
      else Ret None
  end.

Definition lookup (self : LdCache) (lib_name : list Z) : outcome (option (list Z)) :=
  if nlibs self =? 0 then Ret None
  else
    first_name ← get_name self 0;
    match first_name with
    | None => Ret None
    | Some first_name =>
        l ← usub (nlibs self) 1;
        last_name ← get_name self l;
        match last_name with
        | None => Ret None
        | Some last_name =>
            let is_descending := bool_decide (str_cmp first_name last_name = Gt) in
            search (S (Z.to_nat (nlibs self))) self lib_name is_descending 0 (nlibs self)
        end
    end.

(** Reference: scan the entries in order and return the path of the first one
    that has the name, the right flags and a path. *)
Definition entry_path (self : LdCache) (i : Z) : outcome (option (list Z)) :=
  ok ← check_flags self i; if ok : bool then get_path self i else Ret None.

Fixpoint linear_lookup (n : nat) (self : LdCache) (lib_name : list Z) (i : Z)
    : outcome (option (list Z)) :=
  match n with
  | O => Ret None
  | S n =>
      name ← get_name self i;
      path ← (if bool_decide (name = Some lib_name) then entry_path self i else Ret None);
      match path with
      | Some path => Ret (Some path)
      | None => linear_lookup n self lib_name (i + 1)
      end
  end.

End code.

(** ** Invariant of a cache built by [new] *)

Record wf (c : LdCache) : Prop := {
  wf_bytes : Forall is_byte (data c);
  wf_alloc : zlen (data c) ≤ isize_max;
  wf_nlibs : 0 ≤ nlibs c < 2 ^ 32;
  wf_header : 0 ≤ header_offset c;
  wf_table : string_table_offset c = header_offset c + HEADER_SIZE + nlibs c * ENTRY_SIZE;
  wf_fits : string_table_offset c ≤ zlen (data c) }.

Ltac wf_lia :=
  match goal with
  | H : wf ?c |- _ =>
      pose proof (wf_alloc c H); pose proof (wf_nlibs c H); pose proof (wf_header c H);
      pose proof (wf_table c H); pose proof (wf_fits c H);
      unfold HEADER_SIZE, ENTRY_SIZE, isize_max in *; lia
  end.
Ltac u_wf := u_small_with ltac:(idtac; wf_lia).

Section lemmas.
Context `{Build}.

Lemma read_u32_le_Ret l a :
  Forall is_byte l → 0 ≤ a → a + 4 ≤ zlen l → zlen l ≤ isize_max →
  ∃ v, read_u32_le l a = Ret v ∧ 0 ≤ v < 2 ^ 32.
Proof.
  unfold read_u32_le, isize_max. intros Hl Ha Hfit Hmax. u_small.
  rewrite slice_Ret by lia. rewrite bind_Ret. eexists; split; [done|].
  set (l' := take _ _).
  assert (zlen l' = 4) as Hl'.
  { unfold l', zlen in *. rewrite length_take, length_drop. lia. }
  pose proof (le_decode_bound l' ltac:(by apply Forall_take_drop)) as Hb.
  by rewrite Hl' in Hb.
Qed.

Lemma extract_str_Ret t o : 0 ≤ o → ∃ r, extract_str t o = Ret r.
Proof.
  intros Ho. unfold extract_str. destruct (Z.leb_spec (zlen t) o); [eauto|].
  rewrite slice_from_Ret by lia. rewrite bind_Ret. eauto.
Qed.

Lemma entry_offset_Ret c idx :
  wf c → 0 ≤ idx ≤ nlibs c →
  entry_offset c idx = Ret (header_offset c + HEADER_SIZE + idx * ENTRY_SIZE).
Proof.
  intros Hwf Hidx. unfold entry_offset.
  by u_wf.
Qed.

Ltac tables Hwf :=
  rewrite !slice_from_Ret by wf_lia; rewrite !bind_Ret.

Ltac solve_extract :=
  repeat first
    [ rewrite bind_Ret
    | match goal with
      | |- context [extract_str ?t ?o] =>
          let r := fresh "r" in let Hr := fresh "Hr" in
          destruct (extract_str_Ret t o ltac:(lia)) as [r Hr]; rewrite Hr
      end
    | case_match | solve [eauto] ].

Lemma get_name_Ret c idx : wf c → 0 ≤ idx ≤ nlibs c → ∃ r, get_name c idx = Ret r.
Proof.
  intros Hwf Hidx. unfold get_name.
  rewrite entry_offset_Ret by done. u_wf.
  destruct (Z.ltb_spec (zlen (data c)) (header_offset c + HEADER_SIZE + idx * ENTRY_SIZE + 8));
    [eauto|].
  destruct (read_u32_le_Ret (data c) (header_offset c + HEADER_SIZE + idx * ENTRY_SIZE + 4))
    as (k & Hk & ?); [apply Hwf|wf_lia..|].
  rewrite Hk. tables Hwf. solve_extract.
Qed.

Lemma get_path_Ret c idx : wf c → 0 ≤ idx ≤ nlibs c → ∃ r, get_path c idx = Ret r.
Proof.
  intros Hwf Hidx. unfold get_path.
  rewrite entry_offset_Ret by done. u_wf.
  destruct (Z.ltb_spec (zlen (data c)) (header_offset c + HEADER_SIZE + idx * ENTRY_SIZE + 12));
    [eauto|].
  destruct (read_u32_le_Ret (data c) (header_offset c + HEADER_SIZE + idx * ENTRY_SIZE + 8))
    as (k & Hk & ?); [apply Hwf|wf_lia..|].
  rewrite Hk. tables Hwf. solve_extract.
Qed.

Lemma check_flags_Ret c idx : wf c → 0 ≤ idx ≤ nlibs c → ∃ b, check_flags c idx = Ret b.
Proof.
  intros Hwf Hidx. unfold check_flags.
  rewrite entry_offset_Ret by done. u_wf.
  destruct (Z.ltb_spec (zlen (data c)) (header_offset c + HEADER_SIZE + idx * ENTRY_SIZE + 4));
    [eauto|].
  destruct (read_u32_le_Ret (data c) (header_offset c + HEADER_SIZE + idx * ENTRY_SIZE))
    as (k & Hk & ?); [apply Hwf|wf_lia..|].
  rewrite Hk, bind_Ret. eauto.
Qed.

Lemma entry_path_Ret c idx : wf c → 0 ≤ idx ≤ nlibs c → ∃ r, entry_path c idx = Ret r.
Proof.
  intros Hwf Hidx. unfold entry_path.
  destruct (check_flags_Ret c idx Hwf Hidx) as [[] ->]; rewrite bind_Ret; [|eauto].
  by apply get_path_Ret.
Qed.

End lemmas.

(** ** The loops of [lookup] *)
Section search.
Context `{Build} (c : LdCache) (Hwf : wf c).

(** The name of an entry, as the total reading of [get_name]. *)
Definition name_at (i : Z) : option (list Z) :=
  match get_name c i with Ret n => n | _ => None end.

Lemma get_name_at i : 0 ≤ i ≤ nlibs c → get_name c i = Ret (name_at i).
Proof.
  intros Hi. unfold name_at. by destruct (get_name_Ret c i Hwf Hi) as [r ->].
Qed.

Lemma block_start_Ret fuel name mid :
  (Z.to_nat mid < fuel)%nat → 0 ≤ mid < nlibs c →
  ∃ s, block_start fuel c name mid = Ret s ∧ 0 ≤ s ≤ mid
    ∧ (∀ j, s ≤ j < mid → name_at j = Some name)
    ∧ (s = 0 ∨ name_at (s - 1) ≠ Some name).
Proof.
  revert mid. induction fuel as [|fuel IH]; intros mid Hf Hmid; [lia|]. simpl.
  destruct (Z.ltb_spec 0 mid) as [Hpos|]; cycle 1.
  { exists mid. repeat split; try lia. }
  u_wf. rewrite get_name_at, bind_Ret by lia. case_bool_decide as Hn.
  - destruct (IH (mid - 1)) as (s & -> & Hs & Hin & Hlim); [lia..|].
    exists s. repeat split; try lia; [|done]. intros j Hj.
    destruct (decide (j = mid - 1)) as [->|]; [done|]. apply Hin. lia.
  - exists mid. repeat split; try lia. by right.
Qed.

Lemma linear_lookup_S n lib i :
  0 ≤ i < nlibs c →
  linear_lookup (S n) c lib i =
    path ← (if bool_decide (name_at i = Some lib) then entry_path c i else Ret None);
    match path with Some p => Ret (Some p) | None => linear_lookup n c lib (i + 1) end.
Proof. intros Hi. simpl. by rewrite get_name_at, bind_Ret by lia. Qed.

(** Entries with other names do not matter to the reference. *)
Lemma linear_lookup_skip k n lib i :
  (k ≤ n)%nat → 0 ≤ i → i + Z.of_nat n ≤ nlibs c →
  (∀ j, i ≤ j < i + Z.of_nat k → name_at j ≠ Some lib) →
  linear_lookup n c lib i = linear_lookup (n - k) c lib (i + Z.of_nat k).
Proof.
  revert n i. induction k as [|k IH]; intros n i Hk Hi Hn Hne.
  { by rewrite Nat.sub_0_r, Z.add_0_r. }
  destruct n as [|n]; [lia|]. rewrite linear_lookup_S by lia.
  rewrite bool_decide_false by (apply Hne; lia). rewrite bind_Ret.
  rewrite IH by (try lia; intros j Hj; apply Hne; lia).
  f_equal; lia.
Qed.

Lemma linear_lookup_none n lib i :
  0 ≤ i → i + Z.of_nat n ≤ nlibs c →
  (∀ j, i ≤ j < i + Z.of_nat n → name_at j ≠ Some lib) →
  linear_lookup n c lib i = Ret None.
Proof.
  intros Hi Hn Hne. rewrite (linear_lookup_skip n) by (done || lia).
  by rewrite Nat.sub_diag.
Qed.

(** What [scan_block] returns comes from an entry that matches. *)
Lemma scan_block_Ret fuel name i :
  (Z.to_nat (nlibs c - i) < fuel)%nat → 0 ≤ i ≤ nlibs c →
  ∃ r, scan_block fuel c name i = Ret r
    ∧ (∀ p, r = Some p → ∃ j, i ≤ j < nlibs c ∧ name_at j = Some name
          ∧ check_flags c j = Ret true ∧ get_path c j = Ret (Some p))
    ∧ ((∀ a b, i ≤ a ≤ b → b < nlibs c → name_at a ≠ Some name → name_at b ≠ Some name) →
       linear_lookup (Z.to_nat (nlibs c - i)) c name i = Ret r).
Proof.
  revert i. induction fuel as [|fuel IH]; intros i Hf Hi; [lia|]. simpl.
  destruct (Z.ltb_spec i (nlibs c)) as [Hlt|]; cycle 1.
  { exists None. split_and!; [done..|].
    by replace (Z.to_nat (nlibs c - i)) with O by lia. }
  rewrite get_name_at, bind_Ret by lia. case_bool_decide as Hn; cycle 1.
  { exists None. split_and!; [done..|]. intros Hblock.
    apply linear_lookup_none; [lia..|]. intros j Hj. apply (Hblock i j); [lia..|done]. }
  replace (Z.to_nat (nlibs c - i)) with (S (Z.to_nat (nlibs c - (i + 1)))) by lia.
  rewrite linear_lookup_S, bool_decide_true by (done || lia).
  destruct (entry_path_Ret c i Hwf ltac:(lia)) as [q Hq]. rewrite Hq.
  unfold entry_path in Hq.
  destruct (check_flags_Ret c i Hwf ltac:(lia)) as [ok Hok]. rewrite Hok in *.
  rewrite !bind_Ret in *. rewrite Hq, bind_Ret. destruct q as [p|].
  - exists (Some p). split_and!; [done| |done]. intros ? [= <-].
    exists i. destruct ok; [|done]. split_and!; done || lia.
  - u_wf. destruct (IH (i + 1)) as (r & -> & Hsound & Hlin); [lia..|].
    exists r. split_and!; [done| |].
    + intros p Hp. destruct (Hsound p Hp) as (j & ? & ?). exists j. split; [lia|done].
    + intros Hblock. apply Hlin. intros a b ? ?. apply Hblock; lia.
Qed.

Lemma search_Ret fuel lib desc left right :
  (Z.to_nat (right - left) < fuel)%nat → 0 ≤ left → right ≤ nlibs c →
  ∃ r, search fuel c lib desc left right = Ret r
    ∧ (∀ p, r = Some p → ∃ j, 0 ≤ j < nlibs c ∧ name_at j = Some lib
          ∧ check_flags c j = Ret true ∧ get_path c j = Ret (Some p)).
Proof.
  revert left right. induction fuel as [|fuel IH]; intros left right Hf Hl Hr; [lia|].
  cbn [search]. destruct (Z.ltb_spec left right) as [Hlt|]; [|by exists None].
  assert (0 ≤ (right - left) / 2 < right - left).
  { split; [apply Z.div_pos; lia|apply Z.div_lt; lia]. }
  u_wf. rewrite get_name_at, bind_Ret by lia.
  set (mid := left + (right - left) / 2) in *.
  destruct (name_at mid) as [name|] eqn:Hname; [|by exists None].
  destruct (if desc then str_cmp name lib else str_cmp lib name) eqn:Hcmp.
  - assert (name = lib) as ->.
    { destruct desc; apply str_cmp_eq in Hcmp; congruence. }
    destruct (block_start_Ret (S (Z.to_nat mid)) lib mid) as (s & -> & Hs & _); [lia..|].
    rewrite bind_Ret.
    destruct (scan_block_Ret (S (Z.to_nat (nlibs c - s))) lib s) as (r & -> & Hsound & _);
      [lia..|].
    exists r. split; [done|]. intros p Hp. destruct (Hsound p Hp) as (j & ? & ?).
    exists j. split; [lia|done].
  - apply IH; lia.
  - u_wf. apply IH; lia.
Qed.

(** The names are readable and ordered by [ord] (ascending or descending). *)
Definition sorted_names (desc : bool) : Prop :=
  (∀ i, 0 ≤ i < nlibs c → is_Some (name_at i))
  ∧ ∀ i j a b, 0 ≤ i ≤ j → j < nlibs c → name_at i = Some a → name_at j = Some b →
      (if desc then str_cmp b a else str_cmp a b) ≠ Gt.

Lemma sorted_lt_right desc lib i j a :
  sorted_names desc → 0 ≤ i ≤ j → j < nlibs c → name_at i = Some a →
  (if desc then str_cmp a lib else str_cmp lib a) = Lt → name_at j ≠ Some lib.
Proof.
  intros [_ Hs] Hij Hj Ha Hlt Hb. specialize (Hs i j a lib Hij Hj Ha Hb).
  destruct desc; rewrite str_cmp_antisym, Hlt in Hs; done.
Qed.

Lemma sorted_gt_left desc lib i j a :
  sorted_names desc → 0 ≤ j ≤ i → i < nlibs c → name_at i = Some a →
  (if desc then str_cmp a lib else str_cmp lib a) = Gt → name_at j ≠ Some lib.
Proof.
  intros [_ Hs] Hij Hi Ha Hgt Hb. specialize (Hs j i lib a Hij Hi Hb Ha).
  by destruct desc; rewrite Hgt in Hs.
Qed.

(** Equal names form one block. *)
Lemma sorted_block desc lib i a b :
  sorted_names desc → 0 ≤ i → name_at i = Some lib → i ≤ a ≤ b → b < nlibs c →
  name_at a ≠ Some lib → name_at b ≠ Some lib.
Proof.
  intros Hsort Hi Hn Hab Hb Hna Hnb. destruct Hsort as [Hsome Hs].
  destruct (Hsome a) as [x Hx]; [lia|].
  pose proof (Hs i a lib x ltac:(lia) ltac:(lia) Hn Hx) as H1.
  pose proof (Hs a b x lib ltac:(lia) ltac:(lia) Hx Hnb) as H2.
  assert (x = lib) as ->; [|done].
  rewrite (str_cmp_antisym x lib) in *.
  destruct desc; destruct (str_cmp x lib) eqn:E; try done; by apply str_cmp_eq.
Qed.

(** When the first and the last name are equal all of them are, and either
    order holds. *)
Lemma sorted_constant desc desc' first :
  sorted_names desc → name_at 0 = Some first → name_at (nlibs c - 1) = Some first →
  sorted_names desc'.
Proof.
  intros Hsort Hfirst Hlast.
  assert (∀ k x, 0 ≤ k < nlibs c → name_at k = Some x → x = first) as Hall.
  { intros k x Hk Hx. destruct Hsort as [_ Hs].
    pose proof (Hs 0 k first x ltac:(lia) ltac:(lia) Hfirst Hx) as H1.
    pose proof (Hs k (nlibs c - 1) x first ltac:(lia) ltac:(lia) Hx Hlast) as H2.
    rewrite (str_cmp_antisym x first) in *.
    destruct desc; destruct (str_cmp x first) eqn:E; try done; by apply str_cmp_eq. }
  split; [apply Hsort|]. intros i j a b Hij Hj Ha Hb.
  rewrite (Hall i a), (Hall j b), str_cmp_refl by (done || lia). by destruct desc'.
Qed.

(** The binary search agrees with the linear reference on sorted names. *)
Lemma search_linear fuel lib desc left right :
  (Z.to_nat (right - left) < fuel)%nat → 0 ≤ left → left ≤ right → right ≤ nlibs c →
  sorted_names desc →
  (∀ j, 0 ≤ j < left → name_at j ≠ Some lib) →
  (∀ j, right ≤ j < nlibs c → name_at j ≠ Some lib) →
  search fuel c lib desc left right = linear_lookup (Z.to_nat (nlibs c)) c lib 0.
Proof.
  revert left right. induction fuel as [|fuel IH];
    intros left right Hf Hl Hlr Hr Hsort Hleft Hright; [lia|].
  cbn [search]. destruct (Z.ltb_spec left right) as [Hlt|]; cycle 1.
  { symmetry. apply linear_lookup_none; [lia..|]. intros j Hj.
    destruct (decide (j < left)); [apply Hleft|apply Hright]; lia. }
  assert (0 ≤ (right - left) / 2 < right - left).
  { split; [apply Z.div_pos; lia|apply Z.div_lt; lia]. }
  u_wf. rewrite get_name_at, bind_Ret by lia.
  set (mid := left + (right - left) / 2) in *.
  destruct (proj1 Hsort mid) as [name Hname]; [lia|]. rewrite Hname.
  destruct (if desc then str_cmp name lib else str_cmp lib name) eqn:Hcmp.
  - assert (name = lib) as ->.
    { destruct desc; apply str_cmp_eq in Hcmp; congruence. }
    destruct (block_start_Ret (S (Z.to_nat mid)) lib mid) as (s & -> & Hs & Hin & Hlim);
      [lia..|]. rewrite bind_Ret.
    destruct (scan_block_Ret (S (Z.to_nat (nlibs c - s))) lib s) as (r & -> & _ & Hlin);
      [lia..|].
    assert (name_at s = Some lib) as Hns.
    { destruct (decide (s = mid)) as [->|]; [done|]. apply Hin. lia. }
    rewrite (linear_lookup_skip (Z.to_nat s)); [|lia..|].
    + rewrite <-Hlin; [f_equal; lia|]. intros a b Hab Hb.
      apply (sorted_block desc lib s a b); done || lia.
    + intros j Hj Hnj. destruct Hlim as [->|Hlim]; [lia|].
      apply (sorted_block desc lib j (s - 1) s) in Hnj; try done; lia.
  - apply IH; try done; try lia. intros j Hj.
    destruct (decide (j < right)); [|apply Hright; lia].
    eapply sorted_lt_right; try done; lia.
  - u_wf. apply IH; try done; try lia. intros j Hj.
    destruct (decide (j < left)); [apply Hleft; lia|].
    eapply sorted_gt_left; try done; lia.
Qed.

End search.

(** ** The header *)
Lemma find_window_Some pat l i o :
  find_window pat l i = Some o →
  i ≤ o ∧ starts_with pat (drop (Z.to_nat (o - i)) l) = true
  ∧ o - i ≤ zlen l
  ∧ ∀ j, i ≤ j < o → starts_with pat (drop (Z.to_nat (j - i)) l) = false.
Proof.
  revert i. induction l as [|x l IH]; intros i; cbn [find_window];
    destruct (starts_with pat _) eqn:E; intros Hf; try done.
  1,2: injection Hf as <-; rewrite Z.sub_diag; split_and!; [done..| |lia];
    pose proof (@zlen_nonneg Z); by eauto.
  destruct (IH _ Hf) as (Hle & Hpat & Hlen & Hmin).
  rewrite zlen_cons. split_and!; [lia| |lia|].
  - by replace (Z.to_nat (o - i)) with (S (Z.to_nat (o - (i + 1)))) by lia.
  - intros j Hj. destruct (decide (j = i)) as [->|]; [by rewrite Z.sub_diag|].
    replace (Z.to_nat (j - i)) with (S (Z.to_nat (j - (i + 1)))) by lia.
    apply Hmin. lia.
Qed.

Lemma find_window_None pat l i :
  find_window pat l i = None →
  ∀ j, i ≤ j ≤ i + zlen l → starts_with pat (drop (Z.to_nat (j - i)) l) = false.
Proof.
  revert i. induction l as [|x l IH]; intros i; cbn [find_window];
    destruct (starts_with pat _) eqn:E; try done; intros Hf j Hj.
  - assert (j = i) as -> by (unfold zlen in Hj; simpl in Hj; lia). by rewrite Z.sub_diag.
  - rewrite zlen_cons in Hj.
    destruct (decide (j = i)) as [->|]; [by rewrite Z.sub_diag|].
    replace (Z.to_nat (j - i)) with (S (Z.to_nat (j - (i + 1)))) by lia.
    apply IH; [done|lia].
Qed.

(** The magic string stands at offset [o] of the buffer. *)
Definition magic_at (buf : list Z) (o : Z) : Prop :=
  starts_with MAGIC_NEW (drop (Z.to_nat o) buf) = true.

Definition header_nlibs (buf : list Z) (o : Z) : Z :=
  le_decode (take 4 (drop 20 (drop (Z.to_nat o) buf))).

Lemma header_nlibs_bound buf o :
  Forall is_byte buf → 0 ≤ o → o + 48 ≤ zlen buf → 0 ≤ header_nlibs buf o < 2 ^ 32.
Proof.
  intros Hb Ho Hlen. unfold header_nlibs. set (l' := take _ _).
  assert (zlen l' = 4) as Hl'.
  { unfold l', zlen in *. rewrite length_take, !length_drop. lia. }
  pose proof (le_decode_bound l'
    ltac:(by repeat first [apply Forall_take|apply Forall_drop])) as Hd.
  by rewrite Hl' in Hd.
Qed.

(** What the position found by [find_window] says about the magic string. *)
Lemma find_window_magic buf o :
  find_window MAGIC_NEW buf 0 = Some o →
  0 ≤ o ≤ zlen buf ∧ magic_at buf o ∧ ∀ o', 0 ≤ o' < o → ¬ magic_at buf o'.
Proof.
  intros (H0 & Hm & Hlen & Hmin)%find_window_Some. rewrite Z.sub_0_r in *.
  split_and!; [done..|]. intros o' Ho' Hm'. unfold magic_at in Hm'.
  rewrite <-(Z.sub_0_r o') in Hm'. by rewrite Hmin in Hm' by lia.
Qed.

End LdCache.

(** ** Properties *)
Module LdCacheProps.
Import LdCache.

(** C18. [LdCache::new] never panics on a file that fits an allocation, whatever the
    bytes and whatever the overflow setting.  A cache it accepts satisfies the
    invariant, starts at the first magic string of the file and has the entry
    count of the header; it refuses a file exactly when there is no magic
    string, when fewer than 48 bytes follow the first one, or when the entries
    do not fit the file. *)
Theorem new_correct `{Build} {LoaderErr} (buf : list Z)
    (Hb : Forall is_byte buf) (Hmax : zlen buf ≤ isize_max) :
  ∃ r : result (Error LoaderErr) LdCache, new (Ok buf) = Ret r
    ∧ match r with
      | Ok c =>
          wf c ∧ data c = buf ∧ magic_at buf (header_offset c)
          ∧ (∀ o, 0 ≤ o < header_offset c → ¬ magic_at buf o)
          ∧ nlibs c = header_nlibs buf (header_offset c)
      | Err e =>
          (∀ o, 0 ≤ o ≤ zlen buf → ¬ magic_at buf o)
          ∨ ∃ o, 0 ≤ o ∧ magic_at buf o ∧ (∀ o', 0 ≤ o' < o → ¬ magic_at buf o')
              ∧ (zlen buf - o < HEADER_SIZE
                 ∨ zlen buf < o + HEADER_SIZE + header_nlibs buf o * ENTRY_SIZE)
      end.
Proof.
  unfold new. destruct (find_window MAGIC_NEW buf 0) as [o|] eqn:Hfw; cycle 1.
  { eexists; split; [done|]. left. intros o Ho Hm. unfold magic_at in Hm.
    rewrite <-(Z.sub_0_r o) in Hm.
    by rewrite (find_window_None _ _ _ Hfw) in Hm by lia. }
  apply find_window_magic in Hfw as (Ho & Hm & Hmin).
  rewrite slice_from_Ret, bind_Ret, zlen_drop by lia. unfold HEADER_SIZE, isize_max in *.
  destruct (Z.ltb_spec (zlen buf - o) 48) as [Hsmall|Hbig].
  { eexists; split; [done|]. right. exists o. split_and!; [lia|done..|by left]. }
  unfold read_u32_le. u_small.
  rewrite slice_Ret by (rewrite ?zlen_drop; lia). rewrite !bind_Ret.
  change (le_decode _) with (header_nlibs buf o).
  pose proof (header_nlibs_bound buf o Hb ltac:(lia) ltac:(lia)) as Hn.
  unfold ENTRY_SIZE. u_small.
  destruct (Z.ltb_spec (zlen buf) (o + 48 + header_nlibs buf o * 24)); eexists; (split; [done|]).
  - right. exists o. split_and!; [lia|done..|by right].
  - split_and!; try done. split; simpl; unfold HEADER_SIZE, ENTRY_SIZE, isize_max; try done; lia.
Qed.

(** On a well-formed cache [lookup] terminates without a panic for every name:
    the binary search, the backward and the forward scan stay in range, in a
    build with overflow checks and in one without. *)
Theorem lookup_total `{Build} (c : LdCache) (lib_name : list Z) (Hwf : wf c) :
  ∃ r, lookup c lib_name = Ret r.
Proof.
  unfold lookup. destruct (Z.eqb_spec (nlibs c) 0); [eauto|].
  rewrite (get_name_at c Hwf), bind_Ret by wf_lia. destruct (name_at c 0); [|eauto].
  rewrite usub_small, bind_Ret by wf_lia.
  rewrite (get_name_at c Hwf), bind_Ret by wf_lia. destruct (name_at c (nlibs c - 1)); [|eauto].
  edestruct (search_Ret c Hwf (S (Z.to_nat (nlibs c))) lib_name) as (r & -> & _); [lia..|].
  eauto.
Qed.

(** A path returned by [lookup] is the path of an entry of the cache whose name
    is the requested one and whose flags say libc6 and this architecture; no
    assumption on the order of the entries. *)
Theorem lookup_sound `{Build} (c : LdCache) (lib_name path : list Z) (Hwf : wf c)
    (Hfound : lookup c lib_name = Ret (Some path)) :
  ∃ i, 0 ≤ i < nlibs c ∧ get_name c i = Ret (Some lib_name)
    ∧ check_flags c i = Ret true ∧ get_path c i = Ret (Some path).
Proof.
  unfold lookup in Hfound. destruct (Z.eqb_spec (nlibs c) 0); [done|].
  rewrite (get_name_at c Hwf), bind_Ret in Hfound by wf_lia. destruct (name_at c 0); [|done].
  rewrite usub_small, bind_Ret in Hfound by wf_lia.
  rewrite (get_name_at c Hwf), bind_Ret in Hfound by wf_lia.
  destruct (name_at c (nlibs c - 1)); [|done]. revert Hfound.
  edestruct (search_Ret c Hwf (S (Z.to_nat (nlibs c))) lib_name) as (r & -> & Hs); [lia..|].
  intros [= ->]. destruct (Hs _ eq_refl) as (i & Hi & Hn & ?).
  exists i. by rewrite (get_name_at c Hwf), Hn by lia.
Qed.

(** C14. The optimised lookup is the linear one: when the names are readable and in
    byte order, ascending or descending, [lookup] returns the path of the first
    entry that has the name, acceptable flags and a path, and [None] when there
    is none. *)
Theorem lookup_linear `{Build} (c : LdCache) (lib_name : list Z) (desc : bool) (Hwf : wf c)
    (Hsort : sorted_names c desc) :
  lookup c lib_name = linear_lookup (Z.to_nat (nlibs c)) c lib_name 0.
Proof.
  unfold lookup. destruct (Z.eqb_spec (nlibs c) 0) as [->|Hnz]; [done|].
  assert (0 < nlibs c) by wf_lia.
  rewrite (get_name_at c Hwf), bind_Ret by lia.
  destruct (proj1 Hsort 0) as [first Hfirst]; [lia|]. rewrite Hfirst.
  rewrite usub_small, bind_Ret by wf_lia. rewrite (get_name_at c Hwf), bind_Ret by lia.
  destruct (proj1 Hsort (nlibs c - 1)) as [last Hlast]; [lia|]. rewrite Hlast.
  pose proof (proj2 Hsort 0 (nlibs c - 1) first last ltac:(lia) ltac:(lia) Hfirst Hlast) as Hfl.
  set (d := bool_decide _).
  assert (sorted_names c d) as Hsort'; [|apply search_linear; try done; lia].
  destruct (decide (d = desc)) as [->|Hne]; [done|].
  assert (first = last) as <-.
  { unfold d in Hne. destruct desc; case_bool_decide as E; try done.
    rewrite str_cmp_antisym in Hfl. destruct (str_cmp first last) eqn:Ec; try done.
    by apply str_cmp_eq. }
  by eapply sorted_constant.
Qed.

(** *** Witnesses: a cache of three entries, the first two with one name *)
Definition sample_build : Build := Build_Build true X86_64.
Definition sample_entry (flags key value : Z) : list Z :=
  le_encode 4 flags ++ le_encode 4 key ++ le_encode 4 value ++ le_encode 12 0.
Definition sample_bytes : list Z :=
  MAGIC_NEW ++ le_encode 4 3 ++ le_encode 24 0
  ++ sample_entry 3 120 139 ++ sample_entry 771 120 139 ++ sample_entry 771 128 147
  ++ bytes_of_string "libc.so" ++ [0] ++ bytes_of_string "libm.so.10" ++ [0]
  ++ bytes_of_string "/lib/c." ++ [0] ++ bytes_of_string "/lib/m" ++ [0].
Definition sample_cache : LdCache := mk sample_bytes 0 3 120.

Lemma sample_wf : wf sample_cache.
Proof.
  split; [|vm_compute; congruence| | | |].
  - apply (bool_decide_unpack _). vm_compute. done.
  - split; vm_compute; congruence.
  - vm_compute; congruence.
  - reflexivity.
  - vm_compute; congruence.
Qed.

Lemma sample_index i : 0 ≤ i < nlibs sample_cache → i = 0 ∨ i = 1 ∨ i = 2.
Proof. simpl. lia. Qed.

Lemma sample_sorted : sorted_names (H := sample_build) sample_cache false.
Proof.
  split.
  - intros i [-> | [-> | ->]]%sample_index; vm_compute; eauto.
  - intros i j a b Hij Hj Ha Hb.
    destruct (sample_index i) as [-> | [-> | ->]]; [simpl in *; lia|..];
    destruct (sample_index j) as [-> | [-> | ->]]; try (simpl in *; lia);
    vm_compute in Ha, Hb; injection Ha as <-; injection Hb as <-; by vm_compute.
Qed.

Example new_correct_witness :
  new (H := sample_build) (LoaderErr := unit) (Ok sample_bytes) = Ret (Ok sample_cache)
  ∧ ∃ r, new (H := sample_build) (LoaderErr := unit) (Ok sample_bytes) = Ret r.
Proof.
  split; [by vm_compute|].
  destruct (@new_correct sample_build unit sample_bytes) as (r & Hr & _).
  - apply sample_wf.
  - apply sample_wf.
  - exists r. exact Hr.
Defined.

Example lookup_total_witness :
  ∃ r, lookup (H := sample_build) sample_cache (bytes_of_string "libz.so") = Ret r.
Proof. apply (@lookup_total sample_build), sample_wf. Defined.

Example lookup_sound_witness :
  lookup (H := sample_build) sample_cache (bytes_of_string "libc.so")
    = Ret (Some (bytes_of_string "/lib/c."))
  ∧ ∃ i, 0 ≤ i < nlibs sample_cache
      ∧ get_name (H := sample_build) sample_cache i = Ret (Some (bytes_of_string "libc.so")).
Proof.
  split; [by vm_compute|].
  destruct (@lookup_sound sample_build sample_cache (bytes_of_string "libc.so")
    (bytes_of_string "/lib/c.") sample_wf) as (i & Hi & Hn & _); [by vm_compute|].
  exists i. split; [exact Hi|exact Hn].
Defined.

Example lookup_linear_witness :
  lookup (H := sample_build) sample_cache (bytes_of_string "libm.so.10")
    = linear_lookup (H := sample_build) 3 sample_cache (bytes_of_string "libm.so.10") 0
  ∧ lookup (H := sample_build) sample_cache (bytes_of_string "libm.so.10")
    = Ret (Some (bytes_of_string "/lib/m")).
Proof.
  split; [|by vm_compute].
  exact (@lookup_linear sample_build sample_cache (bytes_of_string "libm.so.10") false
    sample_wf sample_sorted).
Defined.

(** glibc marks libraries of the double-float ABI of RISC-V, which
    distributions use, with 0x1000; this entry does not pass the check of that
    target, while those of x86-64 and AArch64, 0x0300 and 0x0a00, pass theirs. *)
Example riscv_double_rejected :
  flags_ok (H := Build_Build true Riscv64) 0x1003 = false
  ∧ flags_ok (H := Build_Build true Aarch64) 0x0a03 = true
  ∧ flags_ok (H := Build_Build true X86_64) 0x0303 = true.
Proof. by vm_compute. Qed.
End LdCacheProps.
