(* ===== verification/LoaderLock.v ===== *)
(** * The loader lock (src/registry/loader_lock.rs)

    Two implementations of a re-entrant lock: [StdLock] (std builds: a mutex
    that protects an owner and a depth, and a condition variable) and
    [FutexLock] (no_std builds: an atomic owner word, an atomic depth and a
    futex).  Both are transition systems over all threads.  [ReentrantLock] is
    the interface: what the registry needs from either.  [Registry] is the
    client: a [RefCell] behind the lock.

    A critical section of [Mutex] is one step, and so is an atomic access;
    interleaving is sequentially consistent. *)

From stdpp Require Import functions relations.
From S2P Require Import Prelude.

(** ** Abstract lock: a thread and how many guards it holds *)
Definition lock_spec : Type := option (Z * nat).

Inductive spec_step : lock_spec → lock_spec → Prop :=
  | spec_acquire t : spec_step None (Some (t, 1%nat))
  | spec_reacquire t n : spec_step (Some (t, S n)) (Some (t, S (S n)))
  | spec_release_inner t n : spec_step (Some (t, S (S n))) (Some (t, S n))
  | spec_release t : spec_step (Some (t, 1%nat)) None.

(** The interface: states, steps, the number of guards a thread holds, and the
    abstraction; every reachable step is invisible or a step of the
    specification, and only the owner holds guards. *)
Class ReentrantLock (L : Type) := {
  rl_init : L;
  rl_step : L → L → Prop;
  rl_guards : L → Z → nat;
  rl_abs : L → lock_spec;
  rl_init_abs : rl_abs rl_init = None;
  rl_simulation s s' :
    rtc rl_step rl_init s → rl_step s s' →
    rl_abs s' = rl_abs s ∨ spec_step (rl_abs s) (rl_abs s');
  rl_owner s t :
    rtc rl_step rl_init s → rl_guards s t ≠ O → ∃ n, rl_abs s = Some (t, n) }.

(** Invariants of reachable states, by induction on the steps. *)
Lemma reachable_ind {S} (step : S → S → Prop) (P : S → Prop) s0 :
  P s0 → (∀ s s', P s → step s s' → P s') → ∀ s, rtc step s0 s → P s.
Proof.
  intros H0 Hs s Hr. revert H0. induction Hr; eauto.
Qed.

(** ** std builds *)
Module StdLock.

(** [LockState] *)
Record LockState := mkLock { owner : option Z; depth : Z }.

(** Where a thread is with respect to the lock. *)
Inductive phase :=
  | Running             (* outside [lock] and [unlock] *)
  | Locking             (* in [lock], about to take the mutex *)
  | Waiting             (* in [lock], parked on the condition variable *)
  | Panicked.           (* [expect] failed *)

Record state := mk {
  lk : LockState;
  ph : Z → phase;
  guards : Z → nat }.

Definition init : state := mk (mkLock None 0) (λ _, Running) (λ _, O).

Definition set_ph (s : state) (t : Z) (p : phase) : state :=
  mk (lk s) (<[t := p]> (ph s)) (guards s).

(** The loop condition: [state.owner.as_ref().is_some_and(|owner| *owner != current)]. *)
Definition held_by_other (l : LockState) (current : Z) : bool :=
  match owner l with Some o => negb (o =? current) | None => false end.

(** The end of [lock]: set the owner and count the guard. *)
Definition take_lock (s : state) (current : Z) : option state :=
  d ← checked_add (depth (lk s)) 1;
  Some (mk (mkLock (Some current) d) (<[current := Running]> (ph s))
          (<[current := S (guards s current)]> (guards s))).

(** [unlock]: the new lock state and whether a waiter is notified. *)
Definition unlock_state (l : LockState) : option (LockState * bool) :=
  if decide (1 ≤ depth l) then
    if depth l - 1 =? 0 then Some (mkLock None 0, true)
    else Some (mkLock (owner l) (depth l - 1), false)
  else None.

Definition drop_guard (s : state) (t : Z) (l : LockState) : state :=
  mk l (ph s) (<[t := pred (guards s t)]> (guards s)).

Inductive step : state → state → Prop :=
  (* a call of [lock] *)
  | step_call s t : ph s t = Running → step s (set_ph s t Locking)
  (* the mutex is taken and the loop condition holds: wait *)
  | step_wait s t :
      ph s t = Locking → held_by_other (lk s) t = true → step s (set_ph s t Waiting)
  (* the loop condition fails: the lock is taken *)
  | step_take s t s' :
      ph s t = Locking → held_by_other (lk s) t = false → take_lock s t = Some s' → step s s'
  | step_take_panic s t :
      ph s t = Locking → held_by_other (lk s) t = false → take_lock s t = None →
      step s (mk (mkLock (Some t) (depth (lk s))) (<[t := Panicked]> (ph s)) (guards s))
  (* a spurious wake-up of the condition variable *)
  | step_spurious s t : ph s t = Waiting → step s (set_ph s t Locking)
  (* dropping a guard; [notify_one] wakes one waiter when there is one *)
  | step_unlock s t l :
      ph s t = Running → guards s t ≠ O → unlock_state (lk s) = Some (l, false) →
      step s (drop_guard s t l)
  | step_unlock_notify s t l u :
      ph s t = Running → guards s t ≠ O → unlock_state (lk s) = Some (l, true) →
      ph s u = Waiting → step s (set_ph (drop_guard s t l) u Locking)
  | step_unlock_nobody s t l :
      ph s t = Running → guards s t ≠ O → unlock_state (lk s) = Some (l, true) →
      (∀ u, ph s u ≠ Waiting) → step s (drop_guard s t l).

(** Only the owner holds guards, and [depth] counts them. *)
Record inv (s : state) : Prop := {
  inv_free : owner (lk s) = None → depth (lk s) = 0 ∧ ∀ t, guards s t = O;
  inv_owned o : owner (lk s) = Some o →
    depth (lk s) = Z.of_nat (guards s o) ∧ ∀ t, t ≠ o → guards s t = O;
  inv_owned_pos o : owner (lk s) = Some o → guards s o ≠ O;
  inv_awake : owner (lk s) = None → ∀ t, ph s t = Waiting → ∃ u, ph s u = Locking }.

(** The abstraction. *)
Definition abs (s : state) : lock_spec :=
  match owner (lk s) with Some o => Some (o, guards s o) | None => None end.

Lemma held_by_other_false l t :
  held_by_other l t = false → owner l = None ∨ owner l = Some t.
Proof.
  unfold held_by_other. destruct (owner l) as [o|]; [|by left].
  intros H. right. f_equal. apply negb_false_iff, Z.eqb_eq in H. done.
Qed.

Lemma held_by_other_true l t : held_by_other l t = true → owner l ≠ None.
Proof. unfold held_by_other. by destruct (owner l). Qed.

Lemma inv_init : inv init.
Proof. by split. Qed.

Lemma take_lock_Some s t s' :
  take_lock s t = Some s' →
  s' = mk (mkLock (Some t) (depth (lk s) + 1)) (<[t := Running]> (ph s))
         (<[t := S (guards s t)]> (guards s)).
Proof.
  unfold take_lock. destruct (checked_add _ _) as [d|] eqn:E; [|done].
  apply checked_add_Some in E as [-> _]. by intros [= <-].
Qed.

(** A thread can only overflow the depth with 2^64 live guards. *)
Lemma take_lock_None s t : take_lock s t = None → usize_max ≤ depth (lk s).
Proof.
  unfold take_lock. destruct (checked_add _ _) as [d|] eqn:E; [done|].
  apply checked_add_None in E. intros _. unfold usize_max. lia.
Qed.

Ltac upd := repeat (rewrite ?fn_lookup_insert; rewrite ?fn_lookup_insert_ne by done).

(** Updates of one thread's phase do not touch the owner part. *)
Lemma inv_set_ph s t p :
  inv s → (p = Locking ∨ owner (lk s) ≠ None) → inv (set_ph s t p).
Proof.
  intros [Hf Ho Hp Ha] Hcond. split; simpl; try done.
  intros Hnone u Hu. destruct Hcond as [->|Hne]; [|done].
  exists t. by rewrite fn_lookup_insert.
Qed.

Lemma unlock_state_inner s t l :
  inv s → guards s t ≠ O → unlock_state (lk s) = Some (l, false) →
  owner (lk s) = Some t ∧ (2 ≤ guards s t)%nat
  ∧ l = mkLock (Some t) (Z.of_nat (pred (guards s t))).
Proof.
  intros [Hf Ho Hp Ha] Hg Hu. destruct (owner (lk s)) as [o|] eqn:Eo; cycle 1.
  { by destruct (Hf eq_refl) as [_ Hz]; rewrite Hz in Hg. }
  destruct (Ho o eq_refl) as [Hd Hz].
  destruct (decide (t = o)) as [->|Hne]; [|by rewrite Hz in Hg].
  unfold unlock_state in Hu. case_decide; [|done].
  destruct (Z.eqb_spec (depth (lk s) - 1) 0); [done|]. injection Hu as <-.
  rewrite Eo. split_and!; [done|lia|]. f_equal. lia.
Qed.

Lemma unlock_state_last s t l :
  inv s → guards s t ≠ O → unlock_state (lk s) = Some (l, true) →
  owner (lk s) = Some t ∧ guards s t = 1%nat ∧ l = mkLock None 0
  ∧ ∀ u, <[t := O]> (guards s) u = O.
Proof.
  intros [Hf Ho Hp Ha] Hg Hu. destruct (owner (lk s)) as [o|] eqn:Eo; cycle 1.
  { by destruct (Hf eq_refl) as [_ Hz]; rewrite Hz in Hg. }
  destruct (Ho o eq_refl) as [Hd Hz].
  destruct (decide (t = o)) as [->|Hne]; [|by rewrite Hz in Hg].
  unfold unlock_state in Hu. case_decide; [|done].
  destruct (Z.eqb_spec (depth (lk s) - 1) 0); [|done]. injection Hu as <-.
  split_and!; [done|lia|done|]. intros u.
  destruct (decide (u = o)) as [->|]; upd; auto.
Qed.

(** [unlock] never fails: a thread that has a guard finds a positive depth. *)
Lemma unlock_state_Some s t : inv s → guards s t ≠ O → is_Some (unlock_state (lk s)).
Proof.
  intros [Hf Ho Hp Ha] Hg. unfold unlock_state.
  destruct (owner (lk s)) as [o|] eqn:Eo; cycle 1.
  { by destruct (Hf eq_refl) as [_ Hz]; rewrite Hz in Hg. }
  destruct (Ho o eq_refl) as [Hd Hz].
  destruct (decide (t = o)) as [->|Hne]; [|by rewrite Hz in Hg].
  rewrite decide_True by lia. case_match; eauto.
Qed.

Lemma inv_take s t s' :
  inv s → held_by_other (lk s) t = false → take_lock s t = Some s' → inv s'.
Proof.
  intros [Hf Ho Hp Ha] Hh ->%take_lock_Some.
  assert (depth (lk s) = Z.of_nat (guards s t) ∧ ∀ u, u ≠ t → guards s u = O) as [Hd Hz].
  { destruct (held_by_other_false _ _ Hh) as [Hn|Ht]; [|by apply Ho].
    destruct (Hf Hn) as [-> Hz]. by rewrite Hz. }
  split; simpl; try done.
  - intros o [= <-]. rewrite fn_lookup_insert. split; [lia|].
    intros u Hu. rewrite fn_lookup_insert_ne by done. auto.
  - intros o [= <-]. by rewrite fn_lookup_insert.
Qed.

Lemma inv_unlock_inner s t l :
  inv s → guards s t ≠ O → unlock_state (lk s) = Some (l, false) → inv (drop_guard s t l).
Proof.
  intros Hinv Hg Hu. destruct (unlock_state_inner s t l) as (Ho & Hge & ->); try done.
  destruct (inv_owned s Hinv t Ho) as [Hd Hz]. split; simpl; try done.
  - intros o [= <-]. rewrite fn_lookup_insert. split; [done|].
    intros u Hne. rewrite fn_lookup_insert_ne by done. auto.
  - intros o [= <-]. rewrite fn_lookup_insert. lia.
Qed.

Lemma inv_unlock_last s t l ph' :
  inv s → guards s t ≠ O → unlock_state (lk s) = Some (l, true) →
  (∀ u, ph' u = Waiting → ∃ w, ph' w = Locking) →
  inv (mk l ph' (<[t := pred (guards s t)]> (guards s))).
Proof.
  intros Hinv Hg Hu Hph. destruct (unlock_state_last s t l) as (Ho & H1 & -> & Hz); try done.
  rewrite H1. by split.
Qed.

Lemma inv_step s s' : inv s → step s s' → inv s'.
Proof.
  intros Hinv Hstep. destruct Hstep.
  - apply inv_set_ph; auto.
  - apply inv_set_ph; [done|]. right. by eapply held_by_other_true.
  - by eapply inv_take.
  - pose proof (take_lock_None s t H1) as Hd. unfold usize_max in Hd.
    destruct (held_by_other_false _ _ H0) as [Hn|Ht].
    { destruct (inv_free s Hinv Hn); lia. }
    destruct Hinv as [Hf Ho Hp Ha]. split; simpl; try done; intros o [= <-]; auto.
  - apply inv_set_ph; auto.
  - by apply inv_unlock_inner.
  - apply inv_unlock_last; try done. intros w _. exists u. by rewrite fn_lookup_insert.
  - apply inv_unlock_last; try done. intros u Hu. by destruct (H2 u).
Qed.

Lemma inv_reachable s : rtc step init s → inv s.
Proof. apply reachable_ind; [apply inv_init|apply inv_step]. Qed.

Lemma simulation s s' : inv s → step s s' → abs s' = abs s ∨ spec_step (abs s) (abs s').
Proof.
  intros Hinv Hstep. destruct Hstep; unfold abs; simpl; try by left.
  - right. apply take_lock_Some in H1 as ->. simpl. rewrite fn_lookup_insert.
    destruct (held_by_other_false _ _ H0) as [Hn|Ht].
    + rewrite Hn. destruct (inv_free s Hinv Hn) as [_ ->]. constructor.
    + rewrite Ht. pose proof (inv_owned_pos s Hinv t Ht).
      destruct (guards s t); [done|]. constructor.
  - destruct (held_by_other_false _ _ H0) as [Hn|Ht]; [|by left; rewrite Ht].
    apply take_lock_None in H1. destruct (inv_free s Hinv Hn). unfold usize_max in *. lia.
  - right. destruct (unlock_state_inner s t l) as (Ho & Hge & ->); try done.
    rewrite Ho. simpl. rewrite fn_lookup_insert.
    destruct (guards s t) as [|[|n]]; [lia..|]. constructor.
  - right. destruct (unlock_state_last s t l) as (Ho & H1' & -> & Hz); try done.
    rewrite Ho, H1'. constructor.
  - right. destruct (unlock_state_last s t l) as (Ho & H1' & -> & Hz); try done.
    rewrite Ho, H1'. constructor.
Qed.

Lemma guards_owner s t : inv s → guards s t ≠ O → ∃ n, abs s = Some (t, n).
Proof.
  intros Hinv Hg. unfold abs. destruct (owner (lk s)) as [o|] eqn:Eo; cycle 1.
  { by destruct (inv_free s Hinv Eo) as [_ Hz]; rewrite Hz in Hg. }
  destruct (decide (t = o)) as [->|Hne]; [eauto|].
  destruct (inv_owned s Hinv o Eo) as [_ Hz]. by rewrite Hz in Hg.
Qed.

#[export] Instance std_lock : ReentrantLock state.
Proof.
  refine {| rl_init := init; rl_step := step; rl_guards := guards; rl_abs := abs |}.
  - done.
  - intros s s' Hr%inv_reachable. by apply simulation.
  - intros s t Hr%inv_reachable. by apply guards_owner.
Defined.

End StdLock.

(** ** no_std builds *)
Module FutexLock.

(** The next atomic access of a thread. *)
Inductive pc :=
  | Idle                (* outside [lock] and [unlock] *)
  | LLoad               (* [owner.load] *)
  | LIncr               (* [depth.fetch_update] *)
  | LCas                (* [owner.compare_exchange(0, current)], after reading 0 *)
  | LStore              (* [depth.store(1)], after the exchange *)
  | LWait (value : Z)   (* [futex(FUTEX_WAIT_PRIVATE, value)] *)
  | Asleep              (* in the kernel's wait queue *)
  | USub                (* [depth.fetch_sub(1)] *)
  | UStore              (* [owner.store(0)] *)
  | UWake               (* [futex(FUTEX_WAKE_PRIVATE, 1)] *)
  | Panicked.

Record state := mk {
  owner : Z;
  depth : Z;
  pcs : Z → pc;
  guards : Z → nat }.

Definition init : state := mk 0 0 (λ _, Idle) (λ _, O).

Definition goto (s : state) (t : Z) (p : pc) : state :=
  mk (owner s) (depth s) (<[t := p]> (pcs s)) (guards s).

(** After [owner.load]: re-entry, an exchange, or a wait on the value read. *)
Definition after_load (current owner : Z) : pc :=
  if owner =? current then LIncr
  else if owner =? 0 then LCas
  else LWait owner.

(** After the exchange; a failed one waits on the value read before, 0. *)
Definition compare_exchange (s : state) (t : Z) : state :=
  if owner s =? 0 then mk t (depth s) (<[t := LStore]> (pcs s)) (guards s)
  else goto s t (LWait 0).

Definition add_guard (s : state) (t : Z) (d : Z) : state :=
  mk (owner s) d (<[t := Idle]> (pcs s)) (<[t := S (guards s t)]> (guards s)).

(** [fetch_sub] in [unlock]: the guard is gone; the last one goes on to
    release the owner. *)
Definition fetch_sub (s : state) (t : Z) : state :=
  mk (owner s) (wrapping_sub (depth s) 1)
    (<[t := if depth s =? 1 then UStore else Idle]> (pcs s))
    (<[t := pred (guards s t)]> (guards s)).

Inductive step : state → state → Prop :=
  | f_call s t : 0 < t → pcs s t = Idle → step s (goto s t LLoad)
  | f_load s t : pcs s t = LLoad → step s (goto s t (after_load t (owner s)))
  | f_incr s t d :
      pcs s t = LIncr → checked_add (depth s) 1 = Some d → step s (add_guard s t d)
  | f_incr_panic s t :
      pcs s t = LIncr → checked_add (depth s) 1 = None → step s (goto s t Panicked)
  | f_cas s t : pcs s t = LCas → step s (compare_exchange s t)
  | f_store s t : pcs s t = LStore → step s (add_guard s t 1)
  (* the kernel compares the word with the value before it sleeps *)
  | f_wait s t v : pcs s t = LWait v → owner s = v → step s (goto s t Asleep)
  | f_again s t v : pcs s t = LWait v → owner s ≠ v → step s (goto s t LLoad)
  | f_spurious s t : pcs s t = Asleep → step s (goto s t LLoad)
  | f_unlock s t : pcs s t = Idle → guards s t ≠ O → step s (goto s t USub)
  | f_sub s t : pcs s t = USub → step s (fetch_sub s t)
  | f_release s t :
      pcs s t = UStore → step s (mk 0 (depth s) (<[t := UWake]> (pcs s)) (guards s))
  | f_wake s t u :
      pcs s t = UWake → pcs s u = Asleep → step s (goto (goto s t Idle) u LLoad)
  | f_wake_nobody s t :
      pcs s t = UWake → (∀ u, pcs s u ≠ Asleep) → step s (goto s t Idle).

(** How many guards the specification counts for a thread that owns the lock. *)
Definition count (p : pc) (g : nat) : nat :=
  match p with LStore | UStore => 1%nat | _ => g end.
Definition owns (p : pc) (g : nat) : Prop := count p g ≠ O.
(** Which program points a thread reaches with and without guards. *)
Definition local_ok (p : pc) (g : nat) : Prop :=
  match p with
  | LIncr | USub => g ≠ O
  | LCas | LStore | LWait _ | Asleep | UStore | UWake => g = O
  | Idle | LLoad | Panicked => True
  end.
Definition settled (p : pc) : Prop :=
  match p with LStore | UStore => False | _ => True end.

Record thread_ok (o d t : Z) (p : pc) (g : nat) : Prop := {
  to_owner : o = t ∧ t ≠ 0 ↔ owns p g;
  to_depth : owns p g → settled p → d = Z.of_nat g;
  to_local : local_ok p g;
  to_zero : t ≤ 0 → p = Idle ∧ g = O }.

Definition inv (s : state) : Prop :=
  0 ≤ depth s < 2 ^ 64 ∧ ∀ t, thread_ok (owner s) (depth s) t (pcs s t) (guards s t).

Definition abs (s : state) : lock_spec :=
  if owner s =? 0 then None
  else Some (owner s, count (pcs s (owner s)) (guards s (owner s))).

(** A thread that is not the owner does not see the owner and depth words. *)
Lemma thread_ok_frame o d o' d' t p g :
  thread_ok o d t p g → o ≠ t → o' ≠ t → thread_ok o' d' t p g.
Proof.
  intros [Ho Hd Hl Hz] Hne Hne'.
  assert (¬ owns p g) by (intros [??]%Ho; done). split; naive_solver.
Qed.

Lemma futex_inv_init : inv init.
Proof.
  split; [simpl; lia|]. intros t. split; unfold owns; simpl; naive_solver.
Qed.

(** A step of one thread that keeps the words. *)
Lemma inv_goto s t p :
  inv s → t > 0 → (owns p (guards s t) ↔ owns (pcs s t) (guards s t)) →
  (settled p → settled (pcs s t)) → local_ok p (guards s t) → inv (goto s t p).
Proof.
  intros [Hr Ht] Hpos Hown Hset Hloc. split; [done|]. intros u. simpl.
  destruct (decide (u = t)) as [->|Hne];
    [|rewrite fn_lookup_insert_ne by done; apply Ht].
  rewrite fn_lookup_insert. destruct (Ht t) as [Ho Hd Hl Hz]. split.
  - by rewrite Ho.
  - intros Hp Hs. apply Hd; tauto.
  - done.
  - lia.
Qed.

(** A step of the thread that owns the lock, or gets it, or gives it up. *)
Lemma inv_owner_step s o' d' t p g :
  inv s → 0 ≤ d' < 2 ^ 64 → (owner s = t ∨ owner s = 0) → (o' = t ∨ o' = 0) →
  thread_ok o' d' t p g →
  (t > 0) →
  inv (mk o' d' (<[t := p]> (pcs s)) (<[t := g]> (guards s))).
Proof.
  intros [Hr Ht] Hr' Ho Ho' Hok Hpos. split; [done|]. intros u. simpl.
  destruct (decide (u = t)) as [->|Hne]; [by rewrite !fn_lookup_insert|].
  rewrite !fn_lookup_insert_ne by done.
  destruct (decide (u = 0)) as [->|Hu0].
  - pose proof (Ht 0) as [Ho0 Hd0 Hl0 Hz0]. destruct (Hz0 ltac:(lia)) as [Hp0 Hg0].
    rewrite Hp0, Hg0 in *. split; unfold owns; simpl; naive_solver.
  - eapply thread_ok_frame; [apply Ht|lia..].
Qed.

Lemma active_pos s t : inv s → pcs s t ≠ Idle → t > 0.
Proof.
  intros [_ Ht] Hp. destruct (decide (t ≤ 0)) as [Hle|]; [|lia].
  by destruct (to_zero _ _ _ _ _ (Ht t) Hle).
Qed.
Lemma guards_pos s t : inv s → guards s t ≠ O → t > 0.
Proof.
  intros [_ Ht] Hp. destruct (decide (t ≤ 0)) as [Hle|]; [|lia].
  by destruct (to_zero _ _ _ _ _ (Ht t) Hle).
Qed.

Lemma owns_owner s t : inv s → owns (pcs s t) (guards s t) → owner s = t.
Proof. intros [_ Ht] Ho. by apply (to_owner _ _ _ _ _ (Ht t)). Qed.

Lemma insert_same (f : Z → nat) t : ∀ u, <[t := f t]> f u = f u.
Proof.
  intros u. destruct (decide (u = t)) as [->|];
    [by rewrite fn_lookup_insert|by rewrite fn_lookup_insert_ne].
Qed.

(** Guards are compared pointwise. *)
Lemma inv_guards_ext o d ps g g' :
  inv (mk o d ps g) → (∀ t, g t = g' t) → inv (mk o d ps g').
Proof. intros [Hr Ht] Hg. split; [done|]. intros t. simpl. rewrite <-Hg. apply Ht. Qed.

Lemma owner_step_same s o' d' t p :
  inv s → 0 ≤ d' < 2 ^ 64 → (owner s = t ∨ owner s = 0) → (o' = t ∨ o' = 0) →
  thread_ok o' d' t p (guards s t) → t > 0 →
  inv (mk o' d' (<[t := p]> (pcs s)) (guards s)).
Proof.
  intros. eapply inv_guards_ext; [by apply (inv_owner_step s o' d' t p (guards s t))|].
  apply insert_same.
Qed.

Lemma inv_compare_exchange s t : inv s → pcs s t = LCas → inv (compare_exchange s t).
Proof.
  intros Hinv Hpc. assert (t > 0) as Hpos by (apply (active_pos s); [done|by rewrite Hpc]).
  pose proof (to_local _ _ _ _ _ (proj2 Hinv t)) as Hl. rewrite Hpc in Hl. simpl in Hl.
  unfold compare_exchange. destruct (Z.eqb_spec (owner s) 0) as [Ho|].
  - apply owner_step_same; try done; [apply Hinv|by right|by left|].
    split; unfold owns; simpl; try done; lia.
  - by apply inv_goto; rewrite ?Hpc.
Qed.

Lemma owner_depth s t :
  inv s → owns (pcs s t) (guards s t) → settled (pcs s t) → depth s = Z.of_nat (guards s t).
Proof. intros Hinv. apply (to_depth _ _ _ _ _ (proj2 Hinv t)). Qed.

Lemma local_at s t p : inv s → pcs s t = p → local_ok p (guards s t).
Proof. intros Hinv <-. apply (to_local _ _ _ _ _ (proj2 Hinv t)). Qed.

(** What the invariant says about a thread that owns the lock at its [pc]. *)
Ltac owner_facts Hpc :=
  match goal with
  | Hinv : inv ?s |- _ =>
      match type of Hpc with
      | pcs s ?t = _ =>
          pose proof (local_at s t _ Hinv Hpc) as Hl; simpl in Hl;
          assert (owner s = t) by (apply owns_owner; [done|by rewrite Hpc]);
          assert (t > 0) by (apply (active_pos s); [done|by rewrite Hpc])
      end
  end.

Lemma inv_incr s t d :
  inv s → pcs s t = LIncr → checked_add (depth s) 1 = Some d → inv (add_guard s t d).
Proof.
  intros Hinv Hpc [-> Hd]%checked_add_Some.
  owner_facts Hpc.
  pose proof (owner_depth s t Hinv ltac:(by rewrite Hpc) ltac:(by rewrite Hpc)) as Hdep.
  apply inv_owner_step; try done; [|by left|by left|].
  { destruct Hinv. lia. }
  split; unfold owns; simpl; intros; split || lia; done || lia.
Qed.

Lemma inv_store s t : inv s → pcs s t = LStore → inv (add_guard s t 1).
Proof.
  intros Hinv Hpc. owner_facts Hpc.
  apply inv_owner_step; try done; [by left|by left|].
  rewrite Hl. split; unfold owns; simpl; intros; split || lia; done || lia.
Qed.

Lemma inv_fetch_sub s t : inv s → pcs s t = USub → inv (fetch_sub s t).
Proof.
  intros Hinv Hpc. owner_facts Hpc.
  pose proof (owner_depth s t Hinv ltac:(by rewrite Hpc) ltac:(by rewrite Hpc)) as Hdep.
  assert (wrapping_sub (depth s) 1 = depth s - 1) as Hw.
  { apply wrap_small. destruct Hinv. unfold in_usize. lia. }
  unfold fetch_sub. rewrite Hw.
  apply inv_owner_step; try done; [destruct Hinv; lia|by left|by left|].
  destruct (Z.eqb_spec (depth s) 1); split; unfold owns; simpl; intros;
    split || lia; done || lia.
Qed.

Lemma goto_ok s t p0 p :
  inv s → pcs s t = p0 → p0 ≠ Idle → count p (guards s t) = count p0 (guards s t) →
  (settled p → settled p0) → (local_ok p0 (guards s t) → local_ok p (guards s t)) →
  inv (goto s t p).
Proof.
  intros Hinv Hpc Hne Hc Hs Hl. apply inv_goto; rewrite ?Hpc; try done.
  - apply (active_pos s); [done|by rewrite Hpc].
  - unfold owns. by rewrite Hc.
  - by apply Hl, local_at.
Qed.

Lemma inv_load s t : inv s → pcs s t = LLoad → inv (goto s t (after_load t (owner s))).
Proof.
  intros Hinv Hpc. assert (t > 0) by (apply (active_pos s); [done|by rewrite Hpc]).
  pose proof (proj2 Hinv t) as Hok. unfold after_load.
  destruct (to_owner _ _ _ _ _ Hok) as [Hown1 Hown2].
  rewrite Hpc in Hown1, Hown2. unfold owns in *; simpl in *.
  assert (owner s ≠ t → guards s t = O) as Hzero.
  { intros Hne. destruct (decide (guards s t = O)) as [|Hg]; [done|].
    by destruct (Hown2 Hg). }
  destruct (Z.eqb_spec (owner s) t) as [Ho|Ho]; [|destruct (Z.eqb_spec (owner s) 0)];
    eapply goto_ok; try done; simpl; intros _; auto. apply Hown1. lia.
Qed.

Lemma inv_wake s t u :
  inv s → pcs s t = UWake → pcs s u = Asleep → inv (goto (goto s t Idle) u LLoad).
Proof.
  intros Hinv Ht Hu. assert (t ≠ u) by congruence.
  eapply (goto_ok _ u Asleep); try done.
  - by eapply goto_ok.
  - simpl. by rewrite fn_lookup_insert_ne.
Qed.

Lemma inv_release s t :
  inv s → pcs s t = UStore → inv (mk 0 (depth s) (<[t := UWake]> (pcs s)) (guards s)).
Proof.
  intros Hinv Hpc. owner_facts Hpc.
  apply owner_step_same; try done; [apply Hinv|by left|by right|].
  rewrite Hl. split; unfold owns; simpl; try done; intros; try split; lia.
Qed.

Lemma futex_inv_step s s' : inv s → step s s' → inv s'.
Proof.
  intros Hinv Hstep. destruct Hstep;
    eauto using inv_load, inv_incr, inv_store, inv_fetch_sub, inv_compare_exchange,
      inv_wake, inv_release;
    try (eapply goto_ok; [done..|simpl; tauto]).
  - apply inv_goto; [done|lia|by rewrite H0|by rewrite H0|done].
  - apply inv_goto; [done|by eapply guards_pos|by rewrite H|by rewrite H|done].
Qed.

Lemma futex_inv_reachable s : rtc step init s → inv s.
Proof. apply reachable_ind; [apply futex_inv_init|apply futex_inv_step]. Qed.

(** *** Refinement of the specification *)
Lemma abs_goto s t p :
  count p (guards s t) = count (pcs s t) (guards s t) → abs (goto s t p) = abs s.
Proof.
  intros Hc. unfold abs. simpl. case_match; [done|]. do 2 f_equal.
  destruct (decide (owner s = t)) as [->|Hne];
    [by rewrite fn_lookup_insert|by rewrite fn_lookup_insert_ne].
Qed.

Lemma abs_owned s t : t > 0 → owner s = t → abs s = Some (t, count (pcs s t) (guards s t)).
Proof. intros Hpos Ho. unfold abs. rewrite Ho. by destruct (Z.eqb_spec t 0); [lia|]. Qed.

Lemma abs_add_guard s t d :
  inv s → t > 0 → owner s = t → abs (add_guard s t d) = Some (t, S (guards s t)).
Proof.
  intros Hinv Hpos Ho. rewrite (abs_owned _ t) by done. simpl. by rewrite !fn_lookup_insert.
Qed.

Lemma futex_simulation s s' :
  inv s → step s s' → abs s' = abs s ∨ spec_step (abs s) (abs s').
Proof.
  intros Hinv Hstep. destruct Hstep;
    try (left; apply abs_goto; simpl; congruence);
    try (left; apply abs_goto; by rewrite H);
    try (left; apply abs_goto; by rewrite H0).
  - left. apply abs_goto. rewrite H. unfold after_load. by repeat case_match.
  - owner_facts H.
    right.
    rewrite abs_add_guard, (abs_owned s t), H by done. simpl.
    destruct (guards s t); [done|]. constructor.
  - unfold compare_exchange. destruct (Z.eqb_spec (owner s) 0) as [Ho|Ho];
      [|left; apply abs_goto; by rewrite H].
    assert (t > 0) by (apply (active_pos s); [done|by rewrite H]).
    right. rewrite (abs_owned (mk t _ _ _) t) by done. simpl. rewrite fn_lookup_insert.
    unfold abs. rewrite Ho. constructor.
  - owner_facts H.
    left. by rewrite abs_add_guard, (abs_owned s t), H, Hl by done.
  - owner_facts H.
    pose proof (owner_depth s t Hinv ltac:(by rewrite H) ltac:(by rewrite H)) as Hd.
    rewrite (abs_owned (fetch_sub s t) t), (abs_owned s t), H by done. simpl.
    rewrite !fn_lookup_insert.
    destruct (Z.eqb_spec (depth s) 1) as [Hone|Hone]; simpl.
    + left. do 2 f_equal. lia.
    + right. destruct (guards s t) as [|[|n]]; [done|lia|]. constructor.
  - owner_facts H.
    right. rewrite (abs_owned s t), H by done. constructor.
  - left. rewrite !abs_goto; simpl; rewrite ?H; try done.
    rewrite fn_lookup_insert_ne by congruence. by rewrite H0.
Qed.

Lemma futex_guards_owner s t : inv s → guards s t ≠ O → ∃ n, abs s = Some (t, n).
Proof.
  intros Hinv Hg. assert (owns (pcs s t) (guards s t)) as Ho.
  { unfold owns. by destruct (pcs s t). }
  eexists. apply abs_owned; [by eapply guards_pos|by apply owns_owner].
Qed.

#[export] Instance futex_lock : ReentrantLock state.
Proof.
  refine {| rl_init := init; rl_step := step; rl_guards := guards; rl_abs := abs |}.
  - done.
  - intros s s' Hr%futex_inv_reachable. by apply futex_simulation.
  - intros s t Hr%futex_inv_reachable. by apply futex_guards_owner.
Defined.

End FutexLock.

(** ** The registry: a [RefCell] behind the lock *)
Module Registry.

(** Live [Ref] and [RefMut] values with the thread they belong to. *)
Record borrow := mkBorrow { by_thread : Z; mutable : bool }.

Record registry (L : Type) := mk {
  loader : L;
  flag : Z;                (* the cell's borrow flag: readers, or -1 for a writer *)
  borrows : list borrow }.
Arguments mk {L} loader flag borrows.
Arguments loader {L} r.
Arguments flag {L} r.
Arguments borrows {L} r.

Section registry.
Context {L : Type} `{ReentrantLock L}.

(** [Registry::new] *)
Definition new : registry L := mk rl_init 0 [].

(** [RegistryGuard::borrow] and [borrow_mut]: a conflicting borrow panics. *)
Definition do_borrow (r : registry L) (t : Z) : outcome (registry L) :=
  if 0 <=? flag r then Ret (mk (loader r) (flag r + 1) (mkBorrow t false :: borrows r))
  else Panic.
Definition do_borrow_mut (r : registry L) (t : Z) : outcome (registry L) :=
  if flag r =? 0 then Ret (mk (loader r) (-1) (mkBorrow t true :: borrows r))
  else Panic.

(** Dropping one of the live borrows. *)
Definition drop_borrow (r : registry L) (b : borrow) (rest : list borrow) : registry L :=
  mk (loader r) (if mutable b then 0 else flag r - 1) rest.

(** A borrow lives no longer than a guard of its thread. *)
Definition guarded (l : L) (bs : list borrow) : Prop :=
  Forall (λ b, rl_guards l (by_thread b) ≠ O) bs.

Inductive step : registry L → registry L → Prop :=
  | r_lock r l :
      rl_step (loader r) l → guarded l (borrows r) → step r (mk l (flag r) (borrows r))
  | r_borrow r t r' :
      rl_guards (loader r) t ≠ O → do_borrow r t = Ret r' → step r r'
  | r_borrow_mut r t r' :
      rl_guards (loader r) t ≠ O → do_borrow_mut r t = Ret r' → step r r'
  | r_drop r b rest :
      borrows r ≡ₚ b :: rest → step r (drop_borrow r b rest).

(** The flag describes the live borrows. *)
Definition flag_ok (r : registry L) : Prop :=
  (flag r = -1 ∧ ∃ t, borrows r = [mkBorrow t true])
  ∨ (flag r = zlen (borrows r) ∧ Forall (λ b, mutable b = false) (borrows r)).

Record inv (r : registry L) : Prop := {
  inv_lock : rtc rl_step rl_init (loader r);
  inv_guarded : guarded (loader r) (borrows r);
  inv_flag : flag_ok r }.

Lemma flag_ok_drop r b rest :
  flag_ok r → borrows r ≡ₚ b :: rest → flag_ok (drop_borrow r b rest).
Proof.
  intros [[Hf [t Ht]]|[Hf Hall]] Hp; unfold flag_ok, drop_borrow; simpl.
  - rewrite Ht in Hp. apply Permutation_singleton_l in Hp. injection Hp as <- <-.
    by right.
  - rewrite Hp in Hall. apply Forall_cons in Hall as [Hb Hrest]. rewrite Hb. right.
    split; [|done]. rewrite Hf. unfold zlen. rewrite Hp. simpl. lia.
Qed.

Lemma registry_inv_step r r' : inv r → step r r' → inv r'.
Proof.
  intros [Hl Hg Hf] Hstep. destruct Hstep as [r l Hs Hgl|r t r' Hh Hb|r t r' Hh Hb|r b rest Hp].
  - split; [by eapply rtc_r|done|]. destruct Hf as [Hf|Hf]; [by left|by right].
  - unfold do_borrow in Hb. destruct (Z.leb_spec 0 (flag r)) as [H0|]; [|done].
    injection Hb as <-. split; simpl; [done|by constructor|].
    destruct Hf as [[Hf _]|[Hf Hall]]; [lia|]. right. simpl.
    rewrite zlen_cons. split; [lia|by constructor].
  - unfold do_borrow_mut in Hb. destruct (Z.eqb_spec (flag r) 0) as [H0|]; [|done].
    injection Hb as <-. split; simpl; [done|by constructor|].
    destruct Hf as [[Hf _]|[Hf Hall]]; [lia|]. left. simpl.
    rewrite H0 in Hf. destruct (borrows r); [eauto|]. rewrite zlen_cons in Hf.
    pose proof (zlen_nonneg l). lia.
  - split; [done| |by apply flag_ok_drop]. unfold guarded in *. rewrite Hp in Hg.
    by apply Forall_cons in Hg as [_ Hg].
Qed.

Lemma registry_inv_reachable r : rtc step new r → inv r.
Proof.
  apply reachable_ind; [|apply registry_inv_step].
  split; [constructor|constructor|right; split; [done|constructor]].
Qed.

(** Two threads never hold guards together, whichever the lock. *)
Lemma lock_owner_unique s t1 t2 :
  rtc rl_step rl_init s → rl_guards s t1 ≠ O → rl_guards s t2 ≠ O → t1 = t2.
Proof.
  intros Hr H1 H2. destruct (rl_owner s t1 Hr H1) as [n1 Hn1].
  destruct (rl_owner s t2 Hr H2) as [n2 Hn2]. congruence.
Qed.

End registry.
End Registry.

(** ** Properties *)
Module LoaderLockProps.

(** C11. Mutual exclusion of both loader locks: in every reachable state at most one
    thread holds guards. *)
Theorem lock_mutual_exclusion :
  (∀ s t1 t2, rtc StdLock.step StdLock.init s →
     StdLock.guards s t1 ≠ O → StdLock.guards s t2 ≠ O → t1 = t2)
  ∧ (∀ s t1 t2, rtc FutexLock.step FutexLock.init s →
     FutexLock.guards s t1 ≠ O → FutexLock.guards s t2 ≠ O → t1 = t2).
Proof.
  split; intros s t1 t2 Hr.
  - by apply (@Registry.lock_owner_unique _ StdLock.std_lock s).
  - by apply (@Registry.lock_owner_unique _ FutexLock.futex_lock s).
Qed.

(** C10. The futex lock refines the abstract re-entrant lock: every reachable state
    abstracts to a state that the specification reaches, the owner and its
    guard count included once no access of that thread is in flight. *)
Theorem futex_refines_spec (s : FutexLock.state) (Hr : rtc FutexLock.step FutexLock.init s) :
  rtc spec_step None (FutexLock.abs s)
  ∧ ∀ t, FutexLock.pcs s t = FutexLock.Idle → FutexLock.guards s t ≠ O →
      FutexLock.owner s = t ∧ FutexLock.depth s = Z.of_nat (FutexLock.guards s t)
      ∧ FutexLock.abs s = Some (t, FutexLock.guards s t).
Proof.
  split.
  - assert (FutexLock.inv s ∧ rtc spec_step None (FutexLock.abs s)) as [_ ?]; [|done].
    revert s Hr. apply reachable_ind; [split; [apply FutexLock.futex_inv_init|constructor]|].
    intros s s' [Hinv Hspec] Hstep. split; [by eapply FutexLock.futex_inv_step|].
    destruct (FutexLock.futex_simulation s s' Hinv Hstep) as [->|Hs]; [done|].
    by eapply rtc_r.
  - intros t Hpc Hg. apply FutexLock.futex_inv_reachable in Hr as Hinv.
    assert (FutexLock.owns (FutexLock.pcs s t) (FutexLock.guards s t)) as Ho
      by (by rewrite Hpc).
    pose proof (FutexLock.owns_owner s t Hinv Ho) as Hown.
    pose proof (FutexLock.guards_pos s t Hinv Hg).
    split_and!; [done| |].
    + apply FutexLock.owner_depth; [done..|by rewrite Hpc].
    + by rewrite (FutexLock.abs_owned s t), Hpc.
Qed.

(** C36. No lost wake-up with the condition variable: whenever the std lock is free
    and a thread is parked on it, some thread is awake inside [lock] and about
    to look at the state again. *)
Theorem std_no_lost_wakeup (s : StdLock.state) (Hr : rtc StdLock.step StdLock.init s)
    (Hfree : StdLock.owner (StdLock.lk s) = None) (t : Z)
    (Hw : StdLock.ph s t = StdLock.Waiting) :
  ∃ u, StdLock.ph s u = StdLock.Locking.
Proof. apply StdLock.inv_reachable in Hr. by eapply (StdLock.inv_awake s Hr Hfree t). Qed.

(** C35. The futex lock can lose a wake-up.  After a failed exchange [lock] waits on
    the value 0 it had read; when the owner has released the lock meanwhile the
    kernel finds 0 and puts the thread to sleep on a free lock.  A state is
    reachable in which thread 1 sleeps, the lock is free, nobody holds a guard
    and no other thread is inside [lock] or [unlock]. *)
Theorem futex_lost_wakeup :
  ∃ s, rtc FutexLock.step FutexLock.init s
    ∧ FutexLock.owner s = 0
    ∧ FutexLock.pcs s 1 = FutexLock.Asleep
    ∧ (∀ u, FutexLock.guards s u = O)
    ∧ ∀ u, u ≠ 1 → FutexLock.pcs s u = FutexLock.Idle.
Proof.
  eexists. split_and!.
  - (* thread 1 reads 0 *)
    eapply rtc_l; [apply (FutexLock.f_call _ 1); [lia|reflexivity]|].
    eapply rtc_l; [apply (FutexLock.f_load _ 1); reflexivity|].
    (* thread 2 takes the lock *)
    eapply rtc_l; [apply (FutexLock.f_call _ 2); [lia|reflexivity]|].
    eapply rtc_l; [apply (FutexLock.f_load _ 2); reflexivity|].
    eapply rtc_l; [apply (FutexLock.f_cas _ 2); reflexivity|].
    eapply rtc_l; [apply (FutexLock.f_store _ 2); reflexivity|].
    (* the exchange of thread 1 fails *)
    eapply rtc_l; [apply (FutexLock.f_cas _ 1); reflexivity|].
    (* thread 2 releases the lock; nobody sleeps yet *)
    eapply rtc_l; [apply (FutexLock.f_unlock _ 2); [reflexivity|done]|].
    eapply rtc_l; [apply (FutexLock.f_sub _ 2); reflexivity|].
    eapply rtc_l; [apply (FutexLock.f_release _ 2); reflexivity|].
    eapply rtc_l; [apply (FutexLock.f_wake_nobody _ 2); [reflexivity|]|].
    { intros u. simpl. unfold insert, fn_insert. by repeat case_decide. }
    (* thread 1 finds the value it expects and sleeps *)
    eapply rtc_l; [apply (FutexLock.f_wait _ 1 0); reflexivity|].
    apply rtc_refl.
  - reflexivity.
  - reflexivity.
  - intros u. simpl. unfold insert, fn_insert. by repeat case_decide.
  - intros u Hu. simpl. unfold insert, fn_insert. by repeat case_decide.
Qed.

(** C34. The safety argument of [unsafe impl Sync for Registry]: all live borrows of
    the manager belong to one thread, which holds the lock, and a mutable borrow
    is the only one. *)
Theorem registry_sync {L} `{ReentrantLock L} (r : Registry.registry L)
    (Hr : rtc Registry.step Registry.new r) (b1 b2 : Registry.borrow)
    (H1 : b1 ∈ Registry.borrows r) (H2 : b2 ∈ Registry.borrows r) :
  Registry.by_thread b1 = Registry.by_thread b2
  ∧ (∃ n, rl_abs (Registry.loader r) = Some (Registry.by_thread b1, n))
  ∧ (Registry.mutable b1 = true → Registry.borrows r = [b1]).
Proof.
  apply Registry.registry_inv_reachable in Hr as [Hl Hg Hf].
  unfold Registry.guarded in Hg. rewrite Forall_forall in Hg.
  pose proof (Hg b1 H1) as Hg1. pose proof (Hg b2 H2) as Hg2. split_and!.
  - by eapply Registry.lock_owner_unique.
  - by apply rl_owner.
  - intros Hm. destruct Hf as [[_ [t Ht]]|[_ Hall]].
    + rewrite Ht in *. apply list_elem_of_singleton in H1 as ->. done.
    + rewrite Forall_forall in Hall. by rewrite (Hall b1 H1) in Hm.
Qed.

(** *** Witnesses *)
#[local] Existing Instance FutexLock.futex_lock.

(** Thread 7 takes the futex lock and borrows the manager mutably. *)
Definition futex_held : FutexLock.state :=
  let s1 := FutexLock.goto FutexLock.init 7 FutexLock.LLoad in
  let s2 := FutexLock.goto s1 7 FutexLock.LCas in
  FutexLock.add_guard (FutexLock.compare_exchange s2 7) 7 1.

Lemma futex_held_reachable : rtc FutexLock.step FutexLock.init futex_held.
Proof.
  eapply rtc_l; [apply (FutexLock.f_call _ 7); [lia|reflexivity]|].
  eapply rtc_l; [apply (FutexLock.f_load _ 7); reflexivity|].
  eapply rtc_l; [apply (FutexLock.f_cas _ 7); reflexivity|].
  eapply rtc_l; [apply (FutexLock.f_store _ 7); reflexivity|].
  apply rtc_refl.
Qed.

Example futex_refines_spec_witness :
  FutexLock.abs futex_held = Some (7, 1%nat) ∧ rtc spec_step None (FutexLock.abs futex_held).
Proof.
  split; [reflexivity|]. apply (futex_refines_spec futex_held futex_held_reachable).
Defined.

(** Thread 1 holds the std lock, 2 and 3 wait, 1 releases and wakes one. *)
Lemma std_waiting_reachable :
  ∃ s, rtc StdLock.step StdLock.init s
    ∧ StdLock.owner (StdLock.lk s) = None ∧ StdLock.ph s 3 = StdLock.Waiting.
Proof.
  eexists. split.
  - eapply rtc_l; [apply (StdLock.step_call _ 1); reflexivity|].
    eapply rtc_l; [eapply (StdLock.step_take _ 1); reflexivity|].
    eapply rtc_l; [apply (StdLock.step_call _ 2); reflexivity|].
    eapply rtc_l; [apply (StdLock.step_wait _ 2); reflexivity|].
    eapply rtc_l; [apply (StdLock.step_call _ 3); reflexivity|].
    eapply rtc_l; [apply (StdLock.step_wait _ 3); reflexivity|].
    eapply rtc_l; [eapply (StdLock.step_unlock_notify _ 1 _ 2);
      [reflexivity|done|reflexivity|reflexivity]|].
    apply rtc_refl.
  - split; reflexivity.
Qed.

Example std_no_lost_wakeup_witness :
  ∃ s u, StdLock.ph s 3 = StdLock.Waiting ∧ StdLock.ph s u = StdLock.Locking.
Proof.
  destruct std_waiting_reachable as (s & Hr & Hfree & Hw).
  destruct (std_no_lost_wakeup s Hr Hfree 3 Hw) as [u Hu].
  exists s, u. split; assumption.
Defined.

Definition borrowed : Registry.registry FutexLock.state :=
  Registry.mk futex_held (-1) [Registry.mkBorrow 7 true].

Lemma borrowed_reachable : rtc Registry.step Registry.new borrowed.
Proof.
  assert (∀ l l' : FutexLock.state, rtc FutexLock.step l l' →
    rtc Registry.step (Registry.mk l 0 []) (Registry.mk l' 0 [])) as Hl.
  { intros l l'. induction 1; [done|]. eapply rtc_l; [|done].
    by apply (Registry.r_lock (Registry.mk x 0 []) y); [|constructor]. }
  eapply rtc_r; [apply Hl, futex_held_reachable|].
  by apply (Registry.r_borrow_mut _ 7).
Qed.

Example registry_sync_witness :
  Registry.borrows borrowed = [Registry.mkBorrow 7 true].
Proof.
  refine (proj2 (proj2 (@registry_sync FutexLock.state FutexLock.futex_lock borrowed
    borrowed_reachable (Registry.mkBorrow 7 true) (Registry.mkBorrow 7 true) _ _)) eq_refl);
  apply list_elem_of_singleton; reflexivity.
Defined.

End LoaderLockProps.
