(* ===== verification/LinkMap.v ===== *)
(** * ABI structures (src/abi.rs)

    glibc's [struct link_map] and [struct r_debug] as the crate declares them,
    the constants of the debugger protocol and of the auxiliary vector.
    Pointers are addresses; null is 0. *)

From S2P Require Import Prelude.

Record LinkMap := mkLinkMap {
  l_addr : Z;
  l_name : Z;
  l_ld : Z;
  l_next : Z;
  l_prev : Z;
  l_real : Z;
  l_ns : Z;
  l_libname : Z;
  l_info : list Z;
  l_phdr : Z;
  l_entry : Z;
  l_phnum : Z;
  l_ldnum : Z;
  l_reserved_before_tls : list Z;
  l_tls_initimage : Z;
  l_tls_initimage_size : Z;
  l_tls_blocksize : Z;
  l_tls_align : Z;
  l_tls_firstbyte_offset : Z;
  l_tls_offset : Z;
  l_tls_modid : Z;
  l_tls_dtor_count : Z;
  l_relro_addr : Z;
  l_relro_size : Z;
  l_serial : Z }.

(** [LinkMap::zero] *)
Definition LinkMap_zero : LinkMap :=
  mkLinkMap 0 0 0 0 0 0 0 0 (replicate 84 0) 0 0 0 0 (replicate 45 0)
    0 0 0 0 0 0 0 0 0 0 0.

(** Assignments to one field through a pointer. *)
Definition set_l_next (v : Z) (m : LinkMap) : LinkMap :=
  mkLinkMap (l_addr m) (l_name m) (l_ld m) v (l_prev m) (l_real m) (l_ns m) (l_libname m)
    (l_info m) (l_phdr m) (l_entry m) (l_phnum m) (l_ldnum m) (l_reserved_before_tls m)
    (l_tls_initimage m) (l_tls_initimage_size m) (l_tls_blocksize m) (l_tls_align m)
    (l_tls_firstbyte_offset m) (l_tls_offset m) (l_tls_modid m) (l_tls_dtor_count m)
    (l_relro_addr m) (l_relro_size m) (l_serial m).
Definition set_l_prev (v : Z) (m : LinkMap) : LinkMap :=
  mkLinkMap (l_addr m) (l_name m) (l_ld m) (l_next m) v (l_real m) (l_ns m) (l_libname m)
    (l_info m) (l_phdr m) (l_entry m) (l_phnum m) (l_ldnum m) (l_reserved_before_tls m)
    (l_tls_initimage m) (l_tls_initimage_size m) (l_tls_blocksize m) (l_tls_align m)
    (l_tls_firstbyte_offset m) (l_tls_offset m) (l_tls_modid m) (l_tls_dtor_count m)
    (l_relro_addr m) (l_relro_size m) (l_serial m).
Definition set_l_real (v : Z) (m : LinkMap) : LinkMap :=
  mkLinkMap (l_addr m) (l_name m) (l_ld m) (l_next m) (l_prev m) v (l_ns m) (l_libname m)
    (l_info m) (l_phdr m) (l_entry m) (l_phnum m) (l_ldnum m) (l_reserved_before_tls m)
    (l_tls_initimage m) (l_tls_initimage_size m) (l_tls_blocksize m) (l_tls_align m)
    (l_tls_firstbyte_offset m) (l_tls_offset m) (l_tls_modid m) (l_tls_dtor_count m)
    (l_relro_addr m) (l_relro_size m) (l_serial m).
(** The fields that [populate_link_map_tls] writes. *)
Definition set_l_tls (initimage initimage_size blocksize align firstbyte offset modid : Z)
    (m : LinkMap) : LinkMap :=
  mkLinkMap (l_addr m) (l_name m) (l_ld m) (l_next m) (l_prev m) (l_real m) (l_ns m)
    (l_libname m) (l_info m) (l_phdr m) (l_entry m) (l_phnum m) (l_ldnum m)
    (l_reserved_before_tls m) initimage initimage_size blocksize align firstbyte offset modid
    (l_tls_dtor_count m) (l_relro_addr m) (l_relro_size m) (l_serial m).
(** A fresh map as the loader fills it: [LinkMap { l_addr, .., ..LinkMap::zero() }]. *)
Definition LinkMap_new (addr name ld phdr entry phnum : Z) : LinkMap :=
  mkLinkMap addr name ld 0 0 0 0 0 (replicate 84 0) phdr entry phnum 0 (replicate 45 0)
    0 0 0 0 0 0 0 0 0 0 0.

Definition RT_CONSISTENT : Z := 0.
Definition RT_ADD : Z := 1.
Definition RT_DELETE : Z := 2.

Record RDebug := mkRDebug {
  version : Z;
  map_head : Z;            (* the field [map] *)
  brk : option Z;          (* the debugger's breakpoint function *)
  state : Z;
  ldbase : Z }.

Definition RDebug_zero : RDebug := mkRDebug 0 0 None RT_CONSISTENT 0.
Definition set_map_head (v : Z) (d : RDebug) : RDebug :=
  mkRDebug (version d) v (brk d) (state d) (ldbase d).
Definition set_state (v : Z) (d : RDebug) : RDebug :=
  mkRDebug (version d) (map_head d) (brk d) v (ldbase d).

(** ** Auxiliary vector tags *)
Definition AT_NULL : Z := 0.
Definition AT_PHDR : Z := 3.
Definition AT_PHENT : Z := 4.
Definition AT_PHNUM : Z := 5.
Definition AT_PAGESZ : Z := 6.
Definition AT_BASE : Z := 7.
Definition AT_ENTRY : Z := 9.
Definition AT_PLATFORM : Z := 15.
Definition AT_HWCAP : Z := 16.
Definition AT_CLKTCK : Z := 17.
Definition AT_FPUCW : Z := 18.
Definition AT_SECURE : Z := 23.
Definition AT_RANDOM : Z := 25.
Definition AT_HWCAP2 : Z := 26.
Definition AT_HWCAP3 : Z := 29.
Definition AT_HWCAP4 : Z := 30.
Definition AT_EXECFN : Z := 31.
Definition AT_SYSINFO : Z := 32.
Definition AT_SYSINFO_EHDR : Z := 33.
Definition AT_MINSIGSTKSZ : Z := 51.

(** ** Program headers: [Elf64_Phdr] and the segment types the code names *)
Record ElfPhdr := mkPhdr {
  p_type : Z; p_flags : Z; p_offset : Z; p_vaddr : Z;
  p_paddr : Z; p_filesz : Z; p_memsz : Z; p_align : Z }.
Definition PT_NULL : Z := 0.
Definition PT_LOAD : Z := 1.
Definition PT_DYNAMIC : Z := 2.
Definition PT_INTERP : Z := 3.
Definition PT_PHDR : Z := 6.
Definition PT_TLS : Z := 7.
Definition PT_GNU_EH_FRAME : Z := 0x6474e550.
Definition PT_GNU_RELRO : Z := 0x6474e552.

Definition find_phdr (ty : Z) (phdrs : list ElfPhdr) : option ElfPhdr :=
  snd <$> list_find (λ p, p_type p = ty) phdrs.
