(* ===== verification/DebugList.v ===== *)
(** * The debugger's list of link maps

    src/runtime/debug.rs keeps the doubly linked list that a debugger reads:
    [add_debug_link_map] appends, dropping [ExtraData] unlinks.  The list lives
    in a shared store of [LinkMap]s addressed by pointers.  src/runtime/host.rs
    adopts the list of the host loader ([init_host_debug]) and searches it
    ([find_host_link_map]); bootstrap/publish.rs builds one from an array
    ([link_loaded_objects]).  All of them are shown to act on one list. *)

From S2P Require Import Prelude LinkMap.

Module DebugList.

(** [CustomDebug] behind its mutex, the [r_debug] structures and link maps it
    points to, and the debugger's view: the [state] at each call of [brk]. *)
Record dstate := mk {
  debug : Z;
  tail : Z;
  rdebugs : gmap Z RDebug;
  maps : gmap Z LinkMap;
  notified : list Z }.

(** The address of [INTERNAL_GDB_DEBUG] and its initial value. *)
Definition INTERNAL_GDB_DEBUG : Z := 1.
Definition dlopen_debug_state : Z := 1.
Definition internal_init : RDebug := mkRDebug 1 0 (Some dlopen_debug_state) 0 0.
Definition init : dstate :=
  mk INTERNAL_GDB_DEBUG 0 {[INTERNAL_GDB_DEBUG := internal_init]} ∅ [].

Definition load_map (p : Z) : st dstate LinkMap := λ s,
  match maps s !! p with Some m => Ret (m, s) | None => Fault end.
Definition store_map (p : Z) (m : LinkMap) : st dstate unit := λ s,
  match maps s !! p with
  | Some _ => Ret (tt, mk (debug s) (tail s) (rdebugs s) (<[p := m]> (maps s)) (notified s))
  | None => Fault
  end.
(** An assignment to a field of the map at [p]. *)
Definition modify_map (p : Z) (f : LinkMap → LinkMap) : st dstate unit :=
  m ← load_map p; store_map p (f m).

Definition load_debug : st dstate RDebug := λ s,
  match rdebugs s !! debug s with Some d => Ret (d, s) | None => Fault end.
Definition modify_debug (f : RDebug → RDebug) : st dstate unit := λ s,
  match rdebugs s !! debug s with
  | Some d => Ret (tt, mk (debug s) (tail s) (<[debug s := f d]> (rdebugs s)) (maps s) (notified s))
  | None => Fault
  end.
Definition set_tail (p : Z) : st dstate unit := λ s,
  Ret (tt, mk (debug s) p (rdebugs s) (maps s) (notified s)).

(** [call_debug_state]: the debugger stops here and reads [state]. *)
Definition call_debug_state : st dstate unit := λ s,
  match rdebugs s !! debug s with
  | Some d =>
      match brk d with
      | Some _ =>
          Ret (tt, mk (debug s) (tail s) (rdebugs s) (maps s) (notified s ++ [state d]))
      | None => Ret (tt, s)
      end
  | None => Fault
  end.

Definition add_debug_link_map (link_map : Z) : st dstate unit :=
  s ← st_get;
  let tail := tail s in
  if debug s =? 0 then mret tt
  else
    let owns_namespace := debug s =? INTERNAL_GDB_DEBUG in
    m ← load_map link_map;
    (if owns_namespace && (l_real m =? 0) then modify_map link_map (set_l_real link_map)
     else if negb owns_namespace then modify_map link_map (set_l_real 0)
     else mret tt);;
    modify_map link_map (set_l_prev tail);;
    modify_map link_map (set_l_next 0);;
    (if tail =? 0 then modify_debug (set_map_head link_map)
     else modify_map tail (set_l_next link_map));;
    set_tail link_map;;
    modify_debug (set_state RT_ADD);;
    call_debug_state;;
    modify_debug (set_state RT_CONSISTENT);;
    call_debug_state.

(** [Drop for ExtraData] *)
Definition unlink (link_map : Z) : st dstate unit :=
  s ← st_get;
  if debug s =? 0 then mret tt
  else
    let tail := tail s in
    d ← load_debug;
    m ← load_map link_map;
    if negb (map_head d =? link_map) && (l_prev m =? 0) then mret tt
    else
      modify_debug (set_state RT_DELETE);;
      call_debug_state;;
      match map_head d =? link_map, tail =? link_map with
      | true, true => modify_debug (set_map_head 0);; set_tail 0
      | true, false =>
          modify_debug (set_map_head (l_next m));;
          modify_map (l_next m) (set_l_prev 0)
      | false, true =>
          modify_map (l_prev m) (set_l_next 0);;
          set_tail (l_prev m)
      | false, false =>
          modify_map (l_prev m) (set_l_next (l_next m));;
          modify_map (l_next m) (set_l_prev (l_prev m))
      end;;
      modify_debug (set_state RT_CONSISTENT);;
      call_debug_state.

(** After [drop] the box that holds the link map is freed. *)
Definition free_map (p : Z) : st dstate unit := λ s,
  Ret (tt, mk (debug s) (tail s) (rdebugs s) (delete p (maps s)) (notified s)).
Definition drop_extra_data (link_map : Z) : st dstate unit :=
  unlink link_map;; free_map link_map.

(** ** The host's list (src/runtime/host.rs) *)

(** [init_host_debug]: adopt the host's structure and find the last map. *)
Fixpoint last_map (fuel : nat) (cur : Z) : st dstate Z :=
  match fuel with
  | O => st_fail OutOfFuel
  | S fuel =>
      m ← load_map cur;
      if l_next m =? 0 then mret cur else last_map fuel (l_next m)
  end.
Definition set_debug (p : Z) : st dstate unit := λ s,
  Ret (tt, mk p (tail s) (rdebugs s) (maps s) (notified s)).
Definition init_host_debug (fuel : nat) (host_debug : Z) : st dstate unit :=
  set_debug host_debug;;
  d ← load_debug;
  cur ← (if map_head d =? 0 then mret 0 else last_map fuel (map_head d));
  set_tail cur.

(** [find_host_link_map]: the first map loaded at [base]. *)
Fixpoint find_from (fuel : nat) (cur base : Z) : st dstate Z :=
  match fuel with
  | O => st_fail OutOfFuel
  | S fuel =>
      if cur =? 0 then mret 0
      else
        m ← load_map cur;
        if l_addr m =? base then mret cur else find_from fuel (l_next m) base
  end.
Definition find_host_link_map (fuel : nat) (base : Z) : st dstate Z :=
  s ← st_get;
  if debug s =? 0 then find_from fuel 0 base
  else d ← load_debug; find_from fuel (map_head d) base.

(** [LinkMapIter]: the maps in list order. *)
Fixpoint iter_maps (fuel : nat) (current : Z) : st dstate (list Z) :=
  match fuel with
  | O => st_fail OutOfFuel
  | S fuel =>
      if current =? 0 then mret []
      else m ← load_map current; rest ← iter_maps fuel (l_next m); mret (current :: rest)
  end.

(** ** The rtld's list (bootstrap/publish.rs) *)
Fixpoint link_from (prev : Z) (link_maps : list Z) : st dstate unit :=
  match link_maps with
  | [] => mret tt
  | link_map :: rest =>
      modify_map link_map (set_l_prev prev);;
      modify_map link_map (set_l_next (default 0 (head rest)));;
      link_from link_map rest
  end.
Definition link_loaded_objects (link_maps : list Z) : st dstate unit := link_from 0 link_maps.

(** ** The list in the store *)

(** [l] is a doubly linked segment: [p] before it, [n] after it. *)
Fixpoint dseg (ms : gmap Z LinkMap) (p : Z) (l : list Z) (n : Z) : Prop :=
  match l with
  | [] => True
  | x :: r => ∃ m, ms !! x = Some m ∧ l_prev m = p ∧ l_next m = default n (head r)
      ∧ dseg ms x r n
  end.

(** The state describes the list [l] to the debugger. *)
Record list_rep (s : dstate) (l : list Z) : Prop := {
  lr_nodup : NoDup l;
  lr_nonnull : 0 ∉ l;
  lr_head : ∃ d, rdebugs s !! debug s = Some d ∧ map_head d = default 0 (head l);
  lr_tail : tail s = default 0 (last l);
  lr_seg : dseg (maps s) 0 l 0 }.

(** Only the links of the maps changed. *)
Definition same_but_links (m m' : LinkMap) : Prop :=
  set_l_real 0 (set_l_next 0 (set_l_prev 0 m)) = set_l_real 0 (set_l_next 0 (set_l_prev 0 m')).

(** What a debugger with a breakpoint sees of an operation. *)
Definition brk_trace (s : dstate) (states : list Z) : list Z :=
  match rdebugs s !! debug s with
  | Some d => match brk d with Some _ => states | None => [] end
  | None => []
  end.

(** ** Running the primitives *)
Definition with_maps (s : dstate) (ms : gmap Z LinkMap) : dstate :=
  mk (debug s) (tail s) (rdebugs s) ms (notified s).
Definition with_rdebug (s : dstate) (d : RDebug) : dstate :=
  mk (debug s) (tail s) (<[debug s := d]> (rdebugs s)) (maps s) (notified s).
Definition notify (s : dstate) (d : RDebug) : dstate :=
  mk (debug s) (tail s) (rdebugs s) (maps s)
    (notified s ++ match brk d with Some _ => [state d] | None => [] end).

Lemma load_map_run p s m : maps s !! p = Some m → load_map p s = Ret (m, s).
Proof. unfold load_map. by intros ->. Qed.
Lemma modify_map_run p f s m :
  maps s !! p = Some m → modify_map p f s = Ret (tt, with_maps s (<[p := f m]> (maps s))).
Proof.
  intros Hm. unfold modify_map. erewrite st_bind_run by (by apply load_map_run).
  unfold store_map. by rewrite Hm.
Qed.
Lemma load_debug_run s d : rdebugs s !! debug s = Some d → load_debug s = Ret (d, s).
Proof. unfold load_debug. by intros ->. Qed.
Lemma modify_debug_run f s d :
  rdebugs s !! debug s = Some d → modify_debug f s = Ret (tt, with_rdebug s (f d)).
Proof. unfold modify_debug. by intros ->. Qed.
Lemma call_debug_state_run s d :
  rdebugs s !! debug s = Some d → call_debug_state s = Ret (tt, notify s d).
Proof.
  unfold call_debug_state, notify. intros ->. destruct (brk d); [done|].
  by rewrite app_nil_r; destruct s.
Qed.

(** Run the next statement; [st_side] finds what it reads. *)
Ltac st_side :=
  simpl; repeat first [ rewrite lookup_insert_eq
                      | rewrite lookup_insert_ne by (done || congruence) ]; eassumption || reflexivity.
Ltac st_one :=
  first
    [ rewrite st_bind_assoc | rewrite st_bind_ret | rewrite st_bind_get
    | erewrite st_bind_run by (eapply load_map_run; st_side)
    | erewrite st_bind_run by (eapply modify_map_run; st_side)
    | erewrite st_bind_run by (eapply load_debug_run; st_side)
    | erewrite st_bind_run by (eapply modify_debug_run; st_side)
    | erewrite st_bind_run by (eapply call_debug_state_run; st_side)
    | erewrite st_bind_run by reflexivity ].

(** ** Segments *)
Lemma dseg_frame ms x m p l n : x ∉ l → dseg ms p l n → dseg (<[x := m]> ms) p l n.
Proof.
  revert p. induction l as [|y l IH]; intros p Hx; [done|]. simpl.
  apply not_elem_of_cons in Hx as [Hne Hx].
  intros (m' & Hm & Hp & Hn & Hr). exists m'. rewrite lookup_insert_ne by done. eauto.
Qed.

Lemma dseg_delete ms x p l n : x ∉ l → dseg ms p l n → dseg (delete x ms) p l n.
Proof.
  revert p. induction l as [|y l IH]; intros p Hx; [done|]. simpl.
  apply not_elem_of_cons in Hx as [Hne Hx].
  intros (m' & Hm & Hp & Hn & Hr). exists m'. rewrite lookup_delete_ne by done. eauto.
Qed.

Lemma dseg_app ms p l1 l2 n :
  dseg ms p (l1 ++ l2) n ↔
    dseg ms p l1 (default n (head l2)) ∧ dseg ms (default p (last l1)) l2 n.
Proof.
  revert p. induction l1 as [|x l1 IH]; intros p; [simpl; tauto|].
  replace (default p (last (x :: l1))) with (default x (last l1))
    by (rewrite last_cons; by destruct (last l1)).
  assert (default (default n (head l2)) (head l1) = default n (head (l1 ++ l2))) as Hh
    by by destruct l1.
  simpl. rewrite Hh. split.
  - intros (m & Hm & Hp & Hn & Hr). apply IH in Hr as [Hr1 Hr2]. eauto 10.
  - intros [(m & Hm & Hp & Hn & Hr1) Hr2]. exists m. split_and!; try done. by apply IH.
Qed.

(** Redirect the [l_next] of the last node of a segment. *)
Lemma dseg_set_last ms p l y n n' m :
  NoDup (l ++ [y]) → ms !! y = Some m → dseg ms p (l ++ [y]) n →
  dseg (<[y := set_l_next n' m]> ms) p (l ++ [y]) n'.
Proof.
  intros Hnd Hy. rewrite !dseg_app. simpl.
  intros [Hl (m' & Hm & Hp & Hn & _)]. assert (m' = m) as -> by congruence.
  apply NoDup_app in Hnd as (_ & Hdisj & _). split.
  - apply dseg_frame; [|done]. intros Hin. apply (Hdisj y Hin). by apply list_elem_of_singleton.
  - exists (set_l_next n' m). by rewrite lookup_insert_eq.
Qed.

(** Redirect the [l_prev] of the first node of a segment. *)
Lemma dseg_set_first ms p p' y l n m :
  NoDup (y :: l) → ms !! y = Some m → dseg ms p (y :: l) n →
  dseg (<[y := set_l_prev p' m]> ms) p' (y :: l) n.
Proof.
  intros [Hy _]%NoDup_cons Hm (m' & Hm' & Hp & Hn & Hr).
  assert (m' = m) as -> by congruence. exists (set_l_prev p' m).
  rewrite lookup_insert_eq. split_and!; try done. by apply dseg_frame.
Qed.

Lemma dseg_lookup ms p l n x : dseg ms p l n → x ∈ l → is_Some (ms !! x).
Proof.
  revert p. induction l as [|y l IH]; intros p; [by rewrite elem_of_nil|].
  intros (m & Hm & _ & _ & Hr) [->|Hx]%elem_of_cons; [eauto|]. by eapply IH.
Qed.

Lemma list_rep_ext s s' l :
  list_rep s l → maps s' = maps s → tail s' = tail s →
  (∃ d, rdebugs s' !! debug s' = Some d ∧ map_head d = default 0 (head l)) →
  list_rep s' l.
Proof. intros [Hnd Hnn _ Ht Hs] Hm Ht' Hd. split; try done; congruence. Qed.

(** The map an assignment to the links leaves behind. *)
Definition adopted (s : dstate) (lm : Z) (m : LinkMap) : LinkMap :=
  let m1 := if debug s =? INTERNAL_GDB_DEBUG
            then if l_real m =? 0 then set_l_real lm m else m
            else set_l_real 0 m in
  set_l_next 0 (set_l_prev (tail s) m1).

Lemma adopted_links s lm m : same_but_links m (adopted s lm m).
Proof. unfold same_but_links, adopted. repeat case_match; by destruct m. Qed.

Lemma same_but_links_refl m : same_but_links m m.
Proof. done. Qed.
Lemma same_but_links_next m v : same_but_links m (set_l_next v m).
Proof. done. Qed.
Lemma same_but_links_prev m v : same_but_links m (set_l_prev v m).
Proof. done. Qed.

(** The store after [add_debug_link_map]. *)
Definition appended (s : dstate) (lm : Z) (m : LinkMap) : gmap Z LinkMap :=
  let ms := <[lm := adopted s lm m]> (maps s) in
  match maps s !! tail s with
  | Some t => if tail s =? 0 then ms else <[tail s := set_l_next lm t]> ms
  | None => ms
  end.

Lemma adopt_run s lm m (k : st dstate unit) :
  maps s !! lm = Some m →
  ((if (debug s =? INTERNAL_GDB_DEBUG) && (l_real m =? 0) then modify_map lm (set_l_real lm)
    else if negb (debug s =? INTERNAL_GDB_DEBUG) then modify_map lm (set_l_real 0)
    else mret tt);;
   modify_map lm (set_l_prev (tail s));; modify_map lm (set_l_next 0);; k) s
  = k (with_maps s (<[lm := adopted s lm m]> (maps s))).
Proof.
  intros Hm. unfold adopted.
  destruct (debug s =? INTERNAL_GDB_DEBUG), (l_real m =? 0); simpl;
    repeat st_one; unfold with_maps; simpl; by rewrite !insert_insert_eq.
Qed.

(** Two notifications around an operation, from state [st1] to [st2]. *)
Definition notified_twice (d : RDebug) (st1 st2 : Z) : list Z :=
  match brk d with Some _ => [st1; st2] | None => [] end.

Lemma add_run s lm m d :
  maps s !! lm = Some m → rdebugs s !! debug s = Some d → debug s ≠ 0 →
  (tail s = 0 ∨ is_Some (maps s !! tail s) ∧ tail s ≠ lm) →
  add_debug_link_map lm s = Ret (tt,
    mk (debug s) lm
      (<[debug s := set_state RT_CONSISTENT
           (if tail s =? 0 then set_map_head lm d else d)]> (rdebugs s))
      (appended s lm m)
      (notified s ++ notified_twice d RT_ADD RT_CONSISTENT)).
Proof.
  intros Hm Hd Hnz Ht. unfold add_debug_link_map. repeat st_one.
  rewrite (proj2 (Z.eqb_neq _ _) Hnz). st_one. rewrite adopt_run by done.
  unfold appended, notified_twice.
  destruct (Z.eqb_spec (tail s) 0) as [Hz|Hz].
  - repeat st_one. erewrite call_debug_state_run by st_side.
    unfold with_rdebug, with_maps, notify; simpl. rewrite !insert_insert_eq.
    destruct (brk d); rewrite <-!app_assoc; by destruct (maps s !! tail s).
  - destruct Ht as [?|[[t Htl] Hne]]; [done|]. rewrite Htl. repeat st_one.
    erewrite call_debug_state_run by st_side.
    unfold with_rdebug, with_maps, notify; simpl. rewrite !insert_insert_eq.
    by destruct (brk d); rewrite <-!app_assoc.
Qed.

(** Everything outside the list keeps its contents; inside it only links move. *)
Lemma appended_frame s lm m x mx :
  maps s !! lm = Some m → maps s !! x = Some mx →
  ∃ mx', appended s lm m !! x = Some mx' ∧ same_but_links mx mx'
    ∧ (x ≠ lm → x ≠ tail s → mx' = mx).
Proof.
  intros Hm Hx. unfold appended.
  assert (∃ mx', <[lm := adopted s lm m]> (maps s) !! x = Some mx' ∧ same_but_links mx mx'
    ∧ (x ≠ lm → mx' = mx)) as (y & Hy & Hs & Hf).
  { destruct (decide (x = lm)) as [->|].
    - rewrite lookup_insert_eq. assert (mx = m) as -> by congruence.
      eexists; split_and!; [done|apply adopted_links|done].
    - rewrite lookup_insert_ne by done. by exists mx. }
  destruct (maps s !! tail s) as [t|] eqn:Ht; [|eauto].
  case_match; [eauto|]. destruct (decide (x = tail s)) as [->|].
  - rewrite lookup_insert_eq. assert (mx = t) as -> by congruence.
    exists (set_l_next lm t). split_and!; try done.
  - rewrite lookup_insert_ne by done. eauto 10.
Qed.

Lemma appended_seg s lm m l :
  list_rep s l → lm ∉ l → maps s !! lm = Some m → dseg (appended s lm m) 0 (l ++ [lm]) 0.
Proof.
  intros [Hnd Hnn _ Ht Hs] Hlm Hm. unfold appended.
  destruct l as [|t l0 _] using rev_ind.
  { simpl in Ht. rewrite Ht. exists (adopted s lm m). split_and!; try done.
    destruct (maps s !! 0); simpl; apply lookup_insert_eq. }
  rewrite last_snoc in Ht. simpl in Ht.
  destruct (dseg_lookup _ _ _ _ t Hs) as [mt Hmt]; [set_solver|].
  assert (t ≠ 0) as Hnz by (intros ->; set_solver).
  assert (t ≠ lm) as Hne by (intros ->; set_solver).
  rewrite Ht, Hmt, (proj2 (Z.eqb_neq _ _) Hnz). apply dseg_app. simpl. split.
  - apply dseg_set_last with (n := 0); [done|by rewrite lookup_insert_ne|]. by apply dseg_frame.
  - rewrite last_snoc. exists (adopted s lm m). rewrite lookup_insert_ne, lookup_insert_eq by done.
    split_and!; try done.
Qed.

(** Point the node before [l2] past it, and the node after [l1] before it. *)
Definition set_next_of (l1 : list Z) (n : Z) (ms : gmap Z LinkMap) : gmap Z LinkMap :=
  match last l1 with Some p => alter (set_l_next n) p ms | None => ms end.
Definition set_prev_of (l2 : list Z) (p : Z) (ms : gmap Z LinkMap) : gmap Z LinkMap :=
  match head l2 with Some n => alter (set_l_prev p) n ms | None => ms end.
Definition relinked (ms : gmap Z LinkMap) (l1 l2 : list Z) : gmap Z LinkMap :=
  set_prev_of l2 (default 0 (last l1)) (set_next_of l1 (default 0 (head l2)) ms).

Lemma alter_insert_Some (f : LinkMap → LinkMap) (i : Z) (ms : gmap Z LinkMap) m :
  ms !! i = Some m → alter f i ms = <[i := f m]> ms.
Proof.
  intros Hm. apply map_eq. intros j. destruct (decide (i = j)) as [<-|].
  - by rewrite lookup_alter_eq, lookup_insert_eq, Hm.
  - by rewrite lookup_alter_ne, lookup_insert_ne.
Qed.

Lemma set_next_of_seg ms p l n n' :
  NoDup l → dseg ms p l n → dseg (set_next_of l n' ms) p l n'.
Proof.
  intros Hnd Hs. destruct l as [|y l _] using rev_ind; [done|].
  unfold set_next_of. rewrite last_snoc.
  destruct (dseg_lookup _ _ _ _ y Hs) as [m Hm]; [set_solver|].
  erewrite alter_insert_Some by done. by eapply dseg_set_last.
Qed.

Lemma set_prev_of_seg ms p p' l n :
  NoDup l → dseg ms p l n → dseg (set_prev_of l p' ms) p' l n.
Proof.
  intros Hnd Hs. destruct l as [|y l]; [done|].
  change (set_prev_of (y :: l) p' ms) with (alter (set_l_prev p') y ms).
  destruct (dseg_lookup _ _ _ _ y Hs) as [m Hm]; [set_solver|].
  erewrite alter_insert_Some by done. by eapply dseg_set_first.
Qed.

Lemma dseg_alter ms f x p l n : x ∉ l → dseg ms p l n → dseg (alter f x ms) p l n.
Proof.
  intros Hx Hs. destruct (ms !! x) as [m|] eqn:Hm.
  - erewrite alter_insert_Some by done. by apply dseg_frame.
  - rewrite (proj2 (map_eq_iff (alter f x ms) ms)); [done|].
    intros j. destruct (decide (x = j)) as [<-|].
    + by rewrite lookup_alter_eq, Hm.
    + by rewrite lookup_alter_ne.
Qed.

Lemma last_in (l : list Z) x : last l = Some x → x ∈ l.
Proof. intros [l' ->]%last_Some. set_solver. Qed.
Lemma head_in (l : list Z) x : head l = Some x → x ∈ l.
Proof. destruct l; simpl; [done|]. intros [= ->]. set_solver. Qed.

Lemma relinked_seg ms lm l1 l2 :
  NoDup (l1 ++ lm :: l2) → dseg ms 0 (l1 ++ lm :: l2) 0 → dseg (relinked ms l1 l2) 0 (l1 ++ l2) 0.
Proof.
  intros (Hn1 & Hdisj & [_ Hn2]%NoDup_cons)%NoDup_app (H1 & m & Hm & Hp & Hn & H2)%dseg_app.
  unfold relinked. apply dseg_app. split.
  - unfold set_prev_of. destruct (head l2) as [y|] eqn:Hh; [|by eapply set_next_of_seg].
    apply dseg_alter; [intros Hin; apply (Hdisj _ Hin); apply head_in in Hh; set_solver|].
    by eapply set_next_of_seg.
  - eapply set_prev_of_seg; [done|]. unfold set_next_of.
    destruct (last l1) as [y|] eqn:Hl; [|done].
    apply dseg_alter; [|done]. apply last_in in Hl. specialize (Hdisj _ Hl). set_solver.
Qed.

Lemma relinked_frame ms l1 l2 x m :
  ms !! x = Some m →
  ∃ m', relinked ms l1 l2 !! x = Some m' ∧ same_but_links m m' ∧ l_real m' = l_real m
    ∧ (x ∉ l1 ++ l2 → m' = m).
Proof.
  intros Hm. unfold relinked.
  assert (∃ m', set_next_of l1 (default 0 (head l2)) ms !! x = Some m' ∧ same_but_links m m'
    ∧ l_real m' = l_real m ∧ (x ∉ l1 ++ l2 → m' = m)) as (y & Hy & Hs & Hr & Hf).
  { unfold set_next_of. destruct (last l1) as [p|] eqn:Hl; [|by exists m].
    apply last_in in Hl. destruct (decide (p = x)) as [->|].
    - rewrite lookup_alter_eq, Hm. eexists; split_and!; [done..|set_solver].
    - rewrite lookup_alter_ne by done. by exists m. }
  unfold set_prev_of. destruct (head l2) as [n|] eqn:Hh; [|by exists y].
  apply head_in in Hh. destruct (decide (n = x)) as [->|].
  - rewrite lookup_alter_eq, Hy. eexists; split_and!; [done..|set_solver].
  - rewrite lookup_alter_ne by done. by exists y.
Qed.

Lemma node_links s l1 lm l2 m :
  list_rep s (l1 ++ lm :: l2) → maps s !! lm = Some m →
  l_prev m = default 0 (last l1) ∧ l_next m = default 0 (head l2).
Proof.
  intros [_ _ _ _ (_ & m' & Hm' & Hp & Hn & _)%dseg_app] Hm.
  assert (m' = m) as -> by congruence. done.
Qed.

Lemma list_rep_mapped s l x : list_rep s l → x ∈ l → is_Some (maps s !! x).
Proof. intros [_ _ _ _ Hs]. by apply dseg_lookup with (p := 0) (n := 0). Qed.

Lemma last_app_cons (l1 : list Z) x l2 : last (l1 ++ x :: l2) = Some (default x (last l2)).
Proof. rewrite last_app_cons, last_cons. by destruct (last l2). Qed.

(** What [unlink] leaves, for a node with [l1] before it and [l2] behind. *)
Definition unlinked (s : dstate) (d : RDebug) (l1 l2 : list Z) : dstate :=
  mk (debug s) (default 0 (last (l1 ++ l2)))
    (<[debug s := set_state RT_CONSISTENT (set_map_head (default 0 (head (l1 ++ l2))) d)]> (rdebugs s))
    (relinked (maps s) l1 l2)
    (notified s ++ notified_twice d RT_DELETE RT_CONSISTENT).

Lemma tail_eqb l x : x ∉ l → (default x (last l) =? x) = bool_decide (l = []).
Proof.
  intros Hx. destruct l as [|y l _] using rev_ind; [simpl; apply Z.eqb_refl|].
  rewrite last_snoc, bool_decide_eq_false_2 by (by destruct l). apply Z.eqb_neq. set_solver.
Qed.
Lemma head_eqb (l1 l2 : list Z) x :
  x ∉ l1 → (default 0 (head (l1 ++ x :: l2)) =? x) = bool_decide (l1 = []).
Proof.
  intros Hx. destruct l1 as [|y l]; [simpl; apply Z.eqb_refl|].
  rewrite bool_decide_eq_false_2 by done. apply Z.eqb_neq. set_solver.
Qed.
Lemma prev_eqb (l : list Z) : 0 ∉ l → (default 0 (last l) =? 0) = bool_decide (l = []).
Proof. apply tail_eqb. Qed.

Ltac finish_unlink d :=
  repeat st_one; erewrite call_debug_state_run by st_side;
  unfold with_rdebug, with_maps, notify; simpl; rewrite ?insert_insert_eq;
  destruct (brk d); rewrite <-?app_assoc; simpl; try reflexivity.

Lemma unlink_run s l1 lm l2 d :
  list_rep s (l1 ++ lm :: l2) → rdebugs s !! debug s = Some d → debug s ≠ 0 →
  unlink lm s = Ret (tt, unlinked s d l1 l2).
Proof.
  intros Hrep Hd Hnz. destruct (list_rep_mapped s _ lm Hrep) as [m Hm]; [set_solver|].
  destruct (node_links _ _ _ _ _ Hrep Hm) as [Hp Hn].
  pose proof Hrep as [Hnd Hnn (d' & Hd' & Hh) Ht _].
  assert (d' = d) as -> by congruence.
  apply NoDup_app in Hnd as (Hn1 & Hdisj & [Hlm Hn2]%NoDup_cons).
  assert (lm ∉ l1) as Hlm1 by (intros ?; eapply Hdisj; [done|set_solver]).
  assert (∀ x, x ∈ l1 ++ l2 → is_Some (maps s !! x)) as Hother.
  { intros x Hx. apply (list_rep_mapped _ _ _ Hrep). set_solver. }
  assert (∀ x y, x ∈ l1 → y ∈ l2 → x ≠ y) as Hne.
  { intros x y Hx Hy ->. apply (Hdisj _ Hx). set_solver. }
  rewrite last_app_cons in Ht. simpl in Ht.
  unfold unlink, unlinked, relinked, set_next_of, set_prev_of, notified_twice. repeat st_one.
  rewrite (proj2 (Z.eqb_neq _ _) Hnz). repeat st_one.
  rewrite Hp, Hn, Ht, Hh, (tail_eqb l2 lm), head_eqb, prev_eqb by set_solver.
  assert (set_map_head (map_head d) d = d) as Hd0 by by destruct d.
  assert (l1 ≠ [] → default 0 (head (l1 ++ l2)) = map_head d) as Hh1
    by (rewrite Hh; by destruct l1).
  destruct l1 as [|a l1 _] using rev_ind.
  { destruct l2 as [|b l2]; [simpl; finish_unlink d|].
    destruct (Hother b) as [mb Hmb]; [set_solver|]. simpl. erewrite alter_insert_Some by done.
    rewrite last_cons in *. finish_unlink d; rewrite Ht; by destruct (last l2). }
  destruct (Hother a) as [ma Hma]; [set_solver|].
  rewrite Hh1, Hd0, last_snoc, bool_decide_eq_false_2 by (by destruct l1). simpl.
  erewrite (alter_insert_Some _ a) by done.
  destruct l2 as [|b l2]; simpl.
  { rewrite app_nil_r, last_snoc. finish_unlink d. }
  destruct (Hother b) as [mb Hmb]; [set_solver|].
  assert (a ≠ b) by (apply Hne; set_solver).
  erewrite (alter_insert_Some _ b) by by rewrite lookup_insert_ne.
  rewrite last_app_cons, last_cons in *. finish_unlink d; rewrite Ht; by destruct (last l2).
Qed.

(** ** Runs of the loader: a new box is filled and published, or dropped *)
Inductive event := Publish (p : Z) (m : LinkMap) | Discard (p : Z).

Definition alloc_map (p : Z) (m : LinkMap) : st dstate unit := λ s,
  Ret (tt, mk (debug s) (tail s) (rdebugs s) (<[p := m]> (maps s)) (notified s)).
Definition run_event (e : event) : st dstate unit :=
  match e with
  | Publish p m => alloc_map p m;; add_debug_link_map p
  | Discard p => drop_extra_data p
  end.
Fixpoint run_events (es : list event) : st dstate unit :=
  match es with [] => mret tt | e :: es => run_event e;; run_events es end.

(** The list that the debugger is promised, and what it is told. *)
Definition spec_event (l : list Z) (e : event) : list Z :=
  match e with Publish p _ => l ++ [p] | Discard p => filter (.≠ p) l end.
Definition event_states (e : event) : list Z :=
  match e with
  | Publish _ _ => [RT_ADD; RT_CONSISTENT]
  | Discard _ => [RT_DELETE; RT_CONSISTENT]
  end.
(** The allocator returns fresh boxes; a box is dropped once. *)
Definition event_ok (l : list Z) (e : event) : Prop :=
  match e with Publish p _ => p ≠ 0 ∧ p ∉ l | Discard p => p ∈ l end.
Fixpoint events_ok (l : list Z) (es : list event) : Prop :=
  match es with [] => True | e :: es => event_ok l e ∧ events_ok (spec_event l e) es end.

Lemma list_rep_alloc s l p m s' :
  list_rep s l → p ∉ l → alloc_map p m s = Ret (tt, s') →
  list_rep s' l ∧ maps s' !! p = Some m ∧ debug s' = debug s ∧ rdebugs s' = rdebugs s
    ∧ notified s' = notified s.
Proof.
  intros [Hnd Hnn Hd Ht Hs] Hp [= <-]. split_and!; try done; [|by simpl; rewrite lookup_insert_eq].
  split; try done. by apply dseg_frame.
Qed.

Lemma add_rep s l lm m d :
  list_rep s l → lm ∉ l → lm ≠ 0 → debug s ≠ 0 → maps s !! lm = Some m →
  rdebugs s !! debug s = Some d →
  ∃ s', add_debug_link_map lm s = Ret (tt, s') ∧ list_rep s' (l ++ [lm])
    ∧ maps s' = appended s lm m ∧ debug s' = debug s
    ∧ notified s' = notified s ++ notified_twice d RT_ADD RT_CONSISTENT
    ∧ (∃ d', rdebugs s' !! debug s = Some d' ∧ brk d' = brk d ∧ state d' = RT_CONSISTENT).
Proof.
  intros Hrep Hlm Hnz Hdz Hm Hd. pose proof Hrep as [Hnd Hnn (d' & Hd' & Hh) Ht Hs].
  assert (d' = d) as -> by congruence.
  assert (tail s = 0 ∨ is_Some (maps s !! tail s) ∧ tail s ≠ lm) as Htl.
  { rewrite Ht. destruct l as [|x l _] using rev_ind; [by left|right].
    rewrite last_snoc. simpl. split; [apply (list_rep_mapped _ _ _ Hrep)|]; set_solver. }
  eexists. split; [by eapply add_run|]. simpl. split_and!; try done.
  - split; simpl.
    + apply NoDup_app. split_and!; [done|set_solver|apply NoDup_singleton].
    + set_solver.
    + eexists. rewrite lookup_insert_eq. split; [done|].
      rewrite Ht. destruct l as [|x l _] using rev_ind; [done|].
      rewrite last_snoc. simpl. rewrite (proj2 (Z.eqb_neq x 0)) by set_solver.
      simpl. rewrite Hh. by destruct l.
    + by rewrite last_snoc.
    + by apply appended_seg.
  - eexists. rewrite lookup_insert_eq. split; [done|]. by case_match.
Qed.

Lemma unlinked_rep s l1 lm l2 d :
  list_rep s (l1 ++ lm :: l2) → list_rep (unlinked s d l1 l2) (l1 ++ l2).
Proof.
  intros [Hnd Hnn _ _ Hs]. split; simpl.
  - revert Hnd. rewrite !NoDup_app, NoDup_cons. set_solver.
  - set_solver.
  - rewrite lookup_insert_eq. eauto.
  - done.
  - by eapply relinked_seg.
Qed.

Lemma free_rep s l p s' :
  list_rep s l → p ∉ l → free_map p s = Ret (tt, s') → list_rep s' l.
Proof.
  intros [Hnd Hnn Hd Ht Hs] Hp [= <-]. split; try done. by apply dseg_delete.
Qed.

Lemma drop_rep s l1 lm l2 d :
  list_rep s (l1 ++ lm :: l2) → rdebugs s !! debug s = Some d → debug s ≠ 0 →
  ∃ s', drop_extra_data lm s = Ret (tt, s') ∧ list_rep s' (l1 ++ l2)
    ∧ maps s' = delete lm (relinked (maps s) l1 l2) ∧ debug s' = debug s
    ∧ notified s' = notified s ++ notified_twice d RT_DELETE RT_CONSISTENT
    ∧ (∃ d', rdebugs s' !! debug s = Some d' ∧ brk d' = brk d ∧ state d' = RT_CONSISTENT).
Proof.
  intros Hrep Hd Hdz. unfold drop_extra_data.
  erewrite st_bind_run by (by eapply unlink_run).
  eexists. split; [done|]. split_and!; simpl; try done.
  - eapply free_rep; [by eapply unlinked_rep| |done].
    destruct Hrep as [(_ & Hdisj & [? _]%NoDup_cons)%NoDup_app _ _ _ _].
    intros [Hx|Hx]%elem_of_app; [|done]. eapply Hdisj; [done|set_solver].
  - eexists. rewrite lookup_insert_eq. done.
Qed.

(** The walk of [LinkMapIter] and the search, on a segment. *)
Lemma iter_maps_seg ms p l fuel s :
  maps s = ms → dseg ms p l 0 → 0 ∉ l → (length l < fuel)%nat →
  iter_maps fuel (default 0 (head l)) s = Ret (l, s).
Proof.
  intros Hms. revert p fuel. induction l as [|x l IH]; intros p [|fuel] Hs Hnn Hf; simpl in *; try lia; [done|].
  destruct Hs as (m & Hm & _ & Hn & Hr). rewrite (proj2 (Z.eqb_neq x 0)) by set_solver.
  rewrite <-Hms in Hm. repeat st_one. rewrite Hn.
  erewrite st_bind_run by (eapply IH; [done|set_solver|lia]). done.
Qed.

Lemma last_map_seg ms p x l fuel s :
  maps s = ms → dseg ms p (x :: l) 0 → 0 ∉ x :: l → (length l < fuel)%nat →
  last_map fuel x s = Ret (default x (last l), s).
Proof.
  intros Hms. revert p x fuel. induction l as [|y l IH]; intros p x [|fuel] Hs Hnn Hf; simpl in Hf; try lia;
    destruct Hs as (m & Hm & _ & Hn & Hr); rewrite <-Hms in Hm; simpl; repeat st_one.
  - simpl in Hn. by rewrite Hn.
  - simpl in Hn. rewrite Hn, (proj2 (Z.eqb_neq y 0)) by set_solver.
    erewrite IH; [|done|set_solver|lia]. rewrite last_cons. by destruct (last l).
Qed.

Lemma find_from_seg ms p l fuel base s :
  maps s = ms → dseg ms p l 0 → 0 ∉ l → (length l < fuel)%nat →
  find_from fuel (default 0 (head l)) base s =
    Ret (default 0 (head (filter (λ x, l_addr <$> ms !! x = Some base) l)), s).
Proof.
  intros Hms. revert p fuel. induction l as [|x l IH]; intros p [|fuel] Hs Hnn Hf; simpl in *; try lia; [done|].
  destruct Hs as (m & Hm & _ & Hn & Hr). rewrite (proj2 (Z.eqb_neq x 0)) by set_solver.
  rewrite filter_cons, Hm. simpl. rewrite <-Hms in Hm. repeat st_one.
  destruct (Z.eqb_spec (l_addr m) base) as [->|Hne]; case_decide; try done; try congruence.
  rewrite Hn. eapply IH; [done|set_solver|lia].
Qed.

End DebugList.
Module DebugListProps.
Import DebugList.

(** The invariant the debugger relies on between two operations. *)
Definition debug_inv (s : dstate) (l : list Z) : Prop :=
  debug s ≠ 0 ∧ list_rep s l
  ∧ ∃ d, rdebugs s !! debug s = Some d ∧ state d = RT_CONSISTENT.

Lemma filter_ne_id (p : Z) (l : list Z) : p ∉ l → filter (.≠ p) l = l.
Proof.
  induction l as [|x l IH]; intros Hp; [done|].
  apply not_elem_of_cons in Hp as [Hne Hp].
  by rewrite filter_cons_True, IH by congruence.
Qed.

Lemma run_event_ok s l e d :
  debug s ≠ 0 → list_rep s l → event_ok l e → rdebugs s !! debug s = Some d →
  ∃ s', run_event e s = Ret (tt, s') ∧ list_rep s' (spec_event l e) ∧ debug s' = debug s
    ∧ notified s' = notified s ++ match brk d with Some _ => event_states e | None => [] end
    ∧ (∃ d', rdebugs s' !! debug s = Some d' ∧ brk d' = brk d ∧ state d' = RT_CONSISTENT).
Proof.
  intros Hdz Hrep Hok Hd. destruct e as [p m|p]; simpl in *.
  - destruct Hok as [Hnz Hin].
    destruct (list_rep_alloc s l p m _ Hrep Hin eq_refl) as (Hrep1 & Hm & Hd1 & Hr1 & Hn1).
    destruct (add_rep _ l p m d Hrep1 Hin Hnz Hdz Hm Hd) as (s' & Hrun & Hrep' & _ & Hde & Hno & Hst).
    exists s'. split; [done|]. by split_and!.
  - apply list_elem_of_split in Hok as (l1 & l2 & ->).
    destruct (drop_rep s l1 p l2 d Hrep Hd Hdz) as (s' & Hrun & Hrep' & _ & Hde & Hno & Hst).
    exists s'. split; [done|]. split; [|by split_and!].
    rewrite filter_app, filter_cons_False by naive_solver.
    destruct Hrep as [(_ & Hdisj & [? _]%NoDup_cons)%NoDup_app _ _ _ _].
    rewrite !filter_ne_id; [done|done|]. intros Hp. eapply Hdisj; [done|set_solver].
Qed.

(** C6. The debugger's list refines the list of open libraries: any run of
    publications of fresh link maps and drops of listed ones succeeds, leaves
    a doubly linked list of exactly the expected maps in order, in the state
    [RT_CONSISTENT], and stops the debugger twice per event with the
    announcement first and [RT_CONSISTENT] second. *)
Theorem debug_list_refines s l es d :
  debug_inv s l → events_ok l es → rdebugs s !! debug s = Some d →
  ∃ s', run_events es s = Ret (tt, s')
    ∧ debug_inv s' (fold_left spec_event es l)
    ∧ notified s' = notified s ++
        match brk d with Some _ => es ≫= event_states | None => [] end.
Proof.
  revert s l d. induction es as [|e es IH]; intros s l d (Hdz & Hrep & d0 & Hd0 & Hst) Hok Hd.
  { exists s. split; [done|]. split; [by split_and!; eauto|].
    by destruct (brk d); rewrite app_nil_r. }
  destruct Hok as [He Hes].
  destruct (run_event_ok s l e d Hdz Hrep He Hd) as (s1 & Hr & Hrep1 & Hde & Hno & d1 & Hd1 & Hb & Hst1).
  rewrite <-Hde in Hd1.
  destruct (IH s1 (spec_event l e) d1) as (s' & Hrun & Hinv & Hno'); [|done|done|].
  { split_and!; [congruence|done|eauto]. }
  exists s'. simpl. erewrite st_bind_run by done. split; [done|]. split; [done|].
  rewrite Hno', Hno, Hb. destruct (brk d); simpl; by rewrite <-app_assoc.
Qed.

Lemma debug_list_refines_witness :
  let es := [Publish 16 LinkMap_zero; Publish 32 LinkMap_zero; Publish 48 LinkMap_zero;
             Discard 32; Discard 16] in
  ∃ s', run_events es init = Ret (tt, s') ∧ debug_inv s' [48]
    ∧ notified s' = [1; 0; 1; 0; 1; 0; 2; 0; 2; 0].
Proof.
  apply (debug_list_refines init [] [Publish 16 LinkMap_zero; Publish 32 LinkMap_zero;
    Publish 48 LinkMap_zero; Discard 32; Discard 16] internal_init).
  - split; [done|]. split; [|by exists internal_init].
    split; [constructor|by intros ?%elem_of_nil|by exists internal_init|done|done].
  - simpl. repeat split; try done; try apply (bool_decide_unpack _); vm_compute; done.
  - done.
Defined.

(** [add_debug_link_map] appends the map at the tail, whoever owns the
    namespace; other maps keep every field but their links, all but the old
    tail keep those too, and [l_real] of the new map is its own address (if it
    was null) in the private namespace and null in the host's. *)
Theorem add_appends s l lm m d :
  list_rep s l → lm ∉ l → lm ≠ 0 → debug s ≠ 0 →
  maps s !! lm = Some m → rdebugs s !! debug s = Some d →
  ∃ s', add_debug_link_map lm s = Ret (tt, s') ∧ list_rep s' (l ++ [lm])
    ∧ (∀ x mx, maps s !! x = Some mx → ∃ mx', maps s' !! x = Some mx' ∧ same_but_links mx mx'
        ∧ (x ≠ lm → x ≠ tail s → mx' = mx))
    ∧ (∃ m', maps s' !! lm = Some m' ∧ l_real m' =
        if debug s =? INTERNAL_GDB_DEBUG then if l_real m =? 0 then lm else l_real m else 0)
    ∧ notified s' = notified s ++
        match brk d with Some _ => [RT_ADD; RT_CONSISTENT] | None => [] end.
Proof.
  intros Hrep Hin Hnz Hdz Hm Hd.
  destruct (add_rep s l lm m d) as (s' & Hrun & Hrep' & Hms & _ & Hno & _); try done.
  exists s'. split_and!; try done.
  - rewrite Hms. intros x mx Hx. by apply appended_frame.
  - rewrite Hms. unfold appended.
    assert ((tail s =? 0) = false → tail s ≠ lm) as Hne.
    { destruct Hrep as [_ _ _ -> _]. destruct l as [|y l _] using rev_ind; [done|].
      rewrite last_snoc. set_solver. }
    exists (adopted s lm m). split.
    + repeat case_match; rewrite ?lookup_insert_ne by auto; by rewrite lookup_insert_eq.
    + unfold adopted. by repeat case_match.
Qed.

Lemma add_appends_witness :
  let s := mk 1 16 {[1 := mkRDebug 1 16 (Some 1) 0 0]}
    {[16 := set_l_real 16 LinkMap_zero; 32 := LinkMap_zero]} [] in
  ∃ s', add_debug_link_map 32 s = Ret (tt, s') ∧ list_rep s' [16; 32].
Proof.
  intros s.
  destruct (add_appends s [16] 32 LinkMap_zero (mkRDebug 1 16 (Some 1) 0 0)) as (s' & ? & ? & _);
    [|set_solver|done|done|done|done|by exists s'].
  split; [apply NoDup_singleton|set_solver|by eexists|done|].
  eexists. split_and!; done.
Defined.

(** Dropping the extra data of a listed map unlinks it wherever it stands
    (alone, first, last or in the middle) and frees it; every other map
    survives with all fields but its links, and maps outside the list are
    untouched. *)
Theorem drop_unlinks s l1 lm l2 d :
  list_rep s (l1 ++ lm :: l2) → debug s ≠ 0 → rdebugs s !! debug s = Some d →
  ∃ s', drop_extra_data lm s = Ret (tt, s') ∧ list_rep s' (l1 ++ l2)
    ∧ maps s' !! lm = None
    ∧ (∀ x mx, x ≠ lm → maps s !! x = Some mx →
        ∃ mx', maps s' !! x = Some mx' ∧ same_but_links mx mx' ∧ l_real mx' = l_real mx
          ∧ (x ∉ l1 ++ l2 → mx' = mx))
    ∧ notified s' = notified s ++
        match brk d with Some _ => [RT_DELETE; RT_CONSISTENT] | None => [] end.
Proof.
  intros Hrep Hdz Hd.
  destruct (drop_rep s l1 lm l2 d Hrep Hd Hdz) as (s' & Hrun & Hrep' & Hms & _ & Hno & _).
  exists s'. split_and!; try done; rewrite Hms; [by rewrite lookup_delete_eq|].
  intros x mx Hne Hx. rewrite lookup_delete_ne by done. by apply relinked_frame.
Qed.

Lemma drop_unlinks_witness :
  let a := set_l_real 16 (set_l_next 32 LinkMap_zero) in
  let b := set_l_prev 16 (set_l_next 48 LinkMap_zero) in
  let c := set_l_prev 32 LinkMap_zero in
  let s := mk 1 48 {[1 := mkRDebug 1 16 (Some 1) 0 0]} {[16 := a; 32 := b; 48 := c]} [] in
  ∃ s', drop_extra_data 32 s = Ret (tt, s') ∧ list_rep s' [16; 48] ∧ maps s' !! 32 = None.
Proof.
  intros a b c s.
  destruct (drop_unlinks s [16] 32 [48] (mkRDebug 1 16 (Some 1) 0 0)) as (s' & ? & ? & ? & _);
    [|done|done|by exists s'].
  split; [apply (bool_decide_unpack _); by vm_compute|set_solver|by eexists|done|].
  repeat (eexists; split_and!; try reflexivity).
Defined.

(** A map that was never published (its [l_prev] is null and it is not the
    head) is only freed: the debugger is not stopped. *)
Lemma drop_unlisted s lm m d :
  maps s !! lm = Some m → l_prev m = 0 → rdebugs s !! debug s = Some d → map_head d ≠ lm →
  drop_extra_data lm s = Ret (tt, with_maps s (delete lm (maps s))).
Proof.
  intros Hm Hp Hd Hne. unfold drop_extra_data.
  erewrite st_bind_run; [by unfold free_map, with_maps|].
  unfold unlink. repeat st_one. destruct (debug s =? 0); [done|]. repeat st_one.
  by rewrite (proj2 (Z.eqb_neq _ _) Hne), Hp.
Qed.

(** [init_host_debug] takes over the host's list: with fuel for its length
    it stops at the last map, after which the state represents that list, a
    walk visits exactly its maps and [find_host_link_map] finds the first one
    loaded at a base, or null. *)
Theorem init_host_debug_adopts s p d l fuel :
  rdebugs s !! p = Some d → p ≠ 0 → map_head d = default 0 (head l) →
  NoDup l → 0 ∉ l → dseg (maps s) 0 l 0 → (length l < fuel)%nat →
  ∃ s', init_host_debug fuel p s = Ret (tt, s') ∧ list_rep s' l ∧ maps s' = maps s
    ∧ iter_maps fuel (map_head d) s' = Ret (l, s')
    ∧ ∀ base, find_host_link_map fuel base s' =
        Ret (default 0 (head (filter (λ x, l_addr <$> maps s !! x = Some base) l)), s').
Proof.
  intros Hd Hp Hh Hnd Hnn Hs Hf.
  assert (init_host_debug fuel p s =
    Ret (tt, mk p (default 0 (last l)) (rdebugs s) (maps s) (notified s))) as Hrun.
  { unfold init_host_debug. repeat st_one. rewrite Hh. destruct l as [|x l]; simpl; [done|].
    rewrite (proj2 (Z.eqb_neq x 0)) by set_solver.
    erewrite st_bind_run; [|eapply last_map_seg; [reflexivity|done|done|simpl in Hf; lia]].
    rewrite last_cons. by destruct (last l). }
  eexists. split; [exact Hrun|]. split_and!; [|done| |].
  - split; try done. by exists d.
  - rewrite Hh. by eapply iter_maps_seg.
  - intros base. unfold find_host_link_map. st_one. cbn [debug].
    rewrite (proj2 (Z.eqb_neq p 0)) by done. repeat st_one.
    rewrite Hh. by eapply find_from_seg.
Qed.

Lemma init_host_debug_adopts_witness :
  let a := LinkMap_new 4096 0 0 0 0 0 in
  let b := LinkMap_new 8192 0 0 0 0 0 in
  let ms := {[16 := set_l_next 32 a; 32 := set_l_prev 16 b]} in
  let s := mk 1 0 {[1 := internal_init; 7 := mkRDebug 1 16 None 0 0]} ms [] in
  ∃ s', init_host_debug 3 7 s = Ret (tt, s') ∧ list_rep s' [16; 32]
    ∧ find_host_link_map 3 8192 s' = Ret (32, s').
Proof.
  intros a b ms s.
  destruct (init_host_debug_adopts s 7 (mkRDebug 1 16 None 0 0) [16; 32] 3) as (s' & H1 & H2 & H3 & _ & H4);
    [done|done|done| |set_solver| |simpl; lia|].
  - apply (bool_decide_unpack _). by vm_compute.
  - repeat (eexists; split_and!; try reflexivity).
  - exists s'. split; [exact H1|]. split; [exact H2|]. exact (H4 8192).
Defined.

(** The effect of [link_loaded_objects]. *)
Lemma link_loaded_run s l :
  NoDup l → Forall (λ p, is_Some (maps s !! p)) l →
  ∃ ms, link_loaded_objects l s = Ret (tt, with_maps s ms) ∧ dseg ms 0 l 0
    ∧ ∀ x, (x ∉ l → ms !! x = maps s !! x)
        ∧ ∀ m, maps s !! x = Some m → ∃ m', ms !! x = Some m' ∧ same_but_links m m'.
Proof.
  unfold link_loaded_objects. generalize 0 at 1 2 as p. revert s.
  induction l as [|x l IH]; intros s p Hnd Hall.
  { exists (maps s). destruct s. split; [done|]. split; [done|].
    intros x. split; [done|]. intros m Hm. by exists m. }
  apply NoDup_cons in Hnd as [Hx Hnd]. apply Forall_cons in Hall as [[m Hm] Hall].
  simpl link_from. repeat st_one.
  match goal with |- context [link_from x l ?s2] => destruct (IH s2 x Hnd) as (ms & Hrun & Hseg & Hfr) end.
  { eapply Forall_impl; [exact Hall|]. intros y Hy. simpl.
    destruct (decide (y = x)) as [->|]; [rewrite lookup_insert_eq; eauto|].
    by rewrite !lookup_insert_ne. }
  exists ms. split; [exact Hrun|]. simpl in Hfr. split.
  - eexists. split; [|split_and!; [..|exact Hseg]].
    + destruct (Hfr x) as [-> _]; [|done]. by rewrite lookup_insert_eq.
    + done.
    + done.
  - intros y. destruct (Hfr y) as [H1 H2]. destruct (decide (y = x)) as [->|Hne].
    + split; [set_solver|]. intros m0 Hm0. assert (m0 = m) as -> by congruence.
      rewrite lookup_insert_eq in H2. destruct (H2 _ eq_refl) as (m' & ? & ?). by exists m'.
    + rewrite !lookup_insert_ne in H1, H2 by done. split; [|done]. set_solver.
Qed.

(** [link_loaded_objects] turns the array of freshly loaded objects into
    one doubly linked list in array order, and touches nothing else. *)
Theorem link_loaded_objects_links s l :
  NoDup l → Forall (λ p, is_Some (maps s !! p)) l →
  ∃ ms, link_loaded_objects l s = Ret (tt, with_maps s ms) ∧ dseg ms 0 l 0
    ∧ ∀ x, (x ∉ l → ms !! x = maps s !! x)
        ∧ ∀ m, maps s !! x = Some m → ∃ m', ms !! x = Some m' ∧ same_but_links m m'.
Proof. apply link_loaded_run. Qed.

Lemma link_loaded_objects_links_witness :
  let s := mk 1 0 ∅ {[16 := LinkMap_zero; 32 := LinkMap_zero]} [] in
  ∃ ms, link_loaded_objects [32; 16] s = Ret (tt, with_maps s ms) ∧ dseg ms 0 [32; 16] 0.
Proof.
  intros s. destruct (link_loaded_objects_links s [32; 16]) as (ms & ? & ? & _).
  - apply (bool_decide_unpack _). by vm_compute.
  - repeat constructor; vm_compute; eauto.
  - by exists ms.
Defined.

End DebugListProps.
