(* ===== verification/Machine.v ===== *)
(** * Byte memory

    The memory that the raw-pointer code of the runtime linker reads and
    writes: a partial map from addresses to bytes.  An access to an address
    that is not mapped is a [Fault].  Multi-byte accesses are little-endian. *)

From Stdlib Require Import FunctionalExtensionality.
From S2P Require Import Prelude.

Module Machine.

Definition mem := Z → option Z.

Definition load8 (a : Z) : st mem Z := λ m,
  match m a with Some b => Ret (b, m) | None => Fault end.
Definition upd (m : mem) (a b : Z) : mem := λ x, if decide (x = a) then Some b else m x.
Definition store8 (a b : Z) : st mem unit := λ m,
  match m a with Some _ => Ret (tt, upd m a b) | None => Fault end.

Fixpoint load_bytes (n : nat) (a : Z) : st mem (list Z) :=
  match n with
  | O => mret []
  | S n => b ← load8 a; l ← load_bytes n (a + 1); mret (b :: l)
  end.
Fixpoint store_bytes (a : Z) (l : list Z) : st mem unit :=
  match l with
  | [] => mret tt
  | b :: l => store8 a b;; store_bytes (a + 1) l
  end.

Definition load64 (a : Z) : st mem Z := l ← load_bytes 8 a; mret (le_decode l).
Definition store64 (a v : Z) : st mem unit := store_bytes a (le_encode 8 v).
Definition load32 (a : Z) : st mem Z := l ← load_bytes 4 a; mret (le_decode l).
Definition store32 (a v : Z) : st mem unit := store_bytes a (le_encode 4 v).

(** [ptr::write_bytes]. *)
Definition write_bytes (a v n : Z) : st mem unit := store_bytes a (replicate (Z.to_nat n) v).

(** ** What the accesses do *)

Definition mapped (m : mem) (a n : Z) : Prop := ∀ x, a ≤ x < a + n → is_Some (m x).

(** The memory with [l] written at [a]. *)
Definition write (m : mem) (a : Z) (l : list Z) : mem := λ x,
  if decide (a ≤ x < a + zlen l) then l !! Z.to_nat (x - a) else m x.

(** The bytes at [a]. *)
Definition bytes_at (m : mem) (a : Z) (l : list Z) : Prop :=
  ∀ i b, l !! i = Some b → m (a + Z.of_nat i) = Some b.

Lemma mapped_le m a n a' n' : mapped m a n → a ≤ a' → a' + n' ≤ a + n → mapped m a' n'.
Proof. intros H ?? x Hx. apply H. lia. Qed.

Lemma write_inside m a l i b :
  l !! i = Some b → write m a l (a + Z.of_nat i) = Some b.
Proof.
  intros Hi. unfold write. pose proof (lookup_lt_Some _ _ _ Hi).
  rewrite decide_True by (unfold zlen; lia).
  by replace (Z.to_nat (a + Z.of_nat i - a)) with i by lia.
Qed.

Lemma write_bytes_at m a l : bytes_at (write m a l) a l.
Proof. intros i b. apply write_inside. Qed.

Lemma write_outside m a l x : x < a ∨ a + zlen l ≤ x → write m a l x = m x.
Proof. intros H. unfold write. by rewrite decide_False by lia. Qed.

Lemma write_mapped m a l b n : mapped m b n → mapped (write m a l) b n.
Proof.
  intros H x Hx. unfold write. case_decide as Hd; [|by apply H].
  apply lookup_lt_is_Some. unfold zlen in Hd. lia.
Qed.

Lemma bytes_at_write_other m a l b k :
  bytes_at m b k → b + zlen k ≤ a ∨ a + zlen l ≤ b → bytes_at (write m a l) b k.
Proof.
  intros Hb Hd i x Hi. rewrite write_outside; [by apply Hb|].
  pose proof (lookup_lt_Some _ _ _ Hi). unfold zlen in *. lia.
Qed.

Lemma bytes_at_app m a l k :
  bytes_at m a (l ++ k) ↔ bytes_at m a l ∧ bytes_at m (a + zlen l) k.
Proof.
  unfold bytes_at, zlen. split.
  - intros H. split; intros i b Hi.
    + apply H. by apply lookup_app_l_Some.
    + rewrite <-Z.add_assoc, <-Nat2Z.inj_add. apply H.
      by rewrite lookup_app_r, Nat.add_comm, Nat.add_sub by lia.
  - intros [H1 H2] i b [Hi|[Hlen Hi]]%lookup_app_Some; [by apply H1|].
    replace (Z.of_nat i) with (Z.of_nat (length l) + Z.of_nat (i - length l)) by lia.
    rewrite Z.add_assoc. by apply H2.
Qed.

Lemma bytes_at_mapped m a l : bytes_at m a l → mapped m a (zlen l).
Proof.
  intros H x Hx. unfold zlen in Hx.
  destruct (lookup_lt_is_Some_2 l (Z.to_nat (x - a))) as [b Hb]; [lia|].
  exists b. rewrite <-(H _ _ Hb). f_equal. lia.
Qed.

Lemma write_nil m a : write m a [] = m.
Proof.
  apply functional_extensionality. intros x. apply write_outside. unfold zlen. simpl. lia.
Qed.

Lemma write_cons m a b l : write (upd m a b) (a + 1) l = write m a (b :: l).
Proof.
  apply functional_extensionality. intros x. unfold write, upd. rewrite zlen_cons.
  pose proof (zlen_nonneg l).
  destruct (decide (x = a)) as [->|Hne].
  - rewrite decide_False by lia. rewrite decide_True by lia. by rewrite Z.sub_diag.
  - repeat case_decide; try lia; [|done].
    by replace (Z.to_nat (x - a)) with (S (Z.to_nat (x - (a + 1)))) by lia.
Qed.

Lemma store_bytes_run m a l :
  mapped m a (zlen l) → store_bytes a l m = Ret (tt, write m a l).
Proof.
  revert m a. induction l as [|b l IH]; intros m a Hm; simpl; [by rewrite write_nil|].
  rewrite zlen_cons in Hm. pose proof (zlen_nonneg l).
  destruct (Hm a) as [o Ho]; [lia|].
  erewrite st_bind_run by (unfold store8; by rewrite Ho).
  rewrite IH, write_cons; [done|]. intros x Hx. unfold upd. case_decide; [done|].
  apply Hm. lia.
Qed.

Lemma load_bytes_run m a l n :
  bytes_at m a l → n = length l → load_bytes n a m = Ret (l, m).
Proof.
  intros Hb ->. revert a Hb. induction l as [|b l IH]; intros a Hb; simpl; [done|].
  assert (m a = Some b) as Ha by (rewrite <-(Hb 0%nat b eq_refl); f_equal; lia).
  erewrite st_bind_run by (unfold load8; by rewrite Ha).
  erewrite st_bind_run; [done|]. apply IH. intros i x Hi.
  rewrite <-(Hb (S i) x Hi). f_equal. lia.
Qed.

Lemma mapped_bytes m a n : mapped m a n → ∃ l, bytes_at m a l ∧ zlen l = Z.max 0 n.
Proof.
  intros Hm. exists ((λ i, default 0 (m (a + Z.of_nat i))) <$> seq 0 (Z.to_nat n)). split.
  - intros i b. rewrite list_lookup_fmap.
    destruct (seq 0 (Z.to_nat n) !! i) as [j|] eqn:Hj; [|done].
    apply lookup_seq in Hj as [-> Hlt]. intros [= <-].
    destruct (Hm (a + Z.of_nat i)) as [o Ho]; [lia|]. by rewrite Ho.
  - unfold zlen. rewrite length_fmap, length_seq. lia.
Qed.

(** A word in memory. *)
Definition word_at (m : mem) (a v : Z) : Prop := bytes_at m a (le_encode 8 v).

Lemma store64_run m a v :
  mapped m a 8 → store64 a v m = Ret (tt, write m a (le_encode 8 v)).
Proof. intros. unfold store64. apply store_bytes_run. by unfold zlen; rewrite length_le_encode. Qed.

Lemma load64_run m a v : word_at m a v → in_usize v → load64 a m = Ret (v, m).
Proof.
  intros Hw Hv. unfold load64. erewrite st_bind_run by (eapply load_bytes_run; [done|by rewrite length_le_encode]).
  rewrite le_decode_encode. change (8 * Z.of_nat 8) with 64. by rewrite Z.mod_small.
Qed.

Lemma word_at_write m a v : word_at (write m a (le_encode 8 v)) a v.
Proof. apply write_bytes_at. Qed.

Lemma zlen_le_encode n v : zlen (le_encode n v) = Z.of_nat n.
Proof. unfold zlen. by rewrite length_le_encode. Qed.

Lemma word_at_write_other m a l b v :
  word_at m b v → b + 8 ≤ a ∨ a + zlen l ≤ b → word_at (write m a l) b v.
Proof. intros Hw Hd. apply bytes_at_write_other; [done|]. by rewrite zlen_le_encode. Qed.

Lemma word_at_mapped m a v : word_at m a v → mapped m a 8.
Proof. intros H%bytes_at_mapped. by rewrite zlen_le_encode in H. Qed.

Lemma write_bytes_run m a v n :
  0 ≤ n → mapped m a n → write_bytes a v n m = Ret (tt, write m a (replicate (Z.to_nat n) v)).
Proof.
  intros Hn Hm. unfold write_bytes. apply store_bytes_run.
  unfold zlen. rewrite length_replicate. by rewrite Z2Nat.id.
Qed.

Lemma zlen_replicate {A} n (x : A) : 0 ≤ n → zlen (replicate (Z.to_nat n) x) = n.
Proof. intros. unfold zlen. rewrite length_replicate. lia. Qed.

(** Two adjacent writes are one. *)
Lemma write_app m a l k : write (write m a l) (a + zlen l) k = write m a (l ++ k).
Proof.
  apply functional_extensionality. intros x. unfold write. rewrite zlen_app.
  pose proof (zlen_nonneg l). pose proof (zlen_nonneg k).
  repeat case_decide; try lia; try done.
  - rewrite lookup_app_r by (unfold zlen in *; lia). f_equal. unfold zlen in *. lia.
  - rewrite lookup_app_l by (unfold zlen in *; lia). done.
Qed.

(** A memory that holds a string of bytes at an address and nothing else. *)
Definition of_bytes (a : Z) (l : list Z) : mem := write (λ _, None) a l.

End Machine.
