(* ===== verification/Layout.v ===== *)
(** * Structures in memory

    The [repr(C)] layout of Rust: each field goes to the next multiple of its
    alignment, the size is rounded up to the alignment of the structure.  A
    structure at an address represents a finite map from field names to
    values; writing a field through a pointer is an update of that map and
    touches no other byte. *)

From S2P Require Import Prelude Machine.

Module Layout.
Import Machine.

(** Size and alignment of a type. *)
Record CType := mkType { csize : Z; calign : Z }.
Definition array (n : Z) (t : CType) : CType := mkType (n * csize t) (calign t).

Definition fields := list (string * CType).

Definition round_up (a p : Z) : Z := (p + a - 1) / a * a.

(** The fields with their offsets, from position [pos] on. *)
Fixpoint place (pos : Z) (fs : fields) : list (string * (Z * CType)) :=
  match fs with
  | [] => []
  | (n, t) :: fs => let o := round_up (calign t) pos in (n, (o, t)) :: place (o + csize t) fs
  end.
Fixpoint end_of (pos : Z) (fs : fields) : Z :=
  match fs with
  | [] => pos
  | (_, t) :: fs => end_of (round_up (calign t) pos + csize t) fs
  end.
Definition struct_align (fs : fields) : Z := foldr Z.max 1 ((λ f, calign f.2) <$> fs).
Definition struct_size (fs : fields) : Z := round_up (struct_align fs) (end_of 0 fs).
Definition struct (fs : fields) : CType := mkType (struct_size fs) (struct_align fs).

Definition field (fs : fields) (name : string) : option (Z * CType) :=
  snd ∘ snd <$> list_find (λ f, f.1 = name) (place 0 fs).
(** [offset_of!] *)
Definition offset_of (fs : fields) (name : string) : option Z := fst <$> field fs name.

(** [addr_of_mut!(self.name).write(value)]; a name that the structure does not
    have would not compile. *)
Definition write_field (fs : fields) (self : Z) (name : string) (value : Z) : st mem unit :=
  match field fs name with
  | Some (o, t) => store_bytes (self + o) (le_encode (Z.to_nat (csize t)) value)
  | None => st_fail Panic
  end.
Definition read_field (fs : fields) (self : Z) (name : string) : st mem Z :=
  match field fs name with
  | Some (o, t) => l ← load_bytes (Z.to_nat (csize t)) (self + o); mret (le_decode l)
  | None => st_fail Panic
  end.
Fixpoint write_fields (fs : fields) (self : Z) (l : list (string * Z)) : st mem unit :=
  match l with
  | [] => mret tt
  | (n, v) :: l => write_field fs self n v;; write_fields fs self l
  end.

(** The bytes of a structure without implicit padding, from the bytes of its
    fields in order; [typed] says that the fields are the ones declared. *)
Definition image (l : list (string * list Z)) : list Z := concat l.*2.
Definition typed (fs : fields) (l : list (string * list Z)) : Prop :=
  Forall2 (λ f p, f.1 = p.1 ∧ csize f.2 = zlen p.2) fs l.
Fixpoint packed (pos : Z) (fs : fields) : Prop :=
  match fs with
  | [] => True
  | (_, t) :: fs => round_up (calign t) pos = pos ∧ packed (pos + csize t) fs
  end.
#[export] Instance typed_dec fs l : Decision (typed fs l).
Proof. unfold typed. apply _. Defined.
#[export] Instance packed_dec pos fs : Decision (packed pos fs).
Proof. revert pos. induction fs as [|[n t] fs IH]; intros pos; simpl; apply _. Defined.

(** ** Layouts are sound *)
Definition type_ok (t : CType) : Prop := 0 < calign t ∧ 0 ≤ csize t.
Definition fields_ok (fs : fields) : Prop := Forall (λ f, type_ok f.2) fs ∧ NoDup fs.*1.
#[export] Instance fields_ok_dec fs : Decision (fields_ok fs).
Proof. unfold fields_ok, type_ok. apply _. Defined.

Lemma round_up_spec a p : 0 < a → p ≤ round_up a p < p + a ∧ round_up a p mod a = 0.
Proof.
  intros Ha. unfold round_up. split; [|by apply Z.mod_mul; lia].
  pose proof (Z.div_mod (p + a - 1) a). pose proof (Z.mod_pos_bound (p + a - 1) a). lia.
Qed.

Lemma end_of_ge pos fs : Forall (λ f, type_ok f.2) fs → pos ≤ end_of pos fs.
Proof.
  intros Hall. revert pos. induction Hall as [|[n t] fs [Ha Hs] Hall IH]; intros pos; simpl in *; [lia|].
  pose proof (round_up_spec (calign t) pos Ha). specialize (IH (round_up (calign t) pos + csize t)). lia.
Qed.

(** Every placed field is aligned and lies between the position and the end. *)
Lemma place_bounds pos fs n o t :
  Forall (λ f, type_ok f.2) fs → (n, (o, t)) ∈ place pos fs →
  pos ≤ o ∧ o + csize t ≤ end_of pos fs ∧ o mod calign t = 0 ∧ (n, t) ∈ fs.
Proof.
  intros Hall. revert pos. induction Hall as [|[n' t'] fs [Ha Hs] Hall IH]; intros pos Hin; simpl in *.
  { by apply elem_of_nil in Hin. }
  pose proof (round_up_spec (calign t') pos Ha) as [Hr Hm].
  apply elem_of_cons in Hin as [Heq|Hin].
  - injection Heq as -> -> ->. pose proof (end_of_ge (round_up (calign t') pos + csize t') fs Hall).
    split_and!; [lia|lia|done|left].
  - destruct (IH _ Hin) as (H1 & H2 & H3 & H4). split_and!; [lia|done|done|by right].
Qed.

(** Placed fields do not overlap: one ends before the other begins. *)
Lemma place_disjoint pos fs i j n o t n' o' t' :
  Forall (λ f, type_ok f.2) fs → (i < j)%nat →
  place pos fs !! i = Some (n, (o, t)) → place pos fs !! j = Some (n', (o', t')) → o + csize t ≤ o'.
Proof.
  intros Hall. revert pos i j. induction Hall as [|[m u] fs [Ha Hs] Hall IH]; intros pos i j Hij Hi Hj; simpl in *; [done|].
  destruct i as [|i], j as [|j]; simpl in *; try lia.
  - injection Hi as -> <- ->. apply list_elem_of_lookup_2 in Hj.
    apply place_bounds in Hj as (Hj & _); [done|done].
  - eapply IH; [|exact Hi|exact Hj]. lia.
Qed.

Lemma place_names pos fs : (place pos fs).*1 = fs.*1.
Proof. revert pos. induction fs as [|[n t] fs IH]; intros pos; simpl; [done|]. by rewrite IH. Qed.

Lemma field_place fs name o t :
  field fs name = Some (o, t) → ∃ i, place 0 fs !! i = Some (name, (o, t)).
Proof.
  unfold field. intros H. apply fmap_Some in H as ([i [n p]] & Hf & ->).
  apply list_find_Some in Hf as (Hi & Hn & _). simpl in *. subst. by exists i.
Qed.

Lemma field_disjoint fs n o t n' o' t' :
  fields_ok fs → field fs n = Some (o, t) → field fs n' = Some (o', t') → n ≠ n' →
  o + csize t ≤ o' ∨ o' + csize t' ≤ o.
Proof.
  intros [Hall _] (i & Hi)%field_place (j & Hj)%field_place Hne.
  destruct (decide (i < j)%nat); [left; by eapply place_disjoint|].
  destruct (decide (j < i)%nat); [right; by eapply place_disjoint|].
  assert (i = j) as -> by lia. congruence.
Qed.

Lemma struct_align_pos fs : 0 < struct_align fs.
Proof.
  unfold struct_align. induction fs as [|f fs IH]; [done|]. cbn [fmap list_fmap foldr]. lia.
Qed.

Lemma field_bounds fs n o t :
  fields_ok fs → field fs n = Some (o, t) →
  0 ≤ o ∧ o + csize t ≤ struct_size fs ∧ o mod calign t = 0 ∧ type_ok t.
Proof.
  intros [Hall _] (i & Hi)%field_place. apply list_elem_of_lookup_2 in Hi.
  apply place_bounds in Hi as (H1 & H2 & H3 & H4); [|done].
  pose proof (round_up_spec (struct_align fs) (end_of 0 fs) (struct_align_pos fs)) as [Hr _].
  unfold struct_size. split_and!; [done|lia|done|]. by apply (proj1 (Forall_forall _ _) Hall (n, t)).
Qed.

(** The image of a packed structure puts every field at its offset. *)
Lemma place_image m a pos fs l n o t :
  typed fs l → packed pos fs → bytes_at m (a + pos) (image l) → (n, (o, t)) ∈ place pos fs →
  ∃ bs, (n, bs) ∈ l ∧ zlen bs = csize t ∧ bytes_at m (a + o) bs.
Proof.
  intros Hty. revert pos. induction Hty as [|[n' t'] [n2 bs] fs l [Hn Hlen] Hty IH]; intros pos Hp Hb Hin.
  { by apply elem_of_nil in Hin. }
  simpl in *. subst n2. destruct Hp as [Hr Hp]. apply elem_of_cons in Hin as [Heq|Hin].
  - injection Heq as -> -> ->. exists bs. split_and!; [left|done|]. rewrite Hr.
    change (image ((n', bs) :: l)) with (bs ++ image l) in Hb. by apply bytes_at_app in Hb as [Hb _].
  - rewrite Hr in Hin. destruct (IH (pos + csize t') Hp) as (bs' & H1 & H2 & H3); [|done|].
    + change (image ((n', bs) :: l)) with (bs ++ image l) in Hb. apply bytes_at_app in Hb as [_ Hb].
      by rewrite Hlen, Z.add_assoc.
    + exists bs'. split_and!; [by right|done|done].
Qed.

(** ** A structure in memory is a map *)
Definition struct_rep (m : mem) (a : Z) (fs : fields) (vals : gmap string Z) : Prop :=
  ∀ n v, vals !! n = Some v →
    ∃ o t, field fs n = Some (o, t) ∧ bytes_at m (a + o) (le_encode (Z.to_nat (csize t)) v).

(** A change outside of the fields that the map has. *)
Lemma struct_rep_frame m m' a fs vals :
  struct_rep m a fs vals →
  (∀ n v o t, vals !! n = Some v → field fs n = Some (o, t) →
     ∀ x, a + o ≤ x < a + o + csize t → m' x = m x) →
  struct_rep m' a fs vals.
Proof.
  intros Hrep Hfr n v Hv. destruct (Hrep n v Hv) as (o & t & Hf & Hb). exists o, t. split; [done|].
  intros i b Hi. rewrite (Hfr n v o t Hv Hf); [by apply Hb|].
  apply lookup_lt_Some in Hi. rewrite length_le_encode in Hi. lia.
Qed.

Lemma write_field_run m a fs vals n v o t :
  fields_ok fs → field fs n = Some (o, t) → mapped m (a + o) (csize t) → struct_rep m a fs vals →
  ∃ m', write_field fs a n v m = Ret (tt, m') ∧ struct_rep m' a fs (<[n := v]> vals)
    ∧ (∀ x, mapped m x 1 → mapped m' x 1)
    ∧ ∀ x, x < a + o ∨ a + o + csize t ≤ x → m' x = m x.
Proof.
  intros Hok Hf Hm Hrep. pose proof (field_bounds fs n o t Hok Hf) as (_ & _ & _ & _ & Hs).
  set (l := le_encode (Z.to_nat (csize t)) v).
  assert (zlen l = csize t) as Hl by (unfold l; rewrite zlen_le_encode; lia).
  assert (∀ x, x < a + o ∨ a + o + csize t ≤ x → write m (a + o) l x = m x) as Hout
    by (intros x Hx; apply write_outside; lia).
  exists (write m (a + o) l). split_and!.
  - unfold write_field. rewrite Hf. apply store_bytes_run. fold l. by rewrite Hl.
  - intros n' v'. rewrite lookup_insert. case_decide as Hn; subst.
    + intros [= <-]. exists o, t. split; [done|]. apply write_bytes_at.
    + intros Hv'. destruct (Hrep n' v' Hv') as (o' & t' & Hf' & Hb). exists o', t'. split; [done|].
      apply bytes_at_write_other; [done|]. rewrite Hl, zlen_le_encode.
      pose proof (field_bounds fs n' o' t' Hok Hf') as (_ & _ & _ & _ & Hs').
      destruct (field_disjoint fs n' o' t' n o t Hok Hf' Hf); [congruence|lia|lia].
  - intros x Hx. by apply write_mapped.
  - exact Hout.
Qed.

Lemma store_bytes_outside a l m m' :
  store_bytes a l m = Ret (tt, m') → ∀ x, x < a ∨ a + zlen l ≤ x → m' x = m x.
Proof.
  revert a m. induction l as [|b l IH]; intros a m Hrun x Hx; [by injection Hrun as ->|].
  rewrite zlen_cons in Hx. pose proof (zlen_nonneg l).
  apply st_bind_Ret_inv in Hrun as ([] & m1 & H1 & H2). rewrite (IH (a + 1) m1 H2) by lia.
  unfold store8 in H1. destruct (m a); [|done]. injection H1 as <-. unfold upd. by rewrite decide_False by lia.
Qed.

(** Writes inside a field that the map does not have. *)
Lemma struct_rep_inside m m' a fs vals n o t :
  fields_ok fs → struct_rep m a fs vals → vals !! n = None → field fs n = Some (o, t) →
  (∀ x, x < a + o ∨ a + o + csize t ≤ x → m' x = m x) → struct_rep m' a fs vals.
Proof.
  intros Hok Hrep Hn Hf Hout. apply (struct_rep_frame m); [done|].
  intros n' v o' t' Hv Hf' x Hx. apply Hout.
  destruct (field_disjoint fs n' o' t' n o t Hok Hf' Hf); [congruence|lia|lia].
Qed.

(** Writes outside the structure. *)
Lemma struct_rep_outside m m' a fs vals :
  fields_ok fs → struct_rep m a fs vals → (∀ x, a ≤ x < a + struct_size fs → m' x = m x) →
  struct_rep m' a fs vals.
Proof.
  intros Hok Hrep Hout. apply (struct_rep_frame m); [done|].
  intros n' v o' t' Hv Hf' x Hx. apply Hout. pose proof (field_bounds fs n' o' t' Hok Hf'). lia.
Qed.

Lemma struct_rep_empty m a fs : struct_rep m a fs ∅.
Proof. intros n v. by rewrite lookup_empty. Qed.

Lemma struct_rep_lookup m a fs vals n v o t :
  struct_rep m a fs vals → vals !! n = Some v → field fs n = Some (o, t) →
  bytes_at m (a + o) (le_encode (Z.to_nat (csize t)) v).
Proof. intros Hrep Hv Hf. destruct (Hrep n v Hv) as (o' & t' & Hf' & Hb). by rewrite Hf in Hf'; injection Hf' as <- <-. Qed.

(** The image of a packed structure represents its initial values. *)
Definition initial_values (l : list (string * list Z)) : gmap string Z :=
  list_to_map ((λ p, (p.1, le_decode p.2)) <$> l).
Lemma image_rep m a fs l :
  fields_ok fs → typed fs l → packed 0 fs → Forall (λ p, Forall is_byte p.2) l → bytes_at m a (image l) →
  struct_rep m a fs (initial_values l).
Proof.
  intros Hok Hty Hp Hby Hb n v Hv. apply elem_of_list_to_map_2 in Hv.
  apply list_elem_of_fmap in Hv as ([n' bs] & [= -> ->] & Hin).
  apply list_elem_of_lookup in Hin as [i Hi].
  destruct (Forall2_lookup_r _ _ _ _ _ Hty Hi) as ([n2 t2] & Hfi & Hn2 & _). simpl in Hn2. subst n2.
  destruct (field fs n') as [[o t]|] eqn:Hf.
  - exists o, t. split; [done|]. apply field_place in Hf as (k & Hk). apply list_elem_of_lookup_2 in Hk.
    rewrite <-(Z.add_0_r a) in Hb. destruct (place_image m a 0 fs l n' o t Hty Hp Hb Hk) as (bs' & Hin' & Hlen & Hbs).
    assert (bs' = bs) as ->.
    { apply list_elem_of_lookup in Hin' as [j Hj].
      destruct (Forall2_lookup_r _ _ _ _ _ Hty Hj) as ([n3 t3] & Hfj & Hn3 & _). simpl in Hn3. subst n3.
      destruct Hok as [_ Hnd]. assert (i = j) as ->; [|congruence].
      eapply (NoDup_lookup fs.*1); [done|by rewrite list_lookup_fmap, Hfi|by rewrite list_lookup_fmap, Hfj]. }
    rewrite <-Hlen. unfold zlen. rewrite Nat2Z.id, le_encode_decode; [done|].
    exact (proj1 (Forall_lookup _ _) Hby i _ Hi).
  - exfalso. unfold field in Hf. apply fmap_None, list_find_None in Hf.
    assert (n' ∈ (place 0 fs).*1) as Hin'
      by (rewrite place_names; apply list_elem_of_fmap; exists (n', t2); split; [done|by eapply list_elem_of_lookup_2]).
    apply list_elem_of_fmap in Hin' as (f & -> & Hin'). exact (proj1 (Forall_forall _ _) Hf f Hin' eq_refl).
Qed.

Lemma mapped_mono m m' a n : (∀ x, mapped m x 1 → mapped m' x 1) → mapped m a n → mapped m' a n.
Proof.
  intros H Hm x Hx. apply (H x); [|lia]. intros y Hy. apply Hm. lia.
Qed.

(** A run of writes to fields of one structure. *)
Definition updates (l : list (string * Z)) (vals : gmap string Z) : gmap string Z :=
  foldl (λ vs p, <[p.1 := p.2]> vs) vals l.

Lemma updates_app l k vals : updates (l ++ k) vals = updates k (updates l vals).
Proof. apply foldl_app. Qed.
Lemma updates_union l vals : NoDup l.*1 → updates l vals = list_to_map l ∪ vals.
Proof.
  unfold updates. revert vals. induction l as [|[n v] l IH]; intros vals Hnd; simpl.
  { by rewrite (left_id_L ∅ (∪)). }
  apply NoDup_cons in Hnd as [Hn Hnd]. rewrite IH by done.
  rewrite <-insert_union_l, insert_union_r; [done|]. by apply not_elem_of_list_to_map_1.
Qed.
Lemma updates_lookup_ne l vals n : n ∉ l.*1 → updates l vals !! n = vals !! n.
Proof.
  unfold updates. revert vals. induction l as [|[n' v] l IH]; intros vals Hn; simpl; [done|].
  cbn [fmap list_fmap fst] in Hn. apply not_elem_of_cons in Hn as [Hne Hn].
  rewrite IH by done. by rewrite lookup_insert_ne.
Qed.

Lemma write_fields_run m a fs vals l :
  fields_ok fs → Forall (λ p, is_Some (field fs p.1)) l → mapped m a (struct_size fs) → struct_rep m a fs vals →
  ∃ m', write_fields fs a l m = Ret (tt, m')
    ∧ struct_rep m' a fs (updates l vals)
    ∧ (∀ x, mapped m x 1 → mapped m' x 1)
    ∧ (∀ x, x < a ∨ a + struct_size fs ≤ x → m' x = m x).
Proof.
  intros Hok Hl. revert m vals. induction Hl as [|[n v] l [[o t] Hf] Hl IH]; intros m vals Hm Hrep; simpl in *.
  { exists m. split_and!; done. }
  pose proof (field_bounds fs n o t Hok Hf) as (Ho & Ho2 & _ & _ & Hs).
  destruct (write_field_run m a fs vals n v o t Hok Hf) as (m1 & H1 & Hr1 & Hmap1 & Ho1);
    [eapply mapped_le; [exact Hm|lia|lia]|done|].
  destruct (IH m1 (<[n := v]> vals)) as (m2 & H2 & Hr2 & Hm2 & Ho2'); [|done|].
  { intros x Hx. apply (Hmap1 x); [|lia]. intros y Hy. apply Hm. lia. }
  exists m2. erewrite st_bind_run by exact H1. split_and!; [done|done|auto|].
  intros x Hx. rewrite Ho2' by done. apply Ho1. lia.
Qed.

(** Writes to other fields leave a field alone. *)
Lemma write_fields_apart m a fs l n o t m' :
  fields_ok fs → field fs n = Some (o, t) → n ∉ l.*1 → write_fields fs a l m = Ret (tt, m') →
  ∀ x, a + o ≤ x < a + o + csize t → m' x = m x.
Proof.
  intros Hok Hf. revert m. induction l as [|[n' v] l IH]; intros m Hn Hrun x Hx.
  { by injection Hrun as ->. }
  cbn [fmap list_fmap fst] in Hn. apply not_elem_of_cons in Hn as [Hne Hn].
  apply st_bind_Ret_inv in Hrun as ([] & m1 & H1 & H2). rewrite (IH m1 Hn H2 x Hx).
  unfold write_field in H1. destruct (field fs n') as [[o' t']|] eqn:Hf'; [|done].
  rewrite (store_bytes_outside _ _ _ _ H1); [done|]. rewrite zlen_le_encode.
  pose proof (field_bounds fs n' o' t' Hok Hf') as (_ & _ & _ & _ & Hs).
  destruct (field_disjoint fs n' o' t' n o t Hok Hf' Hf); [congruence|lia|lia].
Qed.

Lemma read_field_run m a fs vals n v o t :
  struct_rep m a fs vals → vals !! n = Some v → field fs n = Some (o, t) →
  0 ≤ v < 2 ^ (8 * csize t) → type_ok t → read_field fs a n m = Ret (v, m).
Proof.
  intros Hrep Hv Hf Hb [_ Hs]. destruct (Hrep n v Hv) as (o' & t' & Hf' & Hbytes).
  rewrite Hf in Hf'. injection Hf' as <- <-. unfold read_field. rewrite Hf.
  erewrite st_bind_run by (eapply load_bytes_run; [exact Hbytes|by rewrite length_le_encode]).
  rewrite le_decode_encode, Z.mod_small; [done|]. by rewrite Z2Nat.id.
Qed.

(** A structure with any field list is laid out soundly: every field is
    aligned, lies inside the structure and overlaps no other field. *)
Lemma layout_sound_run fs :
  fields_ok fs →
  ∀ n o t, field fs n = Some (o, t) →
    0 ≤ o ∧ o + csize t ≤ struct_size fs ∧ o mod calign t = 0
    ∧ ∀ n' o' t', n' ≠ n → field fs n' = Some (o', t') → o + csize t ≤ o' ∨ o' + csize t' ≤ o.
Proof.
  intros Hok n o t Hf. destruct (field_bounds fs n o t Hok Hf) as (H1 & H2 & H3 & _).
  split_and!; try done. intros n' o' t' Hne Hf'. by eapply field_disjoint.
Qed.

End Layout.
