(* ===== verification/Abi.v ===== *)
(** * The layout of the ABI structures (src/abi.rs)

    [LinkMap] and the structures of dladdr, dl_iterate_phdr and the debugger
    as C lays them out, the assertions of the source on [LinkMap], and the bytes
    of a link map: debuggers and libc read it by offset. *)

From S2P Require Import Prelude LinkMap Machine Layout.

Module Abi.
Import Machine Layout.

Definition word := mkType 8 8.
Definition c_int := mkType 4 4.
Definition half := mkType 2 2.

Definition CDlInfo : fields := [("dli_fname", word); ("dli_fbase", word); ("dli_sname", word); ("dli_saddr", word)].
Definition CDlPhdrInfo : fields :=
  [("dlpi_addr", word); ("dlpi_name", word); ("dlpi_phdr", word); ("dlpi_phnum", half); ("dlpi_adds", word);
   ("dlpi_subs", word); ("dlpi_tls_modid", word); ("dlpi_tls_data", word)].
Definition RDebug : fields :=
  [("version", c_int); ("map", word); ("brk", word); ("state", c_int); ("ldbase", word)].
Definition LinkMap : fields :=
  [("l_addr", word); ("l_name", word); ("l_ld", word); ("l_next", word); ("l_prev", word); ("l_real", word);
   ("l_ns", word); ("l_libname", word); ("l_info", array 84 word); ("l_phdr", word); ("l_entry", word);
   ("l_phnum", half); ("l_ldnum", half); ("_pad_after_ldnum", c_int); ("_reserved_before_tls", array 45 word);
   ("l_tls_initimage", word); ("l_tls_initimage_size", word); ("l_tls_blocksize", word); ("l_tls_align", word);
   ("l_tls_firstbyte_offset", word); ("l_tls_offset", word); ("l_tls_modid", word); ("l_tls_dtor_count", word);
   ("l_relro_addr", word); ("l_relro_size", word); ("l_serial", word)].
Definition structures : list fields := [CDlInfo; CDlPhdrInfo; RDebug; LinkMap].

(** The compile-time assertions on [LinkMap]. *)
Definition link_map_size : Z := 1208.
Definition offset_assertions : list (string * Z) :=
  [("l_tls_initimage", 1120); ("l_tls_offset", 1160); ("l_tls_modid", 1168)].

(** The bytes of a link map, field by field. *)
Definition w64 (v : Z) : list Z := le_encode 8 v.
Definition link_map_bytes (m : LinkMap.LinkMap) : list (string * list Z) :=
  [("l_addr", w64 (l_addr m)); ("l_name", w64 (l_name m)); ("l_ld", w64 (l_ld m)); ("l_next", w64 (l_next m));
   ("l_prev", w64 (l_prev m)); ("l_real", w64 (l_real m)); ("l_ns", w64 (l_ns m)); ("l_libname", w64 (l_libname m));
   ("l_info", l_info m ≫= w64); ("l_phdr", w64 (l_phdr m)); ("l_entry", w64 (l_entry m));
   ("l_phnum", le_encode 2 (l_phnum m)); ("l_ldnum", le_encode 2 (l_ldnum m)); ("_pad_after_ldnum", le_encode 4 0);
   ("_reserved_before_tls", l_reserved_before_tls m ≫= w64); ("l_tls_initimage", w64 (l_tls_initimage m));
   ("l_tls_initimage_size", w64 (l_tls_initimage_size m)); ("l_tls_blocksize", w64 (l_tls_blocksize m));
   ("l_tls_align", w64 (l_tls_align m)); ("l_tls_firstbyte_offset", w64 (l_tls_firstbyte_offset m));
   ("l_tls_offset", w64 (l_tls_offset m)); ("l_tls_modid", w64 (l_tls_modid m));
   ("l_tls_dtor_count", w64 (l_tls_dtor_count m)); ("l_relro_addr", w64 (l_relro_addr m));
   ("l_relro_size", w64 (l_relro_size m)); ("l_serial", w64 (l_serial m))].
(** The arrays have the length of their type. *)
Definition sized (m : LinkMap.LinkMap) : Prop := zlen (l_info m) = 84 ∧ zlen (l_reserved_before_tls m) = 45.
End Abi.

Module AbiProps.
Import Machine Layout Abi.

Lemma words_len l : zlen (l ≫= w64) = 8 * zlen l.
Proof.
  induction l as [|v l IH]; [done|]. rewrite bind_cons, zlen_app, zlen_cons, IH.
  change (zlen (w64 v)) with 8. lia.
Qed.

Lemma link_map_typed m : sized m → typed LinkMap (link_map_bytes m).
Proof.
  intros [Hi Hr]. unfold typed, LinkMap, link_map_bytes.
  repeat first [apply Forall2_nil_2|apply Forall2_cons_2]; (split; [done|]); cbn [fst snd]; try reflexivity;
    rewrite words_len, ?Hi, ?Hr; done.
Qed.

Lemma packed_len pos fs l : typed fs l → packed pos fs → pos + zlen (image l) = end_of pos fs.
Proof.
  intros Ht. revert pos. induction Ht as [|[n t] [n' b] fs l [_ Hb] Ht IH]; intros pos Hp; cbn [packed end_of] in *.
  - change (zlen (image [])) with 0. lia.
  - destruct Hp as [Hr Hp]. rewrite Hr, <-(IH _ Hp).
    change (image ((n', b) :: l)) with (b ++ image l). rewrite zlen_app. simpl in Hb. lia.
Qed.

Lemma typed_names fs l : typed fs l → l.*1 = fs.*1.
Proof. induction 1 as [|f p fs l [Hn _] Ht IH]; [done|]. by rewrite !fmap_cons, IH, Hn. Qed.

(** Each field of a packed structure has its bytes at its offset. *)
Lemma field_image mm a fs l n bs :
  fields_ok fs → typed fs l → packed 0 fs → bytes_at mm a (image l) → (n, bs) ∈ l →
  ∃ o t, field fs n = Some (o, t) ∧ zlen bs = csize t ∧ bytes_at mm (a + o) bs.
Proof.
  intros [_ Hnd] Hty Hp Hb Hin.
  assert (n ∈ (place 0 fs).*1) as ([n' [o t]] & -> & Hpl)%list_elem_of_fmap
    by (rewrite place_names, <-(typed_names _ _ Hty); by apply (list_elem_of_fmap_2 fst) in Hin).
  rewrite <-(Z.add_0_r a) in Hb. destruct (place_image mm a 0 fs l n' o t Hty Hp Hb Hpl) as (bs' & Hin' & Hlen & Hbs).
  assert (bs' = bs) as ->.
  { rewrite <-(typed_names _ _ Hty) in Hnd.
    apply list_elem_of_lookup in Hin as [i Hi]. apply list_elem_of_lookup in Hin' as [j Hj].
    assert (i = j) as ->; [|congruence].
    eapply (NoDup_lookup l.*1); [done|by rewrite list_lookup_fmap, Hi|by rewrite list_lookup_fmap, Hj]. }
  exists o, t. split_and!; [|done|done].
  unfold field. destruct (list_find _ (place 0 fs)) as [[k q]|] eqn:Hf.
  - apply list_find_Some in Hf as (Hk & Hq & _). apply list_elem_of_lookup in Hpl as [i Hi].
    simpl. f_equal. assert (i = k) as ->; [|by rewrite Hi in Hk; injection Hk as <-].
    rewrite (typed_names _ _ Hty), <-(place_names 0) in Hnd || rewrite <-(place_names 0) in Hnd.
    eapply (NoDup_lookup (place 0 fs).*1); [done|by rewrite list_lookup_fmap, Hi|by rewrite list_lookup_fmap, Hk; simpl; rewrite Hq].
  - apply list_find_None, Forall_forall with (x := (n', (o, t))) in Hf; [|done]. by destruct Hf.
Qed.

Lemma packed_link_map : packed 0 LinkMap.
Proof. apply (bool_decide_unpack _). vm_compute. exact I. Qed.

(** The structures have the layout that the source asserts and C readers use:
    the fields of each are aligned, inside it and apart; [LinkMap] has no
    implicit padding, the asserted size and offsets, and what the crate boxes
    is, in memory, a structure of those fields: the bytes of the map at an
    address are those of each field at its offset. *)
Theorem abi_layout (m : LinkMap.LinkMap) (a : Z) (mm : mem) :
  sized m → bytes_at mm a (image (link_map_bytes m)) →
  (∀ fs n o t, fs ∈ structures → field fs n = Some (o, t) →
     0 ≤ o ∧ o + csize t ≤ struct_size fs ∧ o mod calign t = 0
     ∧ ∀ n' o' t', n' ≠ n → field fs n' = Some (o', t') → o + csize t ≤ o' ∨ o' + csize t' ≤ o)
  ∧ zlen (image (link_map_bytes m)) = link_map_size ∧ struct_size LinkMap = link_map_size
  ∧ Forall (λ p, offset_of LinkMap p.1 = Some p.2) offset_assertions
  ∧ (∀ n bs, (n, bs) ∈ link_map_bytes m → ∃ o t, field LinkMap n = Some (o, t) ∧ zlen bs = csize t ∧ bytes_at mm (a + o) bs).
Proof.
  intros Hs Hb. assert (Forall fields_ok structures) as Hok by (apply (bool_decide_unpack _); vm_compute; exact I).
  split_and!.
  - intros fs n o t Hin Hf. by apply layout_sound_run, Hf; apply (proj1 (Forall_forall _ _) Hok).
  - pose proof (packed_len 0 LinkMap _ (link_map_typed m Hs)) as H. rewrite Z.add_0_l in H.
    rewrite H by exact packed_link_map. by vm_compute.
  - by vm_compute.
  - apply (bool_decide_unpack _); vm_compute; exact I.
  - intros n bs Hin. eapply field_image; [|by apply link_map_typed|exact packed_link_map|exact Hb|exact Hin].
    apply (proj1 (Forall_forall _ _) Hok). do 3 right. left.
Qed.

(** A map of a library at 0x7000, at address 4096. *)
Lemma abi_layout_witness :
  let m := LinkMap_new 0x7000 1 2 3 4 5 in
  let mm := of_bytes 4096 (image (link_map_bytes m)) in
  struct_size LinkMap = link_map_size
  ∧ (∃ o t, field LinkMap "l_addr" = Some (o, t) ∧ zlen (w64 0x7000) = csize t ∧ bytes_at mm (4096 + o) (w64 0x7000)).
Proof.
  intros m mm. destruct (abi_layout m 4096 mm) as (_ & _ & Hs & _ & Hf).
  - by vm_compute.
  - apply write_bytes_at.
  - split; [exact Hs|]. apply Hf. left.
Defined.
End AbiProps.
