(* ===== verification/CStr.v ===== *)
(** * C strings in memory

    Null-terminated strings as the runtime linker reads them: [c_strlen] of
    glibc/v2_39/mod.rs, [cstr_len], [cstr_eq] and [starts_with_dash] of cli.rs
    and [CStr::from_ptr(..).to_bytes()].  Each walk reads one byte at a time
    and stops at the terminator; the fuel bounds the walk and one more step
    than the length is enough. *)

From S2P Require Import Prelude Machine.

Module CStr.
Import Machine.

(** [while ptr.add(len).read() != 0 { len = len.wrapping_add(1) }] *)
Fixpoint len_loop (fuel : nat) (ptr len : Z) : st mem Z :=
  match fuel with
  | O => st_fail OutOfFuel
  | S fuel =>
      b ← load8 (ptr + len);
      if b =? 0 then mret len else len_loop fuel ptr (wrapping_add len 1)
  end.

(** [cstr_len] of the command line, [c_strlen] of the glibc globals. *)
Definition cstr_len (fuel : nat) (ptr : Z) : st mem Z := len_loop fuel ptr 0.
Definition c_strlen (fuel : nat) (ptr : Z) : st mem Z :=
  if ptr =? 0 then mret 0 else len_loop fuel ptr 0.

(** [CStr::from_ptr(ptr).to_bytes()] *)
Definition to_bytes (fuel : nat) (ptr : Z) : st mem (list Z) :=
  n ← len_loop fuel ptr 0; load_bytes (Z.to_nat n) ptr.

(** The loop of [cstr_eq], and the function. *)
Fixpoint eq_loop (ptr : Z) (expected : list Z) : st mem bool :=
  match expected with
  | [] => b ← load8 ptr; mret (b =? 0)
  | e :: expected =>
      b ← load8 ptr;
      if negb (b =? e) then mret false else eq_loop (ptr + 1) expected
  end.
Definition cstr_eq (ptr : Z) (expected : list Z) : st mem bool :=
  if ptr =? 0 then mret false else eq_loop ptr expected.

Definition starts_with_dash (arg : Z) : st mem bool :=
  if arg =? 0 then mret false else b ← load8 arg; mret (b =? 45).

(** ** What they compute *)

Lemma load8_head m p b l : bytes_at m p (b :: l) → load8 p m = Ret (b, m).
Proof.
  intros Hb. unfold load8. assert (m p = Some b) as ->; [|done].
  rewrite <-(Hb 0%nat b eq_refl). f_equal. lia.
Qed.

(** The bytes of a C string: none is zero. *)
Definition chars (s : list Z) : Prop := Forall (λ b, 0 < b < 256) s.
#[export] Instance chars_dec s : Decision (chars s).
Proof. unfold chars. apply _. Defined.

Definition cstr_at (m : mem) (p : Z) (s : list Z) : Prop := chars s ∧ bytes_at m p (s ++ [0]).

Lemma cstr_at_frame m m' p s :
  cstr_at m p s → (∀ x, p ≤ x ≤ p + zlen s → m' x = m x) → cstr_at m' p s.
Proof.
  intros [Hc Hb] Hf. split; [done|]. intros i b Hi. rewrite Hf; [by apply Hb|].
  apply lookup_lt_Some in Hi. rewrite length_app in Hi. simpl in Hi. unfold zlen. lia.
Qed.

(** A string in memory is determined by its address. *)
Lemma cstr_at_inj m p s t : cstr_at m p s → cstr_at m p t → s = t.
Proof.
  revert p t. induction s as [|x s IH]; intros p [|y t] [Hs Hbs] [Ht Hbt]; [done| | |].
  - pose proof (Hbs 0%nat 0 eq_refl) as H1. pose proof (Hbt 0%nat y eq_refl) as H2.
    rewrite H1 in H2. injection H2 as <-. apply Forall_inv in Ht. lia.
  - pose proof (Hbs 0%nat x eq_refl) as H1. pose proof (Hbt 0%nat 0 eq_refl) as H2.
    rewrite H1 in H2. injection H2 as ->. apply Forall_inv in Hs. lia.
  - pose proof (Hbs 0%nat x eq_refl) as H1. pose proof (Hbt 0%nat y eq_refl) as H2.
    rewrite H1 in H2. injection H2 as <-. f_equal.
    apply Forall_cons in Hs as [_ Hs]. apply Forall_cons in Ht as [_ Ht].
    apply (IH (p + 1)); (split; [done|]); intros i b Hi;
      [rewrite <-(Hbs (S i) b Hi)|rewrite <-(Hbt (S i) b Hi)]; f_equal; lia.
Qed.

Lemma cstr_at_load m p s i b :
  cstr_at m p s → s !! i = Some b → load8 (p + Z.of_nat i) m = Ret (b, m) ∧ 0 < b < 256.
Proof.
  intros [Hc Hb] Hi. split; [|exact (proj1 (Forall_lookup _ _) Hc i b Hi)].
  unfold load8. rewrite (Hb i b); [done|]. by apply lookup_app_l_Some.
Qed.
Lemma cstr_at_end m p s : cstr_at m p s → load8 (p + zlen s) m = Ret (0, m).
Proof.
  intros [_ Hb]. unfold load8, zlen. rewrite (Hb (length s) 0); [done|].
  rewrite lookup_app_r by lia. by rewrite Nat.sub_diag.
Qed.

Lemma len_loop_run m p s k fuel :
  cstr_at m p s → zlen s < 2 ^ 64 → (k ≤ length s)%nat → (length s - k < fuel)%nat →
  len_loop fuel p (Z.of_nat k) m = Ret (zlen s, m).
Proof.
  intros Hs Hlen. revert k. induction fuel as [|fuel IH]; intros k Hk Hf; [lia|].
  cbn [len_loop]. destruct (decide (k = length s)) as [->|Hne].
  - erewrite st_bind_run by exact (cstr_at_end m p s Hs). done.
  - destruct (lookup_lt_is_Some_2 s k) as [b Hb]; [lia|].
    destruct (cstr_at_load m p s k b Hs Hb) as [Hl Hb0].
    erewrite st_bind_run by exact Hl. destruct (Z.eqb_spec b 0); [lia|].
    replace (wrapping_add (Z.of_nat k) 1) with (Z.of_nat (S k)); [apply IH; lia|].
    unfold wrapping_add, zlen in *. rewrite wrap_small; unfold in_usize; lia.
Qed.

Lemma cstr_len_run m p s fuel :
  cstr_at m p s → zlen s < 2 ^ 64 → (length s < fuel)%nat → cstr_len fuel p m = Ret (zlen s, m).
Proof. intros. apply (len_loop_run m p s 0 fuel); (done || lia). Qed.

Lemma c_strlen_run m p s fuel :
  p ≠ 0 → cstr_at m p s → zlen s < 2 ^ 64 → (length s < fuel)%nat → c_strlen fuel p m = Ret (zlen s, m).
Proof.
  intros Hp ???. unfold c_strlen. destruct (Z.eqb_spec p 0); [done|]. by apply cstr_len_run.
Qed.

Lemma cstr_load m p s : cstr_at m p s → load_bytes (Z.to_nat (zlen s)) p m = Ret (s, m).
Proof.
  intros [_ Hb]. apply bytes_at_app in Hb as [Hb _]. apply load_bytes_run; [done|unfold zlen; lia].
Qed.

Lemma to_bytes_run m p s fuel :
  cstr_at m p s → zlen s < 2 ^ 64 → (length s < fuel)%nat → to_bytes fuel p m = Ret (s, m).
Proof.
  intros Hs ??. unfold to_bytes. erewrite st_bind_run by (by apply (len_loop_run m p s 0 fuel); (done || lia)).
  by apply cstr_load.
Qed.

(** [cstr_eq] decides equality with the expected bytes. *)
Lemma eq_loop_run m p s expected :
  cstr_at m p s → chars expected → eq_loop p expected m = Ret (bool_decide (s = expected), m).
Proof.
  intros Hs He. revert p s Hs. induction He as [|e expected He Hall IH]; intros p s [Hc Hb]; cbn [eq_loop].
  - destruct s as [|b s].
    + erewrite st_bind_run by (exact (load8_head _ _ _ _ Hb)). done.
    + apply Forall_cons in Hc as [Hb0 _].
      erewrite st_bind_run by (exact (load8_head _ _ _ _ Hb)).
      destruct (Z.eqb_spec b 0); [lia|done].
  - destruct s as [|b s].
    + erewrite st_bind_run by (exact (load8_head _ _ _ _ Hb)).
      destruct (Z.eqb_spec 0 e); [lia|done].
    + erewrite st_bind_run by (exact (load8_head _ _ _ _ Hb)).
      destruct (Z.eqb_spec b e) as [->|Hne]; cbn [negb].
      * rewrite (IH (p + 1) s).
        -- f_equal. f_equal. apply bool_decide_ext. split; [by intros ->|by intros [= ->]].
        -- apply Forall_cons in Hc as [_ Hc]. split; [done|]. intros i x Hi. rewrite <-(Hb (S i) x Hi).
           f_equal. lia.
      * rewrite bool_decide_eq_false_2; [done|]. congruence.
Qed.

Lemma cstr_eq_run m p s expected :
  p ≠ 0 → cstr_at m p s → chars expected → cstr_eq p expected m = Ret (bool_decide (s = expected), m).
Proof.
  intros Hp ??. unfold cstr_eq. destruct (Z.eqb_spec p 0); [done|]. by apply eq_loop_run.
Qed.

Lemma starts_with_dash_run m p s :
  p ≠ 0 → cstr_at m p s → starts_with_dash p m = Ret (bool_decide (head s = Some 45), m).
Proof.
  intros Hp [Hc Hb]. unfold starts_with_dash. destruct (Z.eqb_spec p 0); [done|].
  destruct s as [|b s].
  - erewrite st_bind_run by (exact (load8_head _ _ _ _ Hb)). done.
  - erewrite st_bind_run by (exact (load8_head _ _ _ _ Hb)).
    destruct (Z.eqb_spec b 45) as [->|Hne]; [done|]. rewrite bool_decide_eq_false_2; [done|]. simpl. congruence.
Qed.

End CStr.
