(* ===== verification/MemRoutines.v ===== *)
(** * The C memory routines of the runtime linker

    rtld/impl/src/memory.rs supplies [memcpy], [memmove], [memset], [memcmp],
    [bcmp] and [strlen].  Each is proved against its contract: the effect on
    the memory of the machine, overlapping regions included. *)

From Stdlib Require Import FunctionalExtensionality.
From S2P Require Import Prelude Machine.

Module MemRoutines.
Import Machine.

(** [while index < len]; the fuel is [len]. *)
Fixpoint copy_up (fuel : nat) (dst src len index : Z) : st mem unit :=
  match fuel with
  | O => if index <? len then st_fail OutOfFuel else mret tt
  | S fuel =>
      if index <? len then
        b ← load8 (src + index);
        store8 (dst + index) b;;
        copy_up fuel dst src len (index + 1)
      else mret tt
  end.
Definition memcpy (dst src len : Z) : st mem Z :=
  copy_up (Z.to_nat len) dst src len 0;; mret dst.

(** [while index != 0], downwards. *)
Fixpoint copy_down (fuel : nat) (dst src index : Z) : st mem unit :=
  match fuel with
  | O => if index =? 0 then mret tt else st_fail OutOfFuel
  | S fuel =>
      if index =? 0 then mret tt
      else
        let index := index - 1 in
        b ← load8 (src + index);
        store8 (dst + index) b;;
        copy_down fuel dst src index
  end.
Definition memmove (dst src len : Z) : st mem Z :=
  if dst <=? src then memcpy dst src len
  else copy_down (Z.to_nat len) dst src len;; mret dst.

Fixpoint set_up (fuel : nat) (dst value len index : Z) : st mem unit :=
  match fuel with
  | O => if index <? len then st_fail OutOfFuel else mret tt
  | S fuel =>
      if index <? len then
        store8 (dst + index) (as_u8 value);;
        set_up fuel dst value len (index + 1)
      else mret tt
  end.
Definition memset (dst value len : Z) : st mem Z :=
  set_up (Z.to_nat len) dst value len 0;; mret dst.

Fixpoint cmp_up (fuel : nat) (left right len index : Z) : st mem Z :=
  match fuel with
  | O => if index <? len then st_fail OutOfFuel else mret 0
  | S fuel =>
      if index <? len then
        lhs ← load8 (left + index);
        rhs ← load8 (right + index);
        if lhs =? rhs then cmp_up fuel left right len (index + 1)
        else mret (lhs - rhs)
      else mret 0
  end.
Definition memcmp (left right len : Z) : st mem Z := cmp_up (Z.to_nat len) left right len 0.
Definition bcmp (left right len : Z) : st mem Z := memcmp left right len.

(** [strlen] walks until the first zero byte; the fuel bounds the walk. *)
Fixpoint str_end (fuel : nat) (ptr : Z) : st mem Z :=
  match fuel with
  | O => st_fail OutOfFuel
  | S fuel => b ← load8 ptr; if b =? 0 then mret ptr else str_end fuel (ptr + 1)
  end.
Definition strlen (fuel : nat) (ptr : Z) : st mem Z :=
  e ← str_end fuel ptr; mret (wrapping_sub e ptr).

(** ** Lemmas *)
Lemma load8_run m a b : m a = Some b → load8 a m = Ret (b, m).
Proof. unfold load8. by intros ->. Qed.
Lemma store8_run m a b : is_Some (m a) → store8 a b m = Ret (tt, upd m a b).
Proof. intros [o Ho]. unfold store8. by rewrite Ho. Qed.

(** A copy upwards is right when the destination does not lie above the
    source or the regions are disjoint. *)
Lemma copy_up_run fuel m dst src index l :
  (dst ≤ src ∨ src + (index + zlen l) ≤ dst) → 0 ≤ index → (length l ≤ fuel)%nat →
  bytes_at m (src + index) l → mapped m (dst + index) (zlen l) →
  copy_up fuel dst src (index + zlen l) index m = Ret (tt, write m (dst + index) l).
Proof.
  revert fuel m index. induction l as [|b l IH]; intros fuel m index Hdir Hi Hf Hs Hd.
  { rewrite write_nil. unfold zlen. simpl. rewrite Z.add_0_r.
    destruct fuel; simpl; by rewrite Z.ltb_irrefl. }
  pose proof (zlen_nonneg l). rewrite zlen_cons in *.
  destruct fuel as [|fuel]; [simpl in Hf; lia|]. simpl.
  rewrite (proj2 (Z.ltb_lt _ _)) by lia.
  change (b :: l) with ([b] ++ l) in Hs. apply bytes_at_app in Hs as [Hb Hs].
  specialize (Hb 0%nat b eq_refl). rewrite Z.add_0_r in Hb.
  erewrite st_bind_run by (by apply load8_run).
  erewrite st_bind_run by (apply store8_run, Hd; lia).
  replace (index + (zlen l + 1)) with (index + 1 + zlen l) by lia.
  rewrite IH; [| lia | lia | simpl in Hf; lia | |].
  - by rewrite Z.add_assoc, write_cons.
  - intros i x Hx. unfold upd. pose proof (lookup_lt_Some _ _ _ Hx). unfold zlen in *.
    rewrite decide_False by lia. rewrite <-(Hs i x Hx). f_equal. simpl. lia.
  - intros x Hx. unfold upd. case_decide; [done|]. apply Hd. lia.
Qed.

Lemma write_snoc m a b l : write (upd m (a + zlen l) b) a l = write m a (l ++ [b]).
Proof.
  apply functional_extensionality. intros x. unfold write, upd. rewrite zlen_app.
  change (zlen [b]) with 1. pose proof (zlen_nonneg l).
  repeat case_decide; try lia; try done.
  - rewrite lookup_app_l by (unfold zlen in *; lia). done.
  - subst. rewrite lookup_app_r by (unfold zlen; lia).
    by replace (Z.to_nat (a + zlen l - a) - length l)%nat with 0%nat by (unfold zlen; lia).
Qed.

Lemma copy_down_run fuel m dst src l :
  src ≤ dst → (length l ≤ fuel)%nat → bytes_at m src l → mapped m dst (zlen l) →
  copy_down fuel dst src (zlen l) m = Ret (tt, write m dst l).
Proof.
  intros Hdir. revert fuel m. induction l as [|b l IH] using rev_ind; intros fuel m Hf Hs Hd.
  { rewrite write_nil. by destruct fuel. }
  pose proof (zlen_nonneg l). rewrite zlen_app in *. change (zlen [b]) with 1 in *.
  rewrite length_app in Hf. simpl in Hf. destruct fuel as [|fuel]; [lia|]. simpl.
  rewrite (proj2 (Z.eqb_neq _ _)) by lia.
  replace (zlen l + 1 - 1) with (zlen l) by lia.
  apply bytes_at_app in Hs as [Hs Hb]. specialize (Hb 0%nat b eq_refl). rewrite Z.add_0_r in Hb.
  erewrite st_bind_run by (by apply load8_run).
  erewrite st_bind_run by (apply store8_run, Hd; lia).
  rewrite IH; [by rewrite write_snoc|lia| |].
  - intros i x Hx. unfold upd. pose proof (lookup_lt_Some _ _ _ Hx). unfold zlen in *.
    rewrite decide_False by lia. by apply Hs.
  - intros x Hx. unfold upd. case_decide; [done|]. apply Hd. lia.
Qed.

Lemma memcpy_run m dst src l :
  (dst ≤ src ∨ src + zlen l ≤ dst) → bytes_at m src l → mapped m dst (zlen l) →
  memcpy dst src (zlen l) m = Ret (dst, write m dst l).
Proof.
  intros Hdir Hs Hd. unfold memcpy. replace (zlen l) with (0 + zlen l) at 2 by lia.
  erewrite st_bind_run; [done|]. rewrite copy_up_run with (l := l).
  - by rewrite Z.add_0_r.
  - lia.
  - done.
  - unfold zlen. lia.
  - by rewrite Z.add_0_r.
  - by rewrite Z.add_0_r.
Qed.

Lemma set_up_run fuel m dst value n index :
  0 ≤ n → 0 ≤ index → (Z.to_nat n ≤ fuel)%nat → mapped m (dst + index) n →
  set_up fuel dst value (index + n) index m =
    Ret (tt, write m (dst + index) (replicate (Z.to_nat n) (as_u8 value))).
Proof.
  intros Hn. revert index m fuel. pattern n. apply natlike_ind; [..|exact Hn]; clear n Hn.
  - intros index m fuel _ _ _. rewrite write_nil, Z.add_0_r.
    destruct fuel; simpl; by rewrite Z.ltb_irrefl.
  - intros n Hn IH index m fuel Hi Hf Hm. rewrite Z2Nat.inj_succ in * by done.
    destruct fuel as [|fuel]; [lia|]. simpl. rewrite (proj2 (Z.ltb_lt _ _)) by lia.
    erewrite st_bind_run by (apply store8_run, Hm; lia).
    replace (index + Z.succ n) with (index + 1 + n) by lia.
    rewrite IH; [by rewrite Z.add_assoc, write_cons|lia|lia|].
    intros x Hx. unfold upd. case_decide; [done|]. apply Hm. lia.
Qed.

(** The first difference of two byte strings of one length. *)
Fixpoint first_diff (l k : list Z) : Z :=
  match l, k with
  | x :: l, y :: k => if x =? y then first_diff l k else x - y
  | _, _ => 0
  end.

Lemma cmp_up_run fuel m left right index l k :
  length l = length k → (length l ≤ fuel)%nat →
  bytes_at m (left + index) l → bytes_at m (right + index) k →
  cmp_up fuel left right (index + zlen l) index m = Ret (first_diff l k, m).
Proof.
  revert fuel index k. induction l as [|x l IH]; intros fuel index [|y k] Hl Hf H1 H2; try done.
  { unfold zlen. simpl. rewrite Z.add_0_r. destruct fuel; simpl; by rewrite Z.ltb_irrefl. }
  pose proof (zlen_nonneg l). rewrite zlen_cons in *.
  destruct fuel as [|fuel]; [simpl in Hf; lia|]. simpl.
  rewrite (proj2 (Z.ltb_lt _ _)) by lia.
  change (x :: l) with ([x] ++ l) in H1. apply bytes_at_app in H1 as [Hx H1].
  change (y :: k) with ([y] ++ k) in H2. apply bytes_at_app in H2 as [Hy H2].
  specialize (Hx 0%nat x eq_refl). specialize (Hy 0%nat y eq_refl). rewrite Z.add_0_r in Hx, Hy.
  erewrite st_bind_run by (by apply load8_run).
  erewrite st_bind_run by (by apply load8_run).
  destruct (x =? y); [|done]. replace (index + (zlen l + 1)) with (index + 1 + zlen l) by lia.
  simpl in Hl, Hf. apply IH; [lia|lia| |]; by rewrite Z.add_assoc.
Qed.

Lemma str_cmp_first_diff l k :
  length l = length k → str_cmp l k = (first_diff l k ?= 0).
Proof.
  revert k. induction l as [|x l IH]; intros [|y k] Hl; try done. simpl.
  destruct (Z.compare_spec x y) as [->|Hlt|Hgt].
  - rewrite Z.eqb_refl. apply IH. by injection Hl.
  - rewrite (proj2 (Z.eqb_neq _ _)) by lia. symmetry. apply Z.compare_lt_iff. lia.
  - rewrite (proj2 (Z.eqb_neq _ _)) by lia. symmetry. apply Z.compare_gt_iff. lia.
Qed.

Lemma first_diff_range l k : Forall is_byte l → Forall is_byte k → -255 ≤ first_diff l k ≤ 255.
Proof.
  intros Hl. revert k. induction Hl as [|x l Hx Hl IH]; intros [|y k] Hk; simpl; try lia.
  apply Forall_cons in Hk as [Hy Hk]. unfold is_byte in *. case_match; [by apply IH|lia].
Qed.

Lemma str_end_run fuel m ptr l :
  0 ∉ l → bytes_at m ptr (l ++ [0]) → (length l < fuel)%nat →
  str_end fuel ptr m = Ret (ptr + zlen l, m).
Proof.
  revert fuel ptr. induction l as [|x l IH]; intros fuel ptr Hnz Hb Hf;
    (destruct fuel as [|fuel]; [simpl in Hf; lia|]); simpl.
  - specialize (Hb 0%nat 0 eq_refl). rewrite Z.add_0_r in Hb.
    erewrite st_bind_run by (by apply load8_run). simpl. by rewrite Z.add_0_r.
  - change ((x :: l) ++ [0]) with ([x] ++ (l ++ [0])) in Hb. apply bytes_at_app in Hb as [Hx Hb].
    specialize (Hx 0%nat x eq_refl). rewrite Z.add_0_r in Hx.
    erewrite st_bind_run by (by apply load8_run).
    rewrite (proj2 (Z.eqb_neq x 0)) by set_solver.
    rewrite IH; [|set_solver|done|simpl in Hf; lia]. rewrite zlen_cons. do 2 f_equal. lia.
Qed.

End MemRoutines.

Module MemRoutinesProps.
Import Machine MemRoutines.

(** [memmove] copies correctly however the regions overlap: the
    destination then holds exactly the bytes the source held before, and
    nothing else changes. *)
Theorem memmove_correct m dst src l :
  bytes_at m src l → mapped m dst (zlen l) →
  ∃ m', memmove dst src (zlen l) m = Ret (dst, m') ∧ bytes_at m' dst l
    ∧ ∀ x, x < dst ∨ dst + zlen l ≤ x → m' x = m x.
Proof.
  intros Hs Hd. exists (write m dst l). split_and!.
  - unfold memmove. destruct (Z.leb_spec dst src).
    + apply memcpy_run; [by left|done|done].
    + erewrite st_bind_run; [done|]. apply copy_down_run; [lia|unfold zlen; lia|done|done].
  - apply write_bytes_at.
  - intros x Hx. by apply write_outside.
Qed.

Lemma memmove_correct_witness :
  ∃ m', memmove 102 100 4 (of_bytes 100 [1; 2; 3; 4; 5; 6]) = Ret (102, m')
    ∧ bytes_at m' 102 [1; 2; 3; 4].
Proof.
  destruct (memmove_correct (of_bytes 100 [1; 2; 3; 4; 5; 6]) 102 100 [1; 2; 3; 4])
    as (m' & H1 & H2 & _); [| |by exists m'].
  - pose proof (write_bytes_at (λ _, None) 100 ([1; 2; 3; 4] ++ [5; 6])) as H.
    by apply bytes_at_app in H as [H _].
  - eapply mapped_le; [apply bytes_at_mapped, write_bytes_at|done|done].
Defined.

(** [memcmp] (and [bcmp]) returns a difference of two bytes whose sign is
    the lexicographic order of the two regions, hence 0 exactly when they hold
    the same bytes; memory is not changed. *)
Theorem memcmp_correct m left right l k :
  bytes_at m left l → bytes_at m right k → length l = length k →
  Forall is_byte l → Forall is_byte k →
  ∃ r, memcmp left right (zlen l) m = Ret (r, m) ∧ bcmp left right (zlen l) m = Ret (r, m)
    ∧ (r ?= 0) = str_cmp l k ∧ (r = 0 ↔ l = k) ∧ -255 ≤ r ≤ 255.
Proof.
  intros H1 H2 Hl Hb1 Hb2. exists (first_diff l k).
  assert (memcmp left right (zlen l) m = Ret (first_diff l k, m)) as Hrun.
  { unfold memcmp. replace (zlen l) with (0 + zlen l) at 2 by lia.
    apply cmp_up_run; [done|unfold zlen; lia| |]; by rewrite Z.add_0_r. }
  split_and!; try done.
  - by rewrite str_cmp_first_diff.
  - rewrite <-str_cmp_eq, str_cmp_first_diff by done. by rewrite Z.compare_eq_iff.
  - by apply first_diff_range.
  - by apply first_diff_range.
Qed.

Lemma memcmp_correct_witness :
  ∃ r, memcmp 100 103 3 (of_bytes 100 [1; 2; 3; 1; 4; 0])
    = Ret (r, of_bytes 100 [1; 2; 3; 1; 4; 0]) ∧ (r ?= 0) = Lt.
Proof.
  pose proof (write_bytes_at (λ _, None) 100 ([1; 2; 3] ++ [1; 4; 0])) as H.
  apply bytes_at_app in H as [H1 H2].
  destruct (memcmp_correct (of_bytes 100 [1; 2; 3; 1; 4; 0]) 100 103 [1; 2; 3] [1; 4; 0])
    as (r & Hr & _ & Hs & _); [done|done|done| | |by exists r].
  - apply (bool_decide_unpack _). by vm_compute.
  - apply (bool_decide_unpack _). by vm_compute.
Defined.

(** [strlen] stops at the first zero byte and returns the length before
    it, with any fuel larger than that length. *)
Theorem strlen_correct m ptr l fuel :
  bytes_at m ptr (l ++ [0]) → 0 ∉ l → (length l < fuel)%nat → zlen l < 2 ^ 64 →
  strlen fuel ptr m = Ret (zlen l, m).
Proof.
  intros Hb Hnz Hf Hlen. unfold strlen. erewrite st_bind_run by (by apply str_end_run).
  unfold mret, st_ret. do 2 f_equal. unfold wrapping_sub.
  replace (ptr + zlen l - ptr) with (zlen l) by lia. apply wrap_small.
  split; [apply zlen_nonneg|done].
Qed.

Lemma strlen_correct_witness :
  strlen 10 100 (of_bytes 100 [108; 105; 98; 0]) = Ret (3, of_bytes 100 [108; 105; 98; 0]).
Proof.
  apply (strlen_correct (of_bytes 100 [108; 105; 98; 0]) 100 [108; 105; 98] 10).
  - apply write_bytes_at.
  - set_solver.
  - simpl. lia.
  - done.
Defined.

(** [memset] fills the region with the low byte of its argument. *)
Lemma memset_correct m dst value n :
  0 ≤ n → mapped m dst n →
  memset dst value n m = Ret (dst, write m dst (replicate (Z.to_nat n) (as_u8 value))).
Proof.
  intros Hn Hm. unfold memset. erewrite st_bind_run; [done|].
  replace n with (0 + n) at 2 by lia. rewrite set_up_run; try done; by rewrite Z.add_0_r.
Qed.

End MemRoutinesProps.
