(* ===== verification/Heap.v ===== *)
(** * The page allocator of the runtime linker (rtld/impl/src/runtime.rs)

    [RtldAllocator] serves every Rust allocation of the linker straight from
    [mmap].  The kernel is a parameter: where [mmap] puts a mapping, with its
    documented behaviour as laws; what the mapping does to memory is modelled. *)

From Stdlib Require Import FunctionalExtensionality.
From S2P Require Import Prelude Machine.

(** The kernel: where an anonymous mapping of a size goes ([None] on error),
    and the result of [arch_prctl] on a code and an address. *)
Class Kernel := {
  mmap_at : Machine.mem → Z → option Z;
  arch_prctl : Z → Z → Z }.

(** [mmap(NULL, ..)] returns a fresh page-aligned range of user addresses. *)
Class KernelLaws `{Kernel} : Prop := {
  mmap_fresh m size a :
    mmap_at m size = Some a → 0 < size →
    0 < a ∧ a mod 4096 = 0 ∧ a + size ≤ 2 ^ 47 ∧ ∀ x, a ≤ x < a + size → m x = None }.

Module Heap.
Import Machine.

(** [core::alloc::Layout] *)
Record Layout := mkLayout { lsize : Z; lalign : Z }.
Definition from_size_align (size align : Z) : option Layout :=
  if is_power_of_two align && (size <=? 2 ^ 63 - align) then Some (mkLayout size align) else None.

#[export] Instance Layout_eq_dec : EqDecision Layout.
Proof. solve_decision. Defined.

Definition page_rounded_size `{Build} (layout : Layout) : outcome Z :=
  let size := Z.max (lsize layout) (lalign layout) in
  s ← uadd size 4095; mret (Z.land s (not_usize 4095)).

(** A fresh private anonymous mapping is zero. *)
Definition map_pages (a size : Z) : st mem unit := λ m,
  Ret (tt, λ x, if decide (a ≤ x < a + size) then Some 0 else m x).
Definition unmap_pages (a size : Z) : st mem unit := λ m,
  Ret (tt, λ x, if decide (a ≤ x < a + size) then None else m x).

(** [GlobalAlloc::alloc]: null when [mmap] fails. *)
Definition alloc `{Build, Kernel} (layout : Layout) : st mem Z :=
  size ← st_lift (page_rounded_size layout);
  m ← st_get;
  match mmap_at m size with
  | Some ptr => map_pages ptr size;; mret ptr
  | None => mret 0
  end.
Definition dealloc `{Build} (ptr : Z) (layout : Layout) : st mem unit :=
  size ← st_lift (page_rounded_size layout);
  unmap_pages ptr size.
(** [GlobalAlloc::alloc_zeroed], the trait's default. *)
Definition alloc_zeroed `{Build, Kernel} (layout : Layout) : st mem Z :=
  ptr ← alloc layout;
  if ptr =? 0 then mret 0 else write_bytes ptr 0 (lsize layout);; mret ptr.

(** The volatile copy loop of [realloc]; its fuel is [copy_len]. *)
Fixpoint copy_loop (fuel : nat) (ptr new_ptr copy_len offset : Z) : st mem unit :=
  match fuel with
  | O => if offset <? copy_len then st_fail OutOfFuel else mret tt
  | S fuel =>
      if offset <? copy_len then
        byte ← load8 (ptr + offset);
        store8 (new_ptr + offset) byte;;
        copy_loop fuel ptr new_ptr copy_len (wrapping_add offset 1)
      else mret tt
  end.
Definition realloc `{Build, Kernel} (ptr : Z) (layout : Layout) (new_size : Z) : st mem Z :=
  match from_size_align (Z.max new_size 1) (lalign layout) with
  | None => mret 0
  | Some new_layout =>
      new_ptr ← alloc new_layout;
      if new_ptr =? 0 then mret 0
      else
        let copy_len := Z.min (lsize layout) new_size in
        copy_loop (Z.to_nat copy_len) ptr new_ptr copy_len 0;;
        dealloc ptr layout;;
        mret new_ptr
  end.

(** A layout that [Layout::from_size_align] accepts. *)
Definition layout_ok (l : Layout) : Prop :=
  0 ≤ lsize l ∧ ∃ k, 0 ≤ k < 63 ∧ lalign l = 2 ^ k ∧ lsize l ≤ 2 ^ 63 - 2 ^ k.

Lemma from_size_align_ok size align l :
  from_size_align size align = Some l → 0 ≤ size → 
  l = mkLayout size align ∧ (align < 2 ^ 63 → layout_ok l).
Proof.
  unfold from_size_align. destruct (is_power_of_two align) eqn:Hp; [|done].
  destruct (Z.leb_spec size (2 ^ 63 - align)) as [Hle|]; [|done].
  intros [= <-] Hs. split; [done|]. intros Ha. split; [done|]. simpl.
  apply is_power_of_two_spec in Hp as (k & Hk & ->). exists k. split; [|done].
  split; [done|]. apply (Z.pow_lt_mono_r_iff 2); lia.
Qed.

(** The size of the mapping: the layout's size (or alignment) rounded up to
    whole pages, never zero, without overflow. *)
Definition round_page (n : Z) : Z := (n + 4095) / 4096 * 4096.

Lemma round_page_bounds n : 0 < n → n ≤ round_page n < n + 4096 ∧ round_page n mod 4096 = 0.
Proof.
  intros Hn. unfold round_page. split; [|apply Z.mod_mul; lia].
  pose proof (Z.div_mod (n + 4095) 4096). pose proof (Z.mod_pos_bound (n + 4095) 4096). lia.
Qed.

Lemma page_rounded_size_run `{Build} l :
  layout_ok l → page_rounded_size l = Ret (round_page (Z.max (lsize l) (lalign l))).
Proof.
  intros (Hs & k & Hk & Ha & Hle). unfold page_rounded_size. rewrite Ha in *.
  assert (0 < 2 ^ k < 2 ^ 63) by (split; [apply Z.pow_pos_nonneg|apply Z.pow_lt_mono_r]; lia).
  u_small. unfold mret, outcome_ret. f_equal.
  change 4095 with (2 ^ 12 - 1) at 2. rewrite land_not_mask; [|lia|unfold in_usize; lia].
  unfold round_page. change (2 ^ 12) with 4096.
  pose proof (Z.div_mod (Z.max (lsize l) (2 ^ k) + 4095) 4096). lia.
Qed.

(** What [alloc_zeroed] gives: a fresh, page-aligned, zeroed block. *)
Record fresh_block (m : mem) (l : Layout) (a : Z) (m' : mem) : Prop := {
  fb_pos : 0 < a;
  fb_page : a mod 4096 = 0;
  fb_end : a + round_page (Z.max (lsize l) (lalign l)) ≤ 2 ^ 47;
  fb_fresh : ∀ x, a ≤ x < a + round_page (Z.max (lsize l) (lalign l)) → m x = None;
  fb_mapped : mapped m' a (round_page (Z.max (lsize l) (lalign l)));
  fb_zero : bytes_at m' a (replicate (Z.to_nat (lsize l)) 0);
  fb_frame : ∀ x, is_Some (m x) → m' x = m x;
  fb_outside : ∀ x, ¬ (a ≤ x < a + round_page (Z.max (lsize l) (lalign l))) → m' x = m x }.

Lemma layout_ok_size l : layout_ok l → 0 < Z.max (lsize l) (lalign l) ∧ 0 ≤ lsize l.
Proof.
  intros (Hs & k & Hk & Ha & _). assert (0 < 2 ^ k) by (apply Z.pow_pos_nonneg; lia). lia.
Qed.

Lemma alloc_run `{Build, Kernel} l m :
  layout_ok l →
  let size := round_page (Z.max (lsize l) (lalign l)) in
  alloc l m = match mmap_at m size with
              | Some a => Ret (a, λ x, if decide (a ≤ x < a + size) then Some 0 else m x)
              | None => Ret (0, m)
              end.
Proof.
  intros Hl size. unfold alloc.
  erewrite st_bind_run by (unfold st_lift; by rewrite page_rounded_size_run).
  rewrite st_bind_get. fold size. by destruct (mmap_at m size).
Qed.

Lemma alloc_zeroed_run `{Build, KernelLaws} l m :
  layout_ok l →
  (alloc_zeroed l m = Ret (0, m) ∧ mmap_at m (round_page (Z.max (lsize l) (lalign l))) = None ∨
   ∃ a m', alloc_zeroed l m = Ret (a, m') ∧ fresh_block m l a m').
Proof.
  intros Hl. destruct (layout_ok_size l Hl) as [Hpos Hs].
  destruct (round_page_bounds _ Hpos) as [Hr _].
  set (size := round_page (Z.max (lsize l) (lalign l))) in *.
  pose proof (alloc_run l m Hl) as Halloc. fold size in Halloc. simpl in Halloc.
  unfold alloc_zeroed. destruct (mmap_at m size) as [a|] eqn:Hm; [right|left].
  - destruct (mmap_fresh _ _ _ Hm) as (Ha & Hpg & Hend & Hfresh); [lia|].
    erewrite st_bind_run by done. rewrite (proj2 (Z.eqb_neq a 0)) by lia.
    erewrite st_bind_run.
    2:{ apply write_bytes_run; [done|]. intros x Hx. rewrite decide_True by lia. eauto. }
    eexists a, _. split; [done|]. split; fold size; try done.
    + apply write_mapped. intros x Hx. rewrite decide_True by done. eauto.
    + apply write_bytes_at.
    + intros x Hx. rewrite write_outside; [|rewrite zlen_replicate by done].
      * case_decide as Hd; [|done]. rewrite Hfresh in Hx by done. by destruct Hx.
      * destruct (decide (x < a)); [by left|right]. destruct (decide (x < a + size)); [|lia].
        rewrite Hfresh in Hx by lia. by destruct Hx.
    + intros x Hx. rewrite write_outside; [|rewrite zlen_replicate by done; lia].
      by rewrite decide_False.
  - split; [by erewrite st_bind_run by done|done].
Qed.

Lemma fresh_block_bytes m l a m' b k :
  fresh_block m l a m' → bytes_at m b k → bytes_at m' b k.
Proof. intros Hf Hb i x Hi. rewrite (fb_frame _ _ _ _ Hf); [by apply Hb|]. rewrite (Hb i x Hi). eauto. Qed.

Lemma fresh_block_mapped m l a m' b n :
  fresh_block m l a m' → mapped m b n → mapped m' b n.
Proof. intros Hf Hb x Hx. rewrite (fb_frame _ _ _ _ Hf); by apply Hb. Qed.

Lemma dealloc_run `{Build} a l m :
  layout_ok l →
  dealloc a l m = Ret (tt, λ x, if decide (a ≤ x < a + round_page (Z.max (lsize l) (lalign l)))
                               then None else m x).
Proof.
  intros Hl. unfold dealloc.
  by erewrite st_bind_run by (unfold st_lift; by rewrite page_rounded_size_run).
Qed.

Lemma copy_loop_run fuel m ptr new_ptr offset l :
  (ptr + (offset + zlen l) ≤ new_ptr ∨ new_ptr + (offset + zlen l) ≤ ptr) →
  0 ≤ offset → offset + zlen l < 2 ^ 64 → (length l ≤ fuel)%nat →
  bytes_at m (ptr + offset) l → mapped m (new_ptr + offset) (zlen l) →
  copy_loop fuel ptr new_ptr (offset + zlen l) offset m = Ret (tt, write m (new_ptr + offset) l).
Proof.
  revert fuel m offset. induction l as [|b l IH]; intros fuel m offset Hdisj Ho Hlen Hf Hs Hd.
  { rewrite write_nil. unfold zlen. simpl. rewrite Z.add_0_r.
    destruct fuel; simpl; by rewrite Z.ltb_irrefl. }
  pose proof (zlen_nonneg l). rewrite zlen_cons in *.
  destruct fuel as [|fuel]; [simpl in Hf; lia|]. simpl.
  rewrite (proj2 (Z.ltb_lt _ _)) by lia.
  change (b :: l) with ([b] ++ l) in Hs. apply bytes_at_app in Hs as [Hb Hs].
  specialize (Hb 0%nat b eq_refl). rewrite Z.add_0_r in Hb.
  erewrite st_bind_run by (unfold load8; by rewrite Hb).
  destruct (Hd (new_ptr + offset)) as [o Hno]; [lia|].
  erewrite st_bind_run by (unfold store8; by rewrite Hno).
  unfold wrapping_add. rewrite wrap_small by (unfold in_usize; lia).
  replace (offset + (zlen l + 1)) with (offset + 1 + zlen l) by lia.
  rewrite IH; [by rewrite Z.add_assoc, write_cons|lia|lia|lia|simpl in Hf; lia| |].
  - intros i x Hx. unfold upd. pose proof (lookup_lt_Some _ _ _ Hx). unfold zlen in *.
    rewrite decide_False by lia. rewrite <-(Hs i x Hx). f_equal. simpl. lia.
  - intros x Hx. unfold upd. case_decide; [done|]. apply Hd. lia.
Qed.

(** A kernel for concrete runs: the first of some candidate ranges that is
    free; [arch_prctl] succeeds. *)
Definition range_free (m : mem) (a : Z) (n : nat) : bool :=
  forallb (λ i, match m (a + Z.of_nat i) with None => true | Some _ => false end) (seq 0 n).
Definition demo_mmap (candidates : list Z) (m : mem) (size : Z) : option Z :=
  if (0 <? size) && (size <=? 2 ^ 40)
  then head (filter (λ a, range_free m a (Z.to_nat size) = true) candidates) else None.
Definition kernel_at (candidates : list Z) : Kernel :=
  {| mmap_at := demo_mmap candidates; arch_prctl _ _ := 0 |}.
(** Small mappings at 1, 2 or 3 MiB, large ones at 16 MiB. *)
Definition split_kernel : Kernel :=
  {| mmap_at m size := demo_mmap (if size <=? 65536 then [0x100000; 0x200000; 0x300000] else [0x1000000]) m size;
     arch_prctl _ _ := 0 |}.
Definition demo_kernel : Kernel := kernel_at [0x100000; 0x200000; 0x300000; 0x400000].

Lemma range_free_spec m a n :
  range_free m a n = true → ∀ x, a ≤ x < a + Z.of_nat n → m x = None.
Proof.
  unfold range_free. rewrite forallb_forall. intros H x Hx.
  specialize (H (Z.to_nat (x - a))). rewrite in_seq in H.
  replace (a + Z.of_nat (Z.to_nat (x - a))) with x in H by lia.
  destruct (m x); [|done]. discriminate H. lia.
Qed.

Lemma range_free_true m a n : (∀ x, a ≤ x < a + Z.of_nat n → m x = None) → range_free m a n = true.
Proof.
  intros H. unfold range_free. apply forallb_forall. intros i Hi%in_seq. by rewrite H by lia.
Qed.

Lemma demo_mmap_free c cs m size :
  0 < size ≤ 2 ^ 40 → (∀ x, c ≤ x < c + size → m x = None) → demo_mmap (c :: cs) m size = Some c.
Proof.
  intros Hs Hm. unfold demo_mmap. rewrite (proj2 (Z.ltb_lt _ _)), (proj2 (Z.leb_le _ _)) by lia.
  cbv iota beta delta [andb]. rewrite filter_cons_True; [done|].
  apply range_free_true. intros x Hx. apply Hm. lia.
Qed.

Lemma demo_mmap_some c cs m size :
  0 < size ≤ 2 ^ 40 → c ∈ cs → (∀ x, c ≤ x < c + size → m x = None) → demo_mmap cs m size ≠ None.
Proof.
  intros Hs Hc Hm. unfold demo_mmap. rewrite (proj2 (Z.ltb_lt _ _)), (proj2 (Z.leb_le _ _)) by lia.
  cbv iota beta delta [andb].
  assert (c ∈ filter (λ a, range_free m a (Z.to_nat size) = true) cs) as Hin.
  { apply list_elem_of_filter. split; [|done]. apply range_free_true. intros x Hx. apply Hm. lia. }
  destruct (filter _ _); [by apply elem_of_nil in Hin|done].
Qed.

Lemma kernel_at_laws candidates :
  Forall (λ a, 0 < a ∧ a mod 4096 = 0 ∧ a ≤ 2 ^ 46) candidates → @KernelLaws (kernel_at candidates).
Proof.
  intros Hc. split. intros m size a Hm _. revert Hm. unfold mmap_at, kernel_at, demo_mmap.
  destruct (Z.ltb_spec 0 size) as [Hs|]; [|done].
  destruct (Z.leb_spec size (2 ^ 40)) as [Hs2|]; [|done]. simpl andb. cbv iota.
  intros Hh. assert (a ∈ filter (λ a, range_free m a (Z.to_nat size) = true) candidates) as Hin.
  { destruct (filter _ _); [done|]. injection Hh as ->. set_solver. }
  apply list_elem_of_filter in Hin as [Hf Hin].
  rewrite Forall_forall in Hc. destruct (Hc a Hin) as (? & ? & ?).
  split_and!; [done|done|lia|].
  intros x Hx. eapply range_free_spec; [done|]. lia.
Qed.

Lemma split_kernel_laws : @KernelLaws split_kernel.
Proof.
  split. intros m size a. unfold mmap_at at 1, split_kernel.
  assert (∀ cs, Forall (λ a, 0 < a ∧ a mod 4096 = 0 ∧ a ≤ 2 ^ 46) cs → @KernelLaws (kernel_at cs)) as Hc
    by (intros cs; apply kernel_at_laws).
  destruct (size <=? 65536).
  - apply (@mmap_fresh _ (Hc [0x100000; 0x200000; 0x300000] ltac:(by repeat constructor))).
  - apply (@mmap_fresh _ (Hc [0x1000000] ltac:(by repeat constructor))).
Qed.

Lemma demo_kernel_laws : @KernelLaws demo_kernel.
Proof. apply kernel_at_laws. apply (bool_decide_unpack _). by vm_compute. Qed.

End Heap.

Module HeapProps.
Import Machine Heap.

(** C38. [realloc] never loses data: it returns either null, leaving memory as
    it was, or a fresh page-aligned block that begins with the old contents
    (up to the smaller size), has given back the pages of the old block and
    left every other byte alone. *)
Theorem realloc_preserves `{Build, KernelLaws} m ptr l new_size k :
  layout_ok l → 0 ≤ new_size < 2 ^ 64 → lalign l < 2 ^ 63 →
  zlen k = Z.min (lsize l) new_size → bytes_at m ptr k →
  mapped m ptr (round_page (Z.max (lsize l) (lalign l))) →
  realloc ptr l new_size m = Ret (0, m) ∨
  ∃ a m', realloc ptr l new_size m = Ret (a, m') ∧ 0 < a ∧ a mod 4096 = 0
    ∧ bytes_at m' a k ∧ mapped m' a new_size
    ∧ (∀ x, ptr ≤ x < ptr + round_page (Z.max (lsize l) (lalign l)) → m' x = None)
    ∧ (∀ x, is_Some (m x) → ¬ (ptr ≤ x < ptr + round_page (Z.max (lsize l) (lalign l))) → m' x = m x).
Proof.
  intros Hl Hns Hal Hk Hb Hm. unfold realloc.
  destruct (from_size_align (Z.max new_size 1) (lalign l)) as [nl|] eqn:Hnl; [|by left].
  apply from_size_align_ok in Hnl as [Hnl Hok]; [|lia]. specialize (Hok Hal).
  destruct (layout_ok_size nl Hok) as [Hpos _]. destruct (round_page_bounds _ Hpos) as [Hr _].
  pose proof (alloc_run nl m Hok) as Ha. simpl in Ha.
  set (nsize := round_page (Z.max (lsize nl) (lalign nl))) in *.
  destruct (layout_ok_size l Hl) as [Hpos' Hls].
  destruct (round_page_bounds _ Hpos') as [Hr' _].
  set (osize := round_page (Z.max (lsize l) (lalign l))) in *.
  destruct (mmap_at m nsize) as [a|] eqn:Hmm; [right|left; by erewrite st_bind_run by done].
  destruct (mmap_fresh _ _ _ Hmm) as (Ha0 & Hpg & Hend & Hfresh); [lia|].
  assert (new_size ≤ lsize nl) as Hnls by (rewrite Hnl; simpl; lia).
  assert (ptr + osize ≤ a ∨ a + nsize ≤ ptr) as Hdisj.
  { destruct (decide (ptr + osize ≤ a)); [by left|]. destruct (decide (a + nsize ≤ ptr)); [by right|].
    destruct (Hm (Z.max ptr a)) as [o Ho]; [lia|]. rewrite Hfresh in Ho by lia. done. }
  erewrite st_bind_run by done. rewrite (proj2 (Z.eqb_neq a 0)) by lia.
  set (m1 := λ x, if decide (a ≤ x < a + nsize) then Some 0 else m x) in *.
  assert (mapped m1 a nsize) as Hm1.
  { intros x Hx. unfold m1. rewrite decide_True by done. eauto. }
  replace (Z.min (lsize l) new_size) with (0 + zlen k) by lia.
  erewrite st_bind_run.
  2:{ rewrite copy_loop_run with (l := k); [done|lia|done|lia|unfold zlen; lia| |].
      - rewrite Z.add_0_r. intros i x Hi. unfold m1.
        pose proof (lookup_lt_Some _ _ _ Hi). unfold zlen in Hk. rewrite decide_False by lia. by apply Hb.
      - rewrite Z.add_0_r. eapply mapped_le; [done|lia|lia]. }
  rewrite Z.add_0_r. erewrite st_bind_run by (by apply dealloc_run). fold osize.
  eexists a, _. split; [done|]. split_and!; try done.
  - intros i x Hi. pose proof (lookup_lt_Some _ _ _ Hi). unfold zlen in Hk.
    rewrite decide_False by lia. by apply write_inside.
  - intros x Hx. rewrite decide_False by lia. apply (write_mapped m1 a k a nsize); [done|lia].
  - intros x Hx. by rewrite decide_True.
  - intros x [o Ho] Hx. rewrite decide_False by done.
    assert (¬ (a ≤ x < a + nsize)) as Hna by (intros ?; rewrite Hfresh in Ho; done).
    rewrite write_outside; [|lia]. unfold m1. by rewrite decide_False.
Qed.

Lemma realloc_preserves_witness :
  let B : Build := Build_Build true X86_64 in
  let m : mem := λ x, if decide (8192 ≤ x < 12288) then Some 7 else None in
  realloc (H0 := demo_kernel) 8192 (mkLayout 3 1) 100 m = Ret (0, m) ∨
  ∃ a m', realloc (H0 := demo_kernel) 8192 (mkLayout 3 1) 100 m = Ret (a, m')
    ∧ bytes_at m' a [7; 7; 7] ∧ m' 8192 = None.
Proof.
  intros B m.
  destruct (@realloc_preserves B demo_kernel demo_kernel_laws m 8192 (mkLayout 3 1) 100 [7; 7; 7])
    as [Hn|(a & m' & Hr & _ & _ & Hb & _ & Hu & _)].
  - split; [simpl; lia|]. exists 0. simpl. lia.
  - lia.
  - done.
  - done.
  - intros i b Hi. pose proof (lookup_lt_Some _ _ _ Hi) as Hlt. simpl in Hlt. unfold m.
    rewrite decide_True by lia. destruct i as [|[|[|i]]]; simpl in Hi; done || lia.
  - intros x Hx. unfold m. rewrite decide_True; [eauto|]. exact Hx.
  - by left.
  - right. exists a, m'. split; [done|]. split; [done|]. apply Hu.
    split; [done|]. by vm_compute.
Defined.

(** The pages a layout is served with: enough for its size and alignment,
    less than a page more, never overflowing. *)
Lemma page_rounded_size_ok `{Build} l :
  layout_ok l →
  ∃ n, page_rounded_size l = Ret n ∧ lsize l ≤ n ∧ lalign l ≤ n
    ∧ n < Z.max (lsize l) (lalign l) + 4096 ∧ n mod 4096 = 0 ∧ n ≤ 2 ^ 63.
Proof.
  intros Hl. destruct (layout_ok_size l Hl) as [Hpos _].
  exists (round_page (Z.max (lsize l) (lalign l))). split; [by apply page_rounded_size_run|].
  destruct (round_page_bounds _ Hpos) as [Hr Hm]. split_and!; try lia.
  destruct Hl as (_ & k & Hk & Ha & Hle).
  assert (lalign l ≤ 2 ^ 62) by (rewrite Ha; apply Z.pow_le_mono_r; lia).
  assert (Z.max (lsize l) (lalign l) ≤ 2 ^ 63) by lia.
  unfold round_page. change (2 ^ 63) with (2 ^ 51 * 4096).
  apply Z.mul_le_mono_nonneg_r; [lia|]. apply Z.lt_succ_r, Z.div_lt_upper_bound; lia.
Qed.

(** Blocks are aligned as asked up to the page size. *)
Lemma alloc_zeroed_aligned `{Build, KernelLaws} l m a m' :
  layout_ok l → lalign l ≤ 4096 → alloc_zeroed l m = Ret (a, m') → a mod lalign l = 0.
Proof.
  intros Hl Hle Ha. destruct (alloc_zeroed_run l m Hl) as [[Hn _]|(a' & m2 & Hr & Hf)].
  - rewrite Hn in Ha. injection Ha as <- <-. by rewrite Zmod_0_l.
  - rewrite Hr in Ha. injection Ha as -> ->. pose proof (fb_page _ _ _ _ Hf) as Hp.
    destruct Hl as (_ & k & Hk & Hak & _). rewrite Hak in *.
    assert (k ≤ 12) by (apply (Z.pow_le_mono_r_iff 2); lia).
    apply Z.mod_divide; [apply Z.pow_nonzero; lia|].
    apply (Z.divide_trans _ 4096); [|by apply Z.mod_divide].
    exists (2 ^ (12 - k)). rewrite <-Z.pow_add_r by lia. by replace (12 - k + k) with 12 by lia.
Qed.

(** [GlobalAlloc] asks for a block aligned to the layout; above the page
    size the allocator does not provide it: it only rounds the size up. *)
Theorem over_aligned_alloc :
  let K := kernel_at [0x101000] in
  KernelLaws ∧
  let l := mkLayout 16 8192 in
  from_size_align 16 8192 = Some l ∧
  ∃ m', @alloc (Build_Build true X86_64) K l (λ _, None) = Ret (0x101000, m') ∧ 0x101000 mod lalign l ≠ 0.
Proof.
  split; [apply kernel_at_laws, (bool_decide_unpack _); by vm_compute|].
  intros l. split; [reflexivity|]. eexists. split; [|done].
  rewrite (@alloc_run (Build_Build true X86_64) (kernel_at [0x101000])) by (split; [done|exists 13; simpl; lia]).
  unfold mmap_at, kernel_at, demo_mmap.
  replace (range_free (λ _, None) 0x101000) with (λ _ : nat, true); [reflexivity|].
  apply functional_extensionality. intros n. symmetry. unfold range_free. apply forallb_forall.
  done.
Qed.

End HeapProps.
