(* ===== verification/Dtv.v ===== *)
(** * Thread control block and dynamic thread vector (glibc/v2_39/tls.rs)

    The TCB fields that the linker sets up at the thread pointer, and the DTV:
    an allocated array of two-word slots with its length in the slot before
    the one the TCB points to. *)

From Stdlib Require Import FunctionalExtensionality.
From S2P Require Import Prelude Machine Heap.

Module Dtv.
Import Machine Heap.

Definition TCB_SELF_OFFSET : Z := 0.
Definition TCB_DTV_OFFSET : Z := 8.
Definition TCB_THREAD_SELF_OFFSET : Z := 16.
Definition TCB_STACK_GUARD_OFFSET : Z := 40.
Definition TCB_POINTER_GUARD_OFFSET : Z := 48.
Definition DTV_SLOT_COUNT : Z := 64.
Definition BOOTSTRAP_STACK_GUARD : Z := 0x2f6a5d1b3c4e8790.
Definition BOOTSTRAP_POINTER_GUARD : Z := 0x6b431d2984a07c5e.

(** [DtvEntry { first, second }]: two words. *)
Definition DTV_ENTRY_SIZE : Z := 16.
Definition entry_first (entry : Z) : Z := entry.
Definition entry_second (entry : Z) : Z := entry + 8.

(** [Layout::array::<DtvEntry>] *)
Definition array_layout (slots : Z) : option Layout :=
  if slots * DTV_ENTRY_SIZE <=? 2 ^ 63 - 8 then Some (mkLayout (slots * DTV_ENTRY_SIZE) 8) else None.

Section with_kernel.
Context `{Build, Kernel}.

(** A null result is an abort ([handle_alloc_error]). *)
Definition allocate_dtv : st mem Z :=
  match array_layout (DTV_SLOT_COUNT + 2) with
  | None => st_fail Panic
  | Some layout =>
      base ← alloc_zeroed layout;
      if base =? 0 then st_fail Panic
      else store64 (entry_first base) DTV_SLOT_COUNT;; mret (base + DTV_ENTRY_SIZE)
  end.

Definition dtv_entry (tp mod_id : Z) : st mem (option Z) :=
  if (tp =? 0) || (mod_id =? 0) then mret None
  else
    dtv ← load64 (tp + TCB_DTV_OFFSET);
    if dtv =? 0 then mret None
    else
      len ← load64 (entry_first (dtv - DTV_ENTRY_SIZE));
      if mod_id >? len then mret None else mret (Some (dtv + mod_id * DTV_ENTRY_SIZE)).

Definition dtv_value (tp mod_id : Z) : st mem (option Z) :=
  entry ←!? dtv_entry tp mod_id;
  value ← load64 (entry_first entry);
  mret (if value =? 0 then None else Some value).

Definition set_dtv_value (tp mod_id value to_free : Z) : st mem bool :=
  entry ← dtv_entry tp mod_id;
  match entry with
  | None => mret false
  | Some entry =>
      store64 (entry_first entry) value;;
      store64 (entry_second entry) to_free;;
      mret true
  end.

Definition deallocate_tcb (tp : Z) : st mem unit :=
  if tp =? 0 then mret tt
  else
    dtv ← load64 (tp + TCB_DTV_OFFSET);
    if dtv =? 0 then mret tt
    else
      let base := dtv - DTV_ENTRY_SIZE in
      first ← load64 (entry_first base);
      let slots := saturating_add first 2 in
      (match array_layout slots with
       | Some layout => dealloc base layout
       | None => mret tt
       end);;
      store64 (tp + TCB_DTV_OFFSET) 0.

Definition init_tcb (tp : Z) : st mem unit :=
  deallocate_tcb tp;;
  dtv ← allocate_dtv;
  store64 (tp + TCB_SELF_OFFSET) tp;;
  store64 (tp + TCB_DTV_OFFSET) dtv;;
  store64 (tp + TCB_THREAD_SELF_OFFSET) tp;;
  store64 (tp + TCB_STACK_GUARD_OFFSET) BOOTSTRAP_STACK_GUARD;;
  store64 (tp + TCB_POINTER_GUARD_OFFSET) BOOTSTRAP_POINTER_GUARD.

End with_kernel.

(** ** The DTV as an abstract map from module ids to slots *)

(** The TCB at [tp] has a DTV at [dtv] whose slot [i] holds [slots i]; TCB and
    DTV do not overlap. *)
Record dtv_rep (m : mem) (tp dtv : Z) (slots : Z → Z * Z) : Prop := {
  dr_tp : 0 < tp < 2 ^ 63;
  dr_dtv : 16 < dtv < 2 ^ 63;
  dr_sep : dtv + 65 * 16 ≤ tp ∨ tp + 64 ≤ dtv - 16;
  dr_ptr : word_at m (tp + TCB_DTV_OFFSET) dtv;
  dr_len : word_at m (dtv - 16) DTV_SLOT_COUNT;
  dr_slots i : 1 ≤ i ≤ DTV_SLOT_COUNT →
    word_at m (dtv + 16 * i) (slots i).1 ∧ word_at m (dtv + 16 * i + 8) (slots i).2
    ∧ in_usize (slots i).1 ∧ in_usize (slots i).2 }.

Definition set_slot (slots : Z → Z * Z) (i : Z) (v : Z * Z) : Z → Z * Z :=
  λ j, if decide (j = i) then v else slots j.

(** Every word of the TCB can be written. *)
Definition tcb_mapped (m : mem) (tp : Z) : Prop := mapped m tp 64.

Lemma dtv_entry_run m tp dtv slots i :
  dtv_rep m tp dtv slots → 0 ≤ i →
  dtv_entry tp i m =
    Ret (if decide (1 ≤ i ≤ DTV_SLOT_COUNT) then Some (dtv + 16 * i) else None, m).
Proof.
  intros [Htp Hdtv _ Hptr Hlen _] Hi. unfold dtv_entry.
  rewrite (proj2 (Z.eqb_neq tp 0)) by lia. cbv beta iota delta [orb].
  destruct (Z.eqb_spec i 0) as [->|Hnz]; cbv beta iota; [by rewrite decide_False by lia|].
  erewrite st_bind_run by (apply load64_run; [done|unfold in_usize; lia]).
  rewrite (proj2 (Z.eqb_neq dtv 0)) by lia.
  unfold entry_first, DTV_ENTRY_SIZE in *.
  erewrite st_bind_run by (by apply load64_run).
  destruct (Z.gtb_spec i DTV_SLOT_COUNT).
  - by rewrite decide_False by lia.
  - rewrite decide_True by lia. unfold mret, st_ret. do 3 f_equal. lia.
Qed.

Lemma dtv_value_run m tp dtv slots i :
  dtv_rep m tp dtv slots → 0 ≤ i →
  dtv_value tp i m =
    Ret (if decide (1 ≤ i ≤ DTV_SLOT_COUNT ∧ (slots i).1 ≠ 0) then Some (slots i).1 else None, m).
Proof.
  intros Hr Hi. unfold dtv_value, try_some. erewrite st_bind_run by (by eapply dtv_entry_run).
  case_decide as Hin; [|by rewrite decide_False by tauto].
  destruct (dr_slots _ _ _ _ Hr i Hin) as (H1 & _ & H3 & _).
  unfold entry_first. erewrite st_bind_run by (by apply load64_run).
  destruct (Z.eqb_spec (slots i).1 0); case_decide; try done; tauto.
Qed.

(** Writing away from TCB and DTV keeps them. *)
Lemma dtv_rep_write m tp dtv slots a l :
  dtv_rep m tp dtv slots →
  (a + zlen l ≤ tp + 8 ∨ tp + 16 ≤ a) → (a + zlen l ≤ dtv - 16 ∨ dtv + 65 * 16 ≤ a) →
  dtv_rep (write m a l) tp dtv slots.
Proof.
  intros [Htp Hdtv Hsep Hptr Hlen Hs] H1 H2. unfold TCB_DTV_OFFSET, DTV_SLOT_COUNT in *.
  split; try done.
  - apply word_at_write_other; [done|unfold TCB_DTV_OFFSET; lia].
  - apply word_at_write_other; [done|lia].
  - intros i Hi. unfold DTV_SLOT_COUNT in *. destruct (Hs i Hi) as (? & ? & ? & ?).
    split_and!; try done; apply word_at_write_other; try done; lia.
Qed.

(** Beyond the last slot there is nothing to write. *)
Lemma set_dtv_value_beyond m tp dtv slots i v f :
  dtv_rep m tp dtv slots → DTV_SLOT_COUNT < i → set_dtv_value tp i v f m = Ret (false, m).
Proof.
  intros Hr Hi. unfold set_dtv_value.
  erewrite st_bind_run by (eapply dtv_entry_run; [done|unfold DTV_SLOT_COUNT in *; lia]).
  by rewrite decide_False by lia.
Qed.

Lemma set_dtv_value_run m tp dtv slots i v f :
  dtv_rep m tp dtv slots → 0 ≤ i → in_usize v → in_usize f →
  ∃ m', set_dtv_value tp i v f m = Ret (bool_decide (1 ≤ i ≤ DTV_SLOT_COUNT), m')
    ∧ dtv_rep m' tp dtv (if decide (1 ≤ i ≤ DTV_SLOT_COUNT) then set_slot slots i (v, f) else slots)
    ∧ (∀ a n, mapped m a n → mapped m' a n)
    ∧ (∀ x, ¬ (dtv + 16 ≤ x < dtv + 65 * 16) → m' x = m x).
Proof.
  intros Hr Hi Hv Hf. unfold set_dtv_value. erewrite st_bind_run by (by eapply dtv_entry_run).
  case_decide as Hin; [|by exists m; rewrite bool_decide_eq_false_2].
  rewrite bool_decide_eq_true_2 by done.
  pose proof Hr as [Htp Hdtv Hsep Hptr Hlen Hs]. unfold TCB_DTV_OFFSET, DTV_SLOT_COUNT in *.
  destruct (Hs i Hin) as (H1 & H2 & _ & _).
  unfold entry_first, entry_second.
  erewrite st_bind_run by (by apply store64_run, word_at_mapped with (v := (slots i).1)).
  erewrite st_bind_run by (by apply store64_run, write_mapped, word_at_mapped with (v := (slots i).2)).
  eexists. split; [done|]. split_and!.
  - split; try done; unfold TCB_DTV_OFFSET, DTV_SLOT_COUNT.
    1-2: do 2 (apply word_at_write_other; [|rewrite zlen_le_encode; lia]); done.
    intros j Hj. unfold set_slot. destruct (decide (j = i)) as [->|Hne].
    + split_and!; try done; [|apply word_at_write].
      apply word_at_write_other; [apply word_at_write|rewrite zlen_le_encode; lia].
    + destruct (Hs j Hj) as (? & ? & ? & ?). split_and!; try done;
        do 2 (apply word_at_write_other; [|rewrite zlen_le_encode; lia]); done.
  - intros a n Ha. by do 2 apply write_mapped.
  - intros x Hx. rewrite !write_outside; [done|rewrite zlen_le_encode; lia..].
Qed.

Lemma dtv_layout : array_layout (DTV_SLOT_COUNT + 2) = Some (mkLayout 1056 8).
Proof. reflexivity. Qed.
Lemma dtv_layout_ok : layout_ok (mkLayout 1056 8).
Proof. split; [done|]. exists 3. simpl. lia. Qed.

Lemma word_at_zeros m a n b :
  bytes_at m a (replicate n 0) → a ≤ b → b + 8 ≤ a + Z.of_nat n → word_at m b 0.
Proof.
  intros Hz H1 H2 i x Hi. change (le_encode 8 0) with (replicate 8 0) in Hi.
  apply lookup_replicate in Hi as [-> Hlt].
  replace (b + Z.of_nat i) with (a + Z.of_nat (Z.to_nat (b - a) + i)) by lia.
  apply Hz. apply lookup_replicate. split; [done|lia].
Qed.

(** A fresh DTV: 64 empty slots on pages of its own. *)
Lemma allocate_dtv_run `{Build, KernelLaws} m :
  allocate_dtv m = Panic ∧ mmap_at m 4096 = None ∨
  ∃ dtv m', allocate_dtv m = Ret (dtv, m') ∧ 16 < dtv < 2 ^ 63
    ∧ (∀ x, dtv - 16 ≤ x < dtv + 65 * 16 → m x = None)
    ∧ word_at m' (dtv - 16) DTV_SLOT_COUNT
    ∧ (∀ i, 1 ≤ i ≤ DTV_SLOT_COUNT → word_at m' (dtv + 16 * i) 0 ∧ word_at m' (dtv + 16 * i + 8) 0)
    ∧ (∀ x, is_Some (m x) → m' x = m x)
    ∧ (∀ x, ¬ (dtv - 16 ≤ x < dtv - 16 + 4096) → m' x = m x).
Proof.
  unfold allocate_dtv. rewrite dtv_layout.
  destruct (alloc_zeroed_run _ m dtv_layout_ok) as [[Hn Hno]|(a & m1 & Hr & [Hpos Hpg Hend Hfr Hmap Hz Hkeep Hout])].
  { left. split; [by erewrite st_bind_run by done|exact Hno]. }
  change (round_page _) with 4096 in *. change (lsize _) with 1056 in Hz. right.
  erewrite st_bind_run by done. rewrite (proj2 (Z.eqb_neq a 0)) by lia.
  unfold entry_first, DTV_ENTRY_SIZE.
  erewrite st_bind_run by (apply store64_run; eapply mapped_le; [done|lia|lia]).
  exists (a + 16). eexists. split; [done|]. unfold DTV_SLOT_COUNT.
  assert (0 < a mod 4096 + a) by lia.
  split_and!; try lia.
  - intros x Hx. apply Hfr. lia.
  - replace (a + 16 - 16) with a by lia. apply word_at_write.
  - intros i Hi. split; (apply word_at_write_other; [|rewrite zlen_le_encode; lia]);
      (eapply word_at_zeros; [exact Hz|lia|lia]).
  - intros x Hx. rewrite write_outside; [by apply Hkeep|rewrite zlen_le_encode].
    destruct (decide (x < a)); [lia|]. destruct (decide (a + 8 ≤ x)); [lia|].
    rewrite Hfr in Hx by lia. by destruct Hx.
  - change (round_page _) with 4096 in Hout.
    intros x Hx. rewrite write_outside; [apply Hout|rewrite zlen_le_encode]; lia.
Qed.

(** The five words of the TCB that [init_tcb] writes. *)
Lemma tcb_words m tp dtv :
  mapped m tp 64 →
  ∃ m', (store64 (tp + TCB_SELF_OFFSET) tp;;
         store64 (tp + TCB_DTV_OFFSET) dtv;;
         store64 (tp + TCB_THREAD_SELF_OFFSET) tp;;
         store64 (tp + TCB_STACK_GUARD_OFFSET) BOOTSTRAP_STACK_GUARD;;
         store64 (tp + TCB_POINTER_GUARD_OFFSET) BOOTSTRAP_POINTER_GUARD) m = Ret (tt, m')
    ∧ word_at m' tp tp ∧ word_at m' (tp + TCB_DTV_OFFSET) dtv
    ∧ word_at m' (tp + TCB_THREAD_SELF_OFFSET) tp
    ∧ word_at m' (tp + TCB_STACK_GUARD_OFFSET) BOOTSTRAP_STACK_GUARD
    ∧ word_at m' (tp + TCB_POINTER_GUARD_OFFSET) BOOTSTRAP_POINTER_GUARD
    ∧ (∀ a n, mapped m a n → mapped m' a n)
    ∧ (∀ x, ¬ (tp ≤ x < tp + 64) → m' x = m x).
Proof.
  intros Hm. unfold TCB_SELF_OFFSET, TCB_DTV_OFFSET, TCB_THREAD_SELF_OFFSET, TCB_STACK_GUARD_OFFSET,
    TCB_POINTER_GUARD_OFFSET.
  assert (∀ m2 o, mapped m2 tp 64 → 0 ≤ o ≤ 56 → mapped m2 (tp + o) 8) as Hsub
    by (intros; eapply mapped_le; [done|lia|lia]).
  do 4 erewrite st_bind_run by (apply store64_run, Hsub; [repeat apply write_mapped; done|lia]).
  rewrite store64_run by (apply Hsub; [repeat apply write_mapped; done|lia]).
  eexists. split; [done|]. rewrite Z.add_0_r.
  split_and!; try apply word_at_write;
    try (repeat (apply word_at_write_other; [|rewrite zlen_le_encode; lia]); apply word_at_write).
  - intros a n Ha. by repeat apply write_mapped.
  - intros x Hx. rewrite !write_outside; [done|rewrite zlen_le_encode; lia..].
Qed.

Lemma deallocate_tcb_none `{Build} m tp :
  0 < tp → word_at m (tp + TCB_DTV_OFFSET) 0 → deallocate_tcb tp m = Ret (tt, m).
Proof.
  intros Htp Hd. unfold deallocate_tcb. rewrite (proj2 (Z.eqb_neq tp 0)) by lia.
  by erewrite st_bind_run by (apply load64_run; [done|split; [done|reflexivity]]).
Qed.

Lemma deallocate_tcb_run `{Build} m tp dtv slots :
  dtv_rep m tp dtv slots → tp + 64 ≤ dtv - 16 ∨ dtv - 16 + 4096 ≤ tp → tcb_mapped m tp →
  ∃ m', deallocate_tcb tp m = Ret (tt, m') ∧ word_at m' (tp + TCB_DTV_OFFSET) 0
    ∧ mapped m' tp 64
    ∧ (∀ x, dtv - 16 ≤ x < dtv - 16 + 4096 → m' x = None)
    ∧ (∀ x, ¬ (dtv - 16 ≤ x < dtv - 16 + 4096) → ¬ (tp + 8 ≤ x < tp + 16) → m' x = m x).
Proof.
  intros [Htp Hdtv _ Hptr Hlen _] Hsep Hm. unfold deallocate_tcb, TCB_DTV_OFFSET, DTV_ENTRY_SIZE, entry_first in *.
  rewrite (proj2 (Z.eqb_neq tp 0)) by lia.
  erewrite st_bind_run by (apply load64_run; [done|unfold in_usize; lia]).
  rewrite (proj2 (Z.eqb_neq dtv 0)) by lia. 
  erewrite st_bind_run by (by apply load64_run).
  change (saturating_add DTV_SLOT_COUNT 2) with (DTV_SLOT_COUNT + 2). rewrite dtv_layout.
  erewrite st_bind_run by (apply dealloc_run, dtv_layout_ok).
  change (round_page _) with 4096.
  assert (mapped (λ x, if decide (dtv - 16 ≤ x < dtv - 16 + 4096) then None else m x) tp 64) as Hmm.
  { intros x Hx. rewrite decide_False by lia. by apply Hm. }
  rewrite store64_run by (eapply mapped_le; [exact Hmm|lia|lia]).
  eexists. split; [done|]. split_and!.
  - apply word_at_write.
  - by apply write_mapped.
  - intros x Hx. rewrite write_outside by (rewrite zlen_le_encode; lia). by rewrite decide_True.
  - intros x Hx1 Hx2. rewrite write_outside by (rewrite zlen_le_encode; lia). by rewrite decide_False.
Qed.

(** [init_tcb] on a zeroed block or on a TCB in use. *)
Lemma init_tcb_run `{Build, KernelLaws} m tp :
  0 < tp < 2 ^ 63 → tcb_mapped m tp →
  word_at m (tp + TCB_DTV_OFFSET) 0
  ∨ (∃ old slots, dtv_rep m tp old slots ∧ (tp + 64 ≤ old - 16 ∨ old - 16 + 4096 ≤ tp)) →
  init_tcb tp m = Panic ∧ (∃ m0, deallocate_tcb tp m = Ret (tt, m0) ∧ mmap_at m0 4096 = None) ∨
  ∃ dtv m', init_tcb tp m = Ret (tt, m') ∧ dtv_rep m' tp dtv (λ _, (0, 0)) ∧ tcb_mapped m' tp
    ∧ word_at m' tp tp ∧ word_at m' (tp + TCB_THREAD_SELF_OFFSET) tp
    ∧ word_at m' (tp + TCB_STACK_GUARD_OFFSET) BOOTSTRAP_STACK_GUARD
    ∧ word_at m' (tp + TCB_POINTER_GUARD_OFFSET) BOOTSTRAP_POINTER_GUARD
    ∧ (word_at m (tp + TCB_DTV_OFFSET) 0 →
        (∀ x, is_Some (m x) → ¬ (tp ≤ x < tp + 64) → m' x = m x)
        ∧ (∀ x, dtv - 16 ≤ x < dtv + 65 * 16 → m x = None)
        ∧ ∀ x, ¬ (tp ≤ x < tp + 64) → ¬ (dtv - 16 ≤ x < dtv - 16 + 4096) → m' x = m x).
Proof.
  intros Htp Hm Hold.
  assert (∃ m0, deallocate_tcb tp m = Ret (tt, m0) ∧ mapped m0 tp 64
    ∧ (word_at m (tp + TCB_DTV_OFFSET) 0 → m0 = m)) as (m0 & Hd & Hm0 & Hsame).
  { destruct Hold as [Hz|(old & slots & Hr & Hsep)].
    - exists m. split; [apply deallocate_tcb_none; [lia|done]|done].
    - destruct (deallocate_tcb_run m tp old slots Hr Hsep Hm) as (m0 & ? & ? & ? & _).
      exists m0. split; [done|]. split; [done|]. intros Hz.
      pose proof Hr as [_ Hdtv _ Hp _ _].
      pose proof (load64_run _ _ _ Hz) as Hq. rewrite (load64_run _ _ _ Hp) in Hq by (unfold in_usize; lia).
      specialize (Hq ltac:(unfold in_usize; lia)). injection Hq. lia. }
  unfold init_tcb. erewrite st_bind_run by done.
  destruct (allocate_dtv_run m0) as [[Hp Hno]|(dtv & m1 & Ha & Hdtv & Hfr & Hlen & Hsl & Hkeep & Hout0)].
  { left. split; [unfold mbind, st_bind; by rewrite Hp|by exists m0]. }
  right. erewrite st_bind_run by done.
  assert (mapped m1 tp 64) as Hm1.
  { intros x Hx. rewrite Hkeep; by apply Hm0. }
  assert (dtv + 65 * 16 ≤ tp ∨ tp + 64 ≤ dtv - 16) as Hsep.
  { destruct (decide (dtv + 65 * 16 ≤ tp)); [by left|]. destruct (decide (tp + 64 ≤ dtv - 16)); [by right|].
    destruct (Hm0 (Z.max tp (dtv - 16))) as [o Ho]; [lia|]. rewrite Hfr in Ho by lia. done. }
  destruct (tcb_words m1 tp dtv Hm1) as (m2 & Hrun & Hself & Hptr & Hself2 & Hg1 & Hg2 & Hmp & Hout).
  assert (∀ a v, word_at m1 a v → a + 8 ≤ tp ∨ tp + 64 ≤ a → word_at m2 a v) as Hkw.
  { intros a v Hw Ha2 i b Hi. rewrite Hout; [by apply Hw|].
    pose proof (lookup_lt_Some _ _ _ Hi) as Hl. rewrite length_le_encode in Hl. lia. }
  exists dtv, m2. split; [done|]. split_and!; try done.
  - split; try done.
    + apply Hkw; [done|lia].
    + unfold DTV_SLOT_COUNT in *. intros i Hi. destruct (Hsl i Hi) as [H1' H2'].
      split_and!; try done; apply Hkw; try done; lia.
  - by apply Hmp.
  - intros Hz. rewrite (Hsame Hz) in *. split; [|split; [done|]].
    + intros x Hx Hnot. rewrite Hout by done. by apply Hkeep.
    + intros x Hx1 Hx2. rewrite Hout by done. by apply Hout0.
Qed.

(** Extending the memory keeps the DTV, and fresh memory lies apart from it. *)
Lemma dtv_rep_extend m m' tp dtv slots :
  dtv_rep m tp dtv slots → (∀ x, is_Some (m x) → m' x = m x) → dtv_rep m' tp dtv slots.
Proof.
  intros [Htp Hdtv Hsep Hptr Hlen Hs] Hext.
  assert (∀ a v, word_at m a v → word_at m' a v) as Hw.
  { intros a v Hw i b Hi. rewrite Hext; [by apply Hw|]. rewrite (Hw i b Hi). eauto. }
  split; try done; [by apply Hw|by apply Hw|].
  intros i Hi. destruct (Hs i Hi) as (? & ? & ? & ?). split_and!; auto.
Qed.

Lemma dtv_rep_mapped m tp dtv slots :
  dtv_rep m tp dtv slots →
  mapped m (tp + TCB_DTV_OFFSET) 8 ∧ mapped m (dtv - 16) 8 ∧ mapped m (dtv + 16) (64 * 16).
Proof.
  intros [_ _ _ Hptr Hlen Hs]. split_and!; [by eapply word_at_mapped..|].
  intros x Hx. set (i := (x - dtv) / 16).
  pose proof (Z.div_mod (x - dtv) 16 ltac:(lia)) as Hdm. pose proof (Z.mod_pos_bound (x - dtv) 16 ltac:(lia)).
  fold i in Hdm. unfold DTV_SLOT_COUNT in Hs. destruct (Hs i) as (H1 & H2 & _); [lia|].
  destruct (decide (x < dtv + 16 * i + 8)).
  - apply (word_at_mapped _ _ _ H1). lia.
  - apply (word_at_mapped _ _ _ H2). lia.
Qed.

(** A range that was not mapped does not meet the words of the DTV, unless it
    sits in the unused slot 0. *)
Lemma fresh_apart m tp dtv slots a n :
  dtv_rep m tp dtv slots → 24 < n → (∀ x, a ≤ x < a + n → m x = None) →
  (a + n ≤ tp + 8 ∨ tp + 16 ≤ a) ∧ (a + n ≤ dtv - 16 ∨ dtv + 65 * 16 ≤ a).
Proof.
  intros (H1 & H2 & H3)%dtv_rep_mapped Hn Hf. unfold TCB_DTV_OFFSET in *.
  assert (∀ b k, 0 < k → mapped m b k → a + n ≤ b ∨ b + k ≤ a) as Hsep.
  { intros b k Hk Hm. destruct (decide (a + n ≤ b)); [by left|]. destruct (decide (b + k ≤ a)); [by right|].
    destruct (Hm (Z.max a b)) as [o Ho]; [lia|]. rewrite Hf in Ho by lia. done. }
  destruct (Hsep _ 8 ltac:(lia) H1), (Hsep _ 8 ltac:(lia) H2), (Hsep _ (64 * 16) ltac:(lia) H3); lia.
Qed.

End Dtv.

Module DtvProps.
Import Machine Heap Dtv.

(** Setting a DTV slot and reading it back: [set_dtv_value] succeeds
    exactly for module ids 1 to 64; then [dtv_value] gives the value for that
    module (null reads as absent), what it gave before for every other, and
    only the bytes of the DTV's slots were written.  Outside the range it
    refuses and nothing changes. *)
Theorem dtv_roundtrip m tp dtv slots i v f :
  dtv_rep m tp dtv slots → 0 ≤ i → in_usize v → in_usize f →
  ∃ m', set_dtv_value tp i v f m = Ret (bool_decide (1 ≤ i ≤ DTV_SLOT_COUNT), m')
    ∧ dtv_value tp i m' =
        Ret (if decide (1 ≤ i ≤ DTV_SLOT_COUNT ∧ v ≠ 0) then Some v else None, m')
    ∧ (∀ j r, 0 ≤ j → j ≠ i → dtv_value tp j m = Ret (r, m) → dtv_value tp j m' = Ret (r, m'))
    ∧ ∀ x, ¬ (dtv + 16 ≤ x < dtv + 65 * 16) → m' x = m x.
Proof.
  intros Hr Hi Hv Hf. destruct (set_dtv_value_run m tp dtv slots i v f) as (m' & Hrun & Hrep & _ & Hfr); try done.
  exists m'. split; [done|]. split_and!; [..|done].
  - erewrite dtv_value_run by done. do 2 f_equal.
    destruct (decide (1 ≤ i ≤ DTV_SLOT_COUNT)) as [Hin|Hin].
    + unfold set_slot. by destruct (decide (i = i)).
    + by rewrite !decide_False by tauto.
  - intros j r Hj Hne. erewrite !dtv_value_run by done. intros [= <-]. do 2 f_equal.
    destruct (decide (1 ≤ i ≤ DTV_SLOT_COUNT)); [|done].
    unfold set_slot. by destruct (decide (j = i)).
Qed.

(** A TCB at 4096 with a DTV at 8208 and nothing else. *)
Definition demo_tcb : mem :=
  write (write (λ x, if decide (4096 ≤ x < 12288) then Some 0 else None)
    (4096 + TCB_DTV_OFFSET) (le_encode 8 8208)) 8192 (le_encode 8 DTV_SLOT_COUNT).

Lemma demo_tcb_zero a n : 4112 ≤ a → a + Z.of_nat n ≤ 8192 ∨ 8200 ≤ a ∧ a + Z.of_nat n ≤ 12288 →
  bytes_at demo_tcb a (replicate n 0).
Proof.
  intros H1 H2 i b [-> Hi]%lookup_replicate. unfold demo_tcb, TCB_DTV_OFFSET.
  rewrite !write_outside by (rewrite zlen_le_encode; lia). by rewrite decide_True by lia.
Qed.

Lemma demo_tcb_rep : dtv_rep demo_tcb 4096 8208 (λ _, (0, 0)).
Proof.
  split; try lia.
  - unfold demo_tcb. apply word_at_write_other; [apply word_at_write|].
    rewrite zlen_le_encode. unfold TCB_DTV_OFFSET. lia.
  - apply word_at_write.
  - unfold DTV_SLOT_COUNT. intros i Hi. split_and!; try done; apply (demo_tcb_zero _ 8); lia.
Qed.

Lemma dtv_roundtrip_witness :
  ∃ m', set_dtv_value 4096 3 0x5000 0 demo_tcb = Ret (true, m')
    ∧ dtv_value 4096 3 m' = Ret (Some 0x5000, m').
Proof.
  destruct (dtv_roundtrip demo_tcb 4096 8208 (λ _, (0, 0)) 3 0x5000 0) as (m' & H1 & H2 & _);
    [exact demo_tcb_rep|lia|unfold in_usize; lia|unfold in_usize; lia|].
  exists m'. split; [exact H1|exact H2].
Defined.

(** [init_tcb] on a block that is zero or was a thread's TCB before: unless
    memory is exhausted (an abort), the old DTV's pages are given back, the TCB
    points to itself, carries the bootstrap guards and a fresh DTV in which
    every module id reads as absent; on a zeroed block no other mapped byte
    changes. *)
Theorem init_tcb_ok `{Build, KernelLaws} m tp :
  0 < tp < 2 ^ 63 → tcb_mapped m tp →
  word_at m (tp + TCB_DTV_OFFSET) 0
  ∨ (∃ old slots, dtv_rep m tp old slots ∧ (tp + 64 ≤ old - 16 ∨ old - 16 + 4096 ≤ tp)) →
  init_tcb tp m = Panic ∧ (∃ m0, deallocate_tcb tp m = Ret (tt, m0) ∧ mmap_at m0 4096 = None) ∨
  ∃ m', init_tcb tp m = Ret (tt, m')
    ∧ load64 tp m' = Ret (tp, m') ∧ load64 (tp + TCB_THREAD_SELF_OFFSET) m' = Ret (tp, m')
    ∧ load64 (tp + TCB_STACK_GUARD_OFFSET) m' = Ret (BOOTSTRAP_STACK_GUARD, m')
    ∧ load64 (tp + TCB_POINTER_GUARD_OFFSET) m' = Ret (BOOTSTRAP_POINTER_GUARD, m')
    ∧ (∀ i, 0 ≤ i → dtv_value tp i m' = Ret (None, m'))
    ∧ (word_at m (tp + TCB_DTV_OFFSET) 0 →
        ∀ x, is_Some (m x) → ¬ (tp ≤ x < tp + 64) → m' x = m x).
Proof.
  intros Htp Hm Hold.
  destruct (init_tcb_run m tp Htp Hm Hold) as [Hp|(dtv & m' & Hrun & Hrep & _ & Hs1 & Hs2 & Hg1 & Hg2 & Hfr)];
    [by left|right].
  exists m'. split_and!; try done; try (apply load64_run; [done|unfold in_usize; lia || done]).
  2:{ intros Hz. by apply Hfr. }
  intros i Hi. erewrite dtv_value_run by done. do 2 f_equal. by rewrite decide_False by (simpl; tauto).
Qed.

Lemma init_tcb_ok_witness :
  let B : Build := Build_Build true X86_64 in
  let m : mem := λ x, if decide (4096 ≤ x < 8192) then Some 0 else None in
  @init_tcb B demo_kernel 4096 m = Panic ∨
  ∃ m', @init_tcb B demo_kernel 4096 m = Ret (tt, m') ∧ load64 4096 m' = Ret (4096, m').
Proof.
  intros B m.
  destruct (@init_tcb_ok B demo_kernel demo_kernel_laws m 4096) as [[Hp _]|(m' & H1 & H2 & _)].
  - lia.
  - intros x Hx. unfold m. rewrite decide_True by lia. eauto.
  - left. apply (word_at_zeros m 4096 4096); [|unfold TCB_DTV_OFFSET; lia|unfold TCB_DTV_OFFSET; lia].
    intros i b [-> Hi]%lookup_replicate. unfold m. by rewrite decide_True by lia.
  - by left.
  - right. exists m'. split; [exact H1|exact H2].
Defined.

End DtvProps.
