(* ===== verification/Tls.v ===== *)
(** * Thread-local storage (rtld/impl/src/tls.rs)

    The module table, the static TLS layout below the thread pointer, the
    blocks of dynamic modules and the storage of new threads.  [TlsInfo], the
    module ids and the image source come from the ELF loader crate: an image
    source is a parameter that yields the bytes of a module's image or fails. *)

From S2P Require Import Prelude LinkMap Machine Heap Dtv.

(** [TlsImageSource::with_image]: the image handed to the closure. *)
Class ImageSource (Source : Type) := with_image : Source → option (list Z).

Module Tls.
Import Machine Heap.

Definition STATIC_TLS_ARENA_SIZE : Z := 1024 * 1024.
Definition TLS_TCB_SIZE : Z := 2368.
Definition TLS_TCB_ALIGN : Z := 64.
Definition RSEQ_AREA_SIZE : Z := 32.
Definition RSEQ_AREA_ALIGN : Z := 32.
Definition RSEQ_CPU_ID_OFFSET : Z := 4.
Definition RSEQ_CPU_ID_REGISTRATION_FAILED : Z := as_u32 (-2).

Inductive TlsError := ResolverUnsupported | InvalidModuleId (mod_id : Z) | ModuleMismatch.

Record TlsInfo := mkTlsInfo { info_align : Z; info_memsz : Z; info_vaddr : Z }.

Record StaticTlsArea := mkArea { area_tp : Z; used : Z; max_align : Z }.

Section types.
Context {Source : Type}.

Record StaticTlsModule := mkStatic {
  sm_id : Z; sm_info : TlsInfo; sm_source : option Source; sm_offset : Z }.

Inductive TlsModule :=
  | Dynamic (info : TlsInfo) (source : option Source)
  | Static (info : TlsInfo) (offset : Z).

Record DynamicTlsBlock := mkBlock { blk_tp : Z; blk_ptr : Z; blk_layout : Layout }.
Record TlsAllocation := mkAllocation { all_tp : Z; all_base : Z; all_layout : Layout }.

(** The statics of the module, the memory and the FS register of the thread. *)
Record tls_state := mkTls {
  tmem : mem;
  fs : Z;
  STATIC_TLS : option StaticTlsArea;
  STATIC_TLS_MODULES : list StaticTlsModule;
  TLS_MODULES : list (option TlsModule);
  DYNAMIC_TLS_BLOCKS : list DynamicTlsBlock;
  TLS_ALLOCATIONS : list TlsAllocation }.
End types.
Arguments StaticTlsModule : clear implicits.
Arguments TlsModule : clear implicits.
Arguments tls_state : clear implicits.

Section with_source.
Context {Source : Type} {IS : ImageSource Source} {BU : Build} {KE : Kernel}.
Local Abbreviation T := (st (tls_state Source)).
Local Abbreviation TR A := (st (tls_state Source) (result TlsError A)).

(** Assignments to one static. *)
Definition set_mem (m : mem) : T unit := λ s, Ret (tt,
  mkTls m (fs s) (STATIC_TLS s) (STATIC_TLS_MODULES s) (TLS_MODULES s) (DYNAMIC_TLS_BLOCKS s) (TLS_ALLOCATIONS s)).
Definition set_fs (a : Z) : T unit := λ s, Ret (tt,
  mkTls (tmem s) a (STATIC_TLS s) (STATIC_TLS_MODULES s) (TLS_MODULES s) (DYNAMIC_TLS_BLOCKS s) (TLS_ALLOCATIONS s)).
Definition set_static_tls (a : option StaticTlsArea) : T unit := λ s, Ret (tt,
  mkTls (tmem s) (fs s) a (STATIC_TLS_MODULES s) (TLS_MODULES s) (DYNAMIC_TLS_BLOCKS s) (TLS_ALLOCATIONS s)).
Definition set_static_modules (l : list (StaticTlsModule Source)) : T unit := λ s, Ret (tt,
  mkTls (tmem s) (fs s) (STATIC_TLS s) l (TLS_MODULES s) (DYNAMIC_TLS_BLOCKS s) (TLS_ALLOCATIONS s)).
Definition set_modules (l : list (option (TlsModule Source))) : T unit := λ s, Ret (tt,
  mkTls (tmem s) (fs s) (STATIC_TLS s) (STATIC_TLS_MODULES s) l (DYNAMIC_TLS_BLOCKS s) (TLS_ALLOCATIONS s)).
Definition set_blocks (l : list DynamicTlsBlock) : T unit := λ s, Ret (tt,
  mkTls (tmem s) (fs s) (STATIC_TLS s) (STATIC_TLS_MODULES s) (TLS_MODULES s) l (TLS_ALLOCATIONS s)).
Definition set_allocations (l : list TlsAllocation) : T unit := λ s, Ret (tt,
  mkTls (tmem s) (fs s) (STATIC_TLS s) (STATIC_TLS_MODULES s) (TLS_MODULES s) (DYNAMIC_TLS_BLOCKS s) l).

(** Code that only touches memory. *)
Definition on_mem {A} (c : st mem A) : T A :=
  s ← st_get; r ← st_lift (c (tmem s)); set_mem r.2;; mret r.1.

(** ** Layout arithmetic *)
Definition align_up (value align : Z) : outcome (option Z) :=
  mask ← usub align 1;
  mret ((λ value, Z.land value (not_usize mask)) <$> checked_add value mask).

Definition static_module_end (used memsz vaddr align : Z) : outcome (option Z) :=
  mask ← usub align 1;
  let firstbyte := Z.land (wrapping_sub 0 vaddr) mask in
  min_end ←? mret (checked_add used memsz);
  aligned ←? align_up (saturating_sub min_end firstbyte) align;
  e ←? mret (checked_add aligned firstbyte);
  mret (if e <? min_end then checked_add e align else Some e).

Definition static_used_with_rseq (used : Z) : outcome (option Z) :=
  v ←? align_up used RSEQ_AREA_ALIGN; mret (checked_add v RSEQ_AREA_SIZE).

Definition static_rseq_offset (used : Z) : outcome (option Z) :=
  offset ←? static_used_with_rseq used;
  mret (if offset <=? isize_max then Some (- offset) else None).

Definition static_used_info : T (Z * Z) :=
  s ← st_get;
  mret (match STATIC_TLS s with Some area => (used area, max_align area) | None => (0, 1) end).

Definition static_layout_info : T (Z * Z) :=
  i ← static_used_info;
  u ← st_lift (static_used_with_rseq i.1);
  mret (default 0 u, Z.max (Z.max (Z.max i.2 RSEQ_AREA_ALIGN) TLS_TCB_ALIGN) 1).

Definition static_info : T (Z * Z) :=
  i ← static_layout_info;
  size ← st_lift (u ←? align_up i.1 i.2; mret (checked_add u TLS_TCB_SIZE));
  mret (default 0 size, i.2).

Definition rseq_offset : T Z :=
  i ← static_used_info;
  o ← st_lift (static_rseq_offset i.1);
  mret (default 0 o).

(** ** The module table *)
Definition register_module (module : TlsModule Source) : TR Z :=
  s ← st_get;
  match checked_add (zlen (TLS_MODULES s)) 1 with
  | None => mret (Err ResolverUnsupported)
  | Some raw => set_modules (TLS_MODULES s ++ [Some module]);; mret (Ok raw)
  end.

Definition register_dynamic_module (info : TlsInfo) : TR Z :=
  register_module (Dynamic info None).

(** [modules.get(raw - 1)] *)
Definition get_slot {A} (l : list A) (i : Z) : option A :=
  if i <? 0 then None else l !! Z.to_nat i.
Definition tls_module (id : Z) : T (option (TlsModule Source)) :=
  s ← st_get;
  mret (if id =? 0 then None else default None (get_slot (TLS_MODULES s) (id - 1))).

Definition unregister_module (id : Z) : T unit :=
  if id =? 0 then mret tt
  else
    s ← st_get;
    (match get_slot (TLS_MODULES s) (id - 1) with
     | Some _ => set_modules (<[Z.to_nat (id - 1) := None]> (TLS_MODULES s))
     | None => mret tt
     end);;
    set_static_modules (filter (λ m, sm_id m ≠ id) (STATIC_TLS_MODULES s)).

(** ** The initial thread's area *)
Definition init_tcb (tp : Z) : TR unit :=
  if tp =? 0 then mret (Err ResolverUnsupported)
  else on_mem (Dtv.init_tcb tp);; mret (Ok tt).

(** arch/x86_64: [arch_prctl] results above [-4096] are errors. *)
Definition ARCH_SET_FS : Z := 0x1002.
Definition ARCH_GET_FS : Z := 0x1003.
Definition syscall_ok (res : Z) : bool := res <=? wrap (-4096).
Definition arch_install_thread_pointer (tp : Z) : T bool :=
  if syscall_ok (arch_prctl ARCH_SET_FS tp) then set_fs tp;; mret true else mret false.
Definition get_thread_pointer : T Z :=
  s ← st_get; mret (if syscall_ok (arch_prctl ARCH_GET_FS 0) then fs s else 0).

Definition install_thread_pointer (tp : Z) : TR unit :=
  if tp =? 0 then mret (Err ResolverUnsupported)
  else
    ok ← arch_install_thread_pointer tp;
    mret (if (ok : bool) then Ok tt else Err ResolverUnsupported).

Definition ensure_static_tls_area : TR StaticTlsArea :=
  match from_size_align (STATIC_TLS_ARENA_SIZE + TLS_TCB_SIZE) 4096 with
  | None => mret (Err ResolverUnsupported)
  | Some layout =>
      base ← on_mem (alloc_zeroed layout);
      if base =? 0 then st_fail Panic
      else
        let tp := base + STATIC_TLS_ARENA_SIZE in
        _ ←! init_tcb tp;
        _ ←! install_thread_pointer tp;
        mret (Ok (mkArea tp 0 1))
  end.

(** [Option::ok_or(TlsError::ResolverUnsupported)?] *)
Definition ok_or_unsupported {A} (o : option A) : TR A :=
  mret (match o with Some a => Ok a | None => Err ResolverUnsupported end).

Definition register_static_module (info : TlsInfo) : TR (Z * Z) :=
  s ← st_get;
  _ ←! (match STATIC_TLS s with
        | Some _ => mret (Ok tt)
        | None => area ←! ensure_static_tls_area; set_static_tls (Some area);; mret (Ok tt)
        end);
  s ← st_get;
  match STATIC_TLS s with
  | None => st_fail Panic
  | Some area =>
      align ←! ok_or_unsupported (checked_next_power_of_two (Z.max (info_align info) 1));
      e ← st_lift (static_module_end (used area) (info_memsz info) (info_vaddr info) align);
      used ←! ok_or_unsupported e;
      u ← st_lift (static_used_with_rseq used);
      total ←! ok_or_unsupported u;
      if total >? STATIC_TLS_ARENA_SIZE then mret (Err ResolverUnsupported)
      else
        let offset := - used in
        id ←! register_module (Static info offset);
        set_static_tls (Some (mkArea (area_tp area) used (Z.max (max_align area) align)));;
        s ← st_get;
        set_static_modules (STATIC_TLS_MODULES s ++ [mkStatic id info None offset]);;
        mret (Ok (id, offset))
  end.

Definition add_static_module (info : TlsInfo) (offset : Z) : TR Z :=
  id ←! register_module (Static info offset);
  s ← st_get;
  set_static_modules (STATIC_TLS_MODULES s ++ [mkStatic id info None offset]);;
  mret (Ok id).

(** ** Initialisation *)
(** Copy the image to [dst] and zero the rest of the module. *)
Definition write_image (dst : Z) (image : list Z) (memsz : Z) : st mem unit :=
  store_bytes dst image;;
  n ← st_lift (usub memsz (zlen image));
  write_bytes (dst + zlen image) 0 n.

Definition init_static_tls_module (tp : Z) (module : StaticTlsModule Source) : T unit :=
  let dst := tp + sm_offset module in
  match sm_source module with
  | None => mret tt
  | Some source =>
      match with_image source with
      | None => mret tt
      | Some image =>
          on_mem (write_image dst image (info_memsz (sm_info module)));;
          on_mem (Dtv.set_dtv_value tp (sm_id module) dst 0);;
          mret tt
      end
  end.

Definition init_rseq_area (tp used : Z) : T unit :=
  o ← st_lift (static_rseq_offset used);
  match o with
  | None => mret tt
  | Some offset =>
      let area := tp + offset in
      on_mem (write_bytes area 0 RSEQ_AREA_SIZE);;
      on_mem (store32 (area + RSEQ_CPU_ID_OFFSET) RSEQ_CPU_ID_REGISTRATION_FAILED)
  end.

(** [modules.get_mut(raw - 1)] and the assignment to the slot. *)
Definition replace_slot (id : Z) (module : TlsModule Source) : TR unit :=
  if id =? 0 then mret (Err ResolverUnsupported)
  else
    s ← st_get;
    match get_slot (TLS_MODULES s) (id - 1) with
    | None => mret (Err ResolverUnsupported)
    | Some _ => set_modules (<[Z.to_nat (id - 1) := Some module]> (TLS_MODULES s));; mret (Ok tt)
    end.
Definition init_dynamic_tls (info : TlsInfo) (source : Source) (id : Z) : TR unit :=
  replace_slot id (Dynamic info (Some source)).
Definition update_static_module_slot (id : Z) (info : TlsInfo) (offset : Z) : TR unit :=
  replace_slot id (Static info offset).

(** The first entry with the id is overwritten, or a new one is added. *)
Fixpoint replace_static (l : list (StaticTlsModule Source)) (m : StaticTlsModule Source) :
    list (StaticTlsModule Source) :=
  match l with
  | [] => [m]
  | x :: l => if sm_id x =? sm_id m then m :: l else x :: replace_static l m
  end.

Definition init_static_tls (info : TlsInfo) (source : Source) (id offset : Z) : TR unit :=
  _ ←! update_static_module_slot id info offset;
  let module := mkStatic id info (Some source) offset in
  s ← st_get;
  set_static_modules (replace_static (STATIC_TLS_MODULES s) module);;
  s ← st_get;
  (match STATIC_TLS s with
   | Some area =>
       init_static_tls_module (area_tp area) module;; init_rseq_area (area_tp area) (used area)
   | None => mret tt
   end);;
  mret (Ok tt).

Definition init_tls_module (source : Source) (id : Z) (offset : option Z) : TR unit :=
  m ← tls_module id;
  match m, offset with
  | Some (Dynamic info _), None => init_dynamic_tls info source id
  | Some (Static info registered), Some offset =>
      if offset =? registered then init_static_tls info source id offset
      else mret (Err ModuleMismatch)
  | None, _ => mret (Err (InvalidModuleId id))
  | _, _ => mret (Err ModuleMismatch)
  end.

(** ** Access *)
Definition static_tls_addr (offset ti_offset : Z) : T Z :=
  tp ← get_thread_pointer;
  mret (if tp =? 0 then 0 else tp + offset + ti_offset).

Definition allocate_dynamic_block (tp id : Z) (info : TlsInfo) (source : option Source) : T (option Z) :=
  let align := default 1 (checked_next_power_of_two (Z.max (info_align info) 1)) in
  match from_size_align (Z.max (info_memsz info) 1) align with
  | None => mret None
  | Some layout =>
      ptr ← on_mem (alloc_zeroed layout);
      if ptr =? 0 then st_fail Panic
      else
        match source with
        | None => mret None
        | Some source =>
            match with_image source with
            | None => on_mem (dealloc ptr layout);; mret None
            | Some image =>
                on_mem (write_image ptr image (info_memsz info));;
                ok ← on_mem (Dtv.set_dtv_value tp id ptr ptr);
                if negb ok then on_mem (dealloc ptr layout);; mret None
                else
                  s ← st_get;
                  set_blocks (DYNAMIC_TLS_BLOCKS s ++ [mkBlock tp ptr layout]);;
                  mret (Some ptr)
            end
        end
  end.

Definition dynamic_tls_addr (id : Z) (info : TlsInfo) (source : option Source) (ti_offset : Z) : T Z :=
  tp ← get_thread_pointer;
  if tp =? 0 then mret 0
  else
    v ← on_mem (Dtv.dtv_value tp id);
    match v with
    | Some ptr => mret (ptr + ti_offset)
    | None =>
        b ← allocate_dynamic_block tp id info source;
        mret (match b with None => 0 | Some ptr => ptr + ti_offset end)
    end.

(** [index.as_ref()]: [None] is a null pointer. *)
Record TlsIndex := mkIndex { ti_module : Z; ti_offset : Z }.
Definition get_addr (index : option TlsIndex) : T Z :=
  match index with
  | None => mret 0
  | Some index =>
      m ← tls_module (ti_module index);
      match m with
      | None => mret 0
      | Some (Static _ offset) => static_tls_addr offset (ti_offset index)
      | Some (Dynamic info source) =>
          dynamic_tls_addr (ti_module index) info source (ti_offset index)
      end
  end.

Definition get_addr_soft (mod_id : Z) : T Z :=
  tp ← get_thread_pointer;
  if tp =? 0 then mret 0
  else v ← on_mem (Dtv.dtv_value tp mod_id); mret (default 0 v).

(** ** Storage of new threads *)
Definition init (storage : Z) : T Z :=
  if storage =? 0 then mret 0
  else
    r ← init_tcb storage;
    match r with
    | Err _ => mret 0
    | Ok _ =>
        s ← st_get;
        foldr (λ module k, init_static_tls_module storage module;; k) (mret tt) (STATIC_TLS_MODULES s);;
        i ← static_used_info;
        init_rseq_area storage i.1;;
        mret storage
    end.

Definition allocate_storage : T (option Z) :=
  i ← static_used_info;
  static_size ←!? st_lift (static_used_with_rseq i.1);
  let static_align := Z.max i.2 RSEQ_AREA_ALIGN in
  align ←!? mret (checked_next_power_of_two (Z.max (Z.max static_align TLS_TCB_ALIGN) 8));
  static_size ←!? st_lift (align_up static_size align);
  total_size ←!? mret (checked_add static_size TLS_TCB_SIZE);
  layout ←!? mret (from_size_align (Z.max total_size 1) align);
  base ← on_mem (alloc_zeroed layout);
  if base =? 0 then st_fail Panic
  else
    let tp := base + static_size in
    s ← st_get;
    set_allocations (TLS_ALLOCATIONS s ++ [mkAllocation tp base layout]);;
    mret (Some tp).

Definition allocate (storage : Z) : T Z :=
  if storage =? 0 then
    o ← allocate_storage;
    match o with None => mret 0 | Some storage => init storage end
  else init storage.

(** [Vec::swap_remove] *)
Definition swap_remove {A} (l : list A) (i : nat) : list A :=
  match last l with
  | Some x => take (length l - 1) (<[i := x]> l)
  | None => l
  end.

(** [while index < blocks.len()]: the length bounds the turns. *)
Fixpoint free_loop (fuel : nat) (tp : Z) (blocks : list DynamicTlsBlock) (index : nat) :
    T (list DynamicTlsBlock) :=
  match fuel with
  | O => if (index <? length blocks)%nat then st_fail OutOfFuel else mret blocks
  | S fuel =>
      match blocks !! index with
      | None => mret blocks
      | Some block =>
          if blk_tp block =? tp then
            on_mem (dealloc (blk_ptr block) (blk_layout block));;
            free_loop fuel tp (swap_remove blocks index) index
          else free_loop fuel tp blocks (S index)
      end
  end.
Definition free_dynamic_blocks (tp : Z) : T unit :=
  s ← st_get;
  blocks ← free_loop (length (DYNAMIC_TLS_BLOCKS s)) tp (DYNAMIC_TLS_BLOCKS s) 0;
  set_blocks blocks.

Definition deallocate (storage : Z) (dealloc_tcb : bool) : T unit :=
  if storage =? 0 then mret tt
  else
    free_dynamic_blocks storage;;
    if negb dealloc_tcb then mret tt
    else
      s ← st_get;
      match list_find (λ a, all_tp a = storage) (TLS_ALLOCATIONS s) with
      | None => mret tt
      | Some (index, allocation) =>
          set_allocations (swap_remove (TLS_ALLOCATIONS s) index);;
          on_mem (dealloc (all_base allocation) (all_layout allocation))
      end.

(** symbols/tls.rs: [_dl_deallocate_tls] frees the DTV first. *)
Definition _dl_deallocate_tls (storage : Z) (dealloc_tcb : bool) : T unit :=
  on_mem (Dtv.deallocate_tcb storage);; deallocate storage dealloc_tcb.

(** symbols/tls.rs: [_dl_get_tls_static_info] writes through non-null pointers. *)
Definition _dl_get_tls_static_info (size align : Z) : T unit :=
  i ← static_info;
  (if negb (size =? 0) then on_mem (store64 size i.1) else mret tt);;
  (if negb (align =? 0) then on_mem (store64 align i.2) else mret tt).

(** symbols/tls.rs: the entry points that libc calls. *)
Definition __tls_get_addr (index : option TlsIndex) : T Z := get_addr index.
Definition _dl_allocate_tls (storage : Z) : T Z := allocate storage.
Definition _dl_allocate_tls_init (storage : Z) (_main_thread : bool) : T Z := init storage.
Definition dl_tls_get_addr_soft (link_map : option LinkMap) : T Z :=
  match link_map with None => mret 0 | Some m => get_addr_soft (l_tls_modid m) end.

End with_source.

(** symbols/tls.rs *)
Definition __nptl_change_stack_perm (_stack : Z) : Z := 0.

(** ** Layout arithmetic: what the functions compute *)
Definition ceil_to (v a : Z) : Z := (v + a - 1) / a * a.

Lemma ceil_to_spec v a : 0 < a → v ≤ ceil_to v a < v + a ∧ ceil_to v a mod a = 0.
Proof.
  intros Ha. unfold ceil_to. split; [|apply Z.mod_mul; lia].
  pose proof (Z.div_mod (v + a - 1) a). pose proof (Z.mod_pos_bound (v + a - 1) a). lia.
Qed.

Lemma pow2_pos k : 0 ≤ k → 0 < 2 ^ k.
Proof. intros. by apply Z.pow_pos_nonneg. Qed.

Lemma align_up_run `{Build} v k :
  in_usize v → 0 ≤ k < 64 →
  align_up v (2 ^ k) = Ret (if decide (v + (2 ^ k - 1) < 2 ^ 64) then Some (ceil_to v (2 ^ k)) else None).
Proof.
  intros Hv Hk. unfold in_usize in Hv. pose proof (pow2_pos k ltac:(lia)).
  assert (2 ^ k < 2 ^ 64) by (apply Z.pow_lt_mono_r; lia).
  unfold align_up. u_small. unfold mret, outcome_ret, checked_add. f_equal.
  case_decide; simpl; [|done]. f_equal.
  rewrite land_not_mask by (unfold in_usize; lia). unfold ceil_to.
  replace (v + (2 ^ k - 1)) with (v + 2 ^ k - 1) by lia.
  pose proof (Z.div_mod (v + 2 ^ k - 1) (2 ^ k)). lia.
Qed.

(** The least end at or above [n] that puts the block's first byte at the
    residue of [vaddr]. *)
Definition module_end_of (n vaddr align e : Z) : Prop :=
  n ≤ e ∧ (e + vaddr) mod align = 0 ∧ ∀ e', n ≤ e' → (e' + vaddr) mod align = 0 → e ≤ e'.

Lemma neg_mod_add v a x : 0 < a → (x + (- v) mod a + v) mod a = x mod a.
Proof.
  intros Ha. rewrite Z.add_shuffle0.
  rewrite <-Zplus_mod_idemp_r, Z.mod_mod, Zplus_mod_idemp_r by lia.
  f_equal. lia.
Qed.

Lemma least_end n v a :
  0 < a → module_end_of n v a (ceil_to (n - (- v) mod a) a + (- v) mod a).
Proof.
  intros Ha. set (f := (- v) mod a). assert (0 ≤ f < a) by (by apply Z.mod_pos_bound).
  destruct (ceil_to_spec (n - f) a Ha) as [Hb Hm]. split_and!.
  - lia.
  - unfold f. by rewrite neg_mod_add.
  - intros e' Hn He. destruct (decide (ceil_to (n - f) a + f ≤ e')); [done|exfalso].
    assert ((ceil_to (n - f) a - (e' - f)) mod a = 0) as Hz.
    { assert ((e' - f) mod a = 0) as He2.
      { rewrite <-He. rewrite <-(neg_mod_add v a (e' - f)) by done. fold f. f_equal. lia. }
      rewrite Zminus_mod, Hm, He2. by rewrite Zmod_0_l. }
    rewrite Z.mod_small in Hz; lia.
Qed.

Lemma ceil_to_neg v a : - a < v ≤ 0 → 0 < a → ceil_to v a = 0.
Proof. intros Hv Ha. unfold ceil_to. rewrite Z.div_small by lia. lia. Qed.

Lemma static_module_end_run `{Build} used memsz vaddr k :
  in_usize used → in_usize memsz → in_usize vaddr → 0 ≤ k < 64 →
  ∃ r, static_module_end used memsz vaddr (2 ^ k) = Ret r
    ∧ (∀ e, r = Some e → module_end_of (used + memsz) vaddr (2 ^ k) e ∧ used + memsz < 2 ^ 64 ∧ in_usize e)
    ∧ (r = None → ∀ e, module_end_of (used + memsz) vaddr (2 ^ k) e → 2 ^ 63 ≤ e).
Proof.
  intros Hu Hm Hv Hk. unfold in_usize in *. pose proof (pow2_pos k ltac:(lia)) as Ha.
  assert (2 ^ k < 2 ^ 64) as Hlt by (apply Z.pow_lt_mono_r; lia).
  unfold static_module_end. u_small.
  rewrite land_mask by lia. unfold wrapping_sub, wrap.
  replace (((0 - vaddr) mod 2 ^ 64) mod 2 ^ k) with ((- vaddr) mod 2 ^ k).
  2:{ rewrite Z.mod_mod_divide; [done|]. exists (2 ^ (64 - k)).
      rewrite <-Z.pow_add_r by lia. f_equal. lia. }
  set (f := (- vaddr) mod 2 ^ k). assert (0 ≤ f < 2 ^ k) as Hf by (by apply Z.mod_pos_bound).
  pose proof (least_end (used + memsz) vaddr (2 ^ k) Ha) as Hleast. fold f in Hleast.
  assert (2 ^ k ≤ 2 ^ 63) as Hk63 by (apply Z.pow_le_mono_r; lia).
  assert (∀ e e', module_end_of (used + memsz) vaddr (2 ^ k) e →
    module_end_of (used + memsz) vaddr (2 ^ k) e' → e ≤ e') as Huniq.
  { intros e e' (_ & _ & Hle) (? & ? & _). by apply Hle. }
  assert (∀ n, 2 ^ 63 ≤ n → n ≤ used + memsz →
    ∃ r : option Z, Ret None = Ret r ∧ (∀ e, r = Some e → module_end_of (used + memsz) vaddr (2 ^ k) e
      ∧ used + memsz < 2 ^ 64 ∧ in_usize e) ∧ (r = None → ∀ e, module_end_of (used + memsz) vaddr (2 ^ k) e → 2 ^ 63 ≤ e))
    as Hnone.
  { intros n H1 H2. exists None. split; [done|]. split; [done|]. intros _ e (? & _). lia. }
  destruct (decide (used + memsz < 2 ^ 64)) as [H1|H1].
  2:{ rewrite checked_add_ge, try_opt_mret_None by done. apply (Hnone (2 ^ 63)); lia. }
  rewrite checked_add_lt, try_opt_mret_Some by done. set (n := used + memsz) in *.
  change (saturating_sub n f) with (Z.max 0 (n - f)).
  rewrite align_up_run by (unfold in_usize; lia).
  assert (ceil_to (Z.max 0 (n - f)) (2 ^ k) = ceil_to (n - f) (2 ^ k)) as Hceil.
  { destruct (decide (0 ≤ n - f)); [by rewrite Z.max_r by lia|].
    rewrite Z.max_l by lia. rewrite !ceil_to_neg; lia. }
  rewrite Hceil. destruct (ceil_to_spec (n - f) (2 ^ k) Ha) as [Hcb _].
  destruct (decide (_ + _ < 2 ^ 64)) as [H2|H2].
  2:{ rewrite try_opt_None. apply (Hnone (2 ^ 63)); lia. }
  rewrite try_opt_Some. destruct (decide (ceil_to (n - f) (2 ^ k) + f < 2 ^ 64)) as [H3|H3].
  2:{ rewrite checked_add_ge, try_opt_mret_None by done. exists None. split; [done|]. split; [done|].
      intros _ e He. specialize (Huniq _ _ Hleast He). lia. }
  rewrite checked_add_lt, try_opt_mret_Some by done.
  destruct (Z.ltb_spec (ceil_to (n - f) (2 ^ k) + f) n); [lia|].
  eexists. split; [done|]. split; [|done]. intros e [= <-]. split_and!; try done; lia.
Qed.

Lemma static_used_with_rseq_run `{Build} u :
  in_usize u →
  static_used_with_rseq u = Ret (if decide (u + 31 < 2 ^ 64)
    then if decide (ceil_to u 32 + 32 < 2 ^ 64) then Some (ceil_to u 32 + 32) else None else None).
Proof.
  intros Hu. unfold static_used_with_rseq, RSEQ_AREA_ALIGN, RSEQ_AREA_SIZE, try_opt.
  pose proof (align_up_run u 5 Hu ltac:(lia)) as Hr. change (2 ^ 5) with 32 in Hr.
  change (32 - 1) with 31 in Hr. rewrite Hr, bind_Ret. by case_decide.
Qed.

Lemma static_rseq_offset_run `{Build} u :
  0 ≤ u ≤ STATIC_TLS_ARENA_SIZE → static_rseq_offset u = Ret (Some (- (ceil_to u 32 + 32))).
Proof.
  intros Hu. unfold STATIC_TLS_ARENA_SIZE in Hu. destruct (ceil_to_spec u 32) as [Hc _]; [lia|].
  unfold static_rseq_offset, try_opt. rewrite static_used_with_rseq_run by (unfold in_usize; lia).
  rewrite !decide_True by lia. rewrite bind_Ret. unfold isize_max.
  by rewrite (proj2 (Z.leb_le _ _)) by lia.
Qed.

(** ** Running the statements *)
Section runs.
Context {Source : Type} {IS : ImageSource Source} {BU : Build} {KE : Kernel}.
Implicit Types s : tls_state Source.

Definition with_tmem (s : tls_state Source) (m : mem) : tls_state Source :=
  mkTls m (fs s) (STATIC_TLS s) (STATIC_TLS_MODULES s) (TLS_MODULES s) (DYNAMIC_TLS_BLOCKS s) (TLS_ALLOCATIONS s).

Lemma on_mem_run {A} (c : st mem A) s a m :
  c (tmem s) = Ret (a, m) → on_mem c s = Ret (a, with_tmem s m).
Proof. intros Hc. unfold on_mem, st_lift, mbind, st_bind, st_get, outcome_bind. by rewrite Hc. Qed.

Lemma on_mem_inv {A} (c : st mem A) s a s' :
  on_mem c s = Ret (a, s') → ∃ m, c (tmem s) = Ret (a, m) ∧ s' = with_tmem s m.
Proof.
  unfold on_mem, st_lift, mbind, st_bind, st_get, outcome_bind.
  destruct (c (tmem s)) as [[b m]| | |]; try done. simpl. intros [= <- <-]. by exists m.
Qed.

(** Computations that leave the module tables and the static area alone. *)
Definition tables (s : tls_state Source) := (STATIC_TLS s, STATIC_TLS_MODULES s, TLS_MODULES s).
Definition keeps {A} (c : st (tls_state Source) A) : Prop :=
  ∀ s a s', c s = Ret (a, s') → tables s' = tables s.

Lemma keeps_ret {A} (a : A) : keeps (mret a).
Proof. by intros s b s' [= <- <-]. Qed.
Lemma keeps_get : keeps st_get.
Proof. by intros s b s' [= <- <-]. Qed.
Lemma keeps_fail {A} o : keeps (st_fail o : st _ A).
Proof. intros s b s'. unfold st_fail. destruct o as [[]| | |]; done. Qed.
Lemma keeps_lift {A} (o : outcome A) : keeps (st_lift o).
Proof. intros s b s'. unfold st_lift. destruct o; try done. by intros [= <- <-]. Qed.
Lemma keeps_bind {A B} (c : st _ A) (k : A → st _ B) :
  keeps c → (∀ a, keeps (k a)) → keeps (c ≫= k).
Proof.
  intros Hc Hk s b s'' (a & s' & H1 & H2)%st_bind_Ret_inv.
  rewrite (Hk _ _ _ _ H2). by eapply Hc.
Qed.
Lemma keeps_on_mem {A} (c : st mem A) : keeps (on_mem c).
Proof. by intros s a s' (m & _ & ->)%on_mem_inv. Qed.
Lemma keeps_set_mem m : keeps (set_mem m).
Proof. by intros s a s' [= <- <-]. Qed.
Lemma keeps_set_fs a : keeps (set_fs a).
Proof. by intros s b s' [= <- <-]. Qed.
Lemma keeps_set_blocks l : keeps (set_blocks l).
Proof. by intros s b s' [= <- <-]. Qed.
Lemma keeps_set_allocations l : keeps (set_allocations l).
Proof. by intros s b s' [= <- <-]. Qed.
Lemma keeps_try_res {E A B} (c : st _ (result E A)) (k : A → st _ (result E B)) :
  keeps c → (∀ a, keeps (k a)) → keeps (try_res k c).
Proof.
  intros Hc Hk. apply keeps_bind; [done|]. intros [a|e]; [apply Hk|apply keeps_ret].
Qed.
Lemma keeps_try_some {A B} (c : st _ (option A)) (k : A → st _ (option B)) :
  keeps c → (∀ a, keeps (k a)) → keeps (try_some k c).
Proof.
  intros Hc Hk. apply keeps_bind; [done|]. intros [a|]; [apply Hk|apply keeps_ret].
Qed.

(** Decompose a computation into statements that keep the tables. *)
Ltac keeps_tac :=
  repeat first
    [ apply keeps_ret | apply keeps_get | apply keeps_fail | apply keeps_lift
    | apply keeps_on_mem | apply keeps_set_mem | apply keeps_set_fs | apply keeps_set_blocks
    | apply keeps_set_allocations
    | apply keeps_try_res; [|intros ?] | apply keeps_try_some; [|intros ?]
    | apply keeps_bind; [|intros ?] | case_match | assumption ].

Lemma keeps_static_used_info : keeps static_used_info.
Proof. unfold static_used_info. keeps_tac. Qed.
Lemma keeps_get_thread_pointer : keeps get_thread_pointer.
Proof. unfold get_thread_pointer. keeps_tac. Qed.
Lemma keeps_tls_module id : keeps (tls_module id).
Proof. unfold tls_module. keeps_tac. Qed.
Lemma keeps_init_tcb tp : keeps (init_tcb tp).
Proof. unfold init_tcb. keeps_tac. Qed.
Lemma keeps_ensure : keeps ensure_static_tls_area.
Proof.
  unfold ensure_static_tls_area, install_thread_pointer, arch_install_thread_pointer. keeps_tac;
    apply keeps_init_tcb.
Qed.
Lemma keeps_init_static tp m : keeps (init_static_tls_module tp m).
Proof. unfold init_static_tls_module. keeps_tac. Qed.
Lemma keeps_init_rseq tp u : keeps (init_rseq_area tp u).
Proof. unfold init_rseq_area. keeps_tac. Qed.
Lemma keeps_init_area (o : option StaticTlsArea) m :
  keeps (match o with
         | Some area => init_static_tls_module (area_tp area) m;; init_rseq_area (area_tp area) (used area)
         | None => mret tt
         end).
Proof. keeps_tac; first [apply keeps_init_static|apply keeps_init_rseq]. Qed.
Lemma keeps_get_addr index : keeps (get_addr index).
Proof.
  unfold get_addr, static_tls_addr, dynamic_tls_addr, allocate_dynamic_block.
  keeps_tac; first [apply keeps_tls_module|apply keeps_get_thread_pointer].
Qed.
Lemma keeps_init storage : keeps (init storage).
Proof.
  unfold init. case_match; [apply keeps_ret|]. apply keeps_bind; [apply keeps_init_tcb|].
  intros [?|?]; [|apply keeps_ret]. apply keeps_bind; [apply keeps_get|]. intros s.
  apply keeps_bind.
  - induction (STATIC_TLS_MODULES s); simpl; [apply keeps_ret|].
    apply keeps_bind; [apply keeps_init_static|done].
  - intros _. keeps_tac.
Qed.
Lemma keeps_allocate storage : keeps (allocate storage).
Proof.
  unfold allocate, allocate_storage.
  keeps_tac; first [apply keeps_static_used_info|apply keeps_init].
Qed.
Lemma keeps_free_loop fuel tp blocks i : keeps (free_loop fuel tp blocks i).
Proof. revert blocks i. induction fuel; intros; simpl; keeps_tac; apply IHfuel. Qed.
Lemma keeps_deallocate storage d : keeps (deallocate storage d).
Proof. unfold deallocate, free_dynamic_blocks. keeps_tac; apply keeps_free_loop. Qed.

(** ** The invariant of the module tables and of the static layout *)
Definition module_align (info : TlsInfo) : option Z :=
  checked_next_power_of_two (Z.max (info_align info) 1).
Definition end_of (m : StaticTlsModule Source) : Z := - sm_offset m.

(** A module's block ends [end_of m] below the thread pointer. *)
Definition placed (a : StaticTlsArea) (m : StaticTlsModule Source) : Prop :=
  (∃ k, 0 ≤ k < 64 ∧ module_align (sm_info m) = Some (2 ^ k) ∧ 2 ^ k ≤ max_align a
     ∧ (end_of m + info_vaddr (sm_info m)) mod 2 ^ k = 0)
  ∧ 0 ≤ info_memsz (sm_info m) ≤ end_of m ∧ end_of m ≤ used a.

Record layout_rep (a : StaticTlsArea) (l : list (StaticTlsModule Source)) : Prop := {
  la_used : 0 ≤ used a ∧ ceil_to (used a) 32 + 32 ≤ STATIC_TLS_ARENA_SIZE;
  la_align : ∃ k, 0 ≤ k < 64 ∧ max_align a = 2 ^ k;
  la_placed : Forall (placed a) l;
  la_order i j mi mj : (i < j)%nat → l !! i = Some mi → l !! j = Some mj →
    end_of mi ≤ end_of mj - info_memsz (sm_info mj) }.

Record tables_rep (l : list (StaticTlsModule Source)) (ms : list (option (TlsModule Source))) : Prop := {
  ta_nodup : NoDup (sm_id <$> l);
  ta_slot m : m ∈ l → 1 ≤ sm_id m ∧
    ms !! Z.to_nat (sm_id m - 1) = Some (Some (Static (sm_info m) (sm_offset m)));
  ta_static i info off : ms !! i = Some (Some (Static info off)) →
    Z.of_nat i + 1 ∈ sm_id <$> l }.

(** The modules that [add_static_module] recorded at the offset its caller
    chose, by id.  The other static modules were placed by the linker. *)
Abbreviation added_modules := (gmap Z (TlsInfo * Z)).
Definition own (X : added_modules) (l : list (StaticTlsModule Source)) : list (StaticTlsModule Source) :=
  filter (λ m, X !! sm_id m = None) l.

Record tls_inv (X : added_modules) (s : tls_state Source) : Prop := {
  ti_tables : tables_rep (STATIC_TLS_MODULES s) (TLS_MODULES s);
  ti_layout : match STATIC_TLS s with
              | Some a => layout_rep a (own X (STATIC_TLS_MODULES s))
              | None => own X (STATIC_TLS_MODULES s) = []
              end;
  ti_added id info off : X !! id = Some (info, off) →
    id ≤ zlen (TLS_MODULES s)
    ∧ ∀ m, m ∈ STATIC_TLS_MODULES s → sm_id m = id → sm_info m = info ∧ sm_offset m = off }.

Definition info_ok (info : TlsInfo) : Prop :=
  in_usize (info_align info) ∧ in_usize (info_memsz info) ∧ in_usize (info_vaddr info).

Lemma tls_inv_tables X s s' : tables s' = tables s → tls_inv X s → tls_inv X s'.
Proof. unfold tables. intros [= HT HS HM] [H1 H2 H3]. split; by rewrite ?HT, ?HS, ?HM. Qed.

Lemma own_snoc X l (m : StaticTlsModule Source) :
  own X (l ++ [m]) = own X l ++ (if decide (X !! sm_id m = None) then [m] else []).
Proof. unfold own. rewrite filter_app, filter_cons, filter_nil. done. Qed.

Lemma own_filter X (P : StaticTlsModule Source → Prop) `{∀ x, Decision (P x)} l :
  own X (filter P l) = filter P (own X l).
Proof.
  unfold own. induction l as [|x l IH]; [done|]. rewrite !filter_cons.
  repeat (case_decide; rewrite ?filter_cons); congruence || done.
Qed.

Lemma own_added X id k l :
  (∀ m : StaticTlsModule Source, m ∈ l → sm_id m ≠ id) → own (<[id := k]> X) l = own X l.
Proof.
  unfold own. induction l as [|x l IH]; intros Hl; [done|]. rewrite !filter_cons, IH by set_solver.
  rewrite lookup_insert_ne; [done|]. intros He. by apply (Hl x); [left|].
Qed.

(** A change of the tables that leaves the added modules as they are. *)
Lemma ti_added_keep X s (l' : list (StaticTlsModule Source)) (ms' : list (option (TlsModule Source))) :
  tls_inv X s → zlen (TLS_MODULES s) ≤ zlen ms' →
  (∀ m', m' ∈ l' → is_Some (X !! sm_id m') → ∃ m, m ∈ STATIC_TLS_MODULES s
     ∧ sm_id m = sm_id m' ∧ sm_info m = sm_info m' ∧ sm_offset m = sm_offset m') →
  ∀ id info off, X !! id = Some (info, off) →
    id ≤ zlen ms' ∧ ∀ m, m ∈ l' → sm_id m = id → sm_info m = info ∧ sm_offset m = off.
Proof.
  intros [_ _ Hadd] Hlen Hkeep id info off HX. destruct (Hadd id info off HX) as [Hid Hm].
  split; [lia|]. intros m' Hin <-. destruct (Hkeep m' Hin) as (m & Hmin & He & <- & <-); [by eexists|].
  by apply Hm.
Qed.

(** Ids are positions: the next one was given to no module. *)
Lemma next_not_added X s : tls_inv X s → X !! (zlen (TLS_MODULES s) + 1) = None.
Proof.
  intros Hinv. destruct (X !! _) as [[info off]|] eqn:HX; [|done].
  destruct (ti_added _ _ Hinv _ _ _ HX). lia.
Qed.

Lemma register_module_inv m s r s' :
  register_module m s = Ret (r, s') →
  (r = Err ResolverUnsupported ∧ s' = s) ∨
  (r = Ok (zlen (TLS_MODULES s) + 1) ∧ STATIC_TLS s' = STATIC_TLS s ∧ tmem s' = tmem s ∧ fs s' = fs s
   ∧ STATIC_TLS_MODULES s' = STATIC_TLS_MODULES s ∧ TLS_MODULES s' = TLS_MODULES s ++ [Some m]).
Proof.
  unfold register_module. rewrite st_bind_get.
  destruct (checked_add _ 1) as [raw|] eqn:Hc.
  - apply checked_add_Some in Hc as [-> _]. intros [= <- <-]. by right.
  - intros [= <- <-]. by left.
Qed.

Lemma get_slot_Some {A} (l : list A) i x :
  get_slot l i = Some x ↔ 0 ≤ i ∧ l !! Z.to_nat i = Some x.
Proof. unfold get_slot. destruct (Z.ltb_spec i 0); naive_solver lia. Qed.

Lemma tables_rep_snoc_dynamic l ms info src :
  tables_rep l ms → tables_rep l (ms ++ [Some (Dynamic info src)]).
Proof.
  intros [Hnd Hs Hst]. split; [done| |].
  - intros m Hm. destruct (Hs m Hm) as [H1 H2]. split; [done|]. by apply lookup_app_l_Some.
  - intros i info' off [Hi|[_ Hi]]%lookup_app_Some; [by eapply Hst|].
    by apply list_lookup_singleton_Some in Hi as [_ ?].
Qed.

Lemma tables_rep_snoc_static l ms info off src :
  tables_rep l ms →
  tables_rep (l ++ [mkStatic (zlen ms + 1) info src off]) (ms ++ [Some (Static info off)]).
Proof.
  intros [Hnd Hs Hst]. pose proof (zlen_nonneg ms). split.
  - rewrite fmap_app. apply NoDup_app. split_and!; [done| |apply NoDup_singleton].
    intros x Hx. apply list_elem_of_fmap in Hx as (m & -> & Hm). destruct (Hs m Hm) as [H1 H2].
    apply lookup_lt_Some in H2. unfold zlen. simpl. rewrite list_elem_of_singleton. lia.
  - intros m [Hm|Hm]%elem_of_app.
    + destruct (Hs m Hm) as [H1 H2]. split; [done|]. by apply lookup_app_l_Some.
    + apply list_elem_of_singleton in Hm as ->. simpl. split; [lia|].
      replace (Z.to_nat (zlen ms + 1 - 1)) with (length ms) by (unfold zlen; lia).
      by rewrite lookup_app_r, Nat.sub_diag by lia.
  - intros i info' off' Hi. rewrite fmap_app, elem_of_app.
    apply lookup_app_Some in Hi as [Hi|[Hlen Hi]]; [left; by eapply Hst|right].
    apply list_lookup_singleton_Some in Hi as [Hi _]. apply list_elem_of_singleton.
    simpl. unfold zlen. lia.
Qed.

Lemma layout_rep_snoc a l m k u :
  layout_rep a l → 0 ≤ k < 64 → module_align (sm_info m) = Some (2 ^ k) →
  0 ≤ info_memsz (sm_info m) →
  sm_offset m = - u → module_end_of (used a + info_memsz (sm_info m)) (info_vaddr (sm_info m)) (2 ^ k) u →
  ceil_to u 32 + 32 ≤ STATIC_TLS_ARENA_SIZE →
  layout_rep (mkArea (area_tp a) u (Z.max (max_align a) (2 ^ k))) (l ++ [m]).
Proof.
  intros [Hu (k0 & Hk0 & Ha) Hp Hord] Hk Hal Hms Ho (H1 & H2 & _) Hsz.
  assert (end_of m = u) as He by (unfold end_of; lia).
  split; simpl.
  - lia.
  - exists (Z.max k0 k). split; [lia|]. rewrite Ha.
    destruct (Z.le_ge_cases k0 k) as [Hle|Hle].
    + rewrite !Z.max_r; [done|lia|by apply Z.pow_le_mono_r; lia].
    + rewrite !Z.max_l; [done|lia|by apply Z.pow_le_mono_r; lia].
  - apply Forall_app. split.
    + eapply Forall_impl; [exact Hp|]. intros x ((kx & ? & ? & ? & ?) & ? & ?).
      split; [|simpl; lia]. exists kx. simpl. split_and!; try done; lia.
    + apply Forall_singleton. split; [|simpl; lia]. exists k. rewrite He. simpl. split_and!; try done; lia.
  - intros i j mi mj Hij Hi Hj. apply lookup_app_Some in Hj as [Hj|[Hlen Hj]].
    + apply (Hord i j); [done| |done]. rewrite lookup_app_l in Hi; [done|].
      apply lookup_lt_Some in Hj. lia.
    + apply list_lookup_singleton_Some in Hj as [Hj <-]. rewrite lookup_app_l in Hi by lia.
      rewrite Forall_lookup in Hp. destruct (Hp i mi Hi) as (_ & _ & ?). lia.
Qed.

Lemma layout_rep_nil tp : layout_rep (mkArea tp 0 1) [].
Proof.
  split; [done|by exists 0|constructor|]. intros i j mi mj _ Hi. by rewrite lookup_nil in Hi.
Qed.

Lemma ensure_area_inv s a s' :
  ensure_static_tls_area s = Ret (Ok a, s') → used a = 0 ∧ max_align a = 1.
Proof.
  unfold ensure_static_tls_area. destruct (from_size_align _ _); [|done].
  intros (base & s1 & _ & Hb)%st_bind_Ret_inv.
  destruct (base =? 0); [done|].
  apply try_res_inv in Hb as [(? & _ & ?)|(? & s2 & _ & Hb)]; [done|].
  apply try_res_inv in Hb as [(? & _ & ?)|(? & s3 & _ & Hb)]; [done|].
  by injection Hb as <- <-.
Qed.

Lemma tables_eq s s' :
  tables s' = tables s →
  STATIC_TLS s' = STATIC_TLS s ∧ STATIC_TLS_MODULES s' = STATIC_TLS_MODULES s ∧ TLS_MODULES s' = TLS_MODULES s.
Proof. by intros [= -> -> ->]. Qed.

(** The first step of [register_static_module]: there is an area. *)
Lemma area_ready X s (c : st _ (result TlsError unit)) r s' :
  c = (match STATIC_TLS s with
       | Some _ => mret (Ok tt)
       | None => try_res (λ area, set_static_tls (Some area);; mret (Ok tt)) ensure_static_tls_area
       end) →
  tls_inv X s → c s = Ret (r, s') → tls_inv X s' ∧ STATIC_TLS_MODULES s' = STATIC_TLS_MODULES s
    ∧ TLS_MODULES s' = TLS_MODULES s.
Proof.
  intros -> Hinv Hc. destruct (STATIC_TLS s) as [a|] eqn:Ha.
  - by injection Hc as <- <-.
  - apply try_res_inv in Hc as [(e & Hc & _)|(area & s1 & Hc & Hk)].
    + pose proof (keeps_ensure _ _ _ Hc) as Hk. split; [by eapply tls_inv_tables|]. by apply tables_eq in Hk as (_ & ? & ?).
    + pose proof (keeps_ensure _ _ _ Hc) as Ht. apply tables_eq in Ht as (_ & Hm1 & Hm2).
      destruct (ensure_area_inv _ _ _ Hc) as [Hu Hal].
      injection Hk as <- <-. split; [|done].
      destruct Hinv as [Hta Hno Hadd]. rewrite Ha in Hno. split; simpl; rewrite ?Hm1, ?Hm2; [done| |done].
      rewrite Hno. destruct area as [tp u al]. simpl in *. subst. apply layout_rep_nil.
Qed.

Lemma ok_or_inv {A} (o : option A) s r s' :
  ok_or_unsupported (Source := Source) o s = Ret (r, s') →
  s' = s ∧ ((∃ a, o = Some a ∧ r = Ok a) ∨ (o = None ∧ r = Err ResolverUnsupported)).
Proof. destruct o; intros [= <- <-]; eauto. Qed.

(** Registration of a static module, on every branch. *)
Lemma register_static_inv X info s r s' :
  tls_inv X s → info_ok info → register_static_module info s = Ret (r, s') →
  tls_inv X s' ∧
  match r with
  | Ok (id, off) => id = zlen (TLS_MODULES s) + 1
      ∧ TLS_MODULES s' = TLS_MODULES s ++ [Some (Static info off)]
      ∧ STATIC_TLS_MODULES s' = STATIC_TLS_MODULES s ++ [mkStatic id info None off]
  | Err _ => TLS_MODULES s' = TLS_MODULES s ∧ STATIC_TLS_MODULES s' = STATIC_TLS_MODULES s
  end.
Proof.
  intros Hinv (Hia & Him & Hiv). unfold register_static_module. rewrite st_bind_get.
  intros [(e & Hc & ->)|([] & s1 & Hc & Hk)]%try_res_inv.
  { by destruct (area_ready X s _ _ _ eq_refl Hinv Hc) as (? & ? & ?). }
  destruct (area_ready X s _ _ _ eq_refl Hinv Hc) as (Hinv1 & Hsm & Htm). clear Hc.
  rewrite st_bind_get in Hk. destruct (STATIC_TLS s1) as [a|] eqn:Ha; [|done].
  pose proof Hinv1 as [Hta Hla _]. rewrite Ha in Hla.
  assert (∀ e : TlsError, tls_inv X s1 ∧ TLS_MODULES s1 = TLS_MODULES s ∧ STATIC_TLS_MODULES s1 = STATIC_TLS_MODULES s)
    as Herr by done.
  apply try_res_inv in Hk as [(e & [-> _]%ok_or_inv & ->)|(al & s2 & Hal & Hk)]; [by apply Herr|].
  apply ok_or_inv in Hal as [-> [(al' & Hal & [= <-])|[_ ?]]]; [|done].
  destruct (checked_next_power_of_two_Some _ _ Hal) as (k & Hk64 & -> & _ & _).
  apply st_bind_Ret_inv in Hk as (eo & s2 & [He ->]%st_lift_inv & Hk).
  apply try_res_inv in Hk as [(e & [-> _]%ok_or_inv & ->)|(u & s2 & Hu & Hk)]; [by apply Herr|].
  apply ok_or_inv in Hu as [-> [(u' & -> & [= <-])|[_ ?]]]; [|done].
  destruct (la_used _ _ Hla) as [Hua Hub]. destruct (ceil_to_spec (used a) 32) as [Hca _]; [lia|].
  destruct (static_module_end_run (used a) (info_memsz info) (info_vaddr info) k) as (r2 & Hr2 & Hend & _);
    [unfold in_usize, STATIC_TLS_ARENA_SIZE in *; lia|done|done|done|].
  rewrite Hr2 in He. injection He as ->. destruct (Hend u eq_refl) as (Hmend & _ & Hus).
  apply st_bind_Ret_inv in Hk as (to & s2 & [Hto ->]%st_lift_inv & Hk).
  rewrite static_used_with_rseq_run in Hto by done.
  apply try_res_inv in Hk as [(e & [-> _]%ok_or_inv & ->)|(tot & s2 & Ht & Hk)]; [by apply Herr|].
  apply ok_or_inv in Ht as [-> [(t' & -> & [= <-])|[_ ?]]]; [|done].
  destruct (Z.gtb_spec tot STATIC_TLS_ARENA_SIZE) as [|Hle]; [injection Hk as <- <-; by apply (Herr ResolverUnsupported)|].
  apply try_res_inv in Hk as [(e & Hreg & ->)|(id & s2 & Hreg & Hk)];
    apply register_module_inv in Hreg as [[Hr ->]|(Hr & HT & _ & _ & HSM & HTM)]; try done.
  injection Hr as ->. injection Hk as <- <-. simpl.
  rewrite HSM, HTM, <-Hsm, <-Htm. split; [|done]. pose proof (next_not_added _ _ Hinv1) as HX.
  split; simpl.
  - by apply tables_rep_snoc_static.
  - rewrite own_snoc. cbn [sm_id]. rewrite decide_True by done. apply layout_rep_snoc; try done.
    + simpl. unfold in_usize in Him. lia.
    + revert Hto. repeat case_decide; try done. intros [= <-]. lia.
  - apply (ti_added_keep _ s1 _ _ Hinv1); simpl; [rewrite zlen_app; unfold zlen; lia|].
    intros m' [Hm'| ->%list_elem_of_singleton]%elem_of_app; [by eauto|]. simpl. rewrite HX. by intros [? ?].
Qed.

(** [add_static_module] records the module at the offset it is given and
    reserves nothing. *)
Lemma add_static_inv X info off s r s' :
  tls_inv X s → add_static_module info off s = Ret (r, s') →
  match r with
  | Ok id => id = zlen (TLS_MODULES s) + 1 ∧ tls_inv (<[id := (info, off)]> X) s'
      ∧ STATIC_TLS s' = STATIC_TLS s
      ∧ STATIC_TLS_MODULES s' = STATIC_TLS_MODULES s ++ [mkStatic id info None off]
  | Err _ => s' = s
  end.
Proof.
  intros Hinv. unfold add_static_module.
  intros [(e & [[_ ->]|[? _]]%register_module_inv & ->)|(id & s1 & [[? _]|(Hid & HT & _ & _ & HSM & HTM)]%register_module_inv & Hk)]%try_res_inv;
    try done.
  injection Hid as ->. injection Hk as <- <-. simpl. rewrite HSM. split; [done|]. split; [|done].
  pose proof (next_not_added _ _ Hinv) as HX. pose proof Hinv as [Hta Hla Hadd].
  set (id := zlen (TLS_MODULES s) + 1) in *.
  assert (∀ m, m ∈ STATIC_TLS_MODULES s → sm_id m < id) as Hlt.
  { intros m Hm. destruct (ta_slot _ _ Hta m Hm) as [? H2%lookup_lt_Some]. unfold id, zlen. lia. }
  assert (own (<[id := (info, off)]> X) (STATIC_TLS_MODULES s) = own X (STATIC_TLS_MODULES s)) as Hown.
  { apply own_added. intros m Hm. specialize (Hlt m Hm). lia. }
  split; simpl.
  - rewrite HTM. by apply tables_rep_snoc_static.
  - rewrite HT, own_snoc. cbn [sm_id]. rewrite lookup_insert_eq. rewrite decide_False by done.
    by rewrite app_nil_r, Hown.
  - rewrite HTM, zlen_app. change (zlen [_]) with 1. intros j info' off'.
    destruct (decide (j = id)) as [->|Hne].
    + rewrite lookup_insert_eq. intros [= <- <-]. split; [unfold id; lia|].
      intros m [Hm| ->%list_elem_of_singleton]%elem_of_app Hj; [|done]. specialize (Hlt m Hm). lia.
    + rewrite lookup_insert_ne by done. intros HXj. destruct (Hadd _ _ _ HXj) as [? Hm]. split; [lia|].
      intros m [?| ->%list_elem_of_singleton]%elem_of_app Hj; [by apply Hm|]. by subst.
Qed.

Lemma register_dynamic_inv X info s r s' :
  tls_inv X s → register_dynamic_module info s = Ret (r, s') → tls_inv X s'.
Proof.
  intros Hinv [[_ ->]|(_ & HT & _ & _ & HSM & HTM)]%register_module_inv; [done|].
  pose proof Hinv as [Hta Hla _]. split; [|by rewrite HT, HSM|].
  - rewrite HSM, HTM. by apply tables_rep_snoc_dynamic.
  - apply (ti_added_keep _ s _ _ Hinv); rewrite ?HTM, ?HSM; [rewrite zlen_app; unfold zlen; lia|eauto].
Qed.

Lemma layout_rep_filter a l (P : StaticTlsModule Source → Prop) `{∀ x, Decision (P x)} :
  layout_rep a l → layout_rep a (filter P l).
Proof.
  intros [Hu Ha Hp Hord]. split; [done|done| |].
  - apply Forall_forall. intros x [_ Hx]%list_elem_of_filter. rewrite Forall_forall in Hp. by apply Hp.
  - revert Hord. clear. induction l as [|x l IH]; intros Hord i j mi mj Hij Hi Hj; [done|].
    assert (∀ i j mi mj, (i < j)%nat → l !! i = Some mi → l !! j = Some mj →
      end_of mi ≤ end_of mj - info_memsz (sm_info mj)) as Hord'.
    { intros i' j' ?????. apply (Hord (S i') (S j')); [lia|done|done]. }
    rewrite filter_cons in Hi, Hj. case_decide; [|by eapply IH].
    destruct j as [|j]; [lia|]. simpl in Hj. destruct i as [|i]; simpl in Hi.
    + injection Hi as <-. assert (mj ∈ filter P l) as Hin by (by eapply list_elem_of_lookup_2).
      apply list_elem_of_filter in Hin as [_ [j' Hj']%list_elem_of_lookup].
      apply (Hord 0%nat (S j')); [lia|done|done].
    + eapply IH; [done| |done|done]. lia.
Qed.

Lemma unregister_inv X id s r s' :
  tls_inv X s → unregister_module id s = Ret (r, s') → tls_inv X s'.
Proof.
  intros Hinv. pose proof Hinv as [Hta Hla _]. unfold unregister_module. destruct (id =? 0); [by intros [= <- <-]|].
  rewrite st_bind_get.
  assert (∀ ms, (∀ j x, ms !! j = Some (Some x) → Z.of_nat j ≠ id - 1 ∧ TLS_MODULES s !! j = Some (Some x)) →
    (∀ j x, Z.of_nat j ≠ id - 1 → TLS_MODULES s !! j = Some (Some x) → ms !! j = Some (Some x)) →
    tables_rep (filter (λ m, sm_id m ≠ id) (STATIC_TLS_MODULES s)) ms) as Hgen.
  { intros ms Hms Hms2. destruct Hta as [Hnd Hs Hst]. split.
    - eapply sublist_NoDup; [exact Hnd|]. apply fmap_sublist, sublist_filter.
    - intros m [Hne Hm]%list_elem_of_filter. destruct (Hs m Hm) as [H1 H2]. split; [done|].
      apply Hms2; [lia|done].
    - intros i info off Hi. destruct (Hms i _ Hi) as [Hne Hi'].
      apply Hst in Hi'. apply list_elem_of_fmap in Hi' as (m & Hid & Hm).
      apply list_elem_of_fmap. exists m. split; [done|]. apply list_elem_of_filter. split; [lia|done]. }
  intros (r1 & s1 & H1 & H2)%st_bind_Ret_inv. injection H2 as <- <-.
  destruct (get_slot (TLS_MODULES s) (id - 1)) as [sl|] eqn:Hsl; injection H1 as <- <-; simpl.
  - apply get_slot_Some in Hsl as [Hid Hsl].
    split; simpl; [|rewrite own_filter|apply (ti_added_keep _ s _ _ Hinv); simpl;
      [by unfold zlen; rewrite length_insert|intros m' [_ ?]%list_elem_of_filter _; by exists m']].
    + apply Hgen.
      * intros j x Hj. destruct (decide (j = Z.to_nat (id - 1))) as [->|Hne].
        { rewrite list_lookup_insert_eq in Hj by (by eapply lookup_lt_Some). done. }
        rewrite list_lookup_insert_ne in Hj by done. split; [lia|done].
      * intros j x Hne Hj. rewrite list_lookup_insert_ne by lia. done.
    + destruct (STATIC_TLS s); [by apply layout_rep_filter|]. by rewrite Hla.
  - split; simpl; [|rewrite own_filter|apply (ti_added_keep _ s _ _ Hinv); simpl;
      [done|intros m' [_ ?]%list_elem_of_filter _; by exists m']].
    + apply Hgen; [|done]. intros j x Hj. split; [|done].
      intros Hji.
      enough (get_slot (TLS_MODULES s) (id - 1) = Some (Some x)) by congruence.
      apply get_slot_Some. split; [lia|]. by replace (Z.to_nat (id - 1)) with j by lia.
    + destruct (STATIC_TLS s); [by apply layout_rep_filter|]. by rewrite Hla.
Qed.

(** The invariant does not look at image sources. *)
Definition key (m : StaticTlsModule Source) : Z * TlsInfo * Z := (sm_id m, sm_info m, sm_offset m).

Lemma key_lookup (l l' : list (StaticTlsModule Source)) i m' :
  key <$> l' = key <$> l → l' !! i = Some m' → ∃ m, l !! i = Some m ∧ key m = key m'.
Proof.
  intros Hk Hi. assert ((key <$> l') !! i = Some (key m')) as Hx by (by rewrite list_lookup_fmap, Hi).
  rewrite Hk in Hx.
  rewrite list_lookup_fmap in Hx. destruct (l !! i) as [m|]; [|done]. exists m. simpl in Hx. split; [done|congruence].
Qed.

Lemma key_own X l l' : key <$> l' = key <$> l → key <$> own X l' = key <$> own X l.
Proof.
  revert l'. induction l as [|x l IH]; intros [|x' l'] Hk; try done. injection Hk as Hid Hi Ho Hk.
  unfold own. rewrite !filter_cons, Hid. case_decide; simpl; [|by apply IH].
  unfold key at 1 3. rewrite Hid, Hi, Ho. f_equal. by apply IH.
Qed.

Lemma key_layout a l l' : key <$> l' = key <$> l → layout_rep a l → layout_rep a l'.
Proof.
  intros Hk [Hu Ha Hp Hord]. rewrite Forall_lookup in Hp. split; [done|done| |].
  - apply Forall_lookup. intros i m' Hi'. destruct (key_lookup l l' i m' Hk Hi') as (m & Hm & Hkm).
    injection Hkm as _ Hinfo Hoff. specialize (Hp i m Hm). unfold placed, end_of in *.
    by rewrite <-Hinfo, <-Hoff.
  - intros i j mi mj Hij Hi' Hj'. destruct (key_lookup l l' i mi Hk Hi') as (ni & Hi & Hki).
    destruct (key_lookup l l' j mj Hk Hj') as (nj & Hj & Hkj).
    injection Hki as _ _ Hoi. injection Hkj as _ Hinfo Hoj.
    specialize (Hord i j ni nj Hij Hi Hj). unfold end_of in *. by rewrite <-Hoi, <-Hoj, <-Hinfo.
Qed.

Lemma key_tables l l' ms : key <$> l' = key <$> l → tables_rep l ms → tables_rep l' ms.
Proof.
  intros Hk [Hnd Hs Hst].
  assert (sm_id <$> l' = sm_id <$> l) as Hid.
  { assert (∀ k, sm_id <$> k = (λ x, x.1.1) <$> (key <$> k)) as Hc
      by (intros k; by rewrite <-list_fmap_compose). by rewrite !Hc, Hk. }
  split; [by rewrite Hid| |by rewrite Hid].
  intros m' [i Hi]%list_elem_of_lookup. destruct (key_lookup l _ _ _ Hk Hi) as (m & Hm & Hkm).
  injection Hkm as Hi' Hinfo Hoff. rewrite <-Hi', <-Hinfo, <-Hoff. apply Hs. by eapply list_elem_of_lookup_2.
Qed.

Lemma replace_static_key l (m : StaticTlsModule Source) :
  sm_id m ∈ sm_id <$> l → (∀ x, x ∈ l → sm_id x = sm_id m → key x = key m) →
  key <$> replace_static l m = key <$> l.
Proof.
  induction l as [|x l IH]; intros Hin Hall; [by apply elem_of_nil in Hin|]. simpl.
  destruct (Z.eqb_spec (sm_id x) (sm_id m)) as [He|Hne]; simpl.
  - rewrite (Hall x); [done|set_solver|done].
  - f_equal. apply IH; [|intros y Hy; apply Hall; set_solver].
    simpl in Hin. apply elem_of_cons in Hin as [?|?]; [congruence|done].
Qed.

Lemma tls_module_inv id s m s' :
  tls_module id s = Ret (m, s') →
  s' = s ∧ ∀ x, m = Some x → 1 ≤ id ∧ TLS_MODULES s !! Z.to_nat (id - 1) = Some (Some x).
Proof.
  unfold tls_module. rewrite st_bind_get. intros [= <- <-]. split; [done|]. intros x.
  destruct (Z.eqb_spec id 0); [done|].
  destruct (get_slot (TLS_MODULES s) (id - 1)) as [[y|]|] eqn:Hg; simpl; try done.
  intros [= ->]. apply get_slot_Some in Hg as [? ?]. split; [lia|done].
Qed.

Lemma replace_slot_inv id m s r s' :
  replace_slot id m s = Ret (r, s') →
  (s' = s ∧ ∃ e, r = Err e) ∨
  (r = Ok tt ∧ 1 ≤ id ∧ STATIC_TLS s' = STATIC_TLS s ∧ STATIC_TLS_MODULES s' = STATIC_TLS_MODULES s
    ∧ TLS_MODULES s' = <[Z.to_nat (id - 1) := Some m]> (TLS_MODULES s)).
Proof.
  unfold replace_slot. destruct (Z.eqb_spec id 0); [intros [= <- <-]; left; eauto|].
  rewrite st_bind_get. destruct (get_slot _ _) eqn:Hg; intros [= <- <-]; [right|left; eauto].
  apply get_slot_Some in Hg as [? _]. split_and!; try done. lia.
Qed.

Lemma tables_rep_dynamic l ms i info src info' src' :
  tables_rep l ms → ms !! i = Some (Some (Dynamic info src)) →
  tables_rep l (<[i := Some (Dynamic info' src')]> ms).
Proof.
  intros [Hnd Hs Hst] Hi. split; [done| |].
  - intros m Hm. destruct (Hs m Hm) as [H1 H2]. split; [done|].
    rewrite list_lookup_insert_ne; [done|]. intros ->. congruence.
  - intros j info2 off Hj. destruct (decide (i = j)) as [->|Hne].
    + rewrite list_lookup_insert_eq in Hj by (by eapply lookup_lt_Some). done.
    + rewrite list_lookup_insert_ne in Hj by done. by eapply Hst.
Qed.

Lemma init_static_tables X s r s' info source id offset :
  tls_inv X s → 1 ≤ id → TLS_MODULES s !! Z.to_nat (id - 1) = Some (Some (Static info offset)) →
  init_static_tls info source id offset s = Ret (r, s') → tls_inv X s'.
Proof.
  intros Hinv Hid Hslot. pose proof Hinv as [Hta Hla _]. unfold init_static_tls, update_static_module_slot.
  intros [(e & [[-> _]|[? _]]%replace_slot_inv & _)|([] & s1 & [[_ [? ?]]|(_ & _ & HT & HSM & HTM)]%replace_slot_inv & Hk)]%try_res_inv;
    [done|done|done|].
  rewrite list_insert_id in HTM by done.
  rewrite st_bind_get in Hk. apply st_bind_Ret_inv in Hk as ([] & s2 & H2 & Hk).
  injection H2 as <-. rewrite st_bind_get in Hk.
  apply st_bind_Ret_inv in Hk as ([] & s3 & H3 & Hk). injection Hk as <- <-.
  set (m := mkStatic id info (Some source) offset) in *.
  assert (key <$> replace_static (STATIC_TLS_MODULES s) m = key <$> STATIC_TLS_MODULES s) as Hkey.
  { apply replace_static_key.
    - apply (ta_static _ _ Hta) in Hslot. simpl. replace id with (Z.of_nat (Z.to_nat (id - 1)) + 1) by lia. done.
    - intros y Hx Hidx. destruct (ta_slot _ _ Hta y Hx) as [_ Hsx]. simpl in Hidx.
      rewrite Hidx, Hslot in Hsx. injection Hsx as Hi Ho. unfold key, m. simpl. congruence. }
  assert (tables s3 = (STATIC_TLS s, replace_static (STATIC_TLS_MODULES s) m, TLS_MODULES s)) as Ht.
  { match type of H3 with ?c ?sx = _ => assert (keeps c) as Hkeep end.
    { keeps_tac; first [apply keeps_init_static|apply keeps_init_rseq]. }
    rewrite (Hkeep _ _ _ H3). unfold tables. simpl. by rewrite HT, HSM, HTM. }
  injection Ht as HT3 HSM3 HTM3. split.
  - rewrite HSM3, HTM3. by eapply key_tables.
  - rewrite HT3, HSM3. pose proof (key_own X _ _ Hkey) as Hko. destruct (STATIC_TLS s); [by eapply key_layout|].
    rewrite Hla in Hko. by eapply fmap_nil_inv.
  - apply (ti_added_keep _ s _ _ Hinv); rewrite ?HTM3, ?HSM3; [done|].
    intros m' [i Hi]%list_elem_of_lookup _. destruct (key_lookup _ _ _ _ Hkey Hi) as (m0 & Hm0 & Hk0).
    injection Hk0 as ???. exists m0. split; [by eapply list_elem_of_lookup_2|done].
Qed.

Lemma init_tls_inv X s r s' source id offset :
  tls_inv X s → init_tls_module source id offset s = Ret (r, s') → tls_inv X s'.
Proof.
  intros Hinv. unfold init_tls_module.
  intros (m & s1 & [-> Hm]%tls_module_inv & Hk)%st_bind_Ret_inv.
  destruct m as [[info src|info off]|], offset as [offset|]; try (injection Hk as <- <-; exact Hinv).
  - destruct (Hm _ eq_refl) as [Hid Hslot].
    apply replace_slot_inv in Hk as [[-> _]|(_ & _ & HT & HSM & HTM)]; [done|].
    pose proof Hinv as [Hta Hla _]. split; [|by rewrite HT, HSM|].
    + rewrite HSM, HTM. by eapply tables_rep_dynamic.
    + apply (ti_added_keep _ s _ _ Hinv); rewrite ?HTM, ?HSM; [by unfold zlen; rewrite length_insert|eauto].
  - destruct (Z.eqb_spec offset off) as [->|]; [|by injection Hk as <- <-].
    destruct (Hm _ eq_refl) as [Hid Hslot]. by eapply init_static_tables.
Qed.

(** ** The operations of the linker and of libc on this module *)
Inductive tls_step (s : tls_state Source) : tls_state Source → Prop :=
  | step_register_dynamic info r s' :
      register_dynamic_module info s = Ret (r, s') → tls_step s s'
  | step_register_static info r s' :
      info_ok info → register_static_module info s = Ret (r, s') → tls_step s s'
  | step_add_refused info offset e s' :
      add_static_module info offset s = Ret (Err e, s') → tls_step s s'
  | step_init source id offset r s' :
      init_tls_module source id offset s = Ret (r, s') → tls_step s s'
  | step_unregister id r s' : unregister_module id s = Ret (r, s') → tls_step s s'
  | step_get_addr index r s' : get_addr index s = Ret (r, s') → tls_step s s'
  | step_get_addr_soft id r s' : get_addr_soft id s = Ret (r, s') → tls_step s s'
  | step_allocate storage r s' : allocate storage s = Ret (r, s') → tls_step s s'
  | step_init_storage storage r s' : init storage s = Ret (r, s') → tls_step s s'
  | step_deallocate storage d r s' : _dl_deallocate_tls storage d s = Ret (r, s') → tls_step s s'.

Definition initial (m : mem) (fs : Z) : tls_state Source := mkTls m fs None [] [] [] [].

(** The states that sequences of all the operations reach, with the modules
    that [add_static_module] was asked to record on the way. *)
Inductive tls_reachable : added_modules → tls_state Source → Prop :=
  | reach_initial m fs : tls_reachable ∅ (initial m fs)
  | reach_step X s s' : tls_reachable X s → tls_step s s' → tls_reachable X s'
  | reach_add X s info offset id s' : tls_reachable X s →
      add_static_module info offset s = Ret (Ok id, s') →
      tls_reachable (<[id := (info, offset)]> X) s'.

Lemma tls_step_inv X s s' : tls_inv X s → tls_step s s' → tls_inv X s'.
Proof.
  intros Hinv Hst. destruct Hst as [info r s' Hc|info r s' Hi Hc|info off e s' Hc|source id off r s' Hc|id r s' Hc
    |index r s' Hc|id r s' Hc|storage r s' Hc|storage r s' Hc|storage d r s' Hc].
  - by eapply register_dynamic_inv.
  - by eapply register_static_inv.
  - by rewrite (add_static_inv _ _ _ _ _ _ Hinv Hc).
  - by eapply init_tls_inv.
  - by eapply unregister_inv.
  - eapply tls_inv_tables; [|done]. by eapply keeps_get_addr.
  - eapply tls_inv_tables; [|done].
    assert (keeps (get_addr_soft id)) as Hk by (unfold get_addr_soft; keeps_tac; apply keeps_get_thread_pointer).
    by eapply Hk.
  - eapply tls_inv_tables; [|done]. by eapply keeps_allocate.
  - eapply tls_inv_tables; [|done]. by eapply keeps_init.
  - eapply tls_inv_tables; [|done].
    assert (keeps (_dl_deallocate_tls storage d)) as Hk
      by (apply keeps_bind; [apply keeps_on_mem|intros; apply keeps_deallocate]).
    by eapply Hk.
Qed.

Lemma tls_inv_initial m fs : tls_inv ∅ (initial m fs).
Proof.
  split; [|done|by intros ? ? ? ?]. split; [constructor|by intros ? ?%elem_of_nil|by intros ? ? ? ?].
Qed.

Lemma tls_reachable_inv X s : tls_reachable X s → tls_inv X s.
Proof.
  induction 1 as [m fs|X s s' _ IH Hst|X s info off id s' _ IH Hc];
    [apply tls_inv_initial|by eapply tls_step_inv|].
  by destruct (add_static_inv _ _ _ _ _ _ IH Hc) as (_ & ? & _).
Qed.

(** ** Memory effects *)
(** A module's block: its image, then zeros. *)
Definition block_of (image : list Z) (memsz : Z) : list Z :=
  image ++ replicate (Z.to_nat (memsz - zlen image)) 0.

Lemma zlen_block image memsz : zlen image ≤ memsz → zlen (block_of image memsz) = memsz.
Proof. intros. unfold block_of. rewrite zlen_app, zlen_replicate; lia. Qed.

Lemma write_image_run m dst image memsz :
  zlen image ≤ memsz < 2 ^ 64 → mapped m dst memsz →
  write_image dst image memsz m = Ret (tt, write m dst (block_of image memsz)).
Proof.
  intros Hl Hm. pose proof (zlen_nonneg image). unfold write_image.
  erewrite st_bind_run by (apply store_bytes_run; eapply mapped_le; [exact Hm|lia|lia]).
  erewrite st_bind_run by (apply st_lift_run, usub_small; lia).
  rewrite write_bytes_run; [by rewrite write_app|lia|].
  apply write_mapped. eapply mapped_le; [exact Hm|lia|lia].
Qed.

Definition image_of (m : StaticTlsModule Source) : option (list Z) := sm_source m ≫= with_image.
(** ELF images are no longer than their module. *)
Definition image_fits (m : StaticTlsModule Source) : Prop :=
  ∀ image, image_of m = Some image → zlen image ≤ info_memsz (sm_info m).

(** Two blocks do not overlap. *)
Definition apart (m m' : StaticTlsModule Source) : Prop :=
  sm_offset m + info_memsz (sm_info m) ≤ sm_offset m' ∨ sm_offset m' + info_memsz (sm_info m') ≤ sm_offset m.

(** The blocks that have an image are places of the layout, two by two apart. *)
Record laid_out (a : StaticTlsArea) (l : list (StaticTlsModule Source)) : Prop := {
  lo_placed m : m ∈ l → is_Some (image_of m) → placed a m;
  lo_apart m m' : m ∈ l → m' ∈ l → is_Some (image_of m) → is_Some (image_of m') → sm_id m ≠ sm_id m' → apart m m' }.

(** The same of the added modules only: each is a place of the layout that no
    other module has. *)
Definition added_fit (X : added_modules) (a : StaticTlsArea) (l : list (StaticTlsModule Source)) : Prop :=
  ∀ m, m ∈ l → is_Some (X !! sm_id m) → is_Some (image_of m) →
    placed a m ∧ ∀ m', m' ∈ l → is_Some (image_of m') → sm_id m' ≠ sm_id m → apart m m'.

Lemma layout_rep_apart a l m m' :
  layout_rep a l → m ∈ l → m' ∈ l → sm_id m ≠ sm_id m' → apart m m'.
Proof.
  intros [_ _ _ Hord] [i Hi]%list_elem_of_lookup [j Hj]%list_elem_of_lookup Hne.
  unfold apart, end_of in *. destruct (decide (i < j)%nat).
  - specialize (Hord i j m m'). specialize (Hord ltac:(done) Hi Hj). lia.
  - destruct (decide (i = j)) as [->|]; [congruence|].
    specialize (Hord j i m' m ltac:(lia) Hj Hi). lia.
Qed.

(** The linker's own modules need no condition. *)
Lemma own_laid_out X a l : layout_rep a (own X l) → added_fit X a l → laid_out a l.
Proof.
  intros Hla Hadd. pose proof (la_placed _ _ Hla) as Hp. rewrite Forall_forall in Hp.
  assert (∀ m, m ∈ l → X !! sm_id m = None → m ∈ own X l) as Hown
    by (intros m Hm HX; by apply list_elem_of_filter).
  split.
  - intros m Hm Hi. destruct (X !! sm_id m) eqn:HX; [by apply Hadd|]. by apply Hp, Hown.
  - intros m m' Hm Hm' Hi Hi' Hne. destruct (X !! sm_id m) eqn:HX; [by apply (Hadd m)|].
    destruct (X !! sm_id m') eqn:HX'.
    + destruct (Hadd m' Hm') as [_ Ha]; [done|done|]. destruct (Ha m Hm Hi Hne); [by right|by left].
    + eapply layout_rep_apart; eauto.
Qed.

(** The bytes below the thread pointer that the static layout takes. *)
Definition static_total (a : StaticTlsArea) : Z := ceil_to (used a) 32 + 32.

(** A thread whose modules [done] are set up; [dtv] is its DTV. *)
Record thread_ready (m : mem) (tp dtv : Z) (a : StaticTlsArea) (done : list (StaticTlsModule Source)) : Prop := {
  tr_dtv : ∃ slots, Dtv.dtv_rep m tp dtv slots ∧
    ∀ x image, x ∈ done → image_of x = Some image → sm_id x ≤ Dtv.DTV_SLOT_COUNT →
      slots (sm_id x) = (tp + sm_offset x, 0);
  tr_bytes x image : x ∈ done → image_of x = Some image →
    bytes_at m (tp + sm_offset x) (block_of image (info_memsz (sm_info x)));
  tr_mapped : mapped m (tp - static_total a) (static_total a);
  tr_self : word_at m tp tp;
  tr_low : static_total a < tp;
  tr_sep : dtv + 65 * 16 ≤ tp - static_total a ∨ tp + 64 ≤ dtv - 16 }.

Lemma bytes_at_agree m m' b k :
  bytes_at m b k → (∀ x, b ≤ x < b + zlen k → m' x = m x) → bytes_at m' b k.
Proof.
  intros Hb Hag i x Hi. rewrite Hag; [by apply Hb|].
  apply lookup_lt_Some in Hi. unfold zlen. lia.
Qed.

(** Setting up one more module. *)
Lemma init_static_run s tp dtv a done x :
  thread_ready (tmem s) tp dtv a done → used a ≤ static_total a ≤ STATIC_TLS_ARENA_SIZE →
  laid_out a (x :: done) → (∀ d, d ∈ done → sm_id d ≠ sm_id x) → 1 ≤ sm_id x →
  (∀ d, d ∈ x :: done → image_fits d) →
  ∃ m', init_static_tls_module tp x s = Ret (tt, with_tmem s m') ∧ thread_ready m' tp dtv a (done ++ [x])
    ∧ ∀ y, ¬ (tp - static_total a ≤ y < tp) → ¬ (dtv + 16 ≤ y < dtv + 65 * 16) → m' y = tmem s y.
Proof.
  intros [(slots & Hdtv & Hsl) Hby Hmap Hself Hlow Hsep] [Hused Htot] [Hpl Hap] Hids Hid Hfits.
  unfold init_static_tls_module, STATIC_TLS_ARENA_SIZE in *.
  destruct (sm_source x) as [src|] eqn:Hsrc; [destruct (with_image src) as [image|] eqn:Himg|].
  2,3: exists (tmem s); split; [by destruct s|]; split; [|done]; split; try done;
    [exists slots; split; [done|]|]; intros y image [Hy|Hy]%elem_of_app; eauto;
    apply list_elem_of_singleton in Hy as ->; unfold image_of; rewrite Hsrc; simpl; congruence.
  assert (image_of x = Some image) as Hix by (unfold image_of; by rewrite Hsrc).
  destruct (Hpl x) as [_ [Hsz Hend]]; [left|by eexists|]. unfold end_of in *.
  pose proof (Hfits x ltac:(left) image Hix) as Hfit. pose proof (zlen_nonneg image).
  erewrite st_bind_run.
  2:{ apply on_mem_run, write_image_run; [lia|]. eapply mapped_le; [exact Hmap|lia|lia]. }
  set (k := block_of image (info_memsz (sm_info x))).
  assert (zlen k = info_memsz (sm_info x)) as Hk by (by apply zlen_block).
  pose proof (Dtv.dr_tp _ _ _ _ Hdtv) as Htp.
  assert (Dtv.dtv_rep (write (tmem s) (tp + sm_offset x) k) tp dtv slots) as Hdtv1
    by (apply Dtv.dtv_rep_write; [done|lia|lia]).
  destruct (Dtv.set_dtv_value_run _ _ _ _ (sm_id x) (tp + sm_offset x) 0 Hdtv1) as (m' & Hrun & Hrep & Hmp & Hfr);
    [lia|unfold in_usize; lia|unfold in_usize; lia|].
  erewrite st_bind_run by (apply on_mem_run; exact Hrun).
  exists m'. split; [done|]. split; [|intros y Hy Hy2; rewrite Hfr by done; apply write_outside; lia]. split.
  - eexists. split; [exact Hrep|]. unfold Dtv.set_slot. intros y im [Hy|Hy]%elem_of_app Hyi Hy64.
    + case_decide; [rewrite decide_False by (by apply Hids)|]; by eapply Hsl.
    + apply list_elem_of_singleton in Hy as ->. by rewrite !decide_True.
  - intros y im [Hy|Hy]%elem_of_app Hyi.
    + destruct (Hpl y) as [_ [Hszy Hey]]; [by right|by eexists|].
      assert (apart y x) as Hyx by (apply Hap; [by right|left|by eexists|by eexists|by apply Hids]).
      pose proof (Hfits y ltac:(by right) im Hyi). unfold apart in Hyx.
      eapply bytes_at_agree; [by eapply Hby|]. rewrite zlen_block by done. unfold end_of in *.
      intros z Hz. rewrite Hfr by lia. apply write_outside. lia.
    + apply list_elem_of_singleton in Hy as ->. replace im with image by congruence.
      eapply bytes_at_agree; [apply write_bytes_at|]. fold k. intros z Hz. apply Hfr. lia.
  - apply Hmp. by apply write_mapped.
  - eapply bytes_at_agree; [exact Hself|]. rewrite zlen_le_encode. intros z Hz.
    rewrite Hfr by lia. apply write_outside. lia.
  - done.
  - done.
Qed.

Lemma init_all_run s tp dtv a done rest :
  thread_ready (tmem s) tp dtv a done → used a ≤ static_total a ≤ STATIC_TLS_ARENA_SIZE →
  laid_out a (done ++ rest) → NoDup (sm_id <$> done ++ rest) →
  Forall (λ x, 1 ≤ sm_id x ∧ image_fits x) (done ++ rest) →
  ∃ m', foldr (λ module k, init_static_tls_module tp module;; k) (mret tt) rest s = Ret (tt, with_tmem s m')
    ∧ thread_ready m' tp dtv a (done ++ rest).
Proof.
  revert s done. induction rest as [|x rest IH]; intros s done Hr Hut Hla Hnd Hall.
  { exists (tmem s). rewrite app_nil_r. split; [by destruct s|done]. }
  pose proof Hall as Hall'. rewrite Forall_forall in Hall'.
  destruct (init_static_run s tp dtv a done x) as (m1 & Hrun & Hr1 & _); try done.
  - assert (∀ d, d ∈ x :: done → d ∈ done ++ x :: rest) as Hin by set_solver.
    destruct Hla as [Hp Hap]. split; intros; [apply Hp|apply Hap]; auto.
  - intros d Hd He. rewrite fmap_app in Hnd. apply NoDup_app in Hnd as (_ & Hdisj & _).
    apply (Hdisj (sm_id d)); [by apply list_elem_of_fmap_2|]. rewrite He. simpl. set_solver.
  - apply Hall'. set_solver.
  - intros d Hd. apply Hall'. set_solver.
  - simpl. rewrite (cons_middle x done rest), app_assoc in *.
    destruct (IH (with_tmem s m1) (done ++ [x])) as (m2 & Hrun2 & Hr2); try done.
    exists m2. split; [|done]. by erewrite st_bind_run by done.
Qed.

(** The rseq area: zero but for the "registration failed" CPU id. *)
Definition rseq_init : list Z := [0; 0; 0; 0; 254; 255; 255; 255] ++ replicate 24 0.

Lemma init_rseq_run s tp a :
  0 ≤ used a ∧ ceil_to (used a) 32 + 32 ≤ STATIC_TLS_ARENA_SIZE →
  mapped (tmem s) (tp - static_total a) (static_total a) →
  init_rseq_area tp (used a) s = Ret (tt, with_tmem s (write (tmem s) (tp - static_total a) rseq_init)).
Proof.
  intros Hu Hm. destruct (ceil_to_spec (used a) 32) as [Hc _]; [lia|].
  unfold init_rseq_area. erewrite st_bind_run by (apply st_lift_run, static_rseq_offset_run; lia).
  cbv beta iota zeta. fold (static_total a). replace (tp + - static_total a) with (tp - static_total a) by lia.
  assert (32 ≤ static_total a) by (unfold static_total; lia).
  erewrite st_bind_run.
  2:{ apply on_mem_run, write_bytes_run; [done|]. unfold RSEQ_AREA_SIZE. eapply mapped_le; [exact Hm|lia|lia]. }
  erewrite on_mem_run.
  2:{ unfold store32. apply store_bytes_run. rewrite zlen_le_encode. apply write_mapped.
      unfold RSEQ_CPU_ID_OFFSET. eapply mapped_le; [exact Hm|lia|lia]. }
  unfold with_tmem.
  cbn [tmem fs STATIC_TLS STATIC_TLS_MODULES TLS_MODULES DYNAMIC_TLS_BLOCKS TLS_ALLOCATIONS].
  do 3 f_equal. apply FunctionalExtensionality.functional_extensionality.
  intros x. unfold RSEQ_CPU_ID_OFFSET, RSEQ_AREA_SIZE. set (b := tp - static_total a).
  destruct (decide (b ≤ x < b + 32)) as [Hin|Hout].
  - unfold write. rewrite zlen_le_encode. change (zlen (replicate (Z.to_nat 32) 0)) with 32.
    change (zlen rseq_init) with 32. change (Z.of_nat 4) with 4. rewrite (decide_True (P := b ≤ x < b + 32)) by done.
    rewrite (decide_True (P := b ≤ x < b + 32)) by done.
    assert (∃ i, x = b + Z.of_nat i ∧ (i < 32)%nat) as (i & -> & Hi) by (exists (Z.to_nat (x - b)); lia).
    replace (b + Z.of_nat i - b) with (Z.of_nat i) by lia.
    replace (b + Z.of_nat i - (b + 4)) with (Z.of_nat i - 4) by lia.
    do 32 (destruct i as [|i]; [case_decide; try lia; reflexivity|]). lia.
  - rewrite !write_outside; [done|..].
    + change (zlen rseq_init) with 32. lia.
    + change (zlen (replicate (Z.to_nat 32) 0)) with 32. lia.
    + rewrite zlen_le_encode. lia.
Qed.

(** The initial thread's area: a zeroed arena with a page-aligned thread
    pointer above it, installed in the FS register. *)
Lemma area_layout :
  from_size_align (STATIC_TLS_ARENA_SIZE + TLS_TCB_SIZE) 4096 = Some (mkLayout 1050944 4096).
Proof. reflexivity. Qed.
Lemma area_layout_ok : layout_ok (mkLayout 1050944 4096).
Proof. split; [done|]. exists 12. simpl. lia. Qed.

Lemma ensure_area_run {KL : KernelLaws} s base :
  mmap_at (tmem s) 1052672 = Some base →
  (∀ m, fresh_block (tmem s) (mkLayout 1050944 4096) base m → mmap_at m 4096 ≠ None) →
  ∃ s', let tp := base + STATIC_TLS_ARENA_SIZE in
    ensure_static_tls_area s =
      (if syscall_ok (arch_prctl ARCH_SET_FS tp) then Ret (Ok (mkArea tp 0 1), s') else Ret (Err ResolverUnsupported, s'))
    ∧ tp mod 4096 = 0 ∧ 0 < tp < 2 ^ 63
    ∧ (syscall_ok (arch_prctl ARCH_SET_FS tp) = true → fs s' = tp)
    ∧ mapped (tmem s') base (STATIC_TLS_ARENA_SIZE + TLS_TCB_SIZE)
    ∧ word_at (tmem s') tp tp
    ∧ ∃ dtv, Dtv.dtv_rep (tmem s') tp dtv (λ _, (0, 0))
      ∧ (dtv + 65 * 16 ≤ base ∨ base + STATIC_TLS_ARENA_SIZE + TLS_TCB_SIZE ≤ dtv - 16)
      ∧ ∀ x, ¬ (base ≤ x < base + 1052672) → ¬ (dtv - 16 ≤ x < dtv - 16 + 4096) → tmem s' x = tmem s x.
Proof.
  intros Hmm Hdtv. unfold ensure_static_tls_area. rewrite area_layout.
  pose proof (alloc_run (mkLayout 1050944 4096) (tmem s) area_layout_ok) as Hal.
  cbv zeta in Hal. change (round_page _) with 1052672 in Hal. rewrite Hmm in Hal.
  destruct (alloc_zeroed_run (mkLayout 1050944 4096) (tmem s) area_layout_ok) as [[_ Hn]|(a & m1 & Hr & Hf)].
  { change (round_page _) with 1052672 in Hn. congruence. }
  assert (a = base) as ->.
  { unfold alloc_zeroed in Hr. erewrite st_bind_run in Hr by exact Hal.
    destruct (base =? 0) eqn:Hb0; [injection Hr as <- <-; lia|].
    apply st_bind_Ret_inv in Hr as ([] & m2 & _ & Hr). by injection Hr. }
  pose proof Hf as [Hpos Hpg Hend _ Hmap Hz _ Hout0]. change (round_page _) with 1052672 in Hend, Hmap, Hout0.
  change (lsize _) with 1050944 in Hz.
  unfold STATIC_TLS_ARENA_SIZE, TLS_TCB_SIZE in *. change (1024 * 1024) with 1048576 in *.
  set (tp := base + 1048576) in *.
  erewrite st_bind_run by (apply on_mem_run; exact Hr). rewrite (proj2 (Z.eqb_neq base 0)) by lia.
  cbv beta iota zeta.
  assert (0 < tp < 2 ^ 63) as Htp by (unfold tp; lia).
  assert (tp mod 4096 = 0) as Htp4.
  { unfold tp. rewrite Z.add_mod, Hpg by lia. done. }
  destruct (Dtv.init_tcb_run m1 tp Htp) as [[_ (m0 & Hd & Hno)]|(dtv & m2 & Hi & Hrep & Htm & Hself & _ & _ & _ & Hfr)].
  { intros x Hx. apply Hmap. unfold tp in Hx. lia. }
  { left. eapply Dtv.word_at_zeros; [exact Hz|unfold tp, Dtv.TCB_DTV_OFFSET; lia|].
    unfold tp, Dtv.TCB_DTV_OFFSET. lia. }
  { exfalso. rewrite Dtv.deallocate_tcb_none in Hd; [|lia|].
    - injection Hd as <-. by eapply Hdtv.
    - eapply Dtv.word_at_zeros; [exact Hz|unfold tp, Dtv.TCB_DTV_OFFSET; lia|].
      unfold tp, Dtv.TCB_DTV_OFFSET. lia. }
  assert (mapped m2 base 1050944) as Hm2.
  { intros x Hx. destruct (decide (tp ≤ x < tp + 64)) as [Hin|Hout].
    - by apply Htm.
    - destruct Hfr as (Hfr & _ & _); [|rewrite Hfr; [apply Hmap; lia|apply Hmap; lia|done]].
      eapply Dtv.word_at_zeros; [exact Hz|unfold tp, Dtv.TCB_DTV_OFFSET; lia|].
      unfold tp, Dtv.TCB_DTV_OFFSET. lia. }
  assert (init_tcb tp (with_tmem s m1) = Ret (Ok tt, with_tmem s m2)) as Hic.
  { unfold init_tcb. rewrite (proj2 (Z.eqb_neq tp 0)) by lia. by erewrite st_bind_run by (apply on_mem_run; exact Hi). }
  assert ((dtv + 65 * 16 ≤ base ∨ base + 1048576 + 2368 ≤ dtv - 16)
    ∧ ∀ x, ¬ (base ≤ x < base + 1052672) → ¬ (dtv - 16 ≤ x < dtv - 16 + 4096) → m2 x = tmem s x) as [Hap Hout].
  { destruct Hfr as (_ & Hnew & Hfr).
    { eapply Dtv.word_at_zeros; [exact Hz|unfold tp, Dtv.TCB_DTV_OFFSET; lia|].
      unfold tp, Dtv.TCB_DTV_OFFSET. lia. }
    split; [|intros x H1 H2; rewrite Hfr; [by apply Hout0|unfold tp; lia|done]].
    destruct (decide (dtv + 65 * 16 ≤ base)); [by left|].
    destruct (decide (base + 1048576 + 2368 ≤ dtv - 16)); [by right|].
    destruct (Hmap (Z.max base (dtv - 16))) as [o Ho]; [lia|]. rewrite Hnew in Ho by lia. done. }
  fold tp. erewrite try_res_ok by exact Hic.
  unfold install_thread_pointer, arch_install_thread_pointer. rewrite (proj2 (Z.eqb_neq tp 0)) by lia.
  destruct (syscall_ok (arch_prctl ARCH_SET_FS tp)) eqn:Hok.
  - erewrite try_res_ok by reflexivity. eexists. split; [done|]. split_and!; try done; [lia|lia|by exists dtv].
  - erewrite try_res_err by reflexivity. eexists. split; [done|]. split_and!; try done; [lia|lia|by exists dtv].
Qed.

(** Registration when there is an area: it decides exactly whether the least
    end leaves room for the rseq area. *)
Lemma register_static_decides X s a info :
  tls_inv X s → STATIC_TLS s = Some a → info_ok info → zlen (TLS_MODULES s) + 1 < 2 ^ 64 →
  ∃ r s', register_static_module info s = Ret (r, s') ∧
    match r with
    | Ok (id, off) => ∃ k e, 0 ≤ k < 64 ∧ module_align info = Some (2 ^ k)
        ∧ module_end_of (used a + info_memsz info) (info_vaddr info) (2 ^ k) e
        ∧ ceil_to e 32 + 32 ≤ STATIC_TLS_ARENA_SIZE ∧ id = zlen (TLS_MODULES s) + 1 ∧ off = - e
        ∧ s' = mkTls (tmem s) (fs s) (Some (mkArea (area_tp a) e (Z.max (max_align a) (2 ^ k))))
                 (STATIC_TLS_MODULES s ++ [mkStatic id info None off]) (TLS_MODULES s ++ [Some (Static info off)])
                 (DYNAMIC_TLS_BLOCKS s) (TLS_ALLOCATIONS s)
    | Err err => err = ResolverUnsupported ∧ s' = s ∧
        ∀ p e, module_align info = Some p →
          module_end_of (used a + info_memsz info) (info_vaddr info) p e →
          STATIC_TLS_ARENA_SIZE < ceil_to e 32 + 32
    end.
Proof.
  intros [_ Hla _] Ha (Hia & Him & Hiv) Hlen. rewrite Ha in Hla.
  destruct (la_used _ _ Hla) as [Hua Hub]. destruct (ceil_to_spec (used a) 32) as [Hca _]; [lia|].
  unfold register_static_module. rewrite st_bind_get, Ha. erewrite try_res_ok by reflexivity.
  rewrite st_bind_get, Ha. unfold ok_or_unsupported. fold (module_align info).
  destruct (module_align info) as [p|] eqn:Hal.
  2:{ erewrite try_res_err by reflexivity. eexists (Err _), s. split_and!; done. }
  destruct (checked_next_power_of_two_Some _ _ Hal) as (k & Hk & -> & _ & _).
  erewrite try_res_ok by reflexivity.
  destruct (static_module_end_run (used a) (info_memsz info) (info_vaddr info) k) as (r & Hr & He & Hno);
    [unfold in_usize, STATIC_TLS_ARENA_SIZE in *; lia|done|done|done|].
  erewrite st_bind_run by (apply st_lift_run; exact Hr).
  destruct r as [e|].
  2:{ erewrite try_res_err by reflexivity. eexists (Err _), s. split; [done|]. split_and!; [done|done|].
      intros p e [= <-] Hme. specialize (Hno eq_refl e Hme).
      destruct (ceil_to_spec e 32); [lia|]. unfold STATIC_TLS_ARENA_SIZE. lia. }
  destruct (He e eq_refl) as (Hme & _ & Heu). erewrite try_res_ok by reflexivity.
  erewrite st_bind_run by (apply st_lift_run, static_used_with_rseq_run; done).
  assert (∀ e', module_end_of (used a + info_memsz info) (info_vaddr info) (2 ^ k) e' → e' = e) as Huniq.
  { intros e' (H1 & H2 & H3). destruct Hme as (H1' & H2' & H3').
    specialize (H3 e H1' H2'). specialize (H3' e' H1 H2). lia. }
  destruct (ceil_to_spec e 32) as [Hce _]; [lia|]. unfold in_usize in Heu.
  assert (STATIC_TLS_ARENA_SIZE < ceil_to e 32 + 32 → ∀ p e', Some (2 ^ k) = Some p →
    module_end_of (used a + info_memsz info) (info_vaddr info) p e' → STATIC_TLS_ARENA_SIZE < ceil_to e' 32 + 32)
    as Hfull by (intros ? ? ? [= <-] ->%Huniq; done).
  assert (ceil_to e 32 + 32 < 2 ^ 64 ∨ STATIC_TLS_ARENA_SIZE < ceil_to e 32 + 32) as [Hfit|Hnofit]
    by (unfold STATIC_TLS_ARENA_SIZE; lia).
  - rewrite !decide_True by lia. erewrite try_res_ok by reflexivity.
    destruct (Z.gtb_spec (ceil_to e 32 + 32) STATIC_TLS_ARENA_SIZE).
    { eexists (Err _), s. split; [done|]. split_and!; [done|done|apply Hfull; lia]. }
    erewrite try_res_ok.
    2:{ unfold register_module. rewrite st_bind_get. rewrite checked_add_lt by done. reflexivity. }
    eexists (Ok _), _. split; [reflexivity|]. exists k, e. split_and!; try done; lia.
  - eexists (Err _), s. split; [|split_and!; [done|done|apply Hfull; lia]].
    repeat case_decide; [erewrite try_res_ok by reflexivity|by erewrite try_res_err by reflexivity..].
    by rewrite (proj2 (Z.gtb_lt _ _)) by lia.
Qed.

(** The first registration creates the area and goes on as with one. *)
Lemma register_static_first s a s1 info :
  STATIC_TLS s = None → ensure_static_tls_area s = Ret (Ok a, s1) →
  register_static_module info s = register_static_module info
    (mkTls (tmem s1) (fs s1) (Some a) (STATIC_TLS_MODULES s1) (TLS_MODULES s1) (DYNAMIC_TLS_BLOCKS s1) (TLS_ALLOCATIONS s1)).
Proof.
  intros Hn He. unfold register_static_module. rewrite !st_bind_get, Hn.
  erewrite try_res_ok by (erewrite try_res_ok by exact He; reflexivity).
  by erewrite try_res_ok by reflexivity.
Qed.

(** A thread whose vector is new has no module yet, and its vector is away from its storage. *)
Lemma fresh_thread_ready m m1 tp dtv a :
  Dtv.dtv_rep m1 tp dtv (λ _, (0, 0)) → word_at m1 tp tp → static_total a < tp →
  mapped m (tp - static_total a) (static_total a + 64) →
  (∀ x, is_Some (m x) → ¬ (tp ≤ x < tp + 64) → m1 x = m x) →
  (∀ x, dtv - 16 ≤ x < dtv + 65 * 16 → m x = None) → 32 ≤ static_total a →
  thread_ready m1 tp dtv a [].
Proof.
  intros Hrep Hself Hlow Hmap Hkeep Hfresh Htot. split; [|by intros ? ? ?%elem_of_nil| |done|done|].
  - exists (λ _, (0, 0)). split; [done|]. by intros ? ? ?%elem_of_nil.
  - intros x Hx. rewrite Hkeep; [apply Hmap; lia|apply Hmap; lia|lia].
  - destruct (decide (dtv + 65 * 16 ≤ tp - static_total a)); [by left|].
    destruct (decide (tp + 64 ≤ dtv - 16)); [by right|].
    destruct (Hmap (Z.max (tp - static_total a) (dtv - 16))) as [o Ho]; [lia|].
    rewrite Hfresh in Ho by lia. done.
Qed.

(** The state of a thread whose storage was initialised. *)
Lemma init_run {KL : KernelLaws} X s a tp :
  tls_inv X s → STATIC_TLS s = Some a → added_fit X a (STATIC_TLS_MODULES s) → 0 < tp < 2 ^ 63 → static_total a < tp →
  mapped (tmem s) (tp - static_total a) (static_total a + 64) → word_at (tmem s) (tp + 8) 0 →
  Forall image_fits (STATIC_TLS_MODULES s) →
  init tp s = Panic ∧ mmap_at (tmem s) 4096 = None ∨
  ∃ dtv m', init tp s = Ret (tp, with_tmem s m')
    ∧ bytes_at m' (tp - static_total a) rseq_init
    ∧ thread_ready m' tp dtv a (STATIC_TLS_MODULES s).
Proof.
  intros [Hta Hla _] Ha Hadd Htp Hlow Hmap Hz Hmods. rewrite Ha in Hla.
  pose proof (la_used _ _ Hla) as [Hu Hub]. destruct (ceil_to_spec (used a) 32) as [Hc _]; [lia|].
  unfold init. rewrite (proj2 (Z.eqb_neq tp 0)) by lia.
  assert (32 ≤ static_total a) as Htot by (unfold static_total; lia).
  destruct (Dtv.init_tcb_run (tmem s) tp Htp) as [[Hp (m0 & Hd & Hno)]|(dtv & m1 & Hi & Hrep & _ & Hself & _ & _ & _ & Hfr)].
  { eapply mapped_le; [exact Hmap|lia|lia]. }
  { by left. }
  { left. rewrite Dtv.deallocate_tcb_none in Hd; [|lia|done]. injection Hd as <-. split; [|done].
    unfold init_tcb. rewrite (proj2 (Z.eqb_neq tp 0)) by lia.
    unfold on_mem, mbind, st_bind, st_get, st_lift, outcome_bind. by rewrite Hp. }
  right. destruct (Hfr Hz) as (Hkeep & Hfresh & _).
  assert (init_tcb tp s = Ret (Ok tt, with_tmem s m1)) as Hrun.
  { unfold init_tcb. rewrite (proj2 (Z.eqb_neq tp 0)) by lia. by erewrite st_bind_run by (apply on_mem_run; exact Hi). }
  erewrite st_bind_run by exact Hrun. cbv beta iota. rewrite st_bind_get.
  assert (thread_ready m1 tp dtv a []) as Hready by (by apply (fresh_thread_ready (tmem s))).
  destruct (init_all_run (with_tmem s m1) tp dtv a [] (STATIC_TLS_MODULES s)) as (m2 & Hall & Hr2);
    [done|unfold static_total; lia|by eapply own_laid_out|apply (ta_nodup _ _ Hta)| |].
  { rewrite Forall_forall in *. intros x Hx. split; [apply (ta_slot _ _ Hta x Hx)|by apply Hmods]. }
  change (STATIC_TLS_MODULES (with_tmem s m1)) with (STATIC_TLS_MODULES s).
  erewrite st_bind_run by exact Hall. unfold static_used_info. rewrite st_bind_assoc, st_bind_get.
  change (STATIC_TLS (with_tmem (with_tmem s m1) m2)) with (STATIC_TLS s). rewrite Ha, st_bind_ret.
  pose proof Hr2 as [Hdtv Hby Hmap2 Hself2 _ Hsep].
  erewrite st_bind_run by (apply init_rseq_run; [done|exact Hmap2]).
  exists dtv. eexists. split; [reflexivity|]. split; [apply write_bytes_at|].
  change (zlen rseq_init) with 32 in *.
  split; try done.
  - destruct Hdtv as (slots & Hd2 & Hsl). exists slots. split; [|done].
    apply Dtv.dtv_rep_write; [done|change (zlen rseq_init) with 32; lia..].
  - intros x image Hx Himg. apply bytes_at_write_other; [by apply Hby|]. right.
    change (zlen rseq_init) with 32. pose proof (own_laid_out _ _ _ Hla Hadd) as [Hpl _].
    destruct (Hpl x Hx) as [_ [? ?]]; [by eexists|]. unfold end_of, static_total in *. lia.
  - by apply write_mapped.
  - apply word_at_write_other; [done|]. change (zlen rseq_init) with 32. lia.
Qed.

(** The alignment and the size of a thread's storage. *)
Definition storage_align (a : StaticTlsArea) : Z := Z.max (Z.max (Z.max (max_align a) 32) 64) 8.
Definition storage_static (a : StaticTlsArea) : Z := ceil_to (static_total a) (storage_align a).

Lemma storage_align_pow a :
  (∃ k, 0 ≤ k < 64 ∧ max_align a = 2 ^ k) → max_align a ≤ 4096 →
  ∃ k, 6 ≤ k ≤ 12 ∧ storage_align a = 2 ^ k.
Proof.
  intros (k & Hk & Ha) Hle. unfold storage_align. rewrite Ha in *.
  assert (k ≤ 12) by (apply (Z.pow_le_mono_r_iff 2); lia).
  destruct (decide (k ≤ 6)).
  - exists 6. split; [lia|]. assert (2 ^ k ≤ 2 ^ 6) by (apply Z.pow_le_mono_r; lia). lia.
  - exists k. split; [lia|]. assert (2 ^ 6 ≤ 2 ^ k) by (apply Z.pow_le_mono_r; lia). lia.
Qed.

Lemma storage_bounds a :
  0 ≤ used a ∧ static_total a ≤ STATIC_TLS_ARENA_SIZE → (∃ k, 0 ≤ k < 64 ∧ max_align a = 2 ^ k) →
  max_align a ≤ 4096 →
  32 ≤ static_total a ≤ storage_static a ∧ storage_static a ≤ STATIC_TLS_ARENA_SIZE + 4096
  ∧ storage_static a mod storage_align a = 0 ∧ 64 ≤ storage_align a ≤ 4096.
Proof.
  intros [Hu Ht] Hk Hle. destruct (storage_align_pow a Hk Hle) as (k & Hk6 & Ha).
  assert (64 ≤ storage_align a ≤ 4096) as Hb.
  { rewrite Ha. change 64 with (2 ^ 6). change 4096 with (2 ^ 12). split; apply Z.pow_le_mono_r; lia. }
  destruct (ceil_to_spec (static_total a) (storage_align a)) as [Hc Hm]; [lia|].
  destruct (ceil_to_spec (used a) 32) as [Hc2 _]; [lia|].
  unfold storage_static. split_and!; try done; try lia. unfold static_total. lia.
Qed.

Lemma allocate_storage_run {KL : KernelLaws} s a :
  STATIC_TLS s = Some a → 0 ≤ used a ∧ static_total a ≤ STATIC_TLS_ARENA_SIZE →
  (∃ k, 0 ≤ k < 64 ∧ max_align a = 2 ^ k) → max_align a ≤ 4096 →
  let l := mkLayout (storage_static a + TLS_TCB_SIZE) (storage_align a) in
  layout_ok l ∧
  (allocate_storage s = Panic ∧ mmap_at (tmem s) (round_page (Z.max (lsize l) (lalign l))) = None ∨
   ∃ base m', fresh_block (tmem s) l base m' ∧
     allocate_storage s = Ret (Some (base + storage_static a),
       mkTls m' (fs s) (STATIC_TLS s) (STATIC_TLS_MODULES s) (TLS_MODULES s) (DYNAMIC_TLS_BLOCKS s)
         (TLS_ALLOCATIONS s ++ [mkAllocation (base + storage_static a) base l]))).
Proof.
  intros Ha Hu Hk Hle l. destruct (storage_bounds a Hu Hk Hle) as (Ht & Hs & Hmod & Hal).
  destruct (storage_align_pow a Hk Hle) as (k & Hk6 & Hpow).
  unfold STATIC_TLS_ARENA_SIZE in *.
  assert (layout_ok l) as Hl.
  { unfold l, TLS_TCB_SIZE. split; simpl; [lia|]. exists k. split_and!; [lia|lia|done|lia]. }
  split; [done|]. unfold allocate_storage, static_used_info.
  rewrite st_bind_assoc, st_bind_get, Ha, st_bind_ret. cbn [fst snd].
  destruct Hu as [Hu0 Hu1]. destruct (ceil_to_spec (used a) 32) as [Hcu _]; [lia|].
  unfold static_total in Ht.
  erewrite try_some_run by (apply st_lift_run, static_used_with_rseq_run; unfold in_usize; lia).
  rewrite !decide_True by lia. cbv zeta. fold (static_total a).
  unfold RSEQ_AREA_ALIGN, TLS_TCB_ALIGN. fold (storage_align a).
  assert (checked_next_power_of_two (storage_align a) = Some (storage_align a)) as Hnp
    by (rewrite Hpow; apply checked_next_power_of_two_pow2; lia).
  rewrite Hnp. erewrite try_some_run by reflexivity. cbv beta iota.
  assert (align_up (static_total a) (storage_align a) = Ret (Some (storage_static a))) as Hau.
  { unfold storage_static. rewrite Hpow. rewrite align_up_run by (unfold in_usize, static_total in *; lia).
    rewrite decide_True; [done|]. rewrite <-Hpow. unfold static_total. lia. }
  erewrite try_some_run by (apply st_lift_run; exact Hau). cbv beta iota.
  rewrite checked_add_lt by (unfold TLS_TCB_SIZE; lia). erewrite try_some_run by reflexivity. cbv beta iota.
  assert (from_size_align (Z.max (storage_static a + TLS_TCB_SIZE) 1) (storage_align a) = Some l) as Hfs.
  { unfold from_size_align. rewrite Z.max_l by (unfold TLS_TCB_SIZE; lia).
    rewrite Hpow, is_power_of_two_pow2 by lia. rewrite <-Hpow.
    by rewrite (proj2 (Z.leb_le _ _)) by (unfold TLS_TCB_SIZE; lia). }
  rewrite Hfs. erewrite try_some_run by reflexivity. cbv beta iota.
  destruct (alloc_zeroed_run l (tmem s) Hl) as [[Hn Hno]|(base & m' & Hr & Hf)]; [left|right].
  - split; [|done]. by erewrite st_bind_run by (apply on_mem_run; exact Hn).
  - exists base, m'. split; [done|]. erewrite st_bind_run by (apply on_mem_run; exact Hr).
    pose proof (fb_pos _ _ _ _ Hf). rewrite (proj2 (Z.eqb_neq base 0)) by lia. by rewrite <-Ha.
Qed.

(** [_dl_get_tls_static_info] reports exactly what a new thread takes. *)
Lemma static_info_run s a :
  STATIC_TLS s = Some a → 0 ≤ used a ∧ static_total a ≤ STATIC_TLS_ARENA_SIZE →
  (∃ k, 0 ≤ k < 64 ∧ max_align a = 2 ^ k) → max_align a ≤ 4096 →
  static_info s = Ret ((storage_static a + TLS_TCB_SIZE, storage_align a), s).
Proof.
  intros Ha Hu Hk Hle. destruct (storage_bounds a Hu Hk Hle) as (Ht & Hs & Hmod & Hal).
  destruct (storage_align_pow a Hk Hle) as (k & Hk6 & Hpow). unfold STATIC_TLS_ARENA_SIZE in *.
  destruct Hu as [Hu0 Hu1]. destruct (ceil_to_spec (used a) 32) as [Hcu _]; [lia|].
  unfold static_total in Ht.
  unfold static_info, static_layout_info, static_used_info.
  rewrite !st_bind_assoc, st_bind_get, Ha, st_bind_ret. rewrite st_bind_assoc.
  erewrite st_bind_run by (apply st_lift_run, static_used_with_rseq_run; unfold in_usize; simpl; lia).
  rewrite !decide_True by (simpl; lia). cbn [fst snd default]. rewrite st_bind_ret. cbn [fst snd].
  fold (static_total a).
  replace (Z.max (Z.max (Z.max (max_align a) RSEQ_AREA_ALIGN) TLS_TCB_ALIGN) 1) with (storage_align a)
    by (unfold storage_align, RSEQ_AREA_ALIGN, TLS_TCB_ALIGN; lia).
  assert (align_up (static_total a) (storage_align a) = Ret (Some (storage_static a))) as Hau.
  { unfold storage_static. rewrite Hpow. rewrite align_up_run by (unfold in_usize, static_total in *; lia).
    rewrite decide_True; [done|]. rewrite <-Hpow. unfold static_total. lia. }
  unfold id. erewrite st_bind_run by (apply st_lift_run; cbn [fst snd]; rewrite Hau, try_opt_Some, checked_add_lt;
    [reflexivity|unfold TLS_TCB_SIZE; lia]).
  done.
Qed.

Lemma mod_pow2_le x j k : 0 ≤ j ≤ k → x mod 2 ^ k = 0 → x mod 2 ^ j = 0.
Proof.
  intros Hjk Hx. assert (0 < 2 ^ j) by (apply pow2_pos; lia). assert (0 < 2 ^ k) by (apply pow2_pos; lia).
  apply Z.mod_divide; [lia|]. apply Z.mod_divide in Hx; [|lia].
  apply (Z.divide_trans _ (2 ^ k)); [|done]. exists (2 ^ (k - j)).
  rewrite <-Z.pow_add_r by lia. f_equal. lia.
Qed.

(** The first byte of a module's block has its residue for every thread
    pointer as aligned as the storage. *)
Lemma placed_residue a x tp :
  placed a x → tp mod storage_align a = 0 →
  (∃ k, 0 ≤ k < 64 ∧ max_align a = 2 ^ k) → max_align a ≤ 4096 →
  ∃ p, module_align (sm_info x) = Some p ∧ (tp + sm_offset x - info_vaddr (sm_info x)) mod p = 0.
Proof.
  intros [(j & Hj & Hal & Hle & Hmod) _] Htp Hk Hmax.
  destruct (storage_align_pow a Hk Hmax) as (k & Hk6 & Hpow). exists (2 ^ j). split; [done|].
  assert (2 ^ j ≤ 2 ^ k) by (rewrite <-Hpow; unfold storage_align; lia).
  assert (j ≤ k) by (apply (Z.pow_le_mono_r_iff 2); lia).
  assert (tp mod 2 ^ j = 0) as Htj by (apply (mod_pow2_le _ _ k); [lia|by rewrite <-Hpow]).
  unfold end_of in Hmod. assert (0 < 2 ^ j) by (apply pow2_pos; lia).
  replace (tp + sm_offset x - info_vaddr (sm_info x)) with (tp - (- sm_offset x + info_vaddr (sm_info x))) by lia.
  by rewrite Zminus_mod, Htj, Hmod.
Qed.

(** ** The blocks of a thread *)
Lemma swap_remove_perm {A} (l : list A) i x : l !! i = Some x → x :: swap_remove l i ≡ₚ l.
Proof.
  intros Hi. unfold swap_remove. destruct l as [|y l' _] using rev_ind; [done|].
  rewrite last_snoc. apply lookup_app_Some in Hi as [Hi|[Hlen Hi]].
  - pose proof (lookup_lt_Some _ _ _ Hi) as Hlt. rewrite length_app. simpl.
    rewrite insert_app_l by done. replace (length l' + 1 - 1)%nat with (length (<[i := y]> l')) by (rewrite length_insert; lia).
    rewrite take_app_length. rewrite <-Permutation_cons_append.
    rewrite insert_take_drop by done. rewrite <-(take_drop_middle l' i x) at 3 by done.
    by rewrite <-!Permutation_middle, Permutation_swap.
  - apply list_lookup_singleton_Some in Hi as [Hi0 ->].
    replace i with (length l') by lia. rewrite length_app. simpl.
    replace (length l' + 1 - 1)%nat with (length l') by lia.
    rewrite take_insert_ge by done. rewrite take_app_length. by rewrite Permutation_cons_append.
Qed.

Lemma length_swap_remove {A} (l : list A) i x : l !! i = Some x → length (swap_remove l i) = (length l - 1)%nat.
Proof. intros Hi. apply swap_remove_perm, Permutation_length in Hi. simpl in Hi. lia. Qed.

Lemma take_swap_remove {A} (l : list A) i x :
  l !! i = Some x → take i (swap_remove l i) = take i l.
Proof.
  intros Hi. pose proof (lookup_lt_Some _ _ _ Hi). unfold swap_remove.
  destruct (last l) as [y|] eqn:Hl; [|by destruct l].
  rewrite take_take. replace (i `min` (length l - 1))%nat with i by lia. by rewrite take_insert_ge.
Qed.

(** The pages that serve a block. *)
Definition in_pages (b : DynamicTlsBlock) (x : Z) : Prop :=
  blk_ptr b ≤ x < blk_ptr b + round_page (Z.max (lsize (blk_layout b)) (lalign (blk_layout b))).

(** The pages of the thread's blocks go, the blocks of others stay. *)
Lemma free_loop_run fuel tp blocks index s :
  Forall (λ b, layout_ok (blk_layout b)) blocks → (length blocks - index ≤ fuel)%nat →
  Forall (λ b, blk_tp b ≠ tp) (take index blocks) →
  ∃ freed rest m', free_loop fuel tp blocks index s = Ret (rest, with_tmem s m')
    ∧ blocks ≡ₚ freed ++ rest ∧ Forall (λ b, blk_tp b = tp) freed ∧ Forall (λ b, blk_tp b ≠ tp) rest
    ∧ (∀ b x, b ∈ freed → in_pages b x → m' x = None)
    ∧ (∀ x, (∀ b, b ∈ freed → ¬ in_pages b x) → m' x = tmem s x).
Proof.
  revert blocks index s. induction fuel as [|fuel IH]; intros blocks index s Hok Hf Hpre; simpl.
  { destruct (Nat.ltb_spec index (length blocks)); [lia|]. rewrite take_ge in Hpre by lia.
    exists [], blocks, (tmem s). split; [by destruct s|]. split_and!; try done.
    by intros b x ?%elem_of_nil. }
  destruct (blocks !! index) as [b|] eqn:Hb.
  2:{ apply lookup_ge_None in Hb. rewrite take_ge in Hpre by lia.
      exists [], blocks, (tmem s). split; [by destruct s|]. split_and!; try done.
      by intros b x ?%elem_of_nil. }
  pose proof (lookup_lt_Some _ _ _ Hb) as Hlt. destruct (Z.eqb_spec (blk_tp b) tp) as [Htp|Hne].
  - assert (layout_ok (blk_layout b)) as Hlb by (rewrite Forall_lookup in Hok; by apply (Hok index)).
    erewrite st_bind_run by (apply on_mem_run, dealloc_run; exact Hlb).
    set (m1 := (λ x, if decide (blk_ptr b ≤ x < _) then None else tmem s x) : mem). pose proof (swap_remove_perm _ _ _ Hb) as Hperm.
    destruct (IH (swap_remove blocks index) index (with_tmem s m1)) as (freed & rest & m' & Hrun & Hp & Hfr & Hre & Hin & Hout).
    + rewrite <-Hperm in Hok. by apply Forall_cons in Hok as [_ ?].
    + rewrite (length_swap_remove _ _ _ Hb). lia.
    + by rewrite (take_swap_remove _ _ _ Hb).
    + exists (b :: freed), rest, m'. split; [exact Hrun|]. split_and!; [..|done| |].
      * by rewrite <-Hperm, Hp.
      * by constructor.
      * intros b' x Hb' Hx. destruct (decide (Exists (λ c, in_pages c x) freed)) as [[c [Hc Hcx]]%Exists_exists|Hno].
        { by eapply Hin. }
        rewrite Hout. 2:{ intros c Hc Hcx. apply Hno, Exists_exists. eauto. }
        apply elem_of_cons in Hb' as [->|Hb'].
        { simpl. unfold m1. by rewrite decide_True. }
        exfalso. apply Hno, Exists_exists. eauto.
      * intros x Hx. rewrite Hout by (intros c Hc; apply Hx; set_solver). simpl. unfold m1.
        rewrite decide_False; [done|]. apply (Hx b). set_solver.
  - destruct (IH blocks (S index) s) as (freed & rest & m' & Hrun); [done|lia| |by exists freed, rest, m'].
    rewrite (take_S_r _ _ b) by done. apply Forall_app. split; [done|]. by constructor.
Qed.

(** The first access of a thread to a dynamic module. *)
Definition dynamic_align (info : TlsInfo) : Z := default 1 (module_align info).

(** An access to a dynamic module: what the DTV has, or a block. *)
Lemma get_addr_dynamic s id o info source v :
  0 < fs s → syscall_ok (arch_prctl ARCH_GET_FS 0) = true → 1 ≤ id →
  TLS_MODULES s !! Z.to_nat (id - 1) = Some (Some (Dynamic info source)) →
  Dtv.dtv_value (fs s) id (tmem s) = Ret (v, tmem s) →
  get_addr (Some (mkIndex id o)) s =
    match v with
    | Some ptr => Ret (ptr + o, s)
    | None => (b ← allocate_dynamic_block (fs s) id info source;
               mret match b with None => 0 | Some ptr => ptr + o end) s
    end.
Proof.
  intros Htp Hget Hid Hslot Hv. unfold get_addr. cbn [ti_module ti_offset].
  assert (tls_module id s = Ret (Some (Dynamic info source), s)) as Hm.
  { unfold tls_module. rewrite st_bind_get, (proj2 (Z.eqb_neq id 0)) by lia.
    assert (get_slot (TLS_MODULES s) (id - 1) = Some (Some (Dynamic info source))) as ->; [|done].
    apply get_slot_Some. split; [lia|done]. }
  erewrite st_bind_run by exact Hm. cbv beta iota. unfold dynamic_tls_addr.
  assert (get_thread_pointer s = Ret (fs s, s)) as Hg by (unfold get_thread_pointer; by rewrite st_bind_get, Hget).
  erewrite st_bind_run by exact Hg. rewrite (proj2 (Z.eqb_neq (fs s) 0)) by lia.
  erewrite (st_bind_run _ _ _ v); [by destruct v|].
  erewrite on_mem_run by exact Hv. by destruct s.
Qed.

(** Unless the kernel has no memory for it, the block is allocated away from
    TCB and DTV and filled, before it is published. *)
Lemma allocate_dynamic_filled {KL : KernelLaws} s tp dtv slots id info source image l :
  Dtv.dtv_rep (tmem s) tp dtv slots → with_image source = Some image → zlen image ≤ info_memsz info →
  from_size_align (Z.max (info_memsz info) 1) (dynamic_align info) = Some l → layout_ok l →
  allocate_dynamic_block tp id info (Some source) s = Panic
    ∧ mmap_at (tmem s) (round_page (Z.max (lsize l) (lalign l))) = None ∨
  ∃ ptr m1, let m2 := write m1 ptr (block_of image (info_memsz info)) in
    fresh_block (tmem s) l ptr m1 ∧ Dtv.dtv_rep m2 tp dtv slots
    ∧ (ptr + round_page (Z.max (lsize l) (lalign l)) ≤ dtv - 16 ∨ dtv + 65 * 16 ≤ ptr)
    ∧ 0 ≤ info_memsz info ≤ round_page (Z.max (lsize l) (lalign l))
    ∧ allocate_dynamic_block tp id info (Some source) s =
        (ok ← on_mem (Dtv.set_dtv_value tp id ptr ptr);
         if negb ok then on_mem (dealloc ptr l);; mret None
         else
           s ← st_get;
           set_blocks (DYNAMIC_TLS_BLOCKS s ++ [mkBlock tp ptr l]);;
           mret (Some ptr)) (with_tmem s m2).
Proof.
  intros Hdtv Himg Hfit Hl Hlok. pose proof (zlen_nonneg image).
  unfold allocate_dynamic_block. fold (module_align info). fold (dynamic_align info). rewrite Hl.
  destruct (alloc_zeroed_run l (tmem s) Hlok) as [[Hn Hno]|(ptr & m1 & Hr & Hf)].
  { left. split; [|done]. by erewrite st_bind_run by (apply on_mem_run; exact Hn). }
  right. exists ptr, m1. cbv zeta. split; [exact Hf|]. erewrite st_bind_run by (apply on_mem_run; exact Hr).
  pose proof Hf as [Hpos Hpg Hend Hfresh Hmap _ Hkeep _].
  destruct (layout_ok_size l Hlok) as [Hsz _]. destruct (round_page_bounds _ Hsz) as [Hrp Hrm].
  set (size := round_page (Z.max (lsize l) (lalign l))) in *.
  assert (info_memsz info ≤ lsize l) as Hms by (apply from_size_align_ok in Hl as [-> _]; simpl; lia).
  assert (4096 ≤ size) as Hsz4.
  { destruct (decide (4096 ≤ size)); [done|]. rewrite Z.mod_small in Hrm; lia. }
  destruct (Dtv.fresh_apart _ _ _ _ ptr size Hdtv) as [Hap1 Hap2]; [lia|done|].
  rewrite (proj2 (Z.eqb_neq ptr 0)) by lia. rewrite Himg.
  assert (zlen (block_of image (info_memsz info)) = info_memsz info) as Hk by (by apply zlen_block).
  split_and!; [|lia|lia|lia|].
  - apply Dtv.dtv_rep_write; [by eapply Dtv.dtv_rep_extend|lia|lia].
  - by erewrite st_bind_run by (apply on_mem_run, write_image_run; [lia|eapply mapped_le; [exact Hmap|lia|lia]]).
Qed.

Lemma allocate_dynamic_run {KL : KernelLaws} s tp dtv slots id info source image l :
  Dtv.dtv_rep (tmem s) tp dtv slots → 1 ≤ id ≤ Dtv.DTV_SLOT_COUNT →
  with_image source = Some image → zlen image ≤ info_memsz info →
  from_size_align (Z.max (info_memsz info) 1) (dynamic_align info) = Some l → layout_ok l →
  allocate_dynamic_block tp id info (Some source) s = Panic
    ∧ mmap_at (tmem s) (round_page (Z.max (lsize l) (lalign l))) = None ∨
  ∃ ptr m', allocate_dynamic_block tp id info (Some source) s = Ret (Some ptr,
      mkTls m' (fs s) (STATIC_TLS s) (STATIC_TLS_MODULES s) (TLS_MODULES s)
        (DYNAMIC_TLS_BLOCKS s ++ [mkBlock tp ptr l]) (TLS_ALLOCATIONS s))
    ∧ 0 < ptr < 2 ^ 47 ∧ ptr mod 4096 = 0
    ∧ Dtv.dtv_rep m' tp dtv (Dtv.set_slot slots id (ptr, ptr))
    ∧ bytes_at m' ptr (block_of image (info_memsz info))
    ∧ (∀ x, ptr ≤ x < ptr + info_memsz info → tmem s x = None)
    ∧ (∀ x, is_Some (tmem s x) → ¬ (dtv + 16 ≤ x < dtv + 65 * 16) → m' x = tmem s x).
Proof.
  intros Hdtv Hid Himg Hfit Hl Hlok.
  destruct (allocate_dynamic_filled s tp dtv slots id info source image l)
    as [?|(ptr & m1 & Hf & Hdtv1 & Hap & Hms & ->)]; try done; [by left|right].
  pose proof Hf as [Hpos Hpg Hend Hfresh Hmap _ Hkeep _].
  destruct (layout_ok_size l Hlok) as [Hsz _]. destruct (round_page_bounds _ Hsz) as [Hrp _].
  set (size := round_page (Z.max (lsize l) (lalign l))) in *.
  set (k := block_of image (info_memsz info)) in *.
  assert (zlen k = info_memsz info) as Hk by (by apply zlen_block).
  destruct (Dtv.set_dtv_value_run _ _ _ _ id ptr ptr Hdtv1) as (m' & Hrun & Hrep & _ & Hfr);
    [lia|unfold in_usize; lia|unfold in_usize; lia|].
  rewrite decide_True in Hrep by done. rewrite bool_decide_eq_true_2 in Hrun by done.
  erewrite st_bind_run by (apply on_mem_run; exact Hrun). simpl negb. cbv iota.
  exists ptr, m'. split; [done|]. split_and!; try done; try lia.
  - eapply bytes_at_agree; [apply write_bytes_at|]. intros x Hx. apply Hfr. lia.
  - intros x Hx. apply Hfresh. lia.
  - intros x Hx Hnd. rewrite Hfr by done. rewrite write_outside; [by apply Hkeep|].
    rewrite Hk. destruct (decide (x < ptr)); [by left|right].
    destruct (decide (x < ptr + size)); [|lia]. rewrite Hfresh in Hx by lia. by destruct Hx.
Qed.

(** A module beyond the last slot of the DTV: the block is given back. *)
Lemma allocate_dynamic_beyond {KL : KernelLaws} s tp dtv slots id info source image l :
  Dtv.dtv_rep (tmem s) tp dtv slots → Dtv.DTV_SLOT_COUNT < id →
  with_image source = Some image → zlen image ≤ info_memsz info →
  from_size_align (Z.max (info_memsz info) 1) (dynamic_align info) = Some l → layout_ok l →
  allocate_dynamic_block tp id info (Some source) s = Panic
    ∧ mmap_at (tmem s) (round_page (Z.max (lsize l) (lalign l))) = None ∨
  ∃ m', allocate_dynamic_block tp id info (Some source) s = Ret (None, with_tmem s m')
    ∧ ∀ x, m' x = tmem s x.
Proof.
  intros Hdtv Hid Himg Hfit Hl Hlok.
  destruct (allocate_dynamic_filled s tp dtv slots id info source image l)
    as [?|(ptr & m1 & Hf & Hdtv1 & Hap & Hms & ->)]; try done; [by left|right].
  erewrite st_bind_run by (apply on_mem_run, Dtv.set_dtv_value_beyond with dtv slots; done).
  change (negb false) with true. cbv iota. eexists. split.
  { erewrite st_bind_run by (apply on_mem_run, dealloc_run; done). reflexivity. }
  intros x. unfold with_tmem. cbn [tmem]. pose proof (zlen_block image _ Hfit) as Hk.
  destruct Hf as [_ _ _ Hfresh _ _ _ Hout]. case_decide as Hx; [by rewrite Hfresh|].
  rewrite write_outside; [by apply Hout|lia].
Qed.

End runs.

(** ** A linker with one registered module, for the witnesses *)
Section demo.
#[local] Instance demo_build : Build := Build_Build true X86_64.
#[local] Instance demo_kernel' : Kernel := split_kernel.
#[local] Instance demo_laws : KernelLaws := split_kernel_laws.
(** Images are byte lists; the empty list stands for an unreadable one. *)
#[local] Instance list_source : ImageSource (list Z) := λ l, if decide (l = []) then None else Some l.

(** Memory that is free but for the arena and two pages. *)
Definition demo_free (p q : Z) (m : mem) : Prop :=
  ∀ x, ¬ (0x1000000 ≤ x < 0x1000000 + 1052672) → ¬ (p ≤ x < p + 4096) → ¬ (q ≤ x < q + 4096) → m x = None.

(** One of the three places for small mappings is left. *)
Lemma demo_room p q m : demo_free p q m → mmap_at m 4096 ≠ None.
Proof.
  intros Hm. unfold mmap_at, demo_kernel', split_kernel. change (4096 <=? 65536) with true. cbv iota.
  assert (∀ c, 0 < c < 0x400000 → 4096 ≤ Z.abs (c - p) → 4096 ≤ Z.abs (c - q) →
    ∀ x, c ≤ x < c + 4096 → m x = None) as Hc by (intros c H1 H2 H3 x Hx; apply Hm; lia).
  assert (∀ c, c ∈ [0x100000; 0x200000; 0x300000] → 0 < c < 0x400000) as Hcs
    by (intros c Hc0; set_unfold; lia).
  assert (∃ c, c ∈ [0x100000; 0x200000; 0x300000] ∧ 4096 ≤ Z.abs (c - p) ∧ 4096 ≤ Z.abs (c - q))
    as (c & Hin & Hp & Hq).
  { destruct (decide (4096 ≤ Z.abs (0x100000 - p) ∧ 4096 ≤ Z.abs (0x100000 - q))); [exists 0x100000; set_solver|].
    destruct (decide (4096 ≤ Z.abs (0x200000 - p) ∧ 4096 ≤ Z.abs (0x200000 - q))); [exists 0x200000; set_solver|].
    exists 0x300000. split; [set_solver|lia]. }
  eapply demo_mmap_some; [lia|exact Hin|]. apply Hc; auto.
Qed.

(** The first thread's area, its DTV apart from it. *)
Record demo_ready (dtv : Z) (s : tls_state (list Z)) : Prop := {
  dy_dtv : Dtv.dtv_rep (tmem s) 0x1100000 dtv (λ _, (0, 0));
  dy_apart : dtv + 65 * 16 ≤ 0x1000000 ∨ 0x1000000 + STATIC_TLS_ARENA_SIZE + TLS_TCB_SIZE ≤ dtv - 16;
  dy_mapped : mapped (tmem s) 0x1000000 (STATIC_TLS_ARENA_SIZE + TLS_TCB_SIZE);
  dy_self : word_at (tmem s) 0x1100000 0x1100000;
  dy_free : demo_free (dtv - 16) (dtv - 16) (tmem s);
  dy_fs : fs s = 0x1100000 }.

Lemma demo_area : ∃ (s1 : tls_state (list Z)) dtv,
  ensure_static_tls_area (initial (λ _, None) 0) = Ret (Ok (mkArea 0x1100000 0 1), s1)
  ∧ tables s1 = (None, [], []) ∧ demo_ready dtv s1.
Proof.
  destruct (ensure_area_run (initial (Source := list Z) (λ _, None) 0) 0x1000000)
    as (s1 & He & _ & _ & Hfs & Hm & Hself & dtv & Hrep & Hap & Hout).
  - unfold mmap_at, demo_kernel', split_kernel. change (1052672 <=? 65536) with false. cbv iota.
    rewrite demo_mmap_free; [reflexivity|lia|intros; reflexivity].
  - intros m Hf. apply (demo_room 0x1000000 0x1000000). intros x Hx _ _.
    rewrite (fb_outside _ _ _ _ Hf); [done|exact Hx].
  - exists s1, dtv. split; [exact He|]. split; [by apply keeps_ensure in He|].
    split; [exact Hrep|exact Hap|exact Hm|exact Hself| |by apply Hfs].
    intros x Hx Hx2 _. by rewrite Hout.
Qed.

Definition demo_info : TlsInfo := mkTlsInfo 16 40 8.

Definition demo_off : Z := -40.
Lemma demo_register (s1 : tls_state (list Z)) :
  STATIC_TLS s1 = Some (mkArea 0x1100000 0 1) → STATIC_TLS_MODULES s1 = [] → TLS_MODULES s1 = [] →
  ∃ s2, register_static_module demo_info s1 = Ret (Ok (1, demo_off), s2)
    ∧ STATIC_TLS s2 = Some (mkArea 0x1100000 40 16)
    ∧ STATIC_TLS_MODULES s2 = [mkStatic 1 demo_info None demo_off]
    ∧ TLS_MODULES s2 = [Some (Static demo_info demo_off)] ∧ tmem s2 = tmem s1 ∧ fs s2 = fs s1.
Proof.
  intros HA HS HM.
  assert (info_ok demo_info) as Hinfo by (repeat split; simpl; lia).
  destruct (register_static_decides ∅ s1 (mkArea 0x1100000 0 1) demo_info) as (r & s2 & Hr & Hcase); try done.
  - split; rewrite HS; [rewrite HM|rewrite HA; apply layout_rep_nil|by intros ? ? ? ?].
    split; [constructor|by intros ? ?%elem_of_nil|by intros ? ? ? ?].
  - by rewrite HM.
  - assert (module_align demo_info = Some (2 ^ 4)) as Hal by done.
    assert (module_end_of (0 + 40) 8 (2 ^ 4) 40) as Hend by (split_and!; [lia|done|intros; lia]).
    destruct r as [[id off]|err].
    + destruct Hcase as (k & e & Hk & Hal' & Hme & _ & -> & -> & ->).
      rewrite Hal in Hal'. injection Hal' as Hk4. simpl in Hme. rewrite <-Hk4 in *.
      assert (e = 40) as ->.
      { destruct Hme as (H1 & H2 & H3), Hend as (H1' & H2' & H3').
        specialize (H3 40 H1' H2'). specialize (H3' e H1 H2). lia. }
      rewrite Hr, HM, HS. by eexists.
    + destruct Hcase as (_ & _ & Hno). specialize (Hno _ _ Hal Hend). by vm_compute in Hno.
Qed.

Lemma demo_registered : ∃ (s2 : tls_state (list Z)) dtv,
  STATIC_TLS s2 = Some (mkArea 0x1100000 40 16) ∧ tls_reachable ∅ s2
  ∧ STATIC_TLS_MODULES s2 = [mkStatic 1 demo_info None demo_off]
  ∧ TLS_MODULES s2 = [Some (Static demo_info demo_off)] ∧ demo_ready dtv s2.
Proof.
  destruct demo_area as (s1 & dtv & He & [= HT HS HM] & Hready).
  pose proof (register_static_first (initial (λ _, None) 0) _ s1 demo_info eq_refl He) as Hfirst.
  clear He. set (s1' := mkTls _ _ _ _ _ _ _) in Hfirst.
  destruct (demo_register s1' eq_refl HS HM) as (s2 & Hr & HA2 & HS2 & HM2 & Hm2 & Hfs2).
  rewrite Hr in Hfirst. exists s2, dtv. rewrite HS2, HA2, HM2.
  split; [reflexivity|]. split; [|split; [reflexivity|split; [reflexivity|]]].
  - eapply reach_step; [apply reach_initial|]. eapply step_register_static; [|exact Hfirst].
    clear. repeat split; simpl; lia.
  - destruct Hready. split; rewrite ?Hm2, ?Hfs2; assumption.
Qed.

(** Another module that was recorded at an offset of the caller's choice: it
    takes the place of the first one. *)
Lemma demo_added : ∃ s3 : tls_state (list Z),
  STATIC_TLS s3 = Some (mkArea 0x1100000 40 16) ∧ tls_reachable {[2 := (demo_info, -32)]} s3
  ∧ STATIC_TLS_MODULES s3 = [mkStatic 1 demo_info None demo_off; mkStatic 2 demo_info None (-32)].
Proof.
  destruct demo_registered as (s2 & _ & HA & Hreach & HS & HM & _).
  eexists (mkTls (tmem s2) (fs s2) (STATIC_TLS s2) (STATIC_TLS_MODULES s2 ++ [mkStatic 2 demo_info None (-32)])
    (TLS_MODULES s2 ++ [Some (Static demo_info (-32))]) (DYNAMIC_TLS_BLOCKS s2) (TLS_ALLOCATIONS s2)).
  split; [exact HA|]. split; [|simpl; by rewrite HS].
  eapply (reach_add ∅ s2 demo_info (-32) 2); [exact Hreach|].
  assert (register_module (Static demo_info (-32)) s2 = Ret (Ok 2, mkTls (tmem s2) (fs s2) (STATIC_TLS s2)
    (STATIC_TLS_MODULES s2) (TLS_MODULES s2 ++ [Some (Static demo_info (-32))]) (DYNAMIC_TLS_BLOCKS s2)
    (TLS_ALLOCATIONS s2))) as Hreg.
  { unfold register_module. rewrite st_bind_get. by replace (zlen (TLS_MODULES s2)) with 1 by by rewrite HM. }
  unfold add_static_module. by erewrite try_res_ok by exact Hreg.
Qed.

(** The module of [demo_registered] with its image. *)
Lemma demo_initialised : ∃ (s4 : tls_state (list Z)) p,
  STATIC_TLS s4 = Some (mkArea 0x1100000 40 16) ∧ tls_reachable ∅ s4
  ∧ STATIC_TLS_MODULES s4 = [mkStatic 1 demo_info (Some [1; 2; 3]) demo_off]
  ∧ demo_free p p (tmem s4).
Proof.
  destruct demo_registered as (s2 & dtv & HA & Hreach & HS & HM & [Hd Hap Hm Hself Hfree _]).
  set (a := mkArea 0x1100000 40 16) in *. set (x := mkStatic 1 demo_info (Some [1; 2; 3]) demo_off).
  set (s3 := mkTls (tmem s2) (fs s2) (STATIC_TLS s2) [x] [Some (Static demo_info demo_off)]
    (DYNAMIC_TLS_BLOCKS s2) (TLS_ALLOCATIONS s2)).
  change (STATIC_TLS_ARENA_SIZE) with 1048576 in *. unfold TLS_TCB_SIZE in *.
  assert (static_total a = 96) as Htot by reflexivity.
  destruct (init_static_run s3 0x1100000 dtv a [] x) as (m1 & Hrun & [_ _ Hmap _ _ _] & Hfr1).
  - split; try (by intros ? ? ?%elem_of_nil); rewrite ?Htot; [|eapply mapped_le; [exact Hm|lia|lia]|done|lia|lia].
    exists (λ _, (0, 0)). split; [exact Hd|]. by intros ? ? ?%elem_of_nil.
  - rewrite Htot. simpl. unfold STATIC_TLS_ARENA_SIZE. lia.
  - split.
    + intros m ->%list_elem_of_singleton _. split; [exists 4; split_and!; done|done].
    + intros m m' ->%list_elem_of_singleton ->%list_elem_of_singleton; done.
  - by intros ? ?%elem_of_nil.
  - done.
  - intros d ->%list_elem_of_singleton image [= <-]. done.
  - eexists (with_tmem s3 (write m1 (0x1100000 - 96) rseq_init)), (dtv - 16).
    split; [exact HA|]. split; [|split; [done|]].
    + eapply reach_step; [exact Hreach|]. eapply (step_init s2 [1; 2; 3] 1 (Some demo_off)).
      transitivity (((init_static_tls_module 0x1100000 x;; init_rseq_area 0x1100000 (used a));; mret (@Ok TlsError unit tt)) s3).
      { clear -HA HS HM. destruct s2. cbn in HA, HS, HM. subst. reflexivity. }
      rewrite st_bind_assoc. erewrite st_bind_run by exact Hrun.
      erewrite st_bind_run by (apply init_rseq_run; [by vm_compute|exact Hmap]). reflexivity.
    + intros y H1 H2 _. cbn [tmem with_tmem]. rewrite write_outside by (change (zlen rseq_init) with 32; lia).
      rewrite Hfr1 by lia. by apply Hfree.
Qed.
End demo.

End Tls.

Module TlsProps.
Import Machine Heap Tls.

(** [static_module_end] computes the least end at or above [used + memsz]
    at which the module's first byte has the residue of its [vaddr], for every
    power-of-two alignment; it never panics, whatever the overflow checks, and
    refuses only when every such end is in the upper half of the address space. *)
Theorem static_module_end_least `{Build} used memsz vaddr k :
  in_usize used → in_usize memsz → in_usize vaddr → 0 ≤ k < 64 →
  ∃ r, static_module_end used memsz vaddr (2 ^ k) = Ret r
    ∧ (∀ e, r = Some e → used + memsz ≤ e < 2 ^ 64 ∧ (e + vaddr) mod 2 ^ k = 0
         ∧ ∀ e', used + memsz ≤ e' → (e' + vaddr) mod 2 ^ k = 0 → e ≤ e')
    ∧ (r = None → ∀ e, used + memsz ≤ e → (e + vaddr) mod 2 ^ k = 0 → 2 ^ 63 ≤ e).
Proof.
  intros Hu Hm Hv Hk.
  destruct (static_module_end_run used memsz vaddr k Hu Hm Hv Hk) as (r & Hr & He & Ht).
  exists r. split; [done|]. split.
  - intros e Hre. destruct (He e Hre) as ((? & ? & ?) & _ & []). done.
  - intros Hre e H1 H2. pose proof (least_end (used + memsz) vaddr (2 ^ k) (pow2_pos k ltac:(lia))) as Hl.
    specialize (Ht Hre _ Hl). destruct Hl as (_ & _ & Hl). specialize (Hl e H1 H2). lia.
Qed.

Lemma static_module_end_least_witness :
  let B : Build := Build_Build true X86_64 in
  static_module_end 100 40 8 16 = Ret (Some 152)
  ∧ ∀ e', 140 ≤ e' → (e' + 8) mod 16 = 0 → 152 ≤ e'.
Proof.
  intros B. destruct (static_module_end_least 100 40 8 4) as (r & Hr & He & _);
    [unfold in_usize; lia|unfold in_usize; lia|unfold in_usize; lia|lia|].
  change (static_module_end 100 40 8 (2 ^ 4)) with (Ret (Some 152)) in Hr. injection Hr as <-.
  split; [reflexivity|]. intros e' H1 H2. by apply (He 152 eq_refl).
Defined.

(** C4. The static layout is safe in every state that sequences of all the
    operations reach (registrations of the three kinds, initialisations,
    unregistrations, thread creations and ends, accesses).  [X] records what
    [add_static_module] was asked for.  Every other static module was placed by
    the linker: its block lies below the thread pointer inside the arena and
    keeps the residue of its [vaddr] modulo its alignment, two such blocks
    never overlap, and the rseq area lies below all of them, inside the arena.
    An added module has exactly the place its caller chose, which nothing
    checks: it is the only one that can overlap another. *)
Theorem static_layout_safe {Source} `{ImageSource Source, Build, Kernel} X (s : tls_state Source) a :
  tls_reachable X s → STATIC_TLS s = Some a →
  static_total a ≤ STATIC_TLS_ARENA_SIZE
  ∧ (∀ m, m ∈ STATIC_TLS_MODULES s → X !! sm_id m = None →
       - static_total a + RSEQ_AREA_SIZE ≤ sm_offset m
       ∧ sm_offset m + info_memsz (sm_info m) ≤ 0
       ∧ ∃ p, module_align (sm_info m) = Some p ∧ (info_vaddr (sm_info m) - sm_offset m) mod p = 0)
  ∧ (∀ i j mi mj, i ≠ j → STATIC_TLS_MODULES s !! i = Some mi → STATIC_TLS_MODULES s !! j = Some mj →
       X !! sm_id mi = None → X !! sm_id mj = None →
       sm_offset mi + info_memsz (sm_info mi) ≤ sm_offset mj
       ∨ sm_offset mj + info_memsz (sm_info mj) ≤ sm_offset mi)
  ∧ (∀ m info off, m ∈ STATIC_TLS_MODULES s → X !! sm_id m = Some (info, off) →
       sm_info m = info ∧ sm_offset m = off).
Proof.
  intros Hreach Ha. destruct (tls_reachable_inv X s Hreach) as [Hta Hla Hadd]. rewrite Ha in Hla.
  pose proof Hla as [[Hu Hub] _ Hp _]. rewrite Forall_forall in Hp.
  assert (∀ m, m ∈ STATIC_TLS_MODULES s → X !! sm_id m = None → m ∈ own X (STATIC_TLS_MODULES s)) as Hown
    by (intros m Hm HX; by apply list_elem_of_filter).
  split_and!.
  - done.
  - intros m Hm HX. destruct (Hp m (Hown m Hm HX)) as ((k & _ & Hal & _ & Hmod) & Hsz & Hend). unfold end_of in *.
    destruct (ceil_to_spec (used a) 32) as [? _]; [lia|]. unfold static_total, RSEQ_AREA_SIZE.
    split_and!; [lia|lia|]. exists (2 ^ k). split; [done|]. rewrite <-Hmod. f_equal. lia.
  - intros i j mi mj Hne Hi Hj HXi HXj.
    pose proof (list_elem_of_lookup_2 _ _ _ Hi). pose proof (list_elem_of_lookup_2 _ _ _ Hj).
    apply (layout_rep_apart a (own X (STATIC_TLS_MODULES s))); auto.
    intros He. apply Hne. apply (NoDup_lookup (sm_id <$> STATIC_TLS_MODULES s) i j (sm_id mi));
      [apply (ta_nodup _ _ Hta)|by rewrite list_lookup_fmap, Hi|by rewrite list_lookup_fmap, Hj, He].
  - intros m info off Hm HX. by apply (Hadd _ _ _ HX).
Qed.

Lemma static_layout_safe_witness :
  ∃ s : tls_state (list Z), @tls_reachable _ list_source demo_build demo_kernel' {[2 := (demo_info, -32)]} s
    ∧ STATIC_TLS_MODULES s = [mkStatic 1 demo_info None (-40); mkStatic 2 demo_info None (-32)]
    ∧ ∀ m, m ∈ STATIC_TLS_MODULES s → sm_id m = 1 → sm_offset m + info_memsz (sm_info m) ≤ 0.
Proof.
  destruct demo_added as (s & Ha & Hr & Hs). exists s. split; [done|]. split; [exact Hs|].
  intros m Hm Hid.
  apply (@static_layout_safe _ list_source demo_build demo_kernel' _ s _ Hr Ha); [exact Hm|].
  rewrite Hid. reflexivity.
Defined.

(** C29. A new thread's storage: [_dl_get_tls_static_info] reports a size and
    an alignment, and [_dl_allocate_tls] allocates one block of exactly those
    and returns the thread pointer in it; the only other outcome is the
    allocation failure of this call, for the block or, with the block mapped,
    for the page of its DTV.  Every static module's block then holds its image
    followed by zeros at an address with the residue of its [vaddr], the DTV
    maps the module to that block as far as the DTV goes (64 modules; a module
    beyond has its block, but no entry), the rseq area reads "registration
    failed" and the TCB points to itself.  This is for alignments up to a page,
    which is all that [mmap] gives; modules recorded by [add_static_module]
    must have been given places of the layout that no other module has. *)
Theorem new_thread_storage {Source} `{ImageSource Source, Build, KernelLaws} X (s : tls_state Source) a :
  tls_reachable X s → STATIC_TLS s = Some a → max_align a ≤ 4096 →
  Forall image_fits (STATIC_TLS_MODULES s) → added_fit X a (STATIC_TLS_MODULES s) →
  ∃ size align, static_info s = Ret ((size, align), s) ∧
  ((allocate 0 s = Panic
    ∧ (mmap_at (tmem s) (round_page (Z.max size align)) = None
       ∨ ∃ base m1, fresh_block (tmem s) (mkLayout size align) base m1 ∧ mmap_at m1 4096 = None)) ∨
  ∃ tp s', allocate 0 s = Ret (tp, s') ∧ tables s' = tables s
    ∧ tp mod align = 0
    ∧ TLS_ALLOCATIONS s' = TLS_ALLOCATIONS s ++ [mkAllocation tp (tp + TLS_TCB_SIZE - size) (mkLayout size align)]
    ∧ (∀ m image, m ∈ STATIC_TLS_MODULES s → image_of m = Some image →
         bytes_at (tmem s') (tp + sm_offset m) (block_of image (info_memsz (sm_info m)))
         ∧ Dtv.dtv_value tp (sm_id m) (tmem s')
             = Ret (if decide (sm_id m ≤ Dtv.DTV_SLOT_COUNT) then Some (tp + sm_offset m) else None, tmem s')
         ∧ ∃ p, module_align (sm_info m) = Some p ∧ (tp + sm_offset m - info_vaddr (sm_info m)) mod p = 0)
    ∧ bytes_at (tmem s') (tp - static_total a) rseq_init
    ∧ load64 tp (tmem s') = Ret (tp, tmem s')).
Proof.
  intros Hreach Ha Hmax Hmods Hadd. pose proof (tls_reachable_inv X s Hreach) as Hinv.
  pose proof Hinv as [Hta Hla _]. rewrite Ha in Hla. pose proof Hla as [Hu Hk _ _].
  pose proof (own_laid_out _ _ _ Hla Hadd) as [Hp _].
  destruct (storage_bounds a Hu Hk Hmax) as (Ht & Hs & Hmod & Hal).
  exists (storage_static a + TLS_TCB_SIZE), (storage_align a). split; [by apply static_info_run|].
  destruct (allocate_storage_run s a Ha Hu Hk Hmax) as [Hlok [[Hpan Hno]|(base & m1 & Hf & Hst)]];
    unfold allocate; rewrite Z.eqb_refl.
  { left. split; [|by left]. unfold mbind, st_bind. by rewrite Hpan. }
  erewrite st_bind_run by exact Hst.
  set (l := mkLayout _ _) in *. set (s1 := mkTls _ _ _ _ _ _ _). set (tp := base + storage_static a) in *.
  pose proof Hf as [Hpos Hpg Hend _ Hmap Hz _ _]. destruct (layout_ok_size l Hlok) as [Hsz _].
  destruct (round_page_bounds _ Hsz) as [Hrp _].
  assert (lsize l = storage_static a + TLS_TCB_SIZE) as Hls by done. unfold TLS_TCB_SIZE in *.
  assert (0 < tp < 2 ^ 63) as Htp by (unfold tp; lia).
  destruct (init_run X s1 a tp) as [[Hpan Hno]|(dtv & m2 & Hrun & Hrs & [(slots & Hrep & Hsl) Hby _ Hself _ _])];
    [by apply (tls_inv_tables X s)|exact Ha|exact Hadd|exact Htp|..|exact Hmods| |].
  { unfold tp. lia. }
  { eapply mapped_le; [exact Hmap|unfold tp; lia|unfold tp; lia]. }
  { eapply Dtv.word_at_zeros; [exact Hz|unfold tp; lia|]. rewrite Z2Nat.id; unfold tp; lia. }
  { left. split; [exact Hpan|]. right. by exists base, m1. }
  assert (tp mod storage_align a = 0) as Htpa.
  { destruct (storage_align_pow a Hk Hmax) as (k & Hk6 & Hpow). unfold tp.
    rewrite Z.add_mod, Hmod by lia. rewrite Hpow. rewrite (mod_pow2_le base k 12); [done|lia|done]. }
  right. exists tp, (with_tmem s1 m2). split; [exact Hrun|]. split_and!; [done|done| | |done|].
  - simpl. do 2 f_equal. unfold tp, l, TLS_TCB_SIZE. f_equal. lia.
  - intros m image Hm Himg. assert (placed a m) as Hpm by (by apply Hp).
    split_and!; [by apply Hby| |by apply (placed_residue a)].
    destruct (ta_slot _ _ Hta m Hm) as [Hid _].
    erewrite Dtv.dtv_value_run by (done || lia). do 2 f_equal.
    destruct Hpm as [_ [? ?]]. unfold end_of, static_total in *.
    destruct (ceil_to_spec (used a) 32); [lia|].
    destruct (decide (sm_id m ≤ Dtv.DTV_SLOT_COUNT)) as [Hid2|]; [|by rewrite decide_False by lia].
    rewrite (Hsl m image Hm Himg Hid2). cbn [fst]. rewrite decide_True; [done|lia].
  - apply load64_run; [done|unfold in_usize; lia].
Qed.

Lemma new_thread_storage_witness :
  ∃ s : tls_state (list Z), @tls_reachable _ list_source demo_build demo_kernel' ∅ s
    ∧ STATIC_TLS_MODULES s = [mkStatic 1 demo_info (Some [1; 2; 3]) (-40)]
    ∧ ∃ tp s', @allocate _ list_source demo_build demo_kernel' 0 s = Ret (tp, s') ∧ tp mod 64 = 0
      ∧ bytes_at (tmem s') (tp - 40) ([1; 2; 3] ++ replicate 37 0)
      ∧ Dtv.dtv_value tp 1 (tmem s') = Ret (Some (tp - 40), tmem s').
Proof.
  destruct demo_initialised as (s & p & Ha & Hr & Hs & Hfree). exists s. split; [exact Hr|]. split; [exact Hs|].
  destruct (@new_thread_storage _ list_source demo_build demo_kernel' demo_laws ∅ s _ Hr Ha)
    as (size & align & Hi & Hcase).
  - done.
  - rewrite Hs. constructor; [|constructor]. intros image [= <-]. done.
  - intros m Hm [? HX]. by rewrite lookup_empty in HX.
  - rewrite (@static_info_run _ demo_build s (mkArea 0x1100000 40 16)) in Hi;
      [|exact Ha|by split|by exists 4|done].
    injection Hi as <- <-. change (storage_static _ + TLS_TCB_SIZE) with 2496 in Hcase.
    change (storage_align _) with 64 in Hcase. change (round_page _) with 4096 in Hcase.
    destruct Hcase as [[_ [Hno|(base & m1 & [_ _ _ _ _ _ _ Hout] & Hno)]]|(tp & s' & H1 & _ & H3 & _ & H5 & _)].
    + by apply (demo_room p p) in Hfree.
    + exfalso. apply (demo_room p base m1); [|exact Hno]. change (round_page _) with 4096 in Hout.
      intros x Hx1 Hx2 Hx3. rewrite Hout by exact Hx3. by apply Hfree.
    + exists tp, s'. split; [exact H1|]. split; [exact H3|].
      destruct (H5 (mkStatic 1 demo_info (Some [1; 2; 3]) (-40)) [1; 2; 3]) as (Hb & Hd & _);
        [rewrite Hs; left|reflexivity|].
      split; [exact Hb|exact Hd].
Defined.

(** C30. The first access to a dynamic module gives the thread a fresh block
    with the image followed by zeros, records it for the thread and publishes
    it in the DTV; every later access returns the same block, whatever the
    offset, without touching anything.  The DTV has 64 slots: for a module
    with a larger id the block is given back, the access answers null and
    leaves memory and tables as they were, so that the next one does the same.  Otherwise the only
    other outcome is that the kernel has no memory for this block. *)
Theorem dynamic_access {Source} `{ImageSource Source, Build, KernelLaws} (s : tls_state Source)
    dtv slots id info source image l off :
  Dtv.dtv_rep (tmem s) (fs s) dtv slots → syscall_ok (arch_prctl ARCH_GET_FS 0) = true →
  1 ≤ id → TLS_MODULES s !! Z.to_nat (id - 1) = Some (Some (Dynamic info (Some source))) →
  (slots id).1 = 0 → with_image source = Some image → zlen image ≤ info_memsz info →
  from_size_align (Z.max (info_memsz info) 1) (dynamic_align info) = Some l → layout_ok l →
  (get_addr (Some (mkIndex id off)) s = Panic
    ∧ mmap_at (tmem s) (round_page (Z.max (lsize l) (lalign l))) = None) ∨
  if decide (id ≤ Dtv.DTV_SLOT_COUNT) then
    ∃ ptr s', get_addr (Some (mkIndex id off)) s = Ret (ptr + off, s')
      ∧ bytes_at (tmem s') ptr (block_of image (info_memsz info))
      ∧ (∀ x, ptr ≤ x < ptr + info_memsz info → tmem s x = None)
      ∧ DYNAMIC_TLS_BLOCKS s' = DYNAMIC_TLS_BLOCKS s ++ [mkBlock (fs s) ptr l] ∧ tables s' = tables s
      ∧ ∀ off', get_addr (Some (mkIndex id off')) s' = Ret (ptr + off', s')
  else
    ∃ m', get_addr (Some (mkIndex id off)) s = Ret (0, with_tmem s m') ∧ ∀ x, m' x = tmem s x.
Proof.
  intros Hdtv Hget Hid Hslot Hz Himg Hfit Hl Hlok.
  pose proof (Dtv.dr_tp _ _ _ _ Hdtv) as Htp.
  assert (∀ (s2 : tls_state Source) o v, TLS_MODULES s2 = TLS_MODULES s → fs s2 = fs s →
    Dtv.dtv_value (fs s) id (tmem s2) = Ret (v, tmem s2) →
    get_addr (Some (mkIndex id o)) s2 =
      match v with
      | Some ptr => Ret (ptr + o, s2)
      | None => (b ← allocate_dynamic_block (fs s) id info (Some source);
                 mret match b with None => 0 | Some ptr => ptr + o end) s2
      end) as Hdisp.
  { intros s2 o v HT Hfs Hv. rewrite <-Hfs in *. apply get_addr_dynamic; [lia|done|done|by rewrite HT|done]. }
  rewrite (Hdisp s off None eq_refl eq_refl).
  2:{ erewrite Dtv.dtv_value_run by (done || lia). by rewrite decide_False by tauto. }
  destruct (decide (id ≤ Dtv.DTV_SLOT_COUNT)) as [Hid2|Hid2].
  - destruct (allocate_dynamic_run s (fs s) dtv slots id info source image l)
      as [[Hp Hno]|(ptr & m' & Hrun & Hptr & _ & Hrep & Hby & Hfr & _)]; try done.
    { left. split; [|done]. unfold mbind, st_bind. by rewrite Hp. }
    right. erewrite st_bind_run by exact Hrun. eexists ptr, _. split; [reflexivity|]. split_and!; try done.
    intros off'. rewrite (Hdisp _ off' (Some ptr)); [done|done|done|].
    erewrite Dtv.dtv_value_run by (done || lia). unfold Dtv.set_slot. rewrite (decide_True (P := id = id)) by done.
    simpl. by rewrite decide_True by lia.
  - destruct (allocate_dynamic_beyond s (fs s) dtv slots id info source image l)
      as [[Hp Hno]|(m' & Hrun & Hm')]; try done; [lia| |].
    { left. split; [|done]. unfold mbind, st_bind. by rewrite Hp. }
    right. exists m'. by erewrite st_bind_run by exact Hrun.
Qed.

Definition access_demo : tls_state (list Z) :=
  mkTls Dtv.DtvProps.demo_tcb 4096 None [] [Some (Dynamic (mkTlsInfo 8 16 0) (Some [1; 2; 3]))] [] [].

Lemma dynamic_access_witness :
  ∃ ptr s', @get_addr _ list_source demo_build demo_kernel' (Some (mkIndex 1 4)) access_demo = Ret (ptr + 4, s')
    ∧ bytes_at (tmem s') ptr [1; 2; 3; 0; 0; 0; 0; 0; 0; 0; 0; 0; 0; 0; 0; 0]
    ∧ @get_addr _ list_source demo_build demo_kernel' (Some (mkIndex 1 8)) s' = Ret (ptr + 8, s').
Proof.
  destruct (@dynamic_access _ list_source demo_build demo_kernel' demo_laws access_demo 8208 (λ _, (0, 0)) 1
    (mkTlsInfo 8 16 0) [1; 2; 3] [1; 2; 3] (mkLayout 16 8) 4) as [[_ Hno]|(ptr & s' & Hg & Hb & _ & _ & _ & Hn)].
  - exact Dtv.DtvProps.demo_tcb_rep.
  - reflexivity.
  - lia.
  - reflexivity.
  - reflexivity.
  - reflexivity.
  - unfold zlen. simpl. lia.
  - reflexivity.
  - split; [simpl; lia|]. exists 3. simpl. lia.
  - exfalso. revert Hno. apply (demo_room 4096 8192). intros x _ Hx Hx2.
    unfold access_demo, Dtv.DtvProps.demo_tcb, Dtv.TCB_DTV_OFFSET. cbn [tmem].
    rewrite !write_outside by (rewrite zlen_le_encode; lia). by rewrite decide_False by lia.
  - exists ptr, s'. split; [exact Hg|]. split; [exact Hb|exact (Hn 8)].
Defined.

(** C21. Ending a thread frees exactly its own dynamic blocks: the walk with
    [swap_remove] terminates within the fuel, keeps the blocks of every other
    thread (in some order) and unmaps the pages of the thread's blocks. *)
Theorem free_dynamic_blocks_exact {Source} `{ImageSource Source, Build, Kernel} (s : tls_state Source) tp :
  Forall (λ b, layout_ok (blk_layout b)) (DYNAMIC_TLS_BLOCKS s) →
  ∃ freed s', free_dynamic_blocks tp s = Ret (tt, s')
    ∧ DYNAMIC_TLS_BLOCKS s ≡ₚ freed ++ DYNAMIC_TLS_BLOCKS s'
    ∧ Forall (λ b, blk_tp b = tp) freed ∧ Forall (λ b, blk_tp b ≠ tp) (DYNAMIC_TLS_BLOCKS s')
    ∧ (∀ b x, b ∈ freed → in_pages b x → tmem s' x = None)
    ∧ (∀ x, (∀ b, b ∈ freed → ¬ in_pages b x) → tmem s' x = tmem s x)
    ∧ tables s' = tables s.
Proof.
  intros Hok. unfold free_dynamic_blocks. rewrite st_bind_get.
  destruct (free_loop_run (length (DYNAMIC_TLS_BLOCKS s)) tp (DYNAMIC_TLS_BLOCKS s) 0 s)
    as (freed & rest & m' & Hrun & Hp & Hf1 & Hf2 & Hf3 & Hf4); [done|lia|by rewrite take_0|].
  erewrite st_bind_run by exact Hrun. exists freed. eexists. split; [reflexivity|]. by split_and!.
Qed.

Lemma free_dynamic_blocks_exact_witness :
  let b tp ptr := mkBlock tp ptr (mkLayout 16 8) in
  let s : tls_state (list Z) := mkTls (λ _, Some 0) 0 None [] [] [b 1 0x1000; b 2 0x2000; b 1 0x3000; b 3 0x4000] [] in
  ∃ freed s', @free_dynamic_blocks _ demo_build 1 s = Ret (tt, s')
    ∧ DYNAMIC_TLS_BLOCKS s ≡ₚ freed ++ DYNAMIC_TLS_BLOCKS s'
    ∧ Forall (λ b, blk_tp b ≠ 1) (DYNAMIC_TLS_BLOCKS s').
Proof.
  intros b s.
  destruct (@free_dynamic_blocks_exact _ list_source demo_build demo_kernel' s 1)
    as (freed & s' & H1 & H2 & _ & H3 & _).
  - assert (layout_ok (mkLayout 16 8)) as Hl by (split; [simpl; lia|exists 3; simpl; lia]).
    repeat (constructor; [exact Hl|]). constructor.
  - exists freed, s'. split; [exact H1|]. split; [exact H2|exact H3].
Defined.

(** A dynamic module that is accessed before its image was published: the
    block is allocated first and lost when the source is missing, so that the
    answer is null and fresh pages stay mapped that no table records. *)
Lemma unpublished_module_leaks {Source} `{ImageSource Source, Build, KernelLaws} (s : tls_state Source)
    tp id info l base :
  from_size_align (Z.max (info_memsz info) 1) (dynamic_align info) = Some l → layout_ok l →
  mmap_at (tmem s) (round_page (Z.max (lsize l) (lalign l))) = Some base →
  ∃ s' ptr, allocate_dynamic_block tp id info None s = Ret (None, s')
    ∧ (∀ x, ptr ≤ x < ptr + 4096 → tmem s x = None ∧ is_Some (tmem s' x))
    ∧ DYNAMIC_TLS_BLOCKS s' = DYNAMIC_TLS_BLOCKS s ∧ TLS_ALLOCATIONS s' = TLS_ALLOCATIONS s.
Proof.
  intros Hl Hlok Hm. unfold allocate_dynamic_block. fold (module_align info). fold (dynamic_align info). rewrite Hl.
  destruct (alloc_zeroed_run l (tmem s) Hlok) as [[_ Hno]|(ptr & m1 & Hr & [Hpos _ _ Hfr Hmap _ _ _])]; [congruence|].
  erewrite st_bind_run by (apply on_mem_run; exact Hr). rewrite (proj2 (Z.eqb_neq ptr 0)) by lia.
  destruct (layout_ok_size l Hlok) as [Hsz _]. destruct (round_page_bounds _ Hsz) as [Hrp Hrm].
  assert (4096 ≤ round_page (Z.max (lsize l) (lalign l))).
  { destruct (decide (4096 ≤ round_page (Z.max (lsize l) (lalign l)))); [done|]. rewrite Z.mod_small in Hrm; lia. }
  exists (with_tmem s m1), ptr. split; [done|]. split; [|done].
  intros x Hx. split; [apply Hfr; lia|apply Hmap; lia].
Qed.

End TlsProps.
