(* ===== verification/Resolver.v ===== *)
(** * The TLS resolver of the runtime linker (src/runtime/rtld.rs, mod tls)

    The loader crate asks a resolver to register, publish and unregister the
    TLS of the objects it maps.  The resolver forwards to the operations that
    the runtime linker installed and remembers the offset that each module was
    given, because publication needs it again.  Without installed operations it
    forwards to the default resolver of the loader crate, a parameter. *)

From S2P Require Import Prelude Machine Heap Dtv Tls.

(** The loader crate's [DefaultTlsResolver]. *)
Inductive TlsRequest := RequestDynamic | RequestStatic (tp_offset : option Z).
Inductive ModuleTls := ModuleDynamic (mod_id : Z) | ModuleStatic (mod_id tp_offset : Z).
Class DefaultResolver (T Source : Type) := {
  default_register : Tls.TlsInfo → TlsRequest → st T (result Tls.TlsError ModuleTls);
  default_publish : Source → Z → st T (result Tls.TlsError unit);
  default_unregister : Z → st T unit;
  default_bind : st T (result Tls.TlsError Z);
  default_get_ptr : Z → st T (option Z) }.

Module Resolver.

Definition mod_id (m : ModuleTls) : Z :=
  match m with ModuleDynamic id => id | ModuleStatic id _ => id end.
Definition tp_offset (m : ModuleTls) : option Z :=
  match m with ModuleDynamic _ => None | ModuleStatic _ o => Some o end.

Section resolver.
Context {T Source : Type} `{!DefaultResolver T Source}.

Record RtldTlsOps := mkOps {
  op_register : Tls.TlsInfo → st T (result Tls.TlsError Z);
  op_register_static : Tls.TlsInfo → st T (result Tls.TlsError (Z * Z));
  op_add_static_tls : Tls.TlsInfo → Z → st T (result Tls.TlsError Z);
  op_init_tls : Source → Z → option Z → st T (result Tls.TlsError unit);
  op_unregister : Z → st T unit;
  op_tls_get_addr : Z;
  op_tls_get_addr_soft : Z → st T Z }.

(** [RTLD_TLS_OPS], [TLS_MODULES] and the state of the TLS implementation. *)
Record rstate := mkR {
  RTLD_TLS_OPS : option RtldTlsOps;
  modules : list (Z * option Z);
  tls : T }.

Definition on_tls {A} (f : st T A) : st rstate A := λ s,
  '(a, t) ← f (tls s); Ret (a, mkR (RTLD_TLS_OPS s) (modules s) t).
Definition set_modules (l : list (Z * option Z)) : st rstate unit := λ s,
  Ret (tt, mkR (RTLD_TLS_OPS s) l (tls s)).

(** [Once::call_once]: the first call wins. *)
Definition register_ops (ops : RtldTlsOps) : st rstate unit := λ s,
  Ret (tt, match RTLD_TLS_OPS s with Some _ => s | None => mkR (Some ops) (modules s) (tls s) end).

(** [TlsModuleId::is_reserved] of the loader crate. *)
Context (is_reserved : Z → bool).
Definition tls_get_addr_soft (mod_id : Z) : st rstate Z :=
  if is_reserved mod_id then mret 0
  else
    s ← st_get;
    match RTLD_TLS_OPS s with
    | Some ops => on_tls (op_tls_get_addr_soft ops mod_id)
    | None => p ← on_tls (default_get_ptr mod_id); mret (default 0 p)
    end.

(** The module that the operations register for a request. *)
Definition register_with (ops : RtldTlsOps) (info : Tls.TlsInfo) (request : TlsRequest)
    : st rstate (result Tls.TlsError ModuleTls) :=
  match request with
  | RequestDynamic => id ←! on_tls (op_register ops info); mret (Ok (ModuleDynamic id))
  | RequestStatic None =>
      p ←! on_tls (op_register_static ops info); mret (Ok (ModuleStatic p.1 p.2))
  | RequestStatic (Some tp_offset) =>
      id ←! on_tls (op_add_static_tls ops info tp_offset); mret (Ok (ModuleStatic id tp_offset))
  end.
Definition register (info : Tls.TlsInfo) (request : TlsRequest) : st rstate (result Tls.TlsError ModuleTls) :=
  s ← st_get;
  match RTLD_TLS_OPS s with
  | None => on_tls (default_register info request)
  | Some ops =>
      module ←! register_with ops info request;
      s ← st_get;
      set_modules (modules s ++ [(mod_id module, tp_offset module)]);;
      mret (Ok module)
  end.

(** The offset of the first entry with the id. *)
Definition offset_of (l : list (Z * option Z)) (id : Z) : option Z :=
  '(_, p) ← list_find (λ e, e.1 = id) l; p.2.
Definition publish (source : Source) (mod_id : Z) : st rstate (result Tls.TlsError unit) :=
  s ← st_get;
  match RTLD_TLS_OPS s with
  | None => on_tls (default_publish source mod_id)
  | Some ops => on_tls (op_init_tls ops source mod_id (offset_of (modules s) mod_id))
  end.

Definition unregister (mod_id : Z) : st rstate unit :=
  s ← st_get;
  match RTLD_TLS_OPS s with
  | Some ops =>
      set_modules (filter (λ e, e.1 ≠ mod_id) (modules s));;
      on_tls (op_unregister ops mod_id)
  | None => on_tls (default_unregister mod_id)
  end.

Definition bind_tls_get_addr : st rstate (result Tls.TlsError Z) :=
  s ← st_get;
  match RTLD_TLS_OPS s with
  | Some ops => mret (Ok (op_tls_get_addr ops))
  | None => on_tls default_bind
  end.
End resolver.
Arguments RtldTlsOps : clear implicits.
Arguments rstate : clear implicits.

(** rtld/impl/src/tls.rs: the operations that are installed. *)
Section install.
Context {Source : Type} {IS : Tls.ImageSource Source} {BU : Build} {KE : Heap.Kernel}.
Definition resolver_ops (get_addr : Z) : RtldTlsOps (Tls.tls_state Source) Source :=
  mkOps Tls.register_dynamic_module Tls.register_static_module Tls.add_static_module Tls.init_tls_module
    Tls.unregister_module get_addr Tls.get_addr_soft.
Definition install_resolver_ops (get_addr : Z) : st (rstate (Tls.tls_state Source) Source) unit :=
  register_ops (resolver_ops get_addr).
End install.
End Resolver.

Module ResolverProps.
Import Tls Resolver.

Section invariant.
Context {Source : Type} {IS : ImageSource Source} {BU : Build} {KE : Heap.Kernel}.
Context `{DR : !DefaultResolver (tls_state Source) Source}.
Local Abbreviation R := (rstate (tls_state Source) Source).

(** ** What the operations do to the module table *)
Definition mods_keep {A} (c : st (tls_state Source) A) : Prop :=
  ∀ s a s', c s = Ret (a, s') → Tls.TLS_MODULES (Source := Source) s' = Tls.TLS_MODULES s.
Lemma keeps_mods {A} (c : st (tls_state Source) A) : keeps c → mods_keep c.
Proof. intros Hk s a s' Hc. apply Hk in Hc. unfold tables in Hc. congruence. Qed.

Lemma register_static_modules info (s : tls_state Source) r s' :
  register_static_module info s = Ret (r, s') →
  match r with
  | Ok (id, off) => id = zlen (Tls.TLS_MODULES s) + 1 ∧ Tls.TLS_MODULES s' = Tls.TLS_MODULES s ++ [Some (Static info off)]
  | Err _ => Tls.TLS_MODULES s' = Tls.TLS_MODULES s
  end.
Proof.
  unfold register_static_module. rewrite st_bind_get.
  match goal with |- try_res _ ?c s = _ → _ => assert (mods_keep c) as Hk end.
  { intros s0 a s1. destruct (STATIC_TLS s); [by intros [= _ <-]|].
    intros [(e & H & _)|(area & s2 & H & Hs)]%try_res_inv; apply (keeps_mods _ keeps_ensure) in H; [done|].
    by injection Hs as _ <-. }
  intros [(e & Hc & ->)|([] & s1 & Hc & Hr)]%try_res_inv; apply Hk in Hc as H1; [done|]. clear Hk Hc.
  rewrite <-H1. clear H1 s. rename s1 into s. rewrite st_bind_get in Hr.
  destruct (STATIC_TLS s) as [a|]; [|done].
  apply try_res_inv in Hr as [(e & [-> _]%ok_or_inv & ->)|(al & s2 & [-> _]%ok_or_inv & Hr)]; [done|].
  apply st_bind_Ret_inv in Hr as (eo & s2 & [_ ->]%st_lift_inv & Hr).
  apply try_res_inv in Hr as [(e & [-> _]%ok_or_inv & ->)|(u & s2 & [-> _]%ok_or_inv & Hr)]; [done|].
  apply st_bind_Ret_inv in Hr as (to & s2 & [_ ->]%st_lift_inv & Hr).
  apply try_res_inv in Hr as [(e & [-> _]%ok_or_inv & ->)|(t & s2 & [-> _]%ok_or_inv & Hr)]; [done|].
  destruct (t >? STATIC_TLS_ARENA_SIZE); [by injection Hr as <- <-|].
  apply try_res_inv in Hr as [(e & Hreg & ->)|(id & s2 & Hreg & Hr)];
    apply register_module_inv in Hreg as [[He ->]|(He & _ & _ & _ & _ & HTM)]; try done.
  injection He as ->. injection Hr as <- <-. by split.
Qed.

Lemma add_static_modules info off (s : tls_state Source) r s' :
  add_static_module info off s = Ret (r, s') →
  match r with
  | Ok id => id = zlen (Tls.TLS_MODULES s) + 1 ∧ Tls.TLS_MODULES s' = Tls.TLS_MODULES s ++ [Some (Static info off)]
  | Err _ => Tls.TLS_MODULES s' = Tls.TLS_MODULES s
  end.
Proof.
  unfold add_static_module. intros [(e & Hreg & ->)|(id & s2 & Hreg & Hr)]%try_res_inv;
    apply register_module_inv in Hreg as [[He ->]|(He & _ & _ & _ & _ & HTM)]; try done.
  injection He as ->. injection Hr as <- <-. by split.
Qed.

(** The kind of a slot: free, dynamic, or static at an offset. *)
Definition kind (m : option (TlsModule Source)) : option (option Z) :=
  match m with None => None | Some (Dynamic _ _) => Some None | Some (Static _ o) => Some (Some o) end.
Definition kind_at (s : tls_state Source) (id : Z) : option (option Z) :=
  Tls.TLS_MODULES s !! Z.to_nat (id - 1) ≫= kind.

Lemma replace_slot_kind id m s r s' :
  kind_at s id = kind (Some m) → replace_slot id m s = Ret (r, s') → ∀ id', 1 ≤ id' → kind_at s' id' = kind_at s id'.
Proof.
  intros Hk [[-> _]|(_ & Hid & _ & _ & HTM)]%replace_slot_inv id' Hid'; [done|].
  unfold kind_at in *. rewrite HTM. destruct (decide (id' = id)) as [->|Hne].
  - rewrite Hk. destruct (Tls.TLS_MODULES s !! Z.to_nat (id - 1)) eqn:Hl; [|by destruct m].
    rewrite list_lookup_insert_eq; [done|]. by eapply lookup_lt_Some.
  - rewrite list_lookup_insert_ne; [done|lia].
Qed.

Lemma init_static_kind info source id off s r s' :
  kind_at s id = Some (Some off) → init_static_tls info source id off s = Ret (r, s') →
  ∀ id', 1 ≤ id' → kind_at s' id' = kind_at s id'.
Proof.
  intros Hk. unfold init_static_tls, update_static_module_slot.
  intros [(e & Hr & _)|([] & s1 & Hr & Hrest)]%try_res_inv id' Hid';
    pose proof (replace_slot_kind _ (Static info off) _ _ _ Hk Hr id' Hid') as Heq; [done|]. rewrite <-Heq.
  rewrite st_bind_get in Hrest. apply st_bind_Ret_inv in Hrest as ([] & s2 & H2 & Hrest). injection H2 as <-.
  rewrite st_bind_get in Hrest. apply st_bind_Ret_inv in Hrest as ([] & s3 & H3 & Hrest). injection Hrest as <- <-.
  apply (keeps_mods _ (keeps_init_area _ _)) in H3. unfold kind_at. rewrite H3. done.
Qed.

Lemma init_tls_kind source id off s r s' :
  init_tls_module source id off s = Ret (r, s') → ∀ id', 1 ≤ id' → kind_at s' id' = kind_at s id'.
Proof.
  unfold init_tls_module. intros (m & s1 & [-> Hm]%tls_module_inv & Hk)%st_bind_Ret_inv id' Hid'.
  destruct m as [[info src|info o]|], off as [off|]; try (by injection Hk as <- <-).
  - destruct (Hm _ eq_refl) as [Hid Hslot]. eapply replace_slot_kind; [|exact Hk|done].
    unfold kind_at. by rewrite Hslot.
  - destruct (Z.eqb_spec off o) as [->|]; [|by injection Hk as <- <-].
    destruct (Hm _ eq_refl) as [Hid Hslot]. eapply init_static_kind; [|exact Hk|done].
    unfold kind_at. by rewrite Hslot.
Qed.

Lemma unregister_kind id (s : tls_state Source) r s' :
  unregister_module id s = Ret (r, s') → ∀ id', 1 ≤ id' → id' ≠ id → kind_at s' id' = kind_at s id'.
Proof.
  unfold unregister_module. destruct (Z.eqb_spec id 0); [by intros [= <- <-]|]. rewrite st_bind_get.
  intros ([] & s1 & H1 & H2)%st_bind_Ret_inv id' Hid' Hne. injection H2 as <- <-. unfold kind_at. simpl.
  destruct (get_slot (Tls.TLS_MODULES s) (id - 1)) eqn:Hg; injection H1 as <-; [|done]. simpl.
  apply get_slot_Some in Hg as [? _]. rewrite list_lookup_insert_ne; [done|lia].
Qed.

(** ** The resolver's list agrees with the table *)
Definition agrees (s : R) : Prop :=
  NoDup (modules s).*1
  ∧ ∀ id off, (id, off) ∈ modules s → 1 ≤ id ∧ kind_at (tls s) id = Some off.

Lemma agrees_kinds s ops t :
  agrees s → (∀ id, 1 ≤ id → kind_at t id = kind_at (tls s) id) → agrees (mkR ops (modules s) t).
Proof.
  intros [Hnd Hk] Ht. split; [done|]. intros id off Hin. destruct (Hk id off Hin) as [H1 H2].
  split; [done|]. cbn [tls]. by rewrite Ht.
Qed.

Lemma kind_at_lt s id k : 1 ≤ id → kind_at s id = Some k → id ≤ zlen (Tls.TLS_MODULES s).
Proof.
  unfold kind_at, zlen. intros Hid H. destruct (_ !! _) eqn:Hl in H; [|done]. apply lookup_lt_Some in Hl. lia.
Qed.

Lemma agrees_snoc s ops t m off :
  agrees s → Tls.TLS_MODULES t = Tls.TLS_MODULES (tls s) ++ [Some m] → kind (Some m) = Some off →
  agrees (mkR ops (modules s ++ [(zlen (Tls.TLS_MODULES (tls s)) + 1, off)]) t).
Proof.
  intros [Hnd Hk] Ht Hm. set (n := zlen (Tls.TLS_MODULES (tls s)) + 1).
  pose proof (zlen_nonneg (Tls.TLS_MODULES (tls s))) as Hz. split; cbn [modules tls].
  - rewrite fmap_app. apply NoDup_app. split_and!; [done| |apply NoDup_singleton].
    intros id Hin ->%list_elem_of_singleton. apply list_elem_of_fmap in Hin as ([id o] & Heq & Hin). simpl in Heq. subst.
    destruct (Hk _ _ Hin) as [H1 H2]. apply kind_at_lt in H2; [unfold n in *; lia|done].
  - intros id o [Hin|[= -> ->]%list_elem_of_singleton]%elem_of_app.
    + destruct (Hk _ _ Hin) as [H1 H2]. split; [done|]. pose proof (kind_at_lt _ _ _ H1 H2) as Hlt.
      unfold kind_at in *. rewrite Ht, lookup_app_l by (unfold zlen in *; lia). done.
    + split; [unfold n; lia|]. unfold kind_at. rewrite Ht, lookup_app_r by (unfold n, zlen; lia).
      replace (Z.to_nat (n - 1) - length (Tls.TLS_MODULES (tls s)))%nat with 0%nat by (unfold n, zlen; lia). exact Hm.
Qed.

Lemma on_tls_inv {A} (f : st (tls_state Source) A) (s : R) a s' :
  on_tls f s = Ret (a, s') → ∃ t, f (tls s) = Ret (a, t) ∧ s' = mkR (RTLD_TLS_OPS s) (modules s) t.
Proof.
  unfold on_tls. destruct (f (tls s)) as [[b t]| | |]; try done. intros [= <- <-]. by exists t.
Qed.

Context (get_addr_ptr : Z).
Definition installed (s : R) : Prop := RTLD_TLS_OPS s = Some (resolver_ops get_addr_ptr).

Lemma register_agrees info req s r s' :
  installed s → agrees s → register info req s = Ret (r, s') → installed s' ∧ agrees s'.
Proof.
  unfold installed. intros Hi Ha. unfold register. rewrite st_bind_get, Hi.
  assert (∀ t, Tls.TLS_MODULES t = Tls.TLS_MODULES (tls s) → agrees (mkR (RTLD_TLS_OPS s) (modules s) t)) as Herr.
  { intros t Ht. apply agrees_kinds; [done|]. intros id _. unfold kind_at. by rewrite Ht. }
  destruct req as [|[off|]]; unfold register_with; cbn [op_register op_register_static op_add_static_tls resolver_ops].
  - intros [(e & H1 & ->)|(m & s1 & H1 & Hs)]%try_res_inv;
      apply try_res_inv in H1 as [(e' & H1 & He)|(id & s2 & H1 & Hm)]; try done;
      apply on_tls_inv in H1 as (t & Hreg & ->);
      apply register_module_inv in Hreg as [[Hid ->]|(Hid & _ & _ & _ & _ & HTM)]; try done.
    injection Hid as ->. injection Hm as <- <-. injection Hs as <- <-. split; [exact Hi|].
    by apply (agrees_snoc s _ _ (Dynamic info None)).
  - intros [(e & H1 & ->)|(m & s1 & H1 & Hs)]%try_res_inv;
      apply try_res_inv in H1 as [(e' & H1 & He)|(id & s2 & H1 & Hm)]; try done;
      apply on_tls_inv in H1 as (t & Hreg & ->); apply add_static_modules in Hreg.
    + split; [exact Hi|]. by apply Herr.
    + destruct Hreg as [-> HTM]. injection Hm as <- <-. injection Hs as <- <-. split; [exact Hi|].
      by apply (agrees_snoc s _ _ (Static info off)).
  - intros [(e & H1 & ->)|(m & s1 & H1 & Hs)]%try_res_inv;
      apply try_res_inv in H1 as [(e' & H1 & He)|([id off] & s2 & H1 & Hm)]; try done;
      apply on_tls_inv in H1 as (t & Hreg & ->); apply register_static_modules in Hreg.
    + split; [exact Hi|]. by apply Herr.
    + destruct Hreg as [-> HTM]. injection Hm as <- <-. injection Hs as <- <-. split; [exact Hi|].
      by apply (agrees_snoc s _ _ (Static info off)).
Qed.

Lemma publish_agrees source id s r s' :
  installed s → agrees s → publish source id s = Ret (r, s') → installed s' ∧ agrees s'.
Proof.
  unfold installed. intros Hi Ha. unfold publish. rewrite st_bind_get, Hi.
  intros (t & Ht & ->)%on_tls_inv. split; [exact Hi|]. apply agrees_kinds; [done|].
  intros id' Hid'. exact (init_tls_kind _ _ _ _ _ _ Ht id' Hid').
Qed.

Lemma unregister_agrees id s r s' :
  installed s → agrees s → unregister id s = Ret (r, s') → installed s' ∧ agrees s'.
Proof.
  unfold installed. intros Hi [Hnd Hk]. unfold unregister. rewrite st_bind_get, Hi.
  intros ([] & s1 & H1 & H2)%st_bind_Ret_inv. injection H1 as <-.
  apply on_tls_inv in H2 as (t & Ht & ->). split; [exact Hi|]. split; cbn [modules tls] in *.
  - clear -Hnd. induction (modules s) as [|[i o] l IH]; [constructor|].
    cbn [fmap list_fmap fst] in Hnd. apply NoDup_cons in Hnd as [Hn Hnd]. rewrite filter_cons. case_decide; [|by apply IH].
    cbn [fmap list_fmap fst]. apply NoDup_cons. split; [|by apply IH]. intros Hin. apply Hn.
    apply list_elem_of_fmap in Hin as (e & -> & [_ Hin]%list_elem_of_filter). by apply list_elem_of_fmap_2.
  - intros i o [Hne Hin]%list_elem_of_filter. destruct (Hk i o Hin) as [H1 H2]. split; [done|].
    by rewrite (unregister_kind _ _ _ _ Ht i H1 Hne).
Qed.

(** ** Reachable states of the resolver and the module table *)
Inductive r_step (s : R) : R → Prop :=
  | r_register info request r s' : register info request s = Ret (r, s') → r_step s s'
  | r_publish source id r s' : publish source id s = Ret (r, s') → r_step s s'
  | r_unregister id r s' : unregister id s = Ret (r, s') → r_step s s'
  | r_get_addr index r s' : on_tls (get_addr index) s = Ret (r, s') → r_step s s'
  | r_allocate storage r s' : on_tls (allocate storage) s = Ret (r, s') → r_step s s'
  | r_init storage r s' : on_tls (init storage) s = Ret (r, s') → r_step s s'
  | r_deallocate storage d r s' : on_tls (_dl_deallocate_tls storage d) s = Ret (r, s') → r_step s s'.
Inductive r_reachable : R → Prop :=
  | r_initial t : r_reachable (mkR (Some (resolver_ops get_addr_ptr)) [] t)
  | r_next s s' : r_reachable s → r_step s s' → r_reachable s'.

Lemma on_tls_keeps {A} (f : st (tls_state Source) A) s a s' :
  keeps f → installed s → agrees s → on_tls f s = Ret (a, s') → installed s' ∧ agrees s'.
Proof.
  intros Hk Hi Ha (t & Ht & ->)%on_tls_inv. split; [done|]. apply agrees_kinds; [done|].
  intros id _. unfold kind_at. by rewrite (keeps_mods _ Hk _ _ _ Ht).
Qed.

Lemma r_reachable_agrees s : r_reachable s → installed s ∧ agrees s.
Proof.
  induction 1 as [t|s s' _ [Hi Ha] Hst].
  - split; [done|]. split; [constructor|]. by intros id off ?%elem_of_nil.
  - destruct Hst as [info req r s' Hc|source id r s' Hc|id r s' Hc|index r s' Hc|storage r s' Hc|storage r s' Hc|storage d r s' Hc].
    + by eapply register_agrees.
    + by eapply publish_agrees.
    + by eapply unregister_agrees.
    + eapply on_tls_keeps; [apply keeps_get_addr|done..].
    + eapply on_tls_keeps; [apply keeps_allocate|done..].
    + eapply on_tls_keeps; [apply keeps_init|done..].
    + eapply on_tls_keeps; [|done..]. apply keeps_bind; [apply keeps_on_mem|intros; apply keeps_deallocate].
Qed.

Lemma offset_of_in (l : list (Z * option Z)) id off : NoDup l.*1 → (id, off) ∈ l → offset_of l id = off.
Proof.
  intros Hnd Hin. unfold offset_of. induction l as [|[i o] l IH]; [by apply elem_of_nil in Hin|].
  cbn [fmap list_fmap fst] in Hnd. apply NoDup_cons in Hnd as [Hn Hnd]. cbn [list_find fst].
  apply elem_of_cons in Hin as [[= -> ->]|Hin].
  - by rewrite decide_True by done.
  - rewrite decide_False.
    + rewrite <-(IH Hnd Hin). by destruct (list_find _ l) as [[? ?]|].
    + intros ->. apply Hn. by apply (list_elem_of_fmap_2 fst _ (id, off)).
Qed.

(** C25. The offset that the resolver remembers is the one in the module table,
    through any interleaving of registrations, publications, unregistrations
    and thread operations: publishing a registered module reaches the
    initialisation of its own kind at its own offset, and never the mismatch
    or unknown-module errors. *)
Theorem resolver_publishes s source id off :
  r_reachable s → (id, off) ∈ modules s →
  ∃ info src,
    Tls.TLS_MODULES (tls s) !! Z.to_nat (id - 1)
    = Some (Some (match off with None => Dynamic info src | Some o => Static info o end))
    ∧ publish source id s =
      on_tls (match off with
              | None => init_dynamic_tls info source id
              | Some o => init_static_tls info source id o
              end) s.
Proof.
  intros [Hi [Hnd Hk]]%r_reachable_agrees Hin. destruct (Hk id off Hin) as [Hid Hkind].
  unfold publish. unfold installed in Hi. rewrite st_bind_get, Hi. cbn [op_init_tls resolver_ops].
  rewrite (offset_of_in _ _ _ Hnd Hin).
  unfold kind_at in Hkind. destruct (Tls.TLS_MODULES (tls s) !! Z.to_nat (id - 1)) as [m|] eqn:Hm; [|done].
  assert (tls_module id (tls s) = Ret (m, tls s)) as Hmod.
  { unfold tls_module. rewrite st_bind_get. destruct (Z.eqb_spec id 0); [lia|].
    rewrite (proj2 (get_slot_Some _ _ m)) by (split; [lia|done]). done. }
  destruct m as [[info src|info o]|]; simpl in Hkind; [| |done]; injection Hkind as <-.
  - exists info, src. split; [done|]. unfold on_tls, init_tls_module.
    erewrite st_bind_run by exact Hmod. done.
  - exists info, None. split; [done|]. unfold on_tls, init_tls_module.
    erewrite st_bind_run by exact Hmod. cbv beta iota. by rewrite Z.eqb_refl.
Qed.
End invariant.

(** One dynamic module is registered and published. *)
#[export] Instance toy_default {Source} : DefaultResolver (tls_state Source) Source := {|
  default_register _ _ := mret (Err ResolverUnsupported); default_publish _ _ := mret (Ok tt);
  default_unregister _ := mret tt; default_bind := mret (Ok 0); default_get_ptr _ := mret None |}.
#[local] Instance w_source : ImageSource (list Z) := λ l, Some l.
#[local] Instance w_build : Build := Build_Build true X86_64.
#[local] Instance w_kernel : Heap.Kernel := {| Heap.mmap_at _ _ := None; Heap.arch_prctl _ _ := 0 |}.
Lemma resolver_publishes_witness :
  let info := mkTlsInfo 8 16 0 in
  let t0 : tls_state (list Z) := initial (λ _, None) 0 in
  let s1 := mkR (Some (resolver_ops 77)) [(1, None)] (mkTls (tmem t0) 0 None [] [Some (Dynamic info None)] [] []) in
  ∃ s2, register info RequestDynamic (mkR (Some (resolver_ops 77)) [] t0) = Ret (Ok (ModuleDynamic 1), s1)
    ∧ publish [1; 2] 1 s1 = Ret (Ok tt, s2).
Proof.
  intros info t0 s1.
  assert (r_reachable 77 s1) as Hr.
  { eapply r_next; [apply (r_initial 77 t0)|]. by apply (r_register _ info RequestDynamic (Ok (ModuleDynamic 1))). }
  destruct (resolver_publishes 77 s1 [1; 2] 1 None Hr) as (info' & src & _ & ->); [left|].
  by eexists.
Defined.
End ResolverProps.
