(* ===== verification/Manager.v ===== *)
(** * The registry of loaded modules (src/registry/manager.rs, cxa.rs)

    [Manager] owns the link context of the ELF loader crate, the C handles that
    [dlopen] gave out and the counters of [dl_iterate_phdr].  The link context
    and the modules in it are third-party: two classes list the operations the
    code calls, a third states what it relies on.  Names are byte lists. *)

From stdpp Require Import gmap.
From S2P Require Import Prelude Errors.

Definition name := list Z.

(** What the code asks of a module handle and its ELF module. *)
Class ModuleApi (Mod : Type) := {
  instance_id : Mod → Z;
  get_symbol : Mod → name → option Z;
  is_elf : Mod → bool;                 (* [downcast_ref::<NativeElfModule>] *)
  mod_link_map : Mod → Z;              (* [user_data().link_map()] *)
  mod_name : Mod → name;
  mod_soname : Mod → option name;
  mod_file_name : Mod → name;
  needed_libs : Mod → list name }.

(** The operations of [LinkContext]; [None] is an error result. *)
Class LinkCtx (Ctx Id Lease Mod : Type) := {
  ctx_module_id : Ctx → name → option Id;
  ctx_module_id_at : Ctx → Z → option Id;
  ctx_module_key : Ctx → Id → option name;
  ctx_module : Ctx → Id → option Mod;
  ctx_load_group : Ctx → Id → option (list Mod);
  ctx_load_order : Ctx → list Id;
  ctx_global_scope : Ctx → list Mod;
  ctx_meta : Ctx → Id → option OpenFlags.t;
  ctx_set_meta : Ctx → Id → OpenFlags.t → Ctx;   (* through [meta_mut] *)
  ctx_add_alias : Ctx → Id → name → option Ctx;
  ctx_promote_global : Ctx → Id → option Ctx;
  ctx_insert : Ctx → name → Mod → OpenFlags.t → list Z → option (Lease * Ctx);
  ctx_acquire : Ctx → Id → option (Lease * Ctx);
  ctx_pin : Ctx → Lease → option Ctx;
  ctx_release : Ctx → Lease → option (list Id * Ctx);
  lease_id : Lease → Id }.

(** What the link context promises, with two ghost observations: the leases
    given out and not yet returned, and how often a module was pinned.  A
    module is committed while it has metadata. *)
Class LinkCtxLaws (Ctx Id Lease Mod : Type) `{EqDecision Id, LinkCtx Ctx Id Lease Mod} := {
  outstanding : Ctx → list Lease;
  pins : Ctx → Id → nat;
  law_acquire c i : is_Some (ctx_meta c i) → ∃ l c', ctx_acquire c i = Some (l, c')
    ∧ lease_id l = i ∧ outstanding c' ≡ₚ l :: outstanding c
    ∧ (∀ j, ctx_meta c' j = ctx_meta c j) ∧ (∀ j, pins c' j = pins c j)
    ∧ (∀ j, ctx_load_group c' j = ctx_load_group c j) ∧ ctx_global_scope c' = ctx_global_scope c;
  law_pin c l : l ∈ outstanding c → ∃ c', ctx_pin c l = Some c'
    ∧ l :: outstanding c' ≡ₚ outstanding c
    ∧ (∀ j, ctx_meta c' j = ctx_meta c j)
    ∧ (∀ j, pins c' j = if decide (j = lease_id l) then S (pins c j) else pins c j)
    ∧ (∀ j, ctx_load_group c' j = ctx_load_group c j) ∧ ctx_global_scope c' = ctx_global_scope c;
  law_release c l : l ∈ outstanding c → ∃ u c', ctx_release c l = Some (u, c')
    ∧ l :: outstanding c' ≡ₚ outstanding c;
  law_set_meta c i f : is_Some (ctx_meta c i) →
    (∀ j, ctx_meta (ctx_set_meta c i f) j = if decide (j = i) then Some f else ctx_meta c j)
    ∧ outstanding (ctx_set_meta c i f) = outstanding c
    ∧ (∀ j, pins (ctx_set_meta c i f) j = pins c j)
    ∧ (∀ j, ctx_load_group (ctx_set_meta c i f) j = ctx_load_group c j)
    ∧ ctx_global_scope (ctx_set_meta c i f) = ctx_global_scope c;
  law_promote c i : is_Some (ctx_meta c i) → ∃ c', ctx_promote_global c i = Some c'
    ∧ (∀ j, ctx_meta c' j = ctx_meta c j) ∧ outstanding c' = outstanding c
    ∧ (∀ j, pins c' j = pins c j) ∧ (∀ j, ctx_load_group c' j = ctx_load_group c j)
    ∧ (∀ g, ctx_load_group c i = Some g → ∀ m, m ∈ g → m ∈ ctx_global_scope c');
  law_load_group c i : is_Some (ctx_meta c i) → ∃ m g, ctx_load_group c i = Some (m :: g);
  law_missing c i : ctx_meta c i = None → ctx_load_group c i = None;
  law_module_id c nm i : ctx_module_id c nm = Some i → is_Some (ctx_meta c i) }.

Module Manager.
Section manager.
Context {Ctx Id Lease Mod : Type} `{EqDecision Id, LinkCtx Ctx Id Lease Mod, ModuleApi Mod}.
Context {BU : Build}.

(** library.rs *)
Record OpenedLibrary := mkOpened { scope : list Mod; lease : Lease }.

(** [scope().first().expect(..)] and its link map. *)
Definition opened_module (o : OpenedLibrary) : outcome Mod :=
  match scope o with
  | m :: _ => if is_elf m then Ret m else Panic
  | [] => Panic
  end.
Definition opened_link_map (o : OpenedLibrary) : outcome Z :=
  m ← opened_module o; Ret (mod_link_map m).
Definition into_lease (o : OpenedLibrary) : Lease := lease o.

Record HandleState := mkHandle { opened : OpenedLibrary; extra_leases : list Lease }.

Record Manager := mkManager {
  link_ctx : Ctx;
  handles : gmap Z HandleState;
  adds : Z;
  subs : Z }.

Local Abbreviation M := (st Manager).
Definition set_ctx (c : Ctx) : M unit := λ s, Ret (tt, mkManager c (handles s) (adds s) (subs s)).
Definition set_handles (h : gmap Z HandleState) : M unit := λ s,
  Ret (tt, mkManager (link_ctx s) h (adds s) (subs s)).
Definition add_adds (n : Z) : M unit := λ s,
  a ← uadd (adds s) n; Ret (tt, mkManager (link_ctx s) (handles s) a (subs s)).
Definition add_subs (n : Z) : M unit := λ s,
  a ← uadd (subs s) n; Ret (tt, mkManager (link_ctx s) (handles s) (adds s) a).
Definition ctx : M Ctx := λ s, Ret (link_ctx s, s).

(** [Result::expect] and [Option::expect]. *)
Definition expect {A} (o : option A) : M A :=
  match o with Some a => mret a | None => st_fail Panic end.

(** A context operation that must succeed. *)
Definition expect_ctx (f : Ctx → option Ctx) : M unit :=
  c ← ctx; c' ← expect (f c); set_ctx c'.
Definition expect_lease (f : Ctx → option (Lease * Ctx)) : M Lease :=
  c ← ctx; r ← expect (f c); set_ctx r.2;; mret r.1.

(** ** Manager methods *)
Definition release (l : Lease) : M (list Id) :=
  c ← ctx;
  r ← expect (ctx_release c l);
  set_ctx r.2;;
  add_subs (zlen r.1);;
  mret r.1.

Definition register_handle (o : OpenedLibrary) : M Z :=
  handle ← st_lift (opened_link_map o);
  s ← st_get;
  (match handles s !! handle with
   | None => set_handles (<[handle := mkHandle o []]> (handles s))
   | Some st =>
       set_handles (<[handle := mkHandle (opened st) (extra_leases st ++ [into_lease o])]> (handles s))
   end);;
  mret handle.

Definition release_handle (handle : Z) : M (option (list Id)) :=
  s ← st_get;
  match handles s !! handle with
  | None => mret None
  | Some st =>
      l ← (match last (extra_leases st) with
           | Some l =>
               set_handles (<[handle := mkHandle (opened st) (removelast (extra_leases st))]> (handles s));;
               mret l
           | None =>
               set_handles (delete handle (handles s));; mret (into_lease (opened st))
           end);
      u ← release l;
      mret (Some u)
  end.

Definition add_alias (id : Id) (alias : name) : M unit :=
  c ← ctx;
  key ← expect (ctx_module_key c id);
  if bool_decide (alias = []) || bool_decide (alias = key) then mret tt
  else expect_ctx (λ c, ctx_add_alias c id alias).

Definition flags_of (id : Id) : M (option OpenFlags.t) := c ← ctx; mret (ctx_meta c id).

Definition all_values : M (list Mod) :=
  c ← ctx; mret (omap (ctx_module c) (ctx_load_order c)).

Definition acquire_module (id : Id) : M (option Lease) :=
  c ← ctx;
  match ctx_acquire c id with
  | Some (l, c') => set_ctx c';; mret (Some l)
  | None => mret None
  end.

Definition open_module (id : Id) : M (option OpenedLibrary) :=
  c ← ctx;
  sc ←!? mret (ctx_load_group c id);
  l ←!? acquire_module id;
  mret (Some (mkOpened sc l)).

Definition main_library : M (option OpenedLibrary) :=
  c ← ctx;
  match ctx_load_order c with
  | id :: _ => open_module id
  | [] => mret None
  end.

Definition promote (id : Id) (flags : OpenFlags.t) : M unit :=
  let flags := OpenFlags.promotable flags in
  c ← ctx;
  m ← expect (ctx_meta c id);
  let pin := OpenFlags.is_nodelete flags && negb (OpenFlags.is_nodelete m) in
  set_ctx (ctx_set_meta c id (OpenFlags.union m flags));;
  (if OpenFlags.is_global flags then expect_ctx (λ c, ctx_promote_global c id) else mret tt);;
  (if pin then
     l ← expect_lease (λ c, ctx_acquire c id);
     expect_ctx (λ c, ctx_pin c l)
   else mret tt).

Definition open_existing (key : name) (flags : OpenFlags.t) : M (option OpenedLibrary) :=
  c ← ctx;
  id ←!? mret (ctx_module_id c key);
  promote id flags;;
  open_module id.

Definition library_by_addr (addr : Z) : M (option OpenedLibrary) :=
  c ← ctx;
  id ←!? mret (ctx_module_id_at c addr);
  open_module id.

Definition module_by_addr (addr : Z) : M (option Mod) :=
  c ← ctx;
  mret (id ← ctx_module_id_at c addr;
        sc ← ctx_load_group c id;
        m ← head sc;
        if is_elf m then Some m else None).

Record LibrarySnapshot := mkSnapshot { snap_module : Mod; snap_lease : Lease }.

(** [filter_map] over the load order that was collected first. *)
Fixpoint snapshot_ids (ids : list Id) : M (list LibrarySnapshot) :=
  match ids with
  | [] => mret []
  | id :: rest =>
      c ← ctx;
      x ← (match sc ← ctx_load_group c id; head sc with
           | Some m =>
               if is_elf m then
                 o ← acquire_module id; mret (mkSnapshot m <$> o)
               else mret None
           | None => mret None
           end);
      r ← snapshot_ids rest;
      mret (match x with Some snap => snap :: r | None => r end)
  end.
Definition library_snapshot : M (list LibrarySnapshot) :=
  c ← ctx; snapshot_ids (ctx_load_order c).

Definition acquire_module_by_addr (addr : Z) : M (option Lease) :=
  c ← ctx;
  id ←!? mret (ctx_module_id_at c addr);
  acquire_module id.

(** The body of the loop of [open_load]. *)
Definition publish_module (flags : OpenFlags.t) (id : Id) : M unit :=
  add_adds 1;;
  c ← ctx;
  expect (ctx_meta c id);;
  set_ctx (ctx_set_meta c id flags);;
  (if OpenFlags.is_nodelete flags then
     l ← expect_lease (λ c, ctx_acquire c id);
     expect_ctx (λ c, ctx_pin c l)
   else mret tt).
Fixpoint publish_modules (flags : OpenFlags.t) (ids : list Id) : M unit :=
  match ids with
  | [] => mret tt
  | id :: ids => publish_module flags id;; publish_modules flags ids
  end.

(** [load.into_parts()] is the lease of the root and the new modules. *)
Definition open_load (l : Lease) (modules : list Id) (flags : OpenFlags.t) : M OpenedLibrary :=
  publish_modules flags modules;;
  (if OpenFlags.is_global flags then expect_ctx (λ c, ctx_promote_global c (lease_id l)) else mret tt);;
  c ← ctx;
  sc ← expect (ctx_load_group c (lease_id l));
  mret (mkOpened sc l).

(** [scope_free]: the module has neither scope nor lazy scope. *)
Definition register_loaded (scope_free : bool) (lib : Mod) (flags : OpenFlags.t) : M unit :=
  if negb scope_free then st_fail Panic
  else if negb (is_elf lib) then st_fail Panic
  else
    let nm := default (mod_name lib) (mod_soname lib) in
    c ← ctx;
    let deps := instance_id <$> omap (ctx_module c) (omap (ctx_module_id c) (needed_libs lib)) in
    l ← expect_lease (λ c, ctx_insert c nm lib flags deps);
    let id := lease_id l in
    add_adds 1;;
    add_alias id (mod_file_name lib);;
    (if OpenFlags.is_global flags || bool_decide (nm = [])
     then expect_ctx (λ c, ctx_promote_global c id) else mret tt);;
    expect_ctx (λ c, ctx_pin c l).

Definition libc_compat_aliases (nm : name) : list name :=
  if bool_decide (nm = bytes_of_string "libc.so.6") then
    bytes_of_string <$> ["libdl.so.2"; "libpthread.so.0"; "libutil.so.1"; "librt.so.1"; "libanl.so.1"]%string
  else if bool_decide (nm = bytes_of_string "ld-linux-x86-64.so.2") then
    [bytes_of_string "ld-linux.so.2"]
  else [].

Fixpoint add_aliases (id : Id) (aliases : list name) : M unit :=
  match aliases with
  | [] => mret tt
  | a :: aliases => add_alias id a;; add_aliases id aliases
  end.
Fixpoint register_aliases_of (names : list name) : M unit :=
  match names with
  | [] => mret tt
  | nm :: names =>
      c ← ctx;
      (match ctx_module_id c nm with
       | None => mret tt
       | Some id => add_aliases id (libc_compat_aliases nm)
       end);;
      register_aliases_of names
  end.
Definition register_initial_aliases : M unit :=
  register_aliases_of (bytes_of_string <$> ["libc.so.6"; "ld-linux-x86-64.so.2"]%string).

(** ** Symbol search *)
Definition find_symbol (modules : list Mod) (nm : name) : option Z :=
  head (omap (λ m, get_symbol m nm) modules).

Definition global_find (nm : name) : M (option Z) :=
  c ← ctx; mret (find_symbol (ctx_global_scope c) nm).

Fixpoint skip_while {A} (f : A → bool) (l : list A) : list A :=
  match l with
  | [] => []
  | x :: l' => if f x then skip_while f l' else l
  end.

Definition next_find (addr : Z) (nm : name) : M (option Z) :=
  c ← ctx;
  mret (caller ← ctx_module_id_at c addr;
        m ← ctx_module c caller;
        let caller_instance := instance_id m in
        let global := ctx_global_scope c in
        sc ← (if existsb (λ m, instance_id m =? caller_instance) global then Some global
              else ctx_load_group c caller);
        find_symbol (drop 1 (skip_while (λ m, negb (instance_id m =? caller_instance)) sc)) nm).

Definition handle_find (handle : Z) (nm : name) : M (option Z) :=
  s ← st_get;
  mret (st ← handles s !! handle; find_symbol (scope (opened st)) nm).

Definition handle_link_map (handle : Z) : M (option Z) :=
  s ← st_get; mret (if decide (is_Some (handles s !! handle)) then Some handle else None).

(** The C entry points of the registry: [release_handle] drops the unload
    group after the lock and reports validity. *)
Definition release_handle_valid (handle : Z) : M bool :=
  u ← release_handle handle;
  mret (match u with Some _ => true | None => false end).

(** ** cxa.rs: thread destructors keep their module loaded *)
(** [thread_atexit] registers the wrapper; [owner] is [None] for the wrapper's
    own address and the caller's handle otherwise. *)
Record ThreadDestructor := mkDestructor { td_func : Z; td_arg : Z; td_lease : option Lease }.

Definition register_thread_destructor (thread_atexit : ThreadDestructor → option Z → Z)
    (func arg dso_handle : Z) : M Z :=
  l ← acquire_module_by_addr dso_handle;
  let custom_owner := match l with Some _ => true | None => false end in
  let destructor := mkDestructor func arg l in
  let glibc_owner := if (custom_owner : bool) then None else Some dso_handle in
  let result := thread_atexit destructor glibc_owner in
  (if negb (result =? 0) then
     match l with Some l => release l;; mret tt | None => mret tt end
   else mret tt);;
  mret result.

(** [run_thread_destructor]: the destructor runs, then the lease is dropped. *)
Definition run_thread_destructor (run : Z → Z → M unit) (d : ThreadDestructor) : M unit :=
  run (td_func d) (td_arg d);;
  match td_lease d with Some l => release l;; mret tt | None => mret tt end.

(** ** A client of the registry: a run of opens and closes *)
Inductive event := EOpen (id : Id) | EClose (handle : Z).
Inductive reply := RHandle (h : option Z) | RClosed (ok : bool).

Definition run_event (e : event) : M reply :=
  match e with
  | EOpen id =>
      o ← open_module id;
      match o with
      | None => mret (RHandle None)
      | Some o => h ← register_handle o; mret (RHandle (Some h))
      end
  | EClose h => ok ← release_handle_valid h; mret (RClosed ok)
  end.
Fixpoint run_events (es : list event) : M (list reply) :=
  match es with
  | [] => mret []
  | e :: es => r ← run_event e; rs ← run_events es; mret (r :: rs)
  end.

(** The reference count of a handle. *)
Definition count_of (h : gmap Z HandleState) (handle : Z) : nat :=
  match h !! handle with Some st => S (length (extra_leases st)) | None => 0 end.

(** The contract of [dlopen] and [dlclose] on handles: a counter per handle. *)
Inductive spec_step (counts : Z → nat) : event → reply → (Z → nat) → Prop :=
  | spec_open_none id : spec_step counts (EOpen id) (RHandle None) counts
  | spec_open id h : spec_step counts (EOpen id) (RHandle (Some h))
      (λ x, if decide (x = h) then S (counts x) else counts x)
  | spec_close h : (0 < counts h)%nat → spec_step counts (EClose h) (RClosed true)
      (λ x, if decide (x = h) then pred (counts x) else counts x)
  | spec_close_invalid h : counts h = 0%nat → spec_step counts (EClose h) (RClosed false) counts.
Inductive spec_run : (Z → nat) → list event → list reply → (Z → nat) → Prop :=
  | spec_nil counts counts' : (∀ h, counts h = counts' h) → spec_run counts [] [] counts'
  | spec_cons counts counts1 counts2 e es r rs :
      spec_step counts e r counts1 → spec_run counts1 es rs counts2 →
      spec_run counts (e :: es) (r :: rs) counts2.

End manager.

Section laws.
Context {Ctx Id Lease Mod : Type} `{ED : EqDecision Id, LC : !LinkCtx Ctx Id Lease Mod, MA : !ModuleApi Mod}.
Context {BU : Build} {LL : LinkCtxLaws Ctx Id Lease Mod}.

(** The leases that the handles own. *)
Definition handle_leases (st : HandleState (Lease := Lease) (Mod := Mod)) : list Lease :=
  lease (opened st) :: extra_leases st.
Definition all_leases (h : gmap Z (HandleState (Lease := Lease) (Mod := Mod))) : list Lease :=
  map_to_list h ≫= λ p, handle_leases p.2.

Lemma all_leases_insert h k st :
  h !! k = None → all_leases (<[k := st]> h) ≡ₚ handle_leases st ++ all_leases h.
Proof. intros Hk. unfold all_leases. by rewrite map_to_list_insert. Qed.

Lemma all_leases_delete h k st :
  h !! k = Some st → all_leases h ≡ₚ handle_leases st ++ all_leases (delete k h).
Proof.
  intros Hk. rewrite <-(insert_delete_id h k st) at 1 by done.
  apply all_leases_insert, lookup_delete_eq.
Qed.

Lemma all_leases_update h k st st' :
  h !! k = Some st → all_leases (<[k := st']> h) ≡ₚ handle_leases st' ++ all_leases (delete k h).
Proof.
  intros Hk. rewrite <-insert_delete_eq. apply all_leases_insert, lookup_delete_eq.
Qed.

(** The handles own leases that are outstanding, and [rest] is owned by others. *)
Definition owns (s : Manager (Ctx := Ctx) (Lease := Lease) (Mod := Mod)) (rest : list Lease) : Prop :=
  outstanding (link_ctx s) ≡ₚ all_leases (handles s) ++ rest.

Lemma removelast_last (l : list Lease) x : last l = Some x → l ≡ₚ x :: removelast l.
Proof.
  intros Hl. apply last_Some in Hl as [l' ->]. rewrite removelast_app by done. simpl.
  rewrite app_nil_r. symmetry. apply Permutation_cons_append.
Qed.
Lemma length_removelast (l : list Lease) : length (removelast l) = pred (length l).
Proof.
  destruct l as [|x l _] using rev_ind; [done|]. rewrite removelast_app by done. simpl.
  rewrite !length_app. simpl. lia.
Qed.

Hypothesis release_build : overflow_checks = false.

Lemma add_subs_run n (s : Manager (Ctx := Ctx) (Lease := Lease) (Mod := Mod)) :
  ∃ v, add_subs n s = Ret (tt, mkManager (link_ctx s) (handles s) (adds s) v).
Proof.
  unfold add_subs, uadd, u_arith. rewrite release_build. case_decide; by eexists.
Qed.

Lemma release_run l s :
  l ∈ outstanding (link_ctx s) →
  ∃ u c' v, release l s = Ret (u, mkManager c' (handles s) (adds s) v)
    ∧ l :: outstanding c' ≡ₚ outstanding (link_ctx s).
Proof.
  intros Hl. destruct (law_release _ _ Hl) as (u & c' & Hr & Hp).
  destruct (add_subs_run (zlen u) (mkManager c' (handles s) (adds s) (subs s))) as [v Hv].
  exists u, c', v. split; [|done]. unfold release, ctx, expect.
  erewrite st_bind_run by reflexivity. rewrite Hr. erewrite st_bind_run by reflexivity.
  erewrite st_bind_run by reflexivity. simpl. by erewrite st_bind_run by exact Hv.
Qed.

(** One close. *)
Lemma release_handle_run h s rest :
  owns s rest →
  match handles s !! h with
  | None => release_handle h s = Ret (None, s)
  | Some st => ∃ u s', release_handle h s = Ret (Some u, s') ∧ owns s' rest
      ∧ (∀ x, count_of (handles s') x = if decide (x = h) then pred (count_of (handles s) x) else count_of (handles s) x)
  end.
Proof.
  intros Hown. unfold release_handle. rewrite st_bind_get.
  destruct (handles s !! h) as [st|] eqn:Hh; [|done].
  assert (∃ l h', (match last (extra_leases st) with
     | Some l => set_handles (<[h := mkHandle (opened st) (removelast (extra_leases st))]> (handles s));; mret l
     | None => set_handles (delete h (handles s));; mret (into_lease (opened st))
     end) s = Ret (l, mkManager (link_ctx s) h' (adds s) (subs s))
     ∧ all_leases (handles s) ≡ₚ l :: all_leases h'
     ∧ ∀ x, count_of h' x = if decide (x = h) then pred (count_of (handles s) x) else count_of (handles s) x)
    as (l & h' & Hrun & Hperm & Hcnt).
  { destruct (last (extra_leases st)) as [l|] eqn:Hl.
    - eexists l, _. split; [reflexivity|]. split.
      + rewrite (all_leases_delete _ _ _ Hh), (all_leases_update _ _ _ _ Hh).
        unfold handle_leases. simpl. rewrite (removelast_last _ _ Hl) at 1. simpl.
        by rewrite Permutation_swap.
      + intros x. unfold count_of. case_decide as Hx.
        * subst. rewrite lookup_insert_eq, Hh. simpl. rewrite length_removelast.
          destruct (extra_leases st); [done|]. done.
        * by rewrite lookup_insert_ne.
    - apply last_None in Hl. eexists _, _. split; [reflexivity|]. split.
      + rewrite (all_leases_delete _ _ _ Hh). unfold handle_leases. by rewrite Hl.
      + intros x. unfold count_of. case_decide as Hx.
        * subst. by rewrite lookup_delete_eq, Hh, Hl.
        * by rewrite lookup_delete_ne. }
  erewrite st_bind_run by exact Hrun.
  destruct (release_run l (mkManager (link_ctx s) h' (adds s) (subs s))) as (u & c' & v & Hrel & Hout).
  { simpl. unfold owns in Hown. rewrite Hown, Hperm. set_solver. }
  erewrite st_bind_run by exact Hrel. eexists u, _. split; [reflexivity|]. split; [|done].
  unfold owns in *. simpl in *. rewrite Hown, Hperm in Hout. simpl in Hout. by apply Permutation_cons_inv in Hout.
Qed.

(** One open. *)
Lemma acquire_module_run id s :
  is_Some (ctx_meta (link_ctx s) id) →
  ∃ l c', acquire_module id s = Ret (Some l, mkManager c' (handles s) (adds s) (subs s))
    ∧ lease_id l = id ∧ outstanding c' ≡ₚ l :: outstanding (link_ctx s)
    ∧ (∀ j, ctx_meta c' j = ctx_meta (link_ctx s) j)
    ∧ (∀ j, ctx_load_group c' j = ctx_load_group (link_ctx s) j).
Proof.
  intros Hm. destruct (law_acquire (link_ctx s) id Hm) as (l & c' & Ha & Hid & Hout & Hmeta & _ & Hg & _).
  exists l, c'. split; [|done]. unfold acquire_module, ctx. erewrite st_bind_run by reflexivity. by rewrite Ha.
Qed.

Lemma open_module_free id s :
  is_Some (ctx_meta (link_ctx s) id) →
  ∃ m g l c', open_module id s = Ret (Some (mkOpened (m :: g) l), mkManager c' (handles s) (adds s) (subs s))
    ∧ ctx_load_group (link_ctx s) id = Some (m :: g) ∧ lease_id l = id
    ∧ outstanding c' ≡ₚ l :: outstanding (link_ctx s)
    ∧ (∀ j, ctx_meta c' j = ctx_meta (link_ctx s) j).
Proof.
  intros Hm. unfold open_module, ctx. erewrite st_bind_run by reflexivity.
  destruct (law_load_group (link_ctx s) id Hm) as (m & g & Hg).
  destruct (acquire_module_run id s Hm) as (l & c' & Ha & Hid & Hout & Hmeta & _).
  exists m, g, l, c'. split; [|done]. erewrite try_some_run by reflexivity. rewrite Hg.
  by erewrite (try_some_run _ _ _ (Some l)) by exact Ha.
Qed.

Lemma open_module_run id s :
  match ctx_meta (link_ctx s) id with
  | None => open_module id s = Ret (None, s)
  | Some _ => ∃ m g l c', open_module id s = Ret (Some (mkOpened (m :: g) l), mkManager c' (handles s) (adds s) (subs s))
      ∧ ctx_load_group (link_ctx s) id = Some (m :: g) ∧ lease_id l = id
      ∧ outstanding c' ≡ₚ l :: outstanding (link_ctx s)
  end.
Proof.
  destruct (ctx_meta (link_ctx s) id) as [f|] eqn:Hm.
  - destruct (open_module_free id s) as (m & g & l & c' & H1 & H2 & H3 & H4 & _); [by eexists|].
    by exists m, g, l, c'.
  - unfold open_module, ctx. erewrite st_bind_run by reflexivity.
    rewrite law_missing by done. by erewrite try_some_run by reflexivity.
Qed.

Lemma register_handle_run m g l s rest :
  is_elf m = true → outstanding (link_ctx s) ≡ₚ l :: all_leases (handles s) ++ rest →
  ∃ s', register_handle (mkOpened (m :: g) l) s = Ret (mod_link_map m, s') ∧ owns s' rest
    ∧ link_ctx s' = link_ctx s
    ∧ ∀ x, count_of (handles s') x = if decide (x = mod_link_map m) then S (count_of (handles s) x) else count_of (handles s) x.
Proof.
  intros Helf Hout. unfold register_handle.
  erewrite st_bind_run by (apply st_lift_run; unfold opened_link_map, opened_module; simpl; by rewrite Helf).
  rewrite st_bind_get. set (h := mod_link_map m). destruct (handles s !! h) as [st|] eqn:Hh.
  - eexists. split; [reflexivity|]. split_and!; [|done|].
    + unfold owns. simpl. rewrite Hout, (all_leases_update _ _ _ _ Hh), (all_leases_delete _ _ _ Hh).
      unfold handle_leases. simpl. rewrite <-!app_assoc. simpl.
      rewrite (Permutation_app_comm (extra_leases st) (l :: _)). simpl.
      rewrite Permutation_swap. by rewrite (Permutation_app_comm _ (extra_leases st)).
    + intros x. unfold count_of. simpl. case_decide as Hx.
      * subst. rewrite lookup_insert_eq, Hh. simpl. rewrite length_app. simpl. lia.
      * by rewrite lookup_insert_ne.
  - eexists. split; [reflexivity|]. split_and!; [|done|].
    + unfold owns. simpl. rewrite Hout, (all_leases_insert _ _ _ Hh). done.
    + intros x. unfold count_of. simpl. case_decide as Hx.
      * subst. by rewrite lookup_insert_eq, Hh.
      * by rewrite lookup_insert_ne.
Qed.

End laws.
End Manager.

(** A small link context: module [i] is its own load group, leases are
    numbered.  It satisfies the laws and runs the examples. *)
Module Toy.
Import Manager.

Record toy := mkToy {
  t_metas : list OpenFlags.t;
  t_out : list (nat * nat);
  t_next : nat;
  t_pins : list nat;
  t_glob : list nat }.

Fixpoint remove1 (l : nat * nat) (ls : list (nat * nat)) : option (list (nat * nat)) :=
  match ls with
  | [] => None
  | x :: ls => if decide (x = l) then Some ls else (x ::.) <$> remove1 l ls
  end.

#[export] Instance toy_mod : ModuleApi nat := {|
  instance_id := Z.of_nat;
  get_symbol m nm := if decide (nm = [Z.of_nat m]) then Some (Z.of_nat m * 100) else None;
  is_elf _ := true;
  mod_link_map m := 4096 * (Z.of_nat m + 1);
  mod_name _ := [];
  mod_soname _ := None;
  mod_file_name _ := [];
  needed_libs _ := [] |}.

#[export] Instance toy_ctx : LinkCtx toy nat (nat * nat) nat := {|
  ctx_module_id c nm := match nm with
    | [z] => if decide (is_Some (t_metas c !! Z.to_nat z)) then Some (Z.to_nat z) else None
    | _ => None
    end;
  ctx_module_id_at c a := Some (Z.to_nat a);
  ctx_module_key c i := Some [];
  ctx_module c i := i ← Some i; t_metas c !! i ≫= λ _, Some i;
  ctx_load_group c i := t_metas c !! i ≫= λ _, Some [i];
  ctx_load_order c := seq 0 (length (t_metas c));
  ctx_global_scope := t_glob;
  ctx_meta c i := t_metas c !! i;
  ctx_set_meta c i f := mkToy (<[i := f]> (t_metas c)) (t_out c) (t_next c) (t_pins c) (t_glob c);
  ctx_add_alias c _ _ := Some c;
  ctx_promote_global c i := Some (mkToy (t_metas c) (t_out c) (t_next c) (t_pins c) (t_glob c ++ [i]));
  ctx_insert c _ _ f _ := Some ((t_next c, length (t_metas c)),
    mkToy (t_metas c ++ [f]) ((t_next c, length (t_metas c)) :: t_out c) (S (t_next c)) (t_pins c) (t_glob c));
  ctx_acquire c i := t_metas c !! i ≫= λ _, Some ((t_next c, i),
    mkToy (t_metas c) ((t_next c, i) :: t_out c) (S (t_next c)) (t_pins c) (t_glob c));
  ctx_pin c l := remove1 l (t_out c) ≫= λ o, Some (mkToy (t_metas c) o (t_next c) (l.2 :: t_pins c) (t_glob c));
  ctx_release c l := remove1 l (t_out c) ≫= λ o, Some ([], mkToy (t_metas c) o (t_next c) (t_pins c) (t_glob c));
  lease_id := snd |}.

Lemma remove1_in l ls : l ∈ ls → ∃ k, remove1 l ls = Some k ∧ l :: k ≡ₚ ls.
Proof.
  induction ls as [|x ls IH]; intros Hl; [by apply elem_of_nil in Hl|]. simpl.
  case_decide as Hx; [subst; by exists ls|].
  apply elem_of_cons in Hl as [?|Hl]; [congruence|]. destruct (IH Hl) as (k & -> & Hp).
  exists (x :: k). split; [done|]. by rewrite Permutation_swap, Hp.
Qed.

Fixpoint occurrences (i : nat) (l : list nat) : nat :=
  match l with [] => 0 | x :: l => (if decide (x = i) then 1 else 0) + occurrences i l end.

#[export] Program Instance toy_laws : LinkCtxLaws toy nat (nat * nat) nat := {|
  outstanding := t_out;
  pins c i := occurrences i (t_pins c) |}.
Next Obligation.
  intros c i [f Hf]. simpl in *. rewrite Hf. simpl. eexists _, _. split; [reflexivity|]. done.
Qed.
Next Obligation.
  intros c l Hl. simpl. destruct (remove1_in l (t_out c) Hl) as (k & -> & Hp). simpl.
  eexists. split; [reflexivity|]. split_and!; try done. simpl. intros j. repeat case_decide; subst; done.
Qed.
Next Obligation.
  intros c l Hl. simpl. destruct (remove1_in l (t_out c) Hl) as (k & -> & Hp). simpl.
  eexists _, _. split; [reflexivity|]. done.
Qed.
Next Obligation.
  intros c i f [g Hg]. simpl in *. split_and!; try done; simpl.
  - intros j. case_decide; subst.
    + apply list_lookup_insert_eq. by eapply lookup_lt_Some.
    + by rewrite list_lookup_insert_ne.
  - intros j. destruct (decide (i = j)) as [->|].
    + rewrite list_lookup_insert_eq by (by eapply lookup_lt_Some). by rewrite Hg.
    + by rewrite list_lookup_insert_ne.
Qed.
Next Obligation.
  intros c i [g Hg]. simpl in *. eexists. split; [reflexivity|]. split_and!; try done. simpl.
  intros gr. rewrite Hg. simpl. intros [= <-] m ->%list_elem_of_singleton. set_solver.
Qed.
Next Obligation. intros c i [f Hf]. simpl in *. rewrite Hf. simpl. by exists i, []. Qed.
Next Obligation. intros c i Hf. simpl in *. by rewrite Hf. Qed.
Next Obligation. intros c [|z [|]] i; simpl; try done. case_decide; by intros [= <-]. Qed.

(** A lease that is given back. *)
Definition give_back (l : nat * nat) (c : toy) : toy :=
  match ctx_release c l with Some (_, c') => c' | None => c end.
Lemma give_back_leases l (c : toy) ls : outstanding c ≡ₚ [l] ++ ls → outstanding (give_back l c) ≡ₚ ls.
Proof.
  intros Ho. unfold give_back. destruct (law_release c l) as (u & c' & Hr & Hp); [rewrite Ho; set_solver|].
  rewrite Hr. apply (Permutation_cons_inv (a := l)). by rewrite Hp.
Qed.

Definition toy_manager (n : nat) : Manager (Ctx := toy) (Lease := nat * nat) (Mod := nat) :=
  mkManager (mkToy (replicate n 1) [] 0 [] []) ∅ 0 0.

End Toy.

Module ManagerProps.
Import Manager.

Section props.
Context {Ctx Id Lease Mod : Type} `{ED : EqDecision Id, LC : !LinkCtx Ctx Id Lease Mod, MA : !ModuleApi Mod}.
Context {BU : Build} {LL : LinkCtxLaws Ctx Id Lease Mod}.
Implicit Types s : Manager (Ctx := Ctx) (Lease := Lease) (Mod := Mod).

(** Groups begin with an ELF module. *)
Definition elf_groups : Prop := ∀ (c : Ctx) i (m : Mod) g,
  ctx_load_group (Lease := Lease) (Id := Id) c i = Some (m :: g) → is_elf m = true.

Lemma run_event_refines e s rest :
  overflow_checks = false → elf_groups → owns s rest →
  ∃ r s', run_event (Id := Id) e s = Ret (r, s') ∧ owns s' rest
    ∧ ∃ counts, spec_step (count_of (handles s)) e r counts ∧ ∀ h, counts h = count_of (handles s') h.
Proof.
  intros Hrel Helf Hown. destruct e as [id|h]; simpl.
  - pose proof (open_module_run id s) as Hrun.
    destruct (ctx_meta (link_ctx s) id) as [f|].
    + destruct Hrun as (m & g & l & c' & Hrun & Hg & _ & Hout). erewrite st_bind_run by exact Hrun.
      set (s1 := mkManager c' _ _ _).
      destruct (register_handle_run m g l s1 rest) as (s' & Hreg & Hown' & _ & Hcnt).
      * by eapply Helf.
      * simpl. unfold owns in Hown. by rewrite Hout, Hown.
      * erewrite st_bind_run by exact Hreg. eexists _, s'. split; [reflexivity|]. split; [done|].
        eexists. split; [constructor|]. intros h. symmetry. apply Hcnt.
    + erewrite st_bind_run by exact Hrun. eexists _, s. split; [reflexivity|]. split; [done|].
      eexists. split; [constructor|done].
  - pose proof (release_handle_run Hrel h s rest Hown) as Hrun. unfold release_handle_valid.
    destruct (handles s !! h) as [st|] eqn:Hh.
    + destruct Hrun as (u & s' & Hrun & Hown' & Hcnt). rewrite st_bind_assoc.
      erewrite st_bind_run by exact Hrun. eexists _, s'. split; [reflexivity|]. split; [done|].
      eexists. split; [constructor; unfold count_of; rewrite Hh; lia|]. intros x. symmetry. apply Hcnt.
    + rewrite st_bind_assoc. erewrite st_bind_run by exact Hrun. eexists _, s. split; [reflexivity|].
      split; [done|]. eexists. split; [constructor; unfold count_of; by rewrite Hh|done].
Qed.

Lemma spec_step_ext counts counts' e r c1 :
  (∀ h, counts h = counts' h) → spec_step (Id := Id) counts e r c1 →
  ∃ c1', spec_step counts' e r c1' ∧ ∀ h, c1 h = c1' h.
Proof.
  intros Heq Hst. destruct Hst as [id|id h|h Hp|h Hz].
  - eexists. split; [constructor|done].
  - eexists. split; [constructor|]. intros x. simpl. case_decide; by rewrite Heq.
  - eexists. split; [constructor; by rewrite <-Heq|]. intros x. simpl. case_decide; by rewrite Heq.
  - eexists. split; [constructor; by rewrite <-Heq|done].
Qed.

Lemma spec_run_ext counts counts' es rs c1 :
  (∀ h, counts h = counts' h) → spec_run (Id := Id) counts es rs c1 → spec_run counts' es rs c1.
Proof.
  intros Heq Hrun. revert counts' Heq. induction Hrun as [c c1' Hc|c c1' c2 e es r rs Hst Hrun IH]; intros counts' Heq.
  - constructor. intros h. by rewrite <-Heq.
  - destruct (spec_step_ext _ _ _ _ _ Heq Hst) as (c1'' & Hst' & Heq'). econstructor; [done|]. by apply IH.
Qed.

(** C7. Handles are reference-counted: any run of opens and closes, valid or
    not, behaves like one counter per handle (an open of a loaded module adds
    one, a close succeeds exactly while the counter is positive and takes one
    away), never panics in a release build, and the handles own exactly the
    leases of the opens that are not closed yet, so that every lease is
    released once. *)
Theorem handles_refine_counts es s rest :
  overflow_checks = false → elf_groups → owns s rest →
  ∃ rs s', run_events (Id := Id) es s = Ret (rs, s') ∧ owns s' rest
    ∧ spec_run (count_of (handles s)) es rs (count_of (handles s')).
Proof.
  intros Hrel Helf. revert s. induction es as [|e es IH]; intros s Hown.
  { exists [], s. split; [done|]. split; [done|]. by constructor. }
  destruct (run_event_refines e s rest Hrel Helf Hown) as (r & s1 & Hr & Hown1 & counts & Hst & Hc).
  destruct (IH s1 Hown1) as (rs & s2 & Hrs & Hown2 & Hrun).
  exists (r :: rs), s2. simpl. erewrite st_bind_run by exact Hr. erewrite st_bind_run by exact Hrs.
  split; [done|]. split; [done|]. econstructor; [done|]. eapply spec_run_ext; [|exact Hrun]. done.
Qed.

(** The effect of [promote] on a committed module. *)
Lemma promote_run id flags s m :
  ctx_meta (link_ctx s) id = Some m →
  ∃ c', promote id flags s = Ret (tt, mkManager c' (handles s) (adds s) (subs s))
    ∧ (∀ j, ctx_meta c' j = if decide (j = id) then Some (OpenFlags.union m (OpenFlags.promotable flags))
                            else ctx_meta (link_ctx s) j)
    ∧ outstanding c' ≡ₚ outstanding (link_ctx s)
    ∧ (∀ j, pins c' j = if bool_decide (j = id) && OpenFlags.is_nodelete flags && negb (OpenFlags.is_nodelete m)
                        then S (pins (link_ctx s) j) else pins (link_ctx s) j).
Proof.
  intros Hm. unfold promote, ctx. erewrite st_bind_run by reflexivity. rewrite Hm.
  erewrite st_bind_run by reflexivity.
  rewrite OpenFlags.promotable_is_nodelete, OpenFlags.promotable_is_global.
  set (m' := OpenFlags.union _ _).
  destruct (law_set_meta (link_ctx s) id m') as (Hm1 & Ho1 & Hp1 & _ & _); [by eexists|].
  erewrite st_bind_run by reflexivity. set (c1 := ctx_set_meta _ _ _) in *.
  assert (is_Some (ctx_meta c1 id)) as Hs1 by (rewrite Hm1, decide_True; by eexists).
  assert (∃ c2, (if OpenFlags.is_global flags then expect_ctx (λ c, ctx_promote_global c id) else mret tt)
      (mkManager c1 (handles s) (adds s) (subs s)) = Ret (tt, mkManager c2 (handles s) (adds s) (subs s))
      ∧ (∀ j, ctx_meta c2 j = ctx_meta c1 j) ∧ outstanding c2 = outstanding c1 ∧ (∀ j, pins c2 j = pins c1 j))
    as (c2 & Hrun2 & Hm2 & Ho2 & Hp2).
  { destruct (OpenFlags.is_global flags); [|by exists c1].
    destruct (law_promote c1 id Hs1) as (c2 & Hpr & ? & ? & ? & _). exists c2. split; [|done].
    unfold expect_ctx, ctx. erewrite st_bind_run by reflexivity. simpl. rewrite Hpr. reflexivity. }
  erewrite st_bind_run by exact Hrun2.
  destruct (OpenFlags.is_nodelete flags && negb (OpenFlags.is_nodelete m)) eqn:Hpin.
  - destruct (law_acquire c2 id) as (l & c3 & Hacq & Hid & Ho3 & Hm3 & Hp3 & _); [by rewrite Hm2|].
    destruct (law_pin c3 l) as (c4 & Hpn & Ho4 & Hm4 & Hp4 & _); [rewrite Ho3; set_solver|].
    exists c4. split.
    { unfold expect_lease, expect_ctx, ctx. rewrite st_bind_assoc. erewrite st_bind_run by reflexivity.
      simpl. rewrite Hacq. erewrite st_bind_run by reflexivity. simpl.
      unfold mbind, st_bind. simpl. rewrite Hpn. reflexivity. }
    split_and!.
    + intros j. by rewrite Hm4, Hm3, Hm2, Hm1.
    + apply (Permutation_cons_inv (a := l)). by rewrite Ho4, Ho3, Ho2, Ho1.
    + intros j. rewrite Hp4, Hp3, Hp2, Hp1, Hid.
      apply andb_true_iff in Hpin as [-> ->]. rewrite !andb_true_r.
      by case_decide; case_bool_decide.
  - exists c2. split; [done|]. split_and!.
    + intros j. by rewrite Hm2, Hm1.
    + by rewrite Ho2, Ho1.
    + intros j. rewrite Hp2, Hp1. by rewrite <-andb_assoc, Hpin, andb_false_r.
Qed.

Fixpoint promote_all (id : Id) (fl : list OpenFlags.t) : st (Manager (Ctx := Ctx) (Lease := Lease) (Mod := Mod)) unit :=
  match fl with [] => mret tt | f :: fl => promote id f;; promote_all id fl end.

(** However often a module is reopened, [promote] only adds GLOBAL and
    NODELETE to its flags, pins it exactly once when NODELETE first appears
    and never again, gives the lease it took for pinning away, and leaves the
    handles, the counters and every other module as they were. *)
Theorem promote_pins_once id fl s m :
  ctx_meta (link_ctx s) id = Some m →
  ∃ c' m', promote_all id fl s = Ret (tt, mkManager c' (handles s) (adds s) (subs s))
    ∧ ctx_meta c' id = Some m'
    ∧ (∀ n, 0 ≤ n → Z.testbit m' n =
         Z.testbit m n || ((n =? 8) || (n =? 12)) && existsb (λ f, Z.testbit f n) fl)
    ∧ outstanding c' ≡ₚ outstanding (link_ctx s)
    ∧ (∀ j, j ≠ id → ctx_meta c' j = ctx_meta (link_ctx s) j ∧ pins c' j = pins (link_ctx s) j)
    ∧ pins c' id = (pins (link_ctx s) id +
        if negb (OpenFlags.is_nodelete m) && existsb OpenFlags.is_nodelete fl then 1 else 0)%nat.
Proof.
  revert s m. induction fl as [|f fl IH]; intros s m Hm.
  { exists (link_ctx s), m. split; [by destruct s|]. split_and!; try done.
    - intros n Hn. by rewrite andb_false_r, orb_false_r.
    - rewrite andb_false_r. lia. }
  destruct (promote_run id f s m Hm) as (c1 & Hr1 & Hm1 & Ho1 & Hp1).
  set (s1 := mkManager c1 _ _ _) in *. pose proof (Hm1 id) as Hmi. rewrite decide_True in Hmi by done.
  destruct (IH s1 _ Hmi) as (c2 & m2 & Hr2 & Hm2 & Hb2 & Ho2 & Hoth & Hp2).
  exists c2, m2. simpl promote_all. erewrite st_bind_run by exact Hr1.
  split; [exact Hr2|]. split_and!; [done| | | |].
  - intros n Hn. rewrite Hb2 by done. unfold OpenFlags.union. rewrite Z.lor_spec, OpenFlags.promotable_bit by done.
    simpl existsb. destruct (Z.testbit m n), (Z.testbit f n), ((n =? 8) || (n =? 12)); done.
  - by rewrite Ho2.
  - intros j Hj. destruct (Hoth j Hj) as [Hj1 Hj2]. simpl in *. rewrite Hj1, Hj2, Hm1, Hp1.
    by rewrite decide_False, bool_decide_eq_false_2.
  - rewrite Hp2. simpl link_ctx. rewrite Hp1, bool_decide_eq_true_2 by done.
    rewrite OpenFlags.union_is_nodelete, OpenFlags.promotable_is_nodelete. simpl existsb.
    destruct (OpenFlags.is_nodelete m), (OpenFlags.is_nodelete f); simpl; rewrite ?Nat.add_0_r; lia.
Qed.

(** One turn of the loop of [open_load]. *)
Lemma publish_module_run flags id s :
  is_Some (ctx_meta (link_ctx s) id) → 0 ≤ adds s → adds s + 1 < 2 ^ 64 →
  ∃ c', publish_module flags id s = Ret (tt, mkManager c' (handles s) (adds s + 1) (subs s))
    ∧ (∀ j, ctx_meta c' j = if decide (j = id) then Some flags else ctx_meta (link_ctx s) j)
    ∧ (∀ j, pins c' j = (pins (link_ctx s) j + if bool_decide (j = id) && OpenFlags.is_nodelete flags then 1 else 0)%nat)
    ∧ outstanding c' ≡ₚ outstanding (link_ctx s)
    ∧ (∀ j, ctx_load_group c' j = ctx_load_group (link_ctx s) j).
Proof.
  intros Hid Ha1 Ha2. unfold publish_module.
  erewrite st_bind_run by (unfold add_adds; rewrite uadd_small by lia; reflexivity).
  unfold ctx. erewrite st_bind_run by reflexivity. simpl link_ctx.
  destruct Hid as [m Hm]. rewrite Hm. erewrite st_bind_run by reflexivity.
  destruct (law_set_meta (link_ctx s) id flags) as (Hm1 & Ho1 & Hp1 & Hg1 & _); [by eexists|].
  erewrite st_bind_run by reflexivity. cbn [link_ctx handles adds subs].
  set (c1 := ctx_set_meta _ _ _) in *.
  assert (is_Some (ctx_meta c1 id)) as Hs1 by (rewrite Hm1, decide_True; by eexists).
  destruct (OpenFlags.is_nodelete flags).
  - destruct (law_acquire c1 id Hs1) as (l & c3 & Hacq & Hid & Ho3 & Hm3 & Hp3 & Hg3 & _).
    destruct (law_pin c3 l) as (c4 & Hpn & Ho4 & Hm4 & Hp4 & Hg4 & _); [rewrite Ho3; set_solver|].
    exists c4. split.
    { unfold expect_lease, expect_ctx, ctx. rewrite st_bind_assoc. erewrite st_bind_run by reflexivity.
      simpl. rewrite Hacq. erewrite st_bind_run by reflexivity. simpl.
      unfold mbind, st_bind. simpl. rewrite Hpn. reflexivity. }
    split_and!.
    + intros j. by rewrite Hm4, Hm3, Hm1.
    + intros j. rewrite Hp4, Hp3, Hp1, Hid, andb_true_r. case_decide; case_bool_decide; try done; lia.
    + apply (Permutation_cons_inv (a := l)). by rewrite Ho4, Ho3, Ho1.
    + intros j. by rewrite Hg4, Hg3, Hg1.
  - exists c1. split; [done|]. split_and!; [done| |by rewrite Ho1|done].
    intros j. rewrite Hp1, andb_false_r. lia.
Qed.

Lemma publish_modules_run flags ids s :
  Forall (λ id, is_Some (ctx_meta (link_ctx s) id)) ids → NoDup ids →
  0 ≤ adds s → adds s + zlen ids < 2 ^ 64 →
  ∃ c', publish_modules flags ids s = Ret (tt, mkManager c' (handles s) (adds s + zlen ids) (subs s))
    ∧ (∀ j, ctx_meta c' j = if decide (j ∈ ids) then Some flags else ctx_meta (link_ctx s) j)
    ∧ (∀ j, pins c' j = (pins (link_ctx s) j + if bool_decide (j ∈ ids) && OpenFlags.is_nodelete flags then 1 else 0)%nat)
    ∧ outstanding c' ≡ₚ outstanding (link_ctx s)
    ∧ (∀ j, ctx_load_group c' j = ctx_load_group (link_ctx s) j).
Proof.
  revert s. induction ids as [|id ids IH]; intros s Hall Hnd Ha1 Ha2.
  { exists (link_ctx s). unfold zlen. simpl. rewrite Z.add_0_r. split; [by destruct s|]. split_and!; try done; intros j; simpl; lia. }
  apply Forall_cons in Hall as [Hid Hall]. apply NoDup_cons in Hnd as [Hni Hnd].
  rewrite zlen_cons in *. pose proof (zlen_nonneg ids).
  destruct (publish_module_run flags id s Hid) as (c1 & Hr1 & Hm1 & Hp1 & Ho1 & Hg1); [lia|lia|].
  set (s1 := mkManager c1 _ _ _) in *.
  destruct (IH s1) as (c2 & Hr2 & Hm2 & Hp2 & Ho2 & Hg2); simpl; [|done|lia|lia|].
  { eapply Forall_impl; [exact Hall|]. intros j [f Hj]. simpl. rewrite Hm1. case_decide; by eexists. }
  exists c2. simpl publish_modules. erewrite st_bind_run by exact Hr1. split.
  { rewrite Hr2. simpl. do 3 f_equal. lia. }
  split_and!.
  - intros j. rewrite Hm2. simpl. rewrite Hm1. repeat case_decide; try done; set_solver.
  - intros j. rewrite Hp2. simpl. rewrite Hp1.
    repeat case_bool_decide; simpl; try (destruct (OpenFlags.is_nodelete flags); lia); set_solver.
  - by rewrite Ho2.
  - intros j. by rewrite Hg2.
Qed.

(** The effect of [open_load]. *)
Lemma open_load_run l modules flags s :
  Forall (λ id, is_Some (ctx_meta (link_ctx s) id)) modules → NoDup modules →
  is_Some (ctx_meta (link_ctx s) (lease_id l)) → 0 ≤ adds s → adds s + zlen modules < 2 ^ 64 →
  ∃ sc c', open_load l modules flags s =
      Ret (mkOpened sc l, mkManager c' (handles s) (adds s + zlen modules) (subs s))
    ∧ ctx_load_group (link_ctx s) (lease_id l) = Some sc
    ∧ (∀ j, ctx_meta c' j = if decide (j ∈ modules) then Some flags else ctx_meta (link_ctx s) j)
    ∧ (∀ j, pins c' j = (pins (link_ctx s) j + if bool_decide (j ∈ modules) && OpenFlags.is_nodelete flags then 1 else 0)%nat)
    ∧ outstanding c' ≡ₚ outstanding (link_ctx s)
    ∧ (OpenFlags.is_global flags = true → ∀ m, m ∈ sc → m ∈ ctx_global_scope c').
Proof.
  intros Hall Hnd Hroot Ha1 Ha2.
  destruct (publish_modules_run flags modules s Hall Hnd Ha1 Ha2) as (c1 & Hr1 & Hm1 & Hp1 & Ho1 & Hg1).
  destruct (law_load_group (link_ctx s) (lease_id l) Hroot) as (m & g & Hg).
  unfold open_load. erewrite st_bind_run by exact Hr1.
  assert (is_Some (ctx_meta c1 (lease_id l))) as Hs1 by (rewrite Hm1; case_decide; [by eexists|done]).
  assert (∃ c2, (if OpenFlags.is_global flags then expect_ctx (λ c, ctx_promote_global c (lease_id l)) else mret tt)
      (mkManager c1 (handles s) (adds s + zlen modules) (subs s))
      = Ret (tt, mkManager c2 (handles s) (adds s + zlen modules) (subs s))
      ∧ (∀ j, ctx_meta c2 j = ctx_meta c1 j) ∧ outstanding c2 = outstanding c1 ∧ (∀ j, pins c2 j = pins c1 j)
      ∧ (∀ j, ctx_load_group c2 j = ctx_load_group c1 j)
      ∧ (OpenFlags.is_global flags = true → ∀ x, x ∈ m :: g → x ∈ ctx_global_scope c2))
    as (c2 & Hrun2 & Hm2 & Ho2 & Hp2 & Hg2 & Hgl).
  { destruct (OpenFlags.is_global flags); [|by exists c1].
    destruct (law_promote c1 (lease_id l) Hs1) as (c2 & Hpr & ? & ? & ? & ? & Hin). exists c2.
    split; [unfold expect_ctx, ctx; erewrite st_bind_run by reflexivity; simpl; rewrite Hpr; reflexivity|].
    split_and!; try done. intros _. apply Hin. rewrite Hg1. exact Hg. }
  erewrite st_bind_run by exact Hrun2. exists (m :: g), c2. unfold ctx. erewrite st_bind_run by reflexivity.
  simpl link_ctx. rewrite Hg2, Hg1, Hg. split; [reflexivity|]. split_and!; [done| | | |done].
  - intros j. by rewrite Hm2.
  - intros j. by rewrite Hp2.
  - by rewrite Ho2.
Qed.

(** Completing a load publishes each new module once: it counts it, sets
    its flags, pins it exactly if RTLD_NODELETE was asked for, makes the root's
    group global for RTLD_GLOBAL, and returns the root's group with the lease
    of the load; no other module changes. *)
Theorem open_load_publishes l modules flags s :
  Forall (λ id, is_Some (ctx_meta (link_ctx s) id)) modules → NoDup modules →
  is_Some (ctx_meta (link_ctx s) (lease_id l)) → 0 ≤ adds s → adds s + zlen modules < 2 ^ 64 →
  ∃ sc c', open_load l modules flags s =
      Ret (mkOpened sc l, mkManager c' (handles s) (adds s + zlen modules) (subs s))
    ∧ ctx_load_group (link_ctx s) (lease_id l) = Some sc
    ∧ (∀ j, ctx_meta c' j = if decide (j ∈ modules) then Some flags else ctx_meta (link_ctx s) j)
    ∧ (∀ j, pins c' j = (pins (link_ctx s) j + if bool_decide (j ∈ modules) && OpenFlags.is_nodelete flags then 1 else 0)%nat)
    ∧ outstanding c' ≡ₚ outstanding (link_ctx s)
    ∧ (OpenFlags.is_global flags = true → ∀ m, m ∈ sc → m ∈ ctx_global_scope c').
Proof. apply open_load_run. Qed.

(** RTLD_NEXT searches exactly the modules behind the caller: in the
    global scope when the caller is in it, in the caller's load group
    otherwise; the first definition there wins, and an address in no module
    finds nothing. *)
Theorem next_find_after_caller addr nm s :
  next_find (Id := Id) addr nm s = Ret (match ctx_module_id_at (link_ctx s) addr with
    | None => None
    | Some caller => match ctx_module (link_ctx s) caller with
      | None => None
      | Some m =>
        let global := ctx_global_scope (link_ctx s) in
        let sc := if existsb (λ x, instance_id x =? instance_id m) global then Some global
                  else ctx_load_group (link_ctx s) caller in
        match sc with
        | None => None
        | Some sc => match list_find (λ x, instance_id x = instance_id m) sc with
          | None => None
          | Some (i, _) => head (omap (λ x, get_symbol x nm) (drop (S i) sc))
          end
        end
      end
    end, s).
Proof.
  unfold next_find, ctx. erewrite st_bind_run by reflexivity. unfold mret, st_ret. do 2 f_equal.
  destruct (ctx_module_id_at (link_ctx s) addr) as [caller|]; [|done]. simpl.
  destruct (ctx_module (link_ctx s) caller) as [m|]; [|done]. simpl.
  assert (∀ sc, find_symbol (drop 1 (skip_while (λ x, negb (instance_id x =? instance_id m)) sc)) nm =
    match list_find (λ x, instance_id x = instance_id m) sc with
    | None => None
    | Some (i, _) => head (omap (λ x, get_symbol x nm) (drop (S i) sc))
    end) as Hsc.
  { induction sc as [|x sc IH]; [done|]. simpl skip_while. simpl list_find.
    destruct (Z.eqb_spec (instance_id x) (instance_id m)) as [He|He]; simpl.
    - by rewrite decide_True.
    - rewrite decide_False by done. rewrite IH. by destruct (list_find _ sc) as [[i y]|]. }
  destruct (existsb _ _); simpl; [apply Hsc|].
  destruct (ctx_load_group (link_ctx s) caller); simpl; [apply Hsc|done].
Qed.

End props.

Import Toy.

Lemma handles_refine_counts_witness :
  let BU : Build := Build_Build false X86_64 in
  ∃ rs s', run_events [EOpen 0%nat; EOpen 0%nat; EClose 4096; EClose 4096; EClose 4096; EOpen 7%nat] (toy_manager 2)
      = Ret (rs, s')
    ∧ spec_run (Id := nat) (count_of (handles (toy_manager 2)))
        [EOpen 0%nat; EOpen 0%nat; EClose 4096; EClose 4096; EClose 4096; EOpen 7%nat] rs (count_of (handles s')).
Proof.
  intros BU.
  destruct (@handles_refine_counts toy nat (nat * nat) nat _ toy_ctx toy_mod BU toy_laws
    [EOpen 0%nat; EOpen 0%nat; EClose 4096; EClose 4096; EClose 4096; EOpen 7%nat] (toy_manager 2) [])
    as (rs & s' & H1 & _ & H2); [reflexivity|done|unfold owns, toy_manager; cbn [link_ctx handles]; unfold all_leases; by rewrite map_to_list_empty|].
  exists rs, s'. split; [exact H1|exact H2].
Defined.

Lemma promote_pins_once_witness :
  let BU : Build := Build_Build false X86_64 in
  ∃ c' m', promote_all 1%nat [2; 4096 + 256; 4096] (toy_manager 3)
      = Ret (tt, mkManager c' (handles (toy_manager 3)) 0 0)
    ∧ ctx_meta c' 1%nat = Some m' ∧ pins c' 1%nat = 1%nat.
Proof.
  intros BU.
  destruct (@promote_pins_once toy nat (nat * nat) nat _ toy_ctx toy_laws 1%nat [2; 4096 + 256; 4096]
    (toy_manager 3) 1) as (c' & m' & H1 & H2 & _ & _ & _ & H3); [reflexivity|].
  exists c', m'. split; [exact H1|]. split; [exact H2|exact H3].
Defined.

Lemma open_load_publishes_witness :
  let BU : Build := Build_Build true X86_64 in
  ∃ sc c', open_load (0%nat, 1%nat) [1%nat; 2%nat] (4096 + 2) (toy_manager 3)
      = Ret (mkOpened sc (0%nat, 1%nat), mkManager c' (handles (toy_manager 3)) 2 0)
    ∧ (∀ j, pins c' j = (0 + if bool_decide (j ∈ [1%nat; 2%nat]) && true then 1 else 0)%nat).
Proof.
  intros BU.
  destruct (open_load_publishes (Mod := nat) (Ctx := toy) (0%nat, 1%nat) [1%nat; 2%nat] (4096 + 2) (toy_manager 3))
    as (sc & c' & H1 & _ & _ & H2 & _).
  - repeat constructor; eexists; reflexivity.
  - apply (bool_decide_unpack _). by vm_compute.
  - eexists; reflexivity.
  - done.
  - done.
  - exists sc, c'. split; [exact H1|]. intros j. exact (H2 j).
Defined.

End ManagerProps.
