(* ===== verification/DlError.v ===== *)
(** * The dlerror state (src/api/dlerror.rs)

    Two builds keep the last error of every thread: a thread-local cell with
    [std], a map from thread pointers without it.  Both are shown to implement
    one specification: an optional message per thread, taken once. *)

From S2P Require Import Prelude.

Module DlError.

(** A [CString] is its bytes without the final NUL. *)
Definition cstring := list Z.

Record DlErrorState := mkState { pending : option cstring; returned : option cstring }.

Definition new : DlErrorState := mkState None None.
Definition with_error (error : cstring) : DlErrorState := mkState (Some error) None.
(** [take]: the new state and the pointer that is returned, as the message it
    points to ([None] is null); the buffer is the one kept in [returned]. *)
Definition take (self : DlErrorState) : DlErrorState * option cstring :=
  (mkState None (pending self), pending self).

(** [CString::new] fails on an interior NUL. *)
Definition cstring_new (bytes : list Z) : option cstring :=
  if decide (0 ∈ bytes) then None else Some bytes.
Definition error_message (error : list Z) : outcome cstring :=
  let bytes := (λ b, if b =? 0 then 63 else b) <$> error in
  match cstring_new bytes with Some c => Ret c | None => Panic end.

(** ** The std build: a thread-local cell *)
Module Std.
Definition state := Z → DlErrorState.
Definition init : state := λ _, new.
Definition put (t : Z) (d : DlErrorState) (s : state) : state := λ x, if decide (x = t) then d else s x.
Definition clear (t : Z) : st state unit := λ s, Ret (tt, put t new s).
Definition set (t : Z) (error : list Z) : st state unit := λ s,
  e ← error_message error; Ret (tt, put t (with_error e) s).
Definition take (t : Z) : st state (option cstring) := λ s,
  let '(d, r) := take (s t) in Ret (r, put t d s).
End Std.

(** ** The no_std build: a map keyed by the thread pointer *)
Module NoStd.
Abbreviation state := (gmap Z DlErrorState).
Definition init : state := ∅.
Definition clear (t : Z) : st state unit := λ s, Ret (tt, delete t s).
Definition set (t : Z) (error : list Z) : st state unit := λ s,
  e ← error_message error; Ret (tt, <[t := with_error e]> s).
Definition take (t : Z) : st state (option cstring) := λ s,
  match s !! t with
  | None => Ret (None, s)
  | Some state =>
      let '(d, error) := take state in
      Ret (error, match error with None => delete t (<[t := d]> s) | Some _ => <[t := d]> s end)
  end.
End NoStd.

(** ** The contract *)
Inductive op := OpClear | OpSet (error : list Z) | OpTake.

(** An implementation of the per-thread error state. *)
Class ErrorState (S : Type) := {
  es_init : S;
  es_op : Z → op → st S (option cstring) }.

#[export] Instance std_state : ErrorState Std.state := {|
  es_init := Std.init;
  es_op t o := match o with
    | OpClear => Std.clear t;; mret None
    | OpSet e => Std.set t e;; mret None
    | OpTake => Std.take t
    end |}.
#[export] Instance nostd_state : ErrorState NoStd.state := {|
  es_init := NoStd.init;
  es_op t o := match o with
    | OpClear => NoStd.clear t;; mret None
    | OpSet e => NoStd.set t e;; mret None
    | OpTake => NoStd.take t
    end |}.

(** The message the caller sees: NULs replaced. *)
Definition message (error : list Z) : cstring := (λ b, if b =? 0 then 63 else b) <$> error.

(** The specification: the message that [dlerror] will return, per thread. *)
Definition spec := Z → option cstring.
Definition spec_put (t : Z) (m : option cstring) (s : spec) : spec := λ x, if decide (x = t) then m else s x.
Definition spec_op (t : Z) (o : op) (s : spec) : option cstring * spec :=
  match o with
  | OpClear => (None, spec_put t None s)
  | OpSet e => (None, spec_put t (Some (message e)) s)
  | OpTake => (s t, spec_put t None s)
  end.

Fixpoint run_ops {S} `{ErrorState S} (ops : list (Z * op)) : st S (list (option cstring)) :=
  match ops with
  | [] => mret []
  | (t, o) :: ops => r ← es_op t o; rs ← run_ops ops; mret (r :: rs)
  end.
Fixpoint spec_ops (ops : list (Z * op)) (s : spec) : list (option cstring) :=
  match ops with
  | [] => []
  | (t, o) :: ops => let '(r, s') := spec_op t o s in r :: spec_ops ops s'
  end.

(** [rep] relates an implementation's state to the specification's. *)
Class ErrorStateLaws (S : Type) `{ErrorState S} := {
  es_rep : S → spec → Prop;
  es_rep_init : es_rep es_init (λ _, None);
  es_rep_op s a t o : es_rep s a →
    ∃ s', es_op t o s = Ret ((spec_op t o a).1, s') ∧ es_rep s' (spec_op t o a).2 }.

Lemma error_message_ok e : error_message e = Ret (message e).
Proof.
  unfold error_message, cstring_new. fold (message e). rewrite decide_False; [done|].
  unfold message. intros (b & Hb & _)%list_elem_of_fmap. destruct (Z.eqb_spec b 0); lia.
Qed.

Lemma message_no_nul e : 0 ∉ message e.
Proof. unfold message. intros (b & Hb & _)%list_elem_of_fmap. destruct (Z.eqb_spec b 0); lia. Qed.

#[export] Program Instance std_laws : ErrorStateLaws Std.state := {|
  es_rep s a := ∀ t, pending (s t) = a t |}.
Next Obligation. done. Qed.
Next Obligation.
  intros s a t o Hrep. destruct o as [|e|]; simpl.
  - eexists. split; [reflexivity|]. intros x. unfold Std.put, spec_put. by case_decide.
  - unfold Std.set, mbind, st_bind. rewrite error_message_ok. simpl. eexists. split; [reflexivity|].
    intros x. unfold Std.put, spec_put. by case_decide.
  - unfold Std.take, take. rewrite Hrep. eexists. split; [reflexivity|].
    intros x. unfold Std.put, spec_put. by case_decide.
Qed.

#[export] Program Instance nostd_laws : ErrorStateLaws NoStd.state := {|
  es_rep s a := ∀ t, (s !! t ≫= pending) = a t |}.
Next Obligation. done. Qed.
Next Obligation.
  intros s a t o Hrep. destruct o as [|e|]; simpl.
  - eexists. split; [reflexivity|]. intros x. unfold spec_put. case_decide; subst.
    + by rewrite lookup_delete_eq.
    + by rewrite lookup_delete_ne.
  - unfold NoStd.set, mbind, st_bind. rewrite error_message_ok. simpl. eexists. split; [reflexivity|].
    intros x. unfold spec_put. case_decide; subst.
    + by rewrite lookup_insert_eq.
    + by rewrite lookup_insert_ne.
  - unfold NoStd.take, take. specialize (Hrep t) as Ht. destruct (s !! t) as [d|] eqn:Hs; simpl in Ht.
    + rewrite Ht. eexists. split; [reflexivity|]. intros x. unfold spec_put. case_decide; subst.
      * destruct (a t); by rewrite ?lookup_delete_eq, ?lookup_insert_eq.
      * destruct (a t); by rewrite ?lookup_delete_ne, ?lookup_insert_ne.
    + rewrite <-Ht. eexists. split; [reflexivity|]. intros x. unfold spec_put. case_decide; subst; [|done].
      by rewrite Hs.
Qed.

Lemma run_ops_spec {S} `{ErrorStateLaws S} ops s a :
  es_rep s a → ∃ s', run_ops ops s = Ret (spec_ops ops a, s').
Proof.
  revert s a. induction ops as [|[t o] ops IH]; intros s a Hrep; simpl; [by eexists|].
  destruct (es_rep_op s a t o Hrep) as (s1 & Hrun & Hrep1).
  destruct (IH s1 _ Hrep1) as (s2 & Hrun2). exists s2.
  erewrite st_bind_run by exact Hrun. erewrite st_bind_run by exact Hrun2.
  by destruct (spec_op t o a).
Qed.

End DlError.

Module DlErrorProps.
Import DlError.

(** C27. Both builds implement the same per-thread contract: for every
    interleaving of clears, sets and [dlerror] calls of any threads, each
    [dlerror] returns exactly the last error of its own thread that was neither
    cleared nor taken, with NULs replaced by question marks, and no call
    panics. *)
Theorem dlerror_builds_agree ops :
  (∃ s, run_ops (S := Std.state) ops es_init = Ret (spec_ops ops (λ _, None), s))
  ∧ ∃ s, run_ops (S := NoStd.state) ops es_init = Ret (spec_ops ops (λ _, None), s).
Proof. split; apply run_ops_spec, es_rep_init. Qed.

(** The map of the no_std build holds no entry of a thread whose error was
    taken and asked for again: it does not grow with finished threads. *)
Lemma nostd_second_take_removes s t d :
  s !! t = Some d → pending d = None →
  NoStd.take t s = Ret (None, delete t s).
Proof.
  intros Hs Hp. unfold NoStd.take, take. rewrite Hs, Hp. by rewrite delete_insert_eq.
Qed.

End DlErrorProps.
