(* ===== verification/Open.v ===== *)
(** * Opening a library (src/dlopen/run.rs, src/dlopen/observer.rs)

    [open_with] drives the linker of the ELF loader crate over the registry:
    reuse, NOLOAD, prepare, relocate, publish, initialize, with rollback on
    every error.  The linker is third-party: a class lists its operations and a
    second one what the code relies on.  The registry cell is borrowed for each
    registry access and free while relocation resolvers and constructors run,
    because those may re-enter the registry.  Logging is not modelled. *)

From S2P Require Import Prelude Utf8 Errors LinkMap Manager.

Module Open.

(** ** The environment *)

(** [str::split_once('=')] *)
Fixpoint split_once (c : Z) (s : list Z) : option (list Z * list Z) :=
  match s with
  | [] => None
  | b :: s =>
      if b =? c then Some ([], s)
      else '(key, value) ← split_once c s; Some (b :: key, value)
  end.

(** [ENVP] is null or points to an array of C strings that ends with null. *)
Fixpoint get_env_loop (env : list (list Z)) (name : list Z) : option (list Z) :=
  match env with
  | [] => None
  | cur :: rest =>
      match from_utf8 cur ≫= split_once 61 with
      | Some (key, value) => if bool_decide (key = name) then Some value else get_env_loop rest name
      | None => get_env_loop rest name
      end
  end.
Definition get_env (envp : option (list (list Z))) (name : list Z) : option (list Z) :=
  envp ≫= λ env, get_env_loop env name.

(** ** Search paths *)

(** [str::split(c)] *)
Fixpoint split (c : Z) (s : list Z) : list (list Z) :=
  match s with
  | [] => [[]]
  | b :: s =>
      if b =? c then [] :: split c s
      else match split c s with x :: xs => (b :: x) :: xs | [] => [[b]] end
  end.

(** What is pushed to the [SearchPathResolver], in order. *)
Inductive SearchStep :=
  | Rpath
  | FixedDir (dir : list Z)
  | Runpath
  | LdCacheProvider.

Definition push_platform_default_paths `{Build} : list SearchStep :=
  FixedDir ∘ bytes_of_string <$>
  match target_arch with
  | X86_64 => ["/lib/x86_64-linux-gnu"; "/usr/lib/x86_64-linux-gnu"]
  | Aarch64 => ["/lib/aarch64-linux-gnu"; "/usr/lib/aarch64-linux-gnu"]
  | Riscv64 => ["/lib/riscv64-linux-gnu"; "/usr/lib/riscv64-linux-gnu"]
  end%string.
Definition search_paths `{Build} (envp : option (list (list Z))) : list SearchStep :=
  [Rpath]
  ++ (match get_env envp (bytes_of_string "LD_LIBRARY_PATH") with
      | Some paths => FixedDir <$> filter (λ path, path ≠ []) (split 58 paths)
      | None => []
      end)
  ++ [Runpath; LdCacheProvider]
  ++ push_platform_default_paths
  ++ (FixedDir ∘ bytes_of_string <$> ["/lib"; "/usr/lib"; "/lib64"; "/usr/lib64"]%string).

(** The candidate provider: [lookup] is that of the loader cache, if it loaded. *)
Definition cache_candidates (cache : option (list Z → option (list Z))) (request : list Z)
    (candidates : list (list Z)) : list (list Z) :=
  match cache ≫= λ lookup, lookup request with
  | Some path => candidates ++ [path]
  | None => candidates
  end.

(** ** observer.rs *)
Inductive LookupOrder := LocalFirst | GlobalFirst.
Inductive BindingMode := Eager.
Record RelocationPlan := mkPlan { lookup_order : LookupOrder; binding : option BindingMode }.

Definition on_relocation (flags : OpenFlags.t) : RelocationPlan :=
  mkPlan (if OpenFlags.is_deepbind flags then LocalFirst else GlobalFirst)
    (if OpenFlags.is_now flags then Some Eager else None).

Section observer.
(** [VmAddr + VmOffset] of the loader crate. *)
Variable vm_add : Z → Z → Z.

Definition populate_link_map_tls (link_map : LinkMap) (base : Z) (phdrs : list ElfPhdr)
    (tls_mod_id tls_tp_offset : option Z) : LinkMap :=
  match tls_mod_id with
  | None => link_map
  | Some mod_id =>
      let offset := default 0 tls_tp_offset in
      match find_phdr PT_TLS phdrs with
      | None =>
          set_l_tls (l_tls_initimage link_map) (l_tls_initimage_size link_map)
            (l_tls_blocksize link_map) (l_tls_align link_map) (l_tls_firstbyte_offset link_map)
            offset mod_id link_map
      | Some tls =>
          set_l_tls
            (if negb (p_filesz tls =? 0) then vm_add base (p_vaddr tls) else l_tls_initimage link_map)
            (p_filesz tls) (p_memsz tls) (p_align tls)
            (Z.land (p_vaddr tls) (saturating_sub (p_align tls) 1)) offset mod_id link_map
      end
  end.

(** What the observer reads of the dylib that the loader has just mapped. *)
Record Dylib := mkDylib {
  dylib_name : list Z;
  dylib_path : list Z;
  dylib_base : Z;
  dylib_phdrs : list ElfPhdr;
  phdrs_ptr : Z;                    (* [phdrs().as_ptr()] *)
  dylib_entry : Z;
  dylib_tls_mod_id : option Z;
  dylib_tls_tp_offset : option Z }.

Definition link_name (dylib : Dylib) : list Z :=
  match dylib_path dylib with [] => dylib_name dylib | path => path end.

(** [CString::new(link_name).unwrap()]; [c_name] and [link_map] are the
    addresses of the string and of the boxed map. *)
Definition on_after_dynamic_load (dylib : Dylib) (c_name link_map : Z) : outcome (list Z * LinkMap) :=
  let base := dylib_base dylib in
  let dynamic_ptr := from_option (λ p, vm_add base (p_vaddr p)) 0 (find_phdr PT_DYNAMIC (dylib_phdrs dylib)) in
  let phdr := match dylib_phdrs dylib with [] => 0 | _ => phdrs_ptr dylib end in
  let phnum := Z.min (zlen (dylib_phdrs dylib)) 65535 in
  if decide (0 ∈ link_name dylib) then Panic
  else
    let m := LinkMap_new base c_name dynamic_ptr phdr (dylib_entry dylib) phnum in
    let m := populate_link_map_tls m base (dylib_phdrs dylib)
               (dylib_tls_mod_id dylib)
               (_ ← dylib_tls_mod_id dylib; dylib_tls_tp_offset dylib) in
    Ret (link_name dylib, set_l_real link_map m).
End observer.

(** ** run.rs *)
Inductive LinkRoot (Raw : Type) :=
  | File (path : list Z)
  | Binary (key : list Z) (bytes : list Z)
  | Mapped (key : list Z) (raw : Raw).
Arguments File {Raw} path.
Arguments Binary {Raw} key bytes.
Arguments Mapped {Raw} key raw.

(** The linker of the loader crate.  [W] is the world that user code runs in. *)
Class Linker (W Ctx Id Lease LErr : Type) := {
  Raw : Type; Prepared : Type; Relocated : Type; Published : Type; Load : Type; Failed : Type;
  load_dylib : list Z → list Z → result LErr Raw;
  resolve_committed : list SearchStep → option Id → Ctx → list Z → result LErr (option Id) * Ctx;
  prepare_load : list SearchStep → option Id → Ctx → list Z → result LErr Prepared * Ctx;
  prepare_mapped : list SearchStep → option Id → Ctx → list Z → Raw → result LErr Prepared * Ctx;
  relocate : RelocationPlan → Prepared → st W (result LErr Relocated);
  publish : Relocated → Ctx → result LErr Published * Ctx;
  root_of : Published → Id;
  rollback : Published → Ctx → result LErr unit * Ctx;
  initialize : Published → st W (result Failed Load);
  failed_rollback : Failed → Ctx → LErr * Ctx;
  into_parts : Load → Lease * list Id }.

Section open.
Context {Ctx Id Lease Mod Ext LErr : Type} `{ED : EqDecision Id, LC : !LinkCtx Ctx Id Lease Mod, MA : !ModuleApi Mod}.
Context {BU : Build}.

Local Abbreviation Mgr := (Manager.Manager (Ctx := Ctx) (Lease := Lease) (Mod := Mod)).
Local Abbreviation Opened := (Manager.OpenedLibrary (Lease := Lease) (Mod := Mod)).

(** The registry cell with its borrow flag, the lazy search paths, and the rest
    of the process, which only user code and the startup code touch. *)
Record World := mkWorld {
  manager : Mgr;
  borrowed : bool;
  search_path_cell : option (list SearchStep);
  rest : Ext }.

Definition acquire : st World unit := λ w,
  if borrowed w then Panic else Ret (tt, mkWorld (manager w) true (search_path_cell w) (rest w)).
Definition drop_guard : st World unit := λ w,
  Ret (tt, mkWorld (manager w) false (search_path_cell w) (rest w)).
Definition with_manager {A} (m : st Mgr A) : st World A := λ w,
  '(a, s) ← m (manager w); Ret (a, mkWorld s (borrowed w) (search_path_cell w) (rest w)).
(** [registry.borrow_mut()] for one scope. *)
Definition borrow_mut {A} (m : st Mgr A) : st World A :=
  acquire;; a ← with_manager m; drop_guard;; mret a.

(** A linker operation on [manager.context_mut()]. *)
Definition on_context {A} (f : Ctx → A * Ctx) : st Mgr A :=
  c ← Manager.ctx; Manager.set_ctx (f c).2;; mret (f c).1.

(** [*SEARCH_PATHS]: computed at the first use. *)
Definition force_search_paths (envp : option (list (list Z))) : st World (list SearchStep) := λ w,
  match search_path_cell w with
  | Some p => Ret (p, w)
  | None => Ret (search_paths envp, mkWorld (manager w) (borrowed w) (Some (search_paths envp)) (rest w))
  end.

Context {LK : Linker World Ctx Id Lease LErr}.

(** [?] on an error of the loader crate: [Into<Error>]. *)
Definition loader_err {A} (r : result LErr A) : result (Error LErr) A :=
  match r with Ok a => Ok a | Err e => Err (LoaderError e) end.

Definition convert_err {S A} (m : st S (result LErr A)) : st S (result (Error LErr) A) :=
  r ← m; mret (loader_err r).

Definition open_main : st World Opened :=
  borrow_mut (o ← Manager.main_library; Manager.expect o).

Definition can_not_find_file (request : list Z) : Error LErr :=
  find_lib_error ("can not find file: " +:+ string_of_bytes request).

(** The part of [open_with] under one borrow: NOLOAD returns early, otherwise
    the load is prepared. *)
Definition prepare (request : list Z) (flags : OpenFlags.t) (paths : list SearchStep)
    (caller : option Z) (root : LinkRoot Raw) : st Mgr (result (Error LErr) (Opened + Prepared)) :=
  c ← Manager.ctx;
  let caller := addr ← caller; ctx_module_id_at c addr in
  match root with
  | File path =>
      if OpenFlags.is_noload flags then
        id ←! convert_err (on_context (λ c, resolve_committed paths caller c path));
        match id with
        | None => mret (Err (can_not_find_file request))
        | Some id =>
            Manager.promote id flags;;
            o ← Manager.open_module id;
            o ← Manager.expect o;
            mret (Ok (inl o))
        end
      else
        p ←! convert_err (on_context (λ c, prepare_load paths caller c path));
        mret (Ok (inr p))
  | Binary _ _ => st_fail Panic
  | Mapped key raw =>
      p ←! convert_err (on_context (λ c, prepare_mapped paths caller c key raw));
      mret (Ok (inr p))
  end.

(** The rest of [open_with]: relocate, publish, initialize. *)
Definition commit (flags : OpenFlags.t) (before_init : Id → st World (result (Error LErr) unit))
    (prepared : Prepared) : st World (result (Error LErr) Opened) :=
  relocated ←! convert_err (relocate (on_relocation flags) prepared);
  published ←! convert_err (borrow_mut (on_context (publish relocated)));
  b ← before_init (root_of published);
  match b with
  | Err error =>
      r ← borrow_mut (on_context (rollback published));
      mret (Err (match r with Err e => LoaderError e | Ok _ => error end))
  | Ok _ =>
      i ← initialize published;
      match i with
      | Ok load =>
          o ← borrow_mut (Manager.open_load (into_parts load).1 (into_parts load).2 flags);
          mret (Ok o)
      | Err failed =>
          e ← borrow_mut (on_context (failed_rollback failed));
          mret (Err (LoaderError e))
      end
  end.

Definition is_file_or_binary (root : LinkRoot Raw) : bool :=
  match root with File _ | Binary _ _ => true | Mapped _ _ => false end.
Definition is_binary (root : LinkRoot Raw) : bool :=
  match root with Binary _ _ => true | _ => false end.

(** Binary roots are mapped before linking. *)
Definition map_root (root : LinkRoot Raw) : result (Error LErr) (LinkRoot Raw) :=
  match root with
  | Binary key bytes => raw ← loader_err (load_dylib key bytes); Ok (Mapped key raw)
  | root => Ok root
  end.

(** LD_BIND_NOW makes every open eager. *)
Definition env_flags (envp : option (list (list Z))) (flags : OpenFlags.t) : OpenFlags.t :=
  match get_env envp (bytes_of_string "LD_BIND_NOW") with
  | Some _ => OpenFlags.union flags OpenFlags.RTLD_NOW
  | None => flags
  end.

Definition open_with (envp : option (list (list Z))) (request : list Z) (flags : OpenFlags.t)
    (root : LinkRoot Raw) (caller : option Z) (before_init : Id → st World (result (Error LErr) unit))
    : st World (result (Error LErr) Opened) :=
  let flags := env_flags envp flags in
  reuse ← (if is_file_or_binary root then borrow_mut (Manager.open_existing request flags) else mret None);
  match reuse with
  | Some lib => mret (Ok lib)
  | None =>
      if OpenFlags.is_noload flags && is_binary root then mret (Err (can_not_find_file request))
      else
        root ←! mret (map_root root);
        paths ← force_search_paths envp;
        prepared ←! borrow_mut (prepare request flags paths caller root);
        match prepared with
        | inl lib => mret (Ok lib)
        | inr prepared => commit flags before_init prepared
        end
  end.

Definition open (envp : option (list (list Z))) (request : list Z) (flags : OpenFlags.t)
    (root : LinkRoot Raw) (caller : option Z) : st World (result (Error LErr) Opened) :=
  open_with envp request flags root caller (λ _, mret (Ok tt)).
Definition open_file (envp : option (list (list Z))) (path : list Z) (flags : OpenFlags.t) (caller : Z) :=
  open envp path flags (File path) (Some caller).
Definition open_mapped (envp : option (list (list Z))) (request key : list Z) (raw : Raw) (flags : OpenFlags.t)
    (before_init : Id → st World (result (Error LErr) unit)) :=
  open_with envp request flags (Mapped key raw) None before_init.
(** [ElfLibrary::dlopen_from_binary] *)
Definition dlopen_from_binary (envp : option (list (list Z))) (bytes path : list Z) (flags : OpenFlags.t)
    (caller : Z) :=
  open envp path flags (Binary path bytes) (Some caller).

End open.
Arguments World Ctx Lease Mod Ext : clear implicits.

(** What the code relies on in the linker: operations that fail or only look
    leave the committed modules and the leases alone; user code returns when
    the registry cell is free and frees it again; an initialized load gives a
    lease on its committed root and lists each new module once, and the number
    of loads stays below 2^64. *)
Class LinkerLaws {Ctx Id Lease Mod Ext LErr : Type} `{ED : EqDecision Id, LC : !LinkCtx Ctx Id Lease Mod}
    (LL : LinkCtxLaws Ctx Id Lease Mod) (LK : Linker (World Ctx Lease Mod Ext) Ctx Id Lease LErr) := {
  law_resolve paths caller c path : ∃ r c', resolve_committed paths caller c path = (r, c')
    ∧ outstanding c' = outstanding c ∧ (∀ i, ctx_meta c' i = ctx_meta c i)
    ∧ (∀ i, r = Ok (Some i) → is_Some (ctx_meta c i));
  law_relocate plan prepared w : borrowed w = false →
    ∃ r w', relocate plan prepared w = Ret (r, w') ∧ borrowed w' = false;
  law_initialize published w : borrowed w = false →
    ∃ r w', initialize published w = Ret (r, w') ∧ borrowed w' = false
    ∧ ∀ load, r = Ok load →
        let c := Manager.link_ctx (manager w') in
        let '(l, ids) := into_parts load in
        l ∈ outstanding c ∧ is_Some (ctx_meta c (lease_id l))
        ∧ Forall (λ i, is_Some (ctx_meta c i)) ids ∧ NoDup ids
        ∧ 0 ≤ Manager.adds (manager w') ∧ Manager.adds (manager w') + zlen ids < 2 ^ 64 }.
End Open.

Module OpenProps.
Import Open.

(** ** The environment *)
Lemma split_once_Some c s k v : split_once c s = Some (k, v) ↔ s = k ++ c :: v ∧ c ∉ k.
Proof.
  revert k. induction s as [|b s IH]; intros k; simpl.
  - split; [done|]. intros [Hs _]. by destruct k.
  - destruct (Z.eqb_spec b c) as [->|Hb].
    + split.
      * intros [= <- <-]. split; [done|]. apply not_elem_of_nil.
      * intros [Hs Hk]. destruct k as [|x k]; simpl in Hs; [by injection Hs as ->|].
        injection Hs as <- ->. set_solver.
    + split.
      * destruct (split_once c s) as [[k' v']|] eqn:E; simpl; [|done]. intros [= <- <-].
        destruct (proj1 (IH k') eq_refl) as [-> Hk]. split; [done|]. set_solver.
      * intros [Hs Hk]. destruct k as [|x k]; simpl in Hs; injection Hs as -> Hs; [done|].
        rewrite (proj2 (IH k)); [done|]. split; [done|]. set_solver.
Qed.

(** An environment string defines [name] as [value]. *)
Definition defines (name value entry : list Z) : Prop :=
  utf8_valid entry = true ∧ entry = name ++ 61 :: value ∧ 61 ∉ name.

Lemma defines_split name value entry :
  defines name value entry ↔ from_utf8 entry ≫= split_once 61 = Some (name, value).
Proof.
  unfold defines. split.
  - intros (Hv & He & Hn). rewrite (proj2 (from_utf8_Some entry entry)) by done. simpl.
    by apply split_once_Some.
  - destruct (from_utf8 entry) as [s|] eqn:E; simpl; [|done]. apply from_utf8_Some in E as [-> Hv].
    intros [? ?]%split_once_Some. done.
Qed.

Lemma get_env_loop_Some env name value :
  get_env_loop env name = Some value ↔
  ∃ pre e post, env = pre ++ e :: post ∧ defines name value e
    ∧ Forall (λ x, ∀ v, ¬ defines name v x) pre.
Proof.
  induction env as [|cur env IH]; simpl.
  { split; [done|]. intros (pre & e & post & H & _). by destruct pre. }
  destruct (from_utf8 cur ≫= split_once 61) as [[key v]|] eqn:E;
    [apply defines_split in E as Hcur; case_bool_decide as Hk|]; subst.
  - split.
    + intros [= ->]. exists [], cur, env. done.
    + intros (pre & e & post & Heq & He & Hpre). destruct pre as [|x pre]; injection Heq as -> ->.
      * apply defines_split in He. congruence.
      * apply Forall_cons in Hpre as [Hx _]. by destruct (Hx v).
  - rewrite IH. split.
    + intros (pre & e & post & -> & He & Hpre). exists (cur :: pre), e, post. split_and!; try done.
      constructor; [|done]. intros v' Hv'%defines_split. congruence.
    + intros (pre & e & post & Heq & He & Hpre). destruct pre as [|x pre]; injection Heq as -> ->.
      * apply defines_split in He. congruence.
      * apply Forall_cons in Hpre as [_ Hpre]. by exists pre, e, post.
  - rewrite IH. split.
    + intros (pre & e & post & -> & He & Hpre). exists (cur :: pre), e, post. split_and!; try done.
      constructor; [|done]. intros v' Hv'%defines_split. congruence.
    + intros (pre & e & post & Heq & He & Hpre). destruct pre as [|x pre]; injection Heq as -> ->.
      * apply defines_split in He. congruence.
      * apply Forall_cons in Hpre as [_ Hpre]. by exists pre, e, post.
Qed.

(** Directories joined with colons. *)
Fixpoint join (c : Z) (dirs : list (list Z)) : list Z :=
  match dirs with [] => [] | [d] => d | d :: dirs => d ++ c :: join c dirs end.

Lemma split_plain c d : c ∉ d → split c d = [d].
Proof.
  induction d as [|b d IH]; intros Hd; [done|]. simpl.
  destruct (Z.eqb_spec b c) as [->|]; [set_solver|]. rewrite IH by set_solver. done.
Qed.
Lemma split_app c d s : c ∉ d → split c (d ++ c :: s) = d :: split c s.
Proof.
  induction d as [|b d IH]; intros Hd; simpl.
  - by rewrite Z.eqb_refl.
  - destruct (Z.eqb_spec b c) as [->|]; [set_solver|]. by rewrite IH by set_solver.
Qed.
Lemma split_join c dirs : dirs ≠ [] → Forall (λ d, c ∉ d) dirs → split c (join c dirs) = dirs.
Proof.
  induction dirs as [|d dirs IH]; intros Hne Hall; [done|]. apply Forall_cons in Hall as [Hd Hall].
  destruct dirs as [|d' dirs]; [by apply split_plain|].
  change (join c (d :: d' :: dirs)) with (d ++ c :: join c (d' :: dirs)).
  rewrite split_app by done. by rewrite IH.
Qed.

(** The search order: rpath, then the directories of the first well-formed
    LD_LIBRARY_PATH entry of the environment in their order and without the
    empty ones, then runpath, the loader cache and the system directories. *)
Theorem library_path_searched {BU : Build} pre dirs post :
  Forall (λ x, ∀ v, ¬ defines (bytes_of_string "LD_LIBRARY_PATH") v x) pre →
  dirs ≠ [] → Forall (λ d, 58 ∉ d) dirs → utf8_valid (join 58 dirs) = true →
  search_paths (Some (pre ++ (bytes_of_string "LD_LIBRARY_PATH=" ++ join 58 dirs) :: post)) =
    Rpath :: (FixedDir <$> filter (λ d, d ≠ []) dirs) ++ [Runpath; LdCacheProvider]
    ++ push_platform_default_paths
    ++ (FixedDir ∘ bytes_of_string <$> ["/lib"; "/usr/lib"; "/lib64"; "/usr/lib64"]%string).
Proof.
  intros Hpre Hne Hall Hv. unfold search_paths, get_env. simpl mbind.
  rewrite (proj2 (get_env_loop_Some _ _ (join 58 dirs))).
  - by rewrite split_join.
  - eexists pre, _, post. split; [done|]. split; [|done]. split; [|split; [done|]].
    + unfold utf8_valid in *. exact Hv.
    + vm_compute. intros H. repeat (apply elem_of_cons in H as [H|H]; [done|]). by apply elem_of_nil in H.
Qed.

Lemma library_path_searched_witness :
  let BU : Build := Build_Build true X86_64 in
  search_paths (Some [bytes_of_string "HOME=/root"; bytes_of_string "LD_LIBRARY_PATH=/a::/b"]) =
    [Rpath; FixedDir (bytes_of_string "/a"); FixedDir (bytes_of_string "/b"); Runpath; LdCacheProvider]
    ++ (FixedDir ∘ bytes_of_string <$> ["/lib/x86_64-linux-gnu"; "/usr/lib/x86_64-linux-gnu"]%string)
    ++ (FixedDir ∘ bytes_of_string <$> ["/lib"; "/usr/lib"; "/lib64"; "/usr/lib64"]%string).
Proof.
  intros BU. refine (library_path_searched [bytes_of_string "HOME=/root"]
    [bytes_of_string "/a"; []; bytes_of_string "/b"] [] _ _ _ _).
  - constructor; [|constructor]. intros v (_ & He & _). vm_compute in He. discriminate.
  - done.
  - repeat constructor; apply (bool_decide_unpack _); by vm_compute.
  - by vm_compute.
Defined.

(** ** Opening *)
Section props.
Context {Ctx Id Lease Mod Ext LErr : Type} `{ED : EqDecision Id, LC : !LinkCtx Ctx Id Lease Mod, MA : !ModuleApi Mod}.
Context {BU : Build}.
Local Abbreviation Mgr := (Manager.Manager (Ctx := Ctx) (Lease := Lease) (Mod := Mod)).
Implicit Types (s : Mgr) (w : World Ctx Lease Mod Ext).

(** The part of the registry that the link context does not own. *)
Definition counters s := (Manager.handles s, Manager.adds s, Manager.subs s).
Definition keeps {A} (m : st Mgr A) : Prop :=
  ∀ s a s', m s = Ret (a, s') → counters s' = counters s.
Definition wkeeps {A} (m : st (World Ctx Lease Mod Ext) A) : Prop :=
  ∀ w a w', m w = Ret (a, w') → counters (manager w') = counters (manager w).

Lemma mkeeps_ret {A} (a : A) : keeps (mret a).
Proof. by intros s b s' [= <- <-]. Qed.
Lemma mkeeps_bind {A B} (m : st Mgr A) (k : A → st Mgr B) :
  keeps m → (∀ a, keeps (k a)) → keeps (m ≫= k).
Proof.
  intros Hm Hk s b s' (a & s1 & H1 & H2)%st_bind_Ret_inv. by rewrite (Hk _ _ _ _ H2), (Hm _ _ _ H1).
Qed.
Lemma mkeeps_try_some {A B} (m : st Mgr (option A)) (k : A → st Mgr (option B)) :
  keeps m → (∀ a, keeps (k a)) → keeps (try_some k m).
Proof. intros Hm Hk. apply mkeeps_bind; [done|]. intros [a|]; [done|apply mkeeps_ret]. Qed.
Lemma mkeeps_try_res {E A B} (m : st Mgr (result E A)) (k : A → st Mgr (result E B)) :
  keeps m → (∀ a, keeps (k a)) → keeps (try_res k m).
Proof. intros Hm Hk. apply mkeeps_bind; [done|]. intros [a|]; [done|apply mkeeps_ret]. Qed.
Lemma mkeeps_ctx : keeps Manager.ctx.
Proof. by intros s a s' [= <- <-]. Qed.
Lemma mkeeps_set_ctx c : keeps (Manager.set_ctx c).
Proof. by intros s a s' [= <- <-]. Qed.
Lemma mkeeps_expect {A} (o : option A) : keeps (Manager.expect o).
Proof. destruct o; [apply mkeeps_ret|by intros s a s']. Qed.
Lemma mkeeps_panic {A} : keeps (st_fail (A := A) Panic).
Proof. by intros s a s'. Qed.

Ltac keeps := repeat first
  [ apply mkeeps_bind | apply mkeeps_try_some | apply mkeeps_try_res | apply mkeeps_ret | apply mkeeps_ctx
  | apply mkeeps_set_ctx | apply mkeeps_expect | apply mkeeps_panic | progress intros
  | match goal with |- keeps (match ?x with _ => _ end) => destruct x end ].

Lemma mkeeps_promote id flags : keeps (Manager.promote id flags).
Proof. unfold Manager.promote, Manager.expect_lease, Manager.expect_ctx. keeps. Qed.
Lemma mkeeps_open_module id : keeps (Manager.open_module id).
Proof. unfold Manager.open_module. keeps. Qed.
Lemma mkeeps_open_existing key flags : keeps (Manager.open_existing (Id := Id) key flags).
Proof. unfold Manager.open_existing. keeps. Qed.
Lemma mkeeps_on_context {A} (f : Ctx → A * Ctx) : keeps (on_context f).
Proof. unfold on_context. keeps. Qed.

Lemma wkeeps_ret {A} (a : A) : wkeeps (mret a).
Proof. by intros s b s' [= <- <-]. Qed.
Lemma wkeeps_bind {A B} (m : st (World Ctx Lease Mod Ext) A) (k : A → st (World Ctx Lease Mod Ext) B) :
  wkeeps m → (∀ a, wkeeps (k a)) → wkeeps (m ≫= k).
Proof.
  intros Hm Hk s b s' (a & s1 & H1 & H2)%st_bind_Ret_inv. by rewrite (Hk _ _ _ _ H2), (Hm _ _ _ H1).
Qed.
Lemma wkeeps_borrow {A} (m : st Mgr A) : keeps m → wkeeps (borrow_mut m).
Proof.
  intros Hm w a w'. unfold borrow_mut, acquire, with_manager, drop_guard, mbind, st_bind.
  destruct (borrowed w); [done|]. simpl. destruct (m (manager w)) as [[b s']| | |] eqn:E; try done.
  simpl. intros [= <- <-]. by eapply Hm.
Qed.
Lemma wkeeps_paths envp : wkeeps (force_search_paths envp).
Proof. intros w a w'. unfold force_search_paths. destruct (search_path_cell w); by intros [= <- <-]. Qed.

Context {LK : Linker (World Ctx Lease Mod Ext) Ctx Id Lease LErr}.

Lemma mkeeps_convert {A} (m : st Mgr (result LErr A)) : keeps m → keeps (convert_err m).
Proof. intros. unfold convert_err. keeps. done. Qed.
Lemma wkeeps_convert {A} (m : st (World Ctx Lease Mod Ext) (result LErr A)) : wkeeps m → wkeeps (convert_err m).
Proof. intros. apply wkeeps_bind; [done|]. intros. apply wkeeps_ret. Qed.
Lemma mkeeps_prepare request flags paths caller root :
  keeps (prepare (Id := Id) request flags paths caller root).
Proof.
  unfold prepare. keeps; try apply mkeeps_promote; try apply mkeeps_open_module.
Qed.

Lemma env_flags_bit envp flags n :
  n ≠ 1 → 0 ≤ n → Z.testbit (env_flags envp flags) n = Z.testbit flags n.
Proof.
  intros Hn Hn0. unfold env_flags. destruct (get_env _ _); [|done].
  unfold OpenFlags.union. rewrite Z.lor_spec. change OpenFlags.RTLD_NOW with (2 ^ 1).
  rewrite Z.pow2_bits_eqb by lia. destruct (Z.eqb_spec 1 n); [lia|]. apply orb_false_r.
Qed.
Lemma env_flags_noload envp flags : OpenFlags.is_noload (env_flags envp flags) = OpenFlags.is_noload flags.
Proof. rewrite !OpenFlags.is_noload_bit. by apply env_flags_bit. Qed.

(** Whatever step of an open fails, the handles and the load and unload
    counters are as before, provided that the user code leaves them alone. *)
Lemma failed_open_counters envp request flags root caller before_init w e w' :
  (∀ plan p, wkeeps (relocate plan p)) → (∀ p, wkeeps (initialize p)) → (∀ i, wkeeps (before_init i)) →
  open_with (Id := Id) envp request flags root caller before_init w = Ret (Err e, w') →
  counters (manager w') = counters (manager w).
Proof.
  intros Hrel Hini Hbef. unfold open_with.
  intros (reuse & w1 & H1 & H2)%st_bind_Ret_inv.
  assert (counters (manager w1) = counters (manager w)) as Hc.
  { destruct (is_file_or_binary root); [|by injection H1 as <- <-].
    eapply wkeeps_borrow; [apply mkeeps_open_existing|exact H1]. }
  rewrite <-Hc. clear H1 Hc. destruct reuse as [lib|]; [by injection H2|].
  destruct (_ && _); [by injection H2 as <- <-|].
  apply try_res_inv in H2 as [(e' & H2 & _)|(rt & w2 & H2 & H3)]; [by injection H2 as _ <-|].
  injection H2 as _ <-. apply st_bind_Ret_inv in H3 as (paths & w3 & H3 & H4).
  apply wkeeps_paths in H3 as <-.
  assert (∀ p, wkeeps (borrow_mut (prepare p (env_flags envp flags) paths caller rt))) as Hprep
    by (intros; apply wkeeps_borrow, mkeeps_prepare).
  apply try_res_inv in H4 as [(e' & H4 & _)|(pr & w4 & H4 & H5)]; [by apply Hprep in H4|].
  apply Hprep in H4 as <-. clear Hprep. destruct pr as [lib|pr]; [by injection H5|].
  unfold commit in H5.
  apply try_res_inv in H5 as [(e' & H5 & _)|(rl & w5 & H5 & H6)];
    (apply wkeeps_convert in H5; [rewrite <-H5|done]); [done|].
  apply try_res_inv in H6 as [(e' & H6 & _)|(pb & w6 & H6 & H7)];
    (apply wkeeps_convert in H6; [rewrite <-H6|apply wkeeps_borrow, mkeeps_on_context]); [done|].
  apply st_bind_Ret_inv in H7 as (b & w7 & H7 & H8). apply Hbef in H7 as <-.
  destruct b as [[]|err].
  - apply st_bind_Ret_inv in H8 as (i & w8 & H8 & H9). apply Hini in H8 as <-. destruct i as [ld|fl].
    + by apply st_bind_Ret_inv in H9 as (o & w9 & _ & [=]).
    + apply st_bind_Ret_inv in H9 as (x & w9 & H9 & [= _ <-]).
      by apply wkeeps_borrow in H9; [|apply mkeeps_on_context].
  - apply st_bind_Ret_inv in H8 as (x & w9 & H9 & [= _ <-]).
    by apply wkeeps_borrow in H9; [|apply mkeeps_on_context].
Qed.

(** Running a scope under a borrow. *)
Lemma borrow_run {A} (m : st Mgr A) w a s' :
  borrowed w = false → m (manager w) = Ret (a, s') →
  borrow_mut m w = Ret (a, mkWorld s' false (search_path_cell w) (rest w)).
Proof.
  intros Hb Hm. unfold borrow_mut, acquire, with_manager, drop_guard, mbind, st_bind. rewrite Hb. simpl.
  by rewrite Hm.
Qed.
Lemma on_context_run {A} (f : Ctx → A * Ctx) s :
  on_context f s = Ret ((f (Manager.link_ctx s)).1,
    Manager.mkManager (f (Manager.link_ctx s)).2 (Manager.handles s) (Manager.adds s) (Manager.subs s)).
Proof. reflexivity. Qed.
Lemma paths_run envp w :
  ∃ p, force_search_paths envp w = Ret (p, mkWorld (manager w) (borrowed w) (Some p) (rest w)).
Proof. unfold force_search_paths. destruct w as [m b [p|] ext]; by eexists. Qed.

(** What an open does to the rest of the process is what user code does there:
    the relocation resolvers, the hook and the constructors. *)
Definition touches (R : Ext → Ext → Prop) {A} (m : st (World Ctx Lease Mod Ext) A) : Prop :=
  ∀ w a w', m w = Ret (a, w') → R (rest w) (rest w').

Section touches.
Context (R : Ext → Ext → Prop) {HR : Reflexive R} {HT : Transitive R}.
Local Abbreviation touches := (touches R).

Lemma touches_ret {A} (a : A) : touches (mret a).
Proof. by intros w b w' [= _ <-]. Qed.
Lemma touches_bind {A B} (m : st _ A) (k : A → st _ B) : touches m → (∀ a, touches (k a)) → touches (m ≫= k).
Proof. intros Hm Hk w b w' (a & w1 & H1 & H2)%st_bind_Ret_inv. etrans; [by eapply Hm|by eapply Hk]. Qed.
Lemma touches_try {E A B} (m : st _ (result E A)) (k : A → st _ (result E B)) :
  touches m → (∀ a, touches (k a)) → touches (try_res k m).
Proof. intros Hm Hk. apply touches_bind; [done|]. intros [a|e]; [apply Hk|apply touches_ret]. Qed.
Lemma touches_borrow {A} (m : st Mgr A) : touches (borrow_mut m).
Proof.
  intros w a w' H. unfold borrow_mut, acquire, with_manager, drop_guard, mbind, st_bind in H.
  destruct (borrowed w); [done|]. simpl in H. by destruct (m (manager w)) as [[]| | |]; [injection H as _ <-|..].
Qed.
Lemma touches_convert {A} (m : st _ (result LErr A)) : touches m → touches (convert_err m).
Proof. intros Hm. apply touches_bind; [done|]. intros r. apply touches_ret. Qed.

Lemma open_touches envp request flags root caller before_init :
  (∀ plan p, touches (relocate plan p)) → (∀ p, touches (initialize p)) → (∀ i, touches (before_init i)) →
  touches (open_with (Id := Id) envp request flags root caller before_init).
Proof.
  intros Hrel Hini Hbef. unfold open_with. apply touches_bind; [destruct (is_file_or_binary root); [apply touches_borrow|apply touches_ret]|].
  intros [lib|]; [apply touches_ret|]. destruct (_ && _); [apply touches_ret|].
  apply touches_try; [apply touches_ret|]. intros rt. apply touches_bind.
  { intros w a w' H. destruct (paths_run envp w) as (p & Hp). rewrite Hp in H. by injection H as _ <-. }
  intros paths. apply touches_try; [apply touches_borrow|]. intros [lib|p]; [apply touches_ret|]. unfold commit.
  apply touches_try; [by apply touches_convert|]. intros rl.
  apply touches_try; [apply touches_convert, touches_borrow|]. intros pb. apply touches_bind; [done|].
  intros [[]|e]; [|apply touches_bind; [apply touches_borrow|intros; apply touches_ret]].
  apply touches_bind; [done|]. intros [ld|fl]; (apply touches_bind; [apply touches_borrow|intros; apply touches_ret]).
Qed.
End touches.

Context {LL : LinkCtxLaws Ctx Id Lease Mod}.

Lemma reuse_run request flags s id m :
  ctx_module_id (Id := Id) (Lease := Lease) (Mod := Mod) (Manager.link_ctx s) request = Some id →
  ctx_meta (Manager.link_ctx s) id = Some m →
  ∃ x g l c', Manager.open_existing request flags s =
      Ret (Some (Manager.mkOpened (x :: g) l), Manager.mkManager c' (Manager.handles s) (Manager.adds s) (Manager.subs s))
    ∧ lease_id l = id ∧ outstanding c' ≡ₚ l :: outstanding (Manager.link_ctx s)
    ∧ (∀ j, ctx_meta c' j = if decide (j = id) then Some (OpenFlags.union m (OpenFlags.promotable flags))
                            else ctx_meta (Manager.link_ctx s) j).
Proof.
  intros Hid Hm. unfold Manager.open_existing, Manager.ctx. erewrite st_bind_run by reflexivity.
  erewrite (try_some_run _ _ _ (Some id)) by (rewrite Hid; reflexivity).
  destruct (ManagerProps.promote_run id flags s m Hm) as (c1 & Hr1 & Hm1 & Ho1 & _). erewrite st_bind_run by exact Hr1.
  set (s1 := Manager.mkManager c1 _ _ _) in *.
  destruct (Manager.open_module_free id s1) as (x & g & l & c2 & Hr2 & _ & Hl & Ho2 & Hm2); [simpl; rewrite Hm1, decide_True by done; by eexists|].
  exists x, g, l, c2. split; [exact Hr2|]. split_and!; [done|by rewrite Ho2; simpl; rewrite Ho1|].
  intros j. rewrite Hm2. apply Hm1.
Qed.

(** A request for a committed module is answered from the registry alone:
    the result has the module's load group and a fresh lease on it, the open
    adds GLOBAL and NODELETE to its flags, the registry cell is free again, and
    nothing else changes; the linker is not consulted. *)
Theorem open_reuses_committed envp request flags bytes caller w id m :
  borrowed w = false →
  ctx_module_id (Id := Id) (Lease := Lease) (Mod := Mod) (Manager.link_ctx (manager w)) request = Some id →
  ctx_meta (Manager.link_ctx (manager w)) id = Some m →
  ∃ x g l c' w',
    open_file envp request flags caller w = Ret (Ok (Manager.mkOpened (x :: g) l), w')
    ∧ dlopen_from_binary envp bytes request flags caller w = Ret (Ok (Manager.mkOpened (x :: g) l), w')
    ∧ lease_id l = id
    ∧ w' = mkWorld (Manager.mkManager c' (Manager.handles (manager w)) (Manager.adds (manager w))
                     (Manager.subs (manager w))) false (search_path_cell w) (rest w)
    ∧ outstanding c' ≡ₚ l :: outstanding (Manager.link_ctx (manager w))
    ∧ (∀ j, ctx_meta c' j = if decide (j = id) then Some (OpenFlags.union m (OpenFlags.promotable flags))
                            else ctx_meta (Manager.link_ctx (manager w)) j).
Proof.
  intros Hb Hid Hm.
  destruct (reuse_run request (env_flags envp flags) (manager w) id m Hid Hm) as (x & g & l & c' & Hr & Hl & Ho & Hmeta).
  apply borrow_run in Hr; [|done].
  eexists x, g, l, c', _. unfold open_file, dlopen_from_binary, open, open_with.
  erewrite !st_bind_run by exact Hr. split_and!; try done.
  intros j. rewrite Hmeta. case_decide; [|done]. do 2 f_equal.
  apply Z.bits_inj'. intros n Hn. rewrite !OpenFlags.promotable_bit by done.
  destruct (decide (n = 1)) as [->|]; [by rewrite !andb_false_r|]. by rewrite env_flags_bit.
Qed.

(** ** Opening with a linker that keeps its promises *)
Context {LLK : LinkerLaws LL LK}.

(** An opened library that is in order. *)
Definition live (o : Manager.OpenedLibrary (Lease := Lease) (Mod := Mod)) w : Prop :=
  let c := Manager.link_ctx (manager w) in
  Manager.lease o ∈ outstanding c ∧ is_Some (ctx_meta (Id := Id) c (lease_id (Manager.lease o)))
  ∧ Manager.scope o ≠ [].
(** It returns with the registry cell free, and a success is in order. *)
Definition fine (m : st (World Ctx Lease Mod Ext) (result (Error LErr) Manager.OpenedLibrary)) w : Prop :=
  ∃ r w', m w = Ret (r, w') ∧ borrowed w' = false ∧ ∀ o, r = Ok o → live o w'.

Lemma prepare_run request flags paths caller root s :
  is_binary root = false →
  ∃ r s', prepare request flags paths caller root s = Ret (r, s')
    ∧ ∀ o cell b ext, r = Ok (inl o) → live o (mkWorld s' b cell ext).
Proof.
  intros Hroot. unfold prepare. unfold Manager.ctx at 1. erewrite st_bind_run by reflexivity.
  destruct root as [path|key bytes|key raw]; [|done|].
  - destruct (OpenFlags.is_noload flags).
    + unfold try_res at 1, convert_err. rewrite st_bind_assoc. erewrite st_bind_run by apply on_context_run.
      rewrite st_bind_ret. set (id0 := caller ≫= _).
      destruct (law_resolve (LK := LK) paths id0 (Manager.link_ctx s) path) as (r & c' & Hr & _ & Hmeta & Hid).
      rewrite Hr. simpl fst. simpl snd. destruct r as [[id|]|e]; cbn [loader_err fst snd];
        [|eexists _, _; by split..].
      destruct (Hid id eq_refl) as [m Hm]. rewrite <-Hmeta in Hm. set (s1 := Manager.mkManager c' _ _ _).
      destruct (ManagerProps.promote_run id flags s1 m Hm) as (c2 & Hp & Hm2 & _). erewrite st_bind_run by exact Hp.
      set (s2 := Manager.mkManager c2 _ _ _).
      destruct (Manager.open_module_free id s2) as (x & g & l & c3 & Ho & _ & Hl & Hout & Hm3);
        [simpl; rewrite Hm2, decide_True by done; by eexists|].
      erewrite st_bind_run by exact Ho. erewrite st_bind_run by reflexivity.
      eexists _, _. split; [reflexivity|]. intros o cell b ext [= <-]. split_and!; simpl; [|rewrite Hl, Hm3; simpl; rewrite Hm2, decide_True by done; by eexists|done].
      rewrite Hout. set_solver.
    + unfold try_res, convert_err. rewrite st_bind_assoc. erewrite st_bind_run by apply on_context_run.
      rewrite st_bind_ret. destruct (prepare_load _ _ _ _) as [[p|e] c']; eexists _, _; by split.
  - unfold try_res, convert_err. rewrite st_bind_assoc. erewrite st_bind_run by apply on_context_run.
    rewrite st_bind_ret. destruct (prepare_mapped _ _ _ _ _) as [[p|e] c']; eexists _, _; by split.
Qed.

Lemma borrow_context_run {A} (f : Ctx → A * Ctx) w :
  borrowed w = false → ∃ a w', borrow_mut (on_context f) w = Ret (a, w') ∧ borrowed w' = false.
Proof. intros Hb. eexists _, _. split; [by apply borrow_run, on_context_run|done]. Qed.

Lemma commit_fine flags before_init prepared w :
  (∀ i w, borrowed w = false → ∃ r w', before_init i w = Ret (r, w') ∧ borrowed w' = false) →
  borrowed w = false → fine (commit flags before_init prepared) w.
Proof.
  intros Hbef Hb. unfold fine, commit, try_res, convert_err.
  destruct (law_relocate (on_relocation flags) prepared w Hb) as (r1 & w1 & H1 & Hb1).
  rewrite st_bind_assoc. erewrite st_bind_run by exact H1. rewrite st_bind_ret.
  destruct r1 as [rel|e]; cbn [loader_err fst snd]; [|eexists _, _; by split].
  destruct (borrow_context_run (publish rel) w1 Hb1) as (r2 & w2 & H2 & Hb2).
  rewrite st_bind_assoc. erewrite st_bind_run by exact H2. rewrite st_bind_ret.
  destruct r2 as [pub|e]; cbn [loader_err fst snd]; [|eexists _, _; by split].
  destruct (Hbef (root_of pub) w2 Hb2) as (r3 & w3 & H3 & Hb3). erewrite st_bind_run by exact H3.
  destruct r3 as [[]|e].
  - destruct (law_initialize pub w3 Hb3) as (r4 & w4 & H4 & Hb4 & Hld). erewrite st_bind_run by exact H4.
    destruct r4 as [ld|fl].
    + specialize (Hld ld eq_refl). simpl in Hld. destruct (into_parts ld) as [l ids]; simpl.
      destruct Hld as (Hl & Hroot & Hall & Hnd & Ha1 & Ha2).
      destruct (ManagerProps.open_load_run l ids flags (manager w4) Hall Hnd Hroot Ha1 Ha2)
        as (sc & c' & Hr & Hg & Hm & _ & Ho & _).
      erewrite st_bind_run by (apply borrow_run; [done|exact Hr]). eexists _, _. split; [reflexivity|].
      split; [done|]. intros o [= <-]. split_and!; simpl.
      * by rewrite Ho.
      * rewrite Hm. case_decide; [by eexists|done].
      * destruct (law_load_group _ _ Hroot) as (x & g & Hg'). congruence.
    + destruct (borrow_context_run (failed_rollback fl) w4 Hb4) as (e & w5 & H5 & Hb5).
      erewrite st_bind_run by exact H5. eexists _, _. by split.
  - destruct (borrow_context_run (rollback pub) w3 Hb3) as (e' & w5 & H5 & Hb5).
    erewrite st_bind_run by exact H5. eexists _, _. by split.
Qed.

Lemma open_with_run envp request flags root caller before_init w :
  (∀ i w, borrowed w = false → ∃ r w', before_init i w = Ret (r, w') ∧ borrowed w' = false) →
  borrowed w = false →
  ∃ r w', open_with envp request flags root caller before_init w = Ret (r, w') ∧ borrowed w' = false
    ∧ ∀ o, r = Ok o → live o w'.
Proof.
  intros Hbef Hb. unfold open_with. set (fl := env_flags envp flags).
  assert (∃ o w1, (if is_file_or_binary root then borrow_mut (Manager.open_existing request fl) else mret None) w
      = Ret (o, w1) ∧ borrowed w1 = false ∧ ∀ lib, o = Some lib → live lib w1) as (o & w1 & H1 & Hb1 & Hlive).
  { destruct (is_file_or_binary root); [|by exists None, w].
    destruct (ctx_module_id (Manager.link_ctx (manager w)) request) as [id|] eqn:Hid.
    - destruct (law_module_id _ _ _ Hid) as [m Hm].
      destruct (reuse_run request fl (manager w) id m Hid Hm) as (x & g & l & c' & Hr & Hl & Ho & Hmeta).
      eexists _, _. split; [by apply borrow_run|]. split; [done|]. intros lib [= <-]. split_and!; simpl; [|rewrite Hl, Hmeta, decide_True by done; by eexists|done].
      rewrite Ho. set_solver.
    - exists None. eexists. split; [apply borrow_run; [done|]|done].
      unfold Manager.open_existing, Manager.ctx. erewrite st_bind_run by reflexivity.
      by erewrite (try_some_run _ _ _ None) by (by rewrite Hid). }
  erewrite st_bind_run by exact H1. destruct o as [lib|].
  { eexists _, w1. split; [reflexivity|]. split; [done|]. intros o [= <-]. by apply Hlive. }
  destruct (_ && _); [eexists _, w1; by split|].
  destruct (map_root root) as [rt|e] eqn:Hrt; [|eexists _, w1; by split].
  rewrite (try_res_ok _ _ _ rt w1) by done. destruct (paths_run envp w1) as (paths & H2).
  erewrite st_bind_run by exact H2. set (w2 := mkWorld _ _ _ _).
  destruct (prepare_run request fl paths caller rt (manager w2)) as (r & s' & H3 & Hr).
  { destruct root; simpl in Hrt; [by injection Hrt as <-| |by injection Hrt as <-].
    destruct (loader_err _); simpl in Hrt; [by injection Hrt as <-|done]. }
  apply (borrow_run _ w2) in H3; [|done]. unfold try_res. erewrite st_bind_run by exact H3.
  destruct r as [[lib|prepared]|e].
  - eexists _, _. split; [reflexivity|]. split; [done|]. intros o [= <-]. by apply Hr.
  - by apply commit_fine.
  - eexists _, _. by split.
Qed.

(** C9. Every open returns, never panics on a borrowed registry or a failed
    expectation, and frees the registry cell, whatever the request, the flags
    and the errors on the way, provided that user code (resolvers and
    constructors) works when it finds the cell free; so such code can itself
    open libraries.  A success is a live lease on a committed module with a
    non-empty search scope. *)
Theorem open_total envp request flags root caller before_init w :
  (∀ i w, borrowed w = false → ∃ r w', before_init i w = Ret (r, w') ∧ borrowed w' = false) →
  borrowed w = false →
  ∃ r w', open_with envp request flags root caller before_init w = Ret (r, w') ∧ borrowed w' = false
    ∧ ∀ o, r = Ok o → live o w'.
Proof. apply open_with_run. Qed.

(** What a NOLOAD open of a file does after the search in the registry. *)
Definition noload_lookup (resolve : Ctx → list Z → result LErr (option Id) * Ctx)
    (request : list Z) (flags : OpenFlags.t) : st Mgr (result (Error LErr) (Manager.OpenedLibrary (Lease := Lease) (Mod := Mod))) :=
  id ←! convert_err (on_context (λ c, resolve c request));
  match id with
  | None => mret (Err (can_not_find_file request))
  | Some id => Manager.promote id flags;; o ← Manager.open_module id; o ← Manager.expect o; mret (Ok o)
  end.

Lemma noload_open_file envp request flags caller w :
  OpenFlags.is_noload flags = true →
  open_file envp request flags caller w =
    (reuse ← borrow_mut (Manager.open_existing request (env_flags envp flags));
     match reuse with
     | Some lib => mret (Ok lib)
     | None =>
         paths ← force_search_paths envp;
         borrow_mut (c ← Manager.ctx;
           noload_lookup (resolve_committed paths (ctx_module_id_at c caller)) request (env_flags envp flags))
     end) w.
Proof.
  intros Hn. rewrite <-(env_flags_noload envp) in Hn.
  unfold open_file, open, open_with. cbn [is_file_or_binary is_binary map_root]. rewrite andb_false_r.
  apply st_bind_ext. intros [lib|] w1 _; [done|].
  rewrite (try_res_ok _ _ _ (File request) w1) by done. apply st_bind_ext. intros p w2 _.
  unfold prepare, noload_lookup. rewrite Hn. unfold try_res, borrow_mut, acquire, with_manager, drop_guard, convert_err.
  unfold mbind, st_bind. destruct (borrowed w2); [done|]. simpl.
  destruct (resolve_committed _ _ _ _) as [[[id|]|e] c']; simpl; [|done..].
  destruct (Manager.promote _ _ _) as [[[] s1]| | |]; [|done..].
  destruct (Manager.open_module _ _) as [[[o|] s2]| | |]; done.
Qed.

Lemma noload_binary envp request bytes flags caller w :
  OpenFlags.is_noload flags = true →
  dlopen_from_binary envp bytes request flags caller w =
    (reuse ← borrow_mut (Manager.open_existing request (env_flags envp flags));
     mret (match reuse with Some lib => Ok lib | None => Err (can_not_find_file request) end)) w.
Proof.
  intros Hn. rewrite <-(env_flags_noload envp) in Hn.
  unfold dlopen_from_binary, open, open_with. cbn [is_file_or_binary is_binary]. rewrite Hn.
  apply st_bind_ext. by intros [lib|] w1 _.
Qed.

End props.

(** C33. RTLD_NOLOAD never loads: the outcome of such an open depends on the
    linker only through its search for committed modules (any two linkers
    that agree there give the same result and the same registry), and it
    leaves the handles and the load and unload counters unchanged. *)
Theorem noload_never_loads {Ctx Id Lease Mod Ext LErr : Type} `{ED : EqDecision Id, LC : !LinkCtx Ctx Id Lease Mod}
    {MA : ModuleApi Mod} {BU : Build} (L1 L2 : Linker (World Ctx Lease Mod Ext) Ctx Id Lease LErr)
    envp request bytes flags caller (w : World Ctx Lease Mod Ext) :
  OpenFlags.is_noload flags = true →
  (∀ paths caller c path, resolve_committed (Linker := L1) paths caller c path
                          = resolve_committed (Linker := L2) paths caller c path) →
  open_file (LK := L1) envp request flags caller w = open_file (LK := L2) envp request flags caller w
  ∧ dlopen_from_binary (LK := L1) envp bytes request flags caller w
    = dlopen_from_binary (LK := L2) envp bytes request flags caller w
  ∧ ∀ r w', open_file (LK := L1) envp request flags caller w = Ret (r, w') →
      counters (manager w') = counters (manager w).
Proof.
  intros Hn Hres. rewrite !noload_open_file, !noload_binary by done. split_and!; [|done|].
  - apply st_bind_ext. intros [lib|] w1 _; [done|]. apply st_bind_ext. intros p w2 _.
    unfold borrow_mut, acquire, with_manager, drop_guard, noload_lookup, try_res, convert_err, mbind, st_bind.
    destruct (borrowed w2); [done|]. simpl. by rewrite Hres.
  - intros r w' (reuse & w1 & H1 & H2)%st_bind_Ret_inv.
    apply wkeeps_borrow in H1 as <-; [|apply mkeeps_open_existing].
    destruct reuse as [lib|]; [by injection H2 as _ <-|].
    apply st_bind_Ret_inv in H2 as (p & w2 & H2 & H3). apply wkeeps_paths in H2 as <-.
    apply wkeeps_borrow in H3; [done|]. apply mkeeps_bind; [apply mkeeps_ctx|]. intros c.
    apply mkeeps_try_res; [apply mkeeps_convert, mkeeps_on_context|]. intros [id|]; [|apply mkeeps_ret].
    apply mkeeps_bind; [apply mkeeps_promote|]. intros _. apply mkeeps_bind; [apply mkeeps_open_module|]. intros o.
    apply mkeeps_bind; [apply mkeeps_expect|]. intros. apply mkeeps_ret.
Qed.

(** ** A small linker for the examples

    Paths name modules; relocation fails for paths that begin with [B]. *)
Import Toy.
Local Abbreviation tworld := (World toy (nat * nat) nat unit).

Definition good_load {Ext} (l : nat * nat) (w : World toy (nat * nat) nat Ext) : Prop :=
  let c := Manager.link_ctx (manager w) in
  l ∈ t_out c ∧ is_Some (t_metas c !! l.2)
  ∧ 0 ≤ Manager.adds (manager w) ∧ Manager.adds (manager w) + 1 < 2 ^ 64.

#[export] Instance toy_linker {Ext} : Linker (World toy (nat * nat) nat Ext) toy nat (nat * nat) Z := {|
  Raw := unit; Prepared := list Z; Relocated := list Z; Published := nat * nat;
  Load := nat * nat; Failed := nat * nat;
  load_dylib _ bytes := match bytes with [] => Err 1 | _ => Ok tt end;
  resolve_committed _ _ c p := (Ok (ctx_module_id c p), c);
  prepare_load _ _ c p := (match p with [] => Err 2 | _ => Ok p end, c);
  prepare_mapped _ _ c key _ := (Ok key, c);
  relocate _ p := λ w, Ret (match p with 66 :: _ => Err 3 | _ => Ok p end, w);
  publish p c := match ctx_insert c p 0%nat 0 [] with Some (l, c') => (Ok l, c') | None => (Err 4, c) end;
  root_of := snd;
  rollback _ c := (Ok tt, c);
  initialize l := λ w, Ret (if bool_decide (good_load l w) then Ok l else Err l, w);
  failed_rollback _ c := (5, c);
  into_parts l := (l, [l.2]) |}.

#[export] Program Instance toy_linker_laws {Ext} : LinkerLaws toy_laws (toy_linker (Ext := Ext)).
Next Obligation.
  intros Ext paths caller c path. eexists _, _. split; [reflexivity|]. split_and!; try done.
  intros i Hi. refine (law_module_id c path i _). congruence.
Qed.
Next Obligation. intros Ext plan p w Hb. eexists _, _. by split. Qed.
Next Obligation.
  intros Ext l w Hb. eexists _, _. split; [reflexivity|]. split; [done|]. intros ld.
  case_bool_decide as Hg; [|done]. intros [= <-]. destruct Hg as (H1 & H2 & H3 & H4). cbn [into_parts toy_linker].
  split; [done|]. split; [done|]. split; [by apply Forall_singleton|]. split; [apply NoDup_singleton|by split].
Qed.

Definition no_hook : nat → st tworld (result (Error Z) unit) := λ _, mret (Ok tt).
Definition toy_world (n : nat) : tworld := mkWorld (toy_manager n) false None tt.

Lemma open_reuses_committed_witness :
  let BU : Build := Build_Build true X86_64 in
  ∃ x g l c' w', open_file None [1] (256 + 4) 0 (toy_world 3) = Ret (Ok (Manager.mkOpened (x :: g) l), w')
    ∧ lease_id l = 1%nat ∧ outstanding c' ≡ₚ [l] ∧ ctx_meta c' 1%nat = Some 257.
Proof.
  intros BU.
  destruct (open_reuses_committed (LErr := Z) None [1] (256 + 4) [] 0 (toy_world 3) 1%nat 1)
    as (x & g & l & c' & w' & H1 & _ & H2 & _ & H3 & H4); [reflexivity..|].
  exists x, g, l, c', w'. split; [exact H1|]. split; [exact H2|]. split; [exact H3|]. exact (H4 1%nat).
Defined.

Lemma open_total_witness :
  let BU : Build := Build_Build true X86_64 in
  ∃ r w', open_with None [70] 256 (File [70]) None no_hook (toy_world 2) = Ret (r, w')
    ∧ borrowed w' = false.
Proof.
  intros BU.
  destruct (open_total (LErr := Z) None [70] 256 (File [70]) None no_hook (toy_world 2))
    as (r & w' & H1 & H2 & _).
  - intros i w Hb. by exists (Ok tt), w.
  - reflexivity.
  - exists r, w'. split; [exact H1|exact H2].
Defined.

Example open_succeeds :
  let BU : Build := Build_Build true X86_64 in
  ∃ o w', open_file None [70] 256 0 (toy_world 2) = Ret (Ok o, w')
    ∧ Manager.adds (manager w') = 1 ∧ t_glob (Manager.link_ctx (manager w')) = [2%nat].
Proof. eexists _, _. by vm_compute. Qed.

(** A linker whose loads always fail. *)
Definition failing_linker : Linker tworld toy nat (nat * nat) Z := {|
  Raw := unit; Prepared := unit; Relocated := unit; Published := unit; Load := unit; Failed := unit;
  load_dylib _ bytes := Err 1;
  resolve_committed _ _ c p := (Ok (ctx_module_id c p), c);
  prepare_load _ _ c p := (Err 2, c);
  prepare_mapped _ _ c key _ := (Err 2, c);
  relocate _ p := λ w, Ret (Err 3, w);
  publish p c := (Err 4, c);
  root_of _ := O;
  rollback _ c := (Ok tt, c);
  initialize l := λ w, Ret (Err tt, w);
  failed_rollback _ c := (5, c);
  into_parts l := ((O, O), []) |}.

Lemma noload_never_loads_witness :
  let BU : Build := Build_Build true X86_64 in
  open_file (LK := toy_linker) None [70] 4 0 (toy_world 2)
  = open_file (LK := failing_linker) None [70] 4 0 (toy_world 2).
Proof.
  intros BU. apply (noload_never_loads toy_linker failing_linker None [70] [] 4 0 (toy_world 2)); reflexivity.
Defined.

End OpenProps.
