(* ===== verification/DlApi.v ===== *)
(** * The C entry points (src/api/dlopen.rs, src/api/dlsym.rs, src/api/mod.rs,
    src/cdylib/src/lib.rs)

    [dlopen_with_caller], [dlsym_with_caller], [dlclose] and [dlerror] over the
    registry and the error state of the calling thread, which is a part of the
    process that constructors and finalizers reach too.  The theorems are
    proved against the interface [DlError.ErrorStateLaws], so they hold for
    both builds of that state.  The naked wrappers [dlopen] and [dlsym], which
    pass the return address on, are in Entry.v. *)

From S2P Require Import Prelude Utf8 Errors Manager Open DlError.

Module DlApi.

Section api.
Context {Ctx Id Lease Mod Ext LErr S : Type} `{ED : EqDecision Id, LC : !LinkCtx Ctx Id Lease Mod, MA : !ModuleApi Mod}.

(** The process: the registry, and in the rest of it the error state, which
    user code can reach like any other memory. *)
Abbreviation Api := (Open.World Ctx Lease Mod (Ext * S)).

Context {BU : Build} {LK : Open.Linker Api Ctx Id Lease LErr}.
Context {ES : DlError.ErrorState S}.

(** Printing of the loader crate's errors. *)
Context (fmt_loader : LErr → string).
(** Dropping the modules that a close unloaded: their finalizers run with the
    registry free, and may call dlopen, dlsym and dlclose themselves. *)
Context (drop_group : list Id → st Api unit).

Definition errors (p : Api) : S := (Open.rest p).2.
Definition with_errors (p : Api) (e : S) : Api :=
  Open.mkWorld (Open.manager p) (Open.borrowed p) (Open.search_path_cell p) ((Open.rest p).1, e).
Definition on_errors (t : Z) (o : DlError.op) : st Api (option DlError.cstring) := λ p,
  '(r, e) ← DlError.es_op t o (errors p); Ret (r, with_errors p e).

Definition dlerror_clear (t : Z) : st Api unit := on_errors t DlError.OpClear;; mret tt.
Definition dlerror_set (t : Z) (msg : string) : st Api unit :=
  on_errors t (DlError.OpSet (bytes_of_string msg));; mret tt.
Definition dlerror (t : Z) : st Api (option DlError.cstring) := on_errors t DlError.OpTake.

Definition null : Z := 0.

(** [filename] is null or a C string. *)
Definition dlopen_with_caller (envp : option (list (list Z))) (t : Z) (filename : option (list Z))
    (flags caller : Z) : st Api Z :=
  dlerror_clear t;;
  match filename with
  | None =>
      opened ← Open.open_main;
      Open.borrow_mut (Manager.register_handle opened)
  | Some filename =>
      let flags := OpenFlags.from_bits_retain flags in
      match from_utf8 filename with
      | None => dlerror_set t "library name is not valid UTF-8";; mret null
      | Some path =>
          r ← Open.open_file envp path flags caller;
          match r with
          | Ok opened => Open.borrow_mut (Manager.register_handle opened)
          | Err error => dlerror_set t (Error_fmt fmt_loader error);; mret null
          end
      end
  end.

Definition RTLD_DEFAULT : Z := 0.
Definition RTLD_NEXT : Z := usize_max.

Definition can_not_find_symbol (nm : list Z) : Error LErr :=
  find_symbol_error ("can not find symbol:" +:+ string_of_bytes nm).
Definition ok_or_else {A} (o : option A) (e : Error LErr) : result (Error LErr) A :=
  match o with Some a => Ok a | None => Err e end.

Definition dlsym_default (nm : list Z) : st Api (result (Error LErr) Z) :=
  o ← Open.borrow_mut (Manager.global_find nm); mret (ok_or_else o (can_not_find_symbol nm)).
Definition dlsym_next (caller : Z) (nm : list Z) : st Api (result (Error LErr) Z) :=
  o ← Open.borrow_mut (Manager.next_find caller nm); mret (ok_or_else o (can_not_find_symbol nm)).

(** [let sym = ..] of [dlsym_with_caller]. *)
Definition find_by_handle (handle caller : Z) (nm : list Z) : st Api (result (Error LErr) Z) :=
  if handle =? RTLD_DEFAULT then dlsym_default nm
  else if handle =? RTLD_NEXT then dlsym_next caller nm
  else o ← Open.borrow_mut (Manager.handle_find handle nm); mret (ok_or_else o (can_not_find_symbol nm)).

Definition dlsym_with_caller (t handle : Z) (symbol_name : option (list Z)) (caller : Z) : st Api Z :=
  dlerror_clear t;;
  match symbol_name with
  | None => dlerror_set t "symbol name is null";; mret null
  | Some symbol_name =>
      match from_utf8 symbol_name with
      | None => dlerror_set t "symbol name is not valid UTF-8";; mret null
      | Some nm =>
          sym ← find_by_handle handle caller nm;
          match sym with
          | Ok sym => mret sym
          | Err error => dlerror_set t (Error_fmt fmt_loader error);; mret null
          end
      end
  end.

(** [registry::release_handle]: the unloaded modules are dropped after the lock. *)
Definition release_handle (handle : Z) : st Api bool :=
  unloaded ← Open.borrow_mut (Manager.release_handle handle);
  let valid := match unloaded with Some _ => true | None => false end in
  (match unloaded with Some u => drop_group u | None => mret tt end);;
  mret valid.

Definition dlclose (t handle : Z) : st Api Z :=
  dlerror_clear t;;
  if handle =? 0 then dlerror_set t "invalid library handle";; mret (-1)
  else
    valid ← release_handle handle;
    if (valid : bool) then mret 0
    else dlerror_set t "invalid library handle";; mret (-1).

(** A call of the C interface by thread [t]. *)
Inductive call :=
  | CallOpen (filename : option (list Z)) (flags caller : Z)
  | CallSym (handle : Z) (symbol_name : option (list Z)) (caller : Z)
  | CallClose (handle : Z).
Definition run_call (envp : option (list (list Z))) (t : Z) (c : call) : st Api Z :=
  match c with
  | CallOpen f fl ca => dlopen_with_caller envp t f fl ca
  | CallSym h n ca => dlsym_with_caller t h n ca
  | CallClose h => dlclose t h
  end.
(** The value that reports failure. *)
Definition failure (c : call) : Z := match c with CallClose _ => -1 | _ => null end.

(** The preload library of src/cdylib/src/lib.rs exports the entry points above,
    with two of its own. *)
Definition preload_dlinfo (handle request info : Z) : st Api unit := λ _, Panic.
Definition preload_dlerror : st Api Z := mret null.

End api.
End DlApi.

Module DlApiProps.
Import DlApi.

Section props.
Context {Ctx Id Lease Mod Ext LErr S : Type} `{ED : EqDecision Id, LC : !LinkCtx Ctx Id Lease Mod, MA : !ModuleApi Mod}.
Local Abbreviation Api := (Open.World Ctx Lease Mod (Ext * S)).
Context {BU : Build} {LK : Open.Linker Api Ctx Id Lease LErr}.
Context {ES : DlError.ErrorState S} {EL : DlError.ErrorStateLaws S}.
Context (fmt_loader : LErr → string) (drop_group : list Id → st Api unit).
Implicit Types p q : Api.

Lemma clear_run t p a :
  DlError.es_rep (errors p) a → ∃ e, dlerror_clear t p = Ret (tt, with_errors p e)
    ∧ DlError.es_rep e (DlError.spec_put t None a).
Proof.
  intros Hrep. destruct (DlError.es_rep_op _ _ t DlError.OpClear Hrep) as (e & He & Hrep').
  exists e. unfold dlerror_clear, on_errors, mbind, st_bind. rewrite He. done.
Qed.

Lemma set_run t msg p a :
  DlError.es_rep (errors p) a → ∃ e, dlerror_set t msg p = Ret (tt, with_errors p e)
    ∧ DlError.es_rep e (DlError.spec_put t (Some (DlError.message (bytes_of_string msg))) a).
Proof.
  intros Hrep. destruct (DlError.es_rep_op _ _ t (DlError.OpSet (bytes_of_string msg)) Hrep) as (e & He & Hrep').
  exists e. unfold dlerror_set, on_errors, mbind, st_bind. rewrite He. done.
Qed.

Lemma dlerror_run t p a :
  DlError.es_rep (errors p) a → ∃ e, dlerror t p = Ret (a t, with_errors p e)
    ∧ DlError.es_rep e (DlError.spec_put t None a).
Proof.
  intros Hrep. destruct (DlError.es_rep_op _ _ t DlError.OpTake Hrep) as (e & He & Hrep').
  exists e. unfold dlerror, on_errors, mbind. simpl in He. rewrite He. done.
Qed.

(** ** User code *)
(** What user code that runs on thread [t] may do to the errors: to the pending
    message of [t] what [M] allows, and nothing to those of other threads. *)
Definition may_leave (t : Z) (M : relation (option DlError.cstring)) (x y : Ext * S) : Prop :=
  ∀ a, DlError.es_rep x.2 a → ∃ a', DlError.es_rep y.2 a' ∧ M (a t) (a' t) ∧ ∀ u, u ≠ t → a' u = a u.
#[local] Instance may_leave_refl t M : Reflexive M → Reflexive (may_leave t M).
Proof. intros HM x a Ha. by exists a. Qed.
#[local] Instance may_leave_trans t M : Transitive M → Transitive (may_leave t M).
Proof.
  intros HM x y z Hxy Hyz a Ha. destruct (Hxy a Ha) as (b & Hb & M1 & H1).
  destruct (Hyz b Hb) as (c & Hc & M2 & H2). exists c. split; [done|]. split; [by etrans|].
  intros u Hu. by rewrite H2, H1.
Qed.

(** The user code of the process does so: relocation resolvers, constructors
    and finalizers. *)
Record user_code (t : Z) (M : relation (option DlError.cstring)) : Prop := {
  uc_relocate plan pr : OpenProps.touches (may_leave t M) (Open.relocate plan pr);
  uc_initialize pub : OpenProps.touches (may_leave t M) (Open.initialize pub);
  uc_drop u : OpenProps.touches (may_leave t M) (drop_group u) }.

(** ** The outcomes of a call *)
(** The handle is in the table for what was opened; the search gave the value;
    the close was valid.  [q] is the process when the error was cleared. *)
Definition succeeded (envp : option (list (list Z))) (c : call) (v : Z) q p' : Prop :=
  match c with
  | CallOpen f fl ca => ∃ o q', Manager.register_handle o (Open.manager q') = Ret (v, Open.manager p')
      ∧ is_Some (Manager.handles (Open.manager p') !! v)
      ∧ match f with
        | None => Open.open_main q = Ret (o, q')
        | Some path => utf8_valid path = true
            ∧ Open.open_file (LErr := LErr) envp path (OpenFlags.from_bits_retain fl) ca q = Ret (Ok o, q')
        end
  | CallSym h nm caller => ∃ nm', nm = Some nm' ∧ utf8_valid nm' = true
      ∧ find_by_handle (LErr := LErr) h caller nm' q = Ret (Ok v, p')
  | CallClose h => v = 0 ∧ ∃ u s', Manager.release_handle h (Open.manager q) = Ret (Some u, s')
  end.

(** The call failed, and for this reason. *)
Definition failed (envp : option (list (list Z))) (c : call) (text : string) q : Prop :=
  match c with
  | CallOpen None _ _ => False
  | CallOpen (Some f) fl ca => utf8_valid f = false ∧ text = "library name is not valid UTF-8"
      ∨ ∃ err q', Open.open_file (LErr := LErr) envp f (OpenFlags.from_bits_retain fl) ca q = Ret (Err err, q')
          ∧ text = Error_fmt fmt_loader err
  | CallSym _ None _ => text = "symbol name is null"
  | CallSym h (Some nm) ca => utf8_valid nm = false ∧ text = "symbol name is not valid UTF-8"
      ∨ ∃ err q', find_by_handle (LErr := LErr) h ca nm q = Ret (Err err, q') ∧ text = Error_fmt fmt_loader err
  | CallClose h => text = "invalid library handle"
      ∧ (h = 0 ∨ ∃ s', Manager.release_handle h (Open.manager q) = Ret (None, s'))
  end%string.

Lemma register_handle_inv o (s : Manager.Manager) h s' :
  Manager.register_handle (Ctx := Ctx) (Lease := Lease) (Mod := Mod) o s = Ret (h, s') →
  is_Some (Manager.handles s' !! h).
Proof.
  unfold Manager.register_handle. intros (h' & s1 & Hl & H)%st_bind_Ret_inv.
  apply st_lift_inv in Hl as [_ ->]. rewrite st_bind_get in H.
  apply st_bind_Ret_inv in H as ([] & s2 & Hs & [= <- <-]).
  destruct (Manager.handles s !! h'); injection Hs as <-; simpl; rewrite lookup_insert_eq; by eexists.
Qed.

Lemma borrowed_inv {A} (m : st Manager.Manager A) p a p' :
  Open.borrow_mut m p = Ret (a, p') → Open.rest p' = Open.rest p
    ∧ m (Open.manager p) = Ret (a, Open.manager p').
Proof.
  unfold Open.borrow_mut, Open.acquire, Open.with_manager, Open.drop_guard, mbind, st_bind.
  destruct (Open.borrowed p); [done|]. simpl.
  destruct (m (Open.manager p)) as [[b s]| | |]; try done. simpl. by intros [= <- <-].
Qed.

Lemma find_by_handle_rest handle caller nm p r p' :
  find_by_handle (LErr := LErr) handle caller nm p = Ret (r, p') → Open.rest p' = Open.rest p.
Proof.
  unfold find_by_handle, dlsym_default, dlsym_next. destruct (_ =? _); [|destruct (_ =? _)];
    intros (o & p1 & [H _]%borrowed_inv & [= _ <-])%st_bind_Ret_inv; done.
Qed.

Lemma from_utf8_cases l : from_utf8 l = if utf8_valid l then Some l else None.
Proof. reflexivity. Qed.

(** The error state of thread [t] is [m] and the other threads keep theirs. *)
Definition reports (t : Z) (m : option DlError.cstring) (a : DlError.spec) p : Prop :=
  ∃ a', DlError.es_rep (errors p) a' ∧ a' t = m ∧ ∀ x, x ≠ t → a' x = a x.

(** A failure leaves its own message, whatever user code left before. *)
Lemma set_reports {B} t m msg p a (v : B) r p' :
  reports t m a p → (dlerror_set t msg;; mret v) p = Ret (r, p') →
  r = v ∧ reports t (Some (DlError.message (bytes_of_string msg))) a p'.
Proof.
  intros (b & Hrep & _ & Hb) Hrun. destruct (set_run t msg p _ Hrep) as (e & He & Hrep').
  erewrite st_bind_run in Hrun by exact He. injection Hrun as <- <-. split; [done|].
  eexists. split; [exact Hrep'|]. unfold DlError.spec_put. split; [by rewrite decide_True|].
  intros x Hx. by rewrite decide_False by done; apply Hb.
Qed.

(** What is pending after user code ran on a clear state. *)
Lemma touched_reports t M a p p' m :
  reports t m a p → may_leave t M (Open.rest p) (Open.rest p') → ∃ m', M m m' ∧ reports t m' a p'.
Proof.
  intros (b & Hrep & <- & Hb) Hm. destruct (Hm b Hrep) as (c & Hc & HM & Hx).
  exists (c t). split; [done|]. exists c. split; [done|]. split; [done|]. intros u Hu. by rewrite Hx, Hb.
Qed.
Lemma same_reports t a p p' m : reports t m a p → Open.rest p' = Open.rest p → reports t m a p'.
Proof. unfold reports, errors. by intros H ->. Qed.

Lemma release_handle_inv t M h p r p' :
  Reflexive M → Transitive M → user_code t M → release_handle drop_group h p = Ret (r, p') →
  may_leave t M (Open.rest p) (Open.rest p')
  ∧ ∃ u s', Manager.release_handle h (Open.manager p) = Ret (u, s') ∧ r = bool_decide (is_Some u).
Proof.
  intros HM1 HM2 Huc. unfold release_handle. intros (u & p1 & [He Hr]%borrowed_inv & H)%st_bind_Ret_inv.
  apply st_bind_Ret_inv in H as ([] & p2 & Hd & [= <- <-]). rewrite <-He. destruct u as [u|].
  - split; [by eapply uc_drop|]. by eexists _, _.
  - injection Hd as <-. split; [done|]. by eexists _, _.
Qed.

Section outcomes.
Context (envp : option (list (list Z))) (t : Z) (M : relation (option DlError.cstring)).
Context {HM1 : Reflexive M} {HM2 : Transitive M} (Huc : user_code t M).
Context (a : DlError.spec) (q : Api) (clear : reports t None a q).

Definition outcome_of (c : call) (v : Z) p' : Prop :=
  (∃ text, v = failure c ∧ failed envp c text q ∧ reports t (Some (DlError.message (bytes_of_string text))) a p')
  ∨ (succeeded envp c v q p' ∧ ∃ m, M None m ∧ (match c with CallSym _ _ _ => m = None | _ => True end) ∧ reports t m a p').

Lemma open_outcome f fl ca v p' :
  (match f with
   | None => opened ← Open.open_main; Open.borrow_mut (Manager.register_handle opened)
   | Some filename =>
       let flags := OpenFlags.from_bits_retain fl in
       match from_utf8 filename with
       | None => dlerror_set t "library name is not valid UTF-8";; mret null
       | Some path =>
           r ← Open.open_file envp path flags ca;
           match r with
           | Ok opened => Open.borrow_mut (Manager.register_handle opened)
           | Err error => dlerror_set t (Error_fmt fmt_loader error);; mret null
           end
       end
   end) q = Ret (v, p') → outcome_of (CallOpen f fl ca) v p'.
Proof.
  intros Hrun. destruct f as [f|]; cbv zeta in Hrun.
  - rewrite from_utf8_cases in Hrun. destruct (utf8_valid f) eqn:Hf.
    2:{ left. destruct (set_reports _ _ _ _ _ _ _ _ clear Hrun) as [-> Hr].
        eexists. split; [done|]. split; [by left|exact Hr]. }
    apply st_bind_Ret_inv in Hrun as (r & q' & Ho & Hrun).
    assert (may_leave t M (Open.rest q) (Open.rest q')) as Hm.
    { refine (OpenProps.open_touches (may_leave t M) _ _ _ _ _ _ (uc_relocate _ _ Huc) (uc_initialize _ _ Huc) _ _ _ _ Ho).
      intros i. apply (OpenProps.touches_ret (may_leave t M)). }
    destruct (touched_reports _ _ _ _ _ _ clear Hm) as (m & HMm & Hq'). destruct r as [o|err].
    + right. apply borrowed_inv in Hrun as [He Hreg].
      split; [exists o, q'; split_and!; [done|by eapply register_handle_inv|done|exact Ho]|].
      exists m. split; [done|]. split; [done|]. by eapply same_reports.
    + left. destruct (set_reports _ _ _ _ _ _ _ _ Hq' Hrun) as [-> Hr].
      eexists. split; [done|]. split; [right; by eexists _, _|exact Hr].
  - apply st_bind_Ret_inv in Hrun as (o & q' & Ho & Hrun). pose proof (borrowed_inv _ _ _ _ Ho) as [He _].
    right. apply borrowed_inv in Hrun as [He2 Hreg].
    split; [exists o, q'; split_and!; [done|by eapply register_handle_inv|exact Ho]|].
    exists None. split; [done|]. split; [done|]. eapply same_reports; [exact clear|]. congruence.
Qed.

Lemma sym_outcome h nm ca v p' :
  (match nm with
   | None => dlerror_set t "symbol name is null";; mret null
   | Some symbol_name =>
       match from_utf8 symbol_name with
       | None => dlerror_set t "symbol name is not valid UTF-8";; mret null
       | Some nm =>
           sym ← find_by_handle h ca nm;
           match sym with
           | Ok sym => mret sym
           | Err error => dlerror_set t (Error_fmt fmt_loader error);; mret null
           end
       end
   end) q = Ret (v, p') → outcome_of (CallSym h nm ca) v p'.
Proof.
  intros Hrun. destruct nm as [nm|].
  2:{ left. destruct (set_reports _ _ _ _ _ _ _ _ clear Hrun) as [-> Hr]. by eexists. }
  rewrite from_utf8_cases in Hrun. destruct (utf8_valid nm) eqn:Hn.
  2:{ left. destruct (set_reports _ _ _ _ _ _ _ _ clear Hrun) as [-> Hr].
      eexists. split; [done|]. split; [by left|exact Hr]. }
  apply st_bind_Ret_inv in Hrun as (r & q' & Hf & Hrun). pose proof (find_by_handle_rest _ _ _ _ _ _ Hf) as He.
  pose proof (same_reports _ _ _ _ _ clear He) as Hq'. destruct r as [sym|err].
  - right. injection Hrun as <- <-. split; [by exists nm|]. by exists None.
  - left. destruct (set_reports _ _ _ _ _ _ _ _ Hq' Hrun) as [-> Hr].
    eexists. split; [done|]. split; [right; by eexists _, _|exact Hr].
Qed.

Lemma close_outcome h v p' :
  (if h =? 0 then dlerror_set t "invalid library handle";; mret (-1)
   else
     valid ← release_handle drop_group h;
     if (valid : bool) then mret 0
     else dlerror_set t "invalid library handle";; mret (-1)) q = Ret (v, p') →
  outcome_of (CallClose h) v p'.
Proof.
  intros Hrun. destruct (Z.eqb_spec h 0) as [Hh|Hh].
  { left. destruct (set_reports _ _ _ _ _ _ _ _ clear Hrun) as [-> Hr].
    eexists. split; [done|]. split; [split; [done|by left]|exact Hr]. }
  apply st_bind_Ret_inv in Hrun as (ok & q' & Hrel & Hrun).
  destruct (release_handle_inv t M _ _ _ _ HM1 HM2 Huc Hrel) as (Hm & u & s' & Hs & ->).
  destruct (touched_reports _ _ _ _ _ _ clear Hm) as (m & HMm & Hq'). destruct u as [u|]; simpl in Hrun.
  - right. injection Hrun as <- <-. split; [split; [done|by eexists _, _]|]. by exists m.
  - left. destruct (set_reports _ _ _ _ _ _ _ _ Hq' Hrun) as [-> Hr].
    eexists. split; [done|]. split; [split; [done|right; by eexists]|exact Hr].
Qed.
End outcomes.

(** C13. The error protocol of dlopen, dlsym and dlclose, with user code that
    may fail in calls of its own: constructors and finalizers do to the
    pending message of their thread what [M] allows (any preorder; equality if
    they leave it alone, everything if they use the interface at will).  A call
    on thread [t] first clears the message.  If it fails, it returns its
    failure value, and [dlerror] on that thread returns the message of this
    failure, without NULs, whatever user code left before; if it succeeds, the
    work was done, and [dlerror] returns what the user code run by this call
    left, and null after a search, which runs none.  A second [dlerror] returns
    null, and the messages of other threads and the registry are untouched. *)
Theorem error_protocol envp t M c p a v p' :
  Reflexive M → Transitive M → user_code t M →
  DlError.es_rep (errors p) a → run_call fmt_loader drop_group envp t c p = Ret (v, p') →
  ∃ q r p2 p3, dlerror_clear t p = Ret (tt, q)
    ∧ dlerror t p' = Ret (r, p2) ∧ dlerror t p2 = Ret (None, p3)
    ∧ (∃ e, p3 = with_errors p' e)
    ∧ ((∃ text, v = failure c ∧ failed envp c text q
          ∧ r = Some (DlError.message (bytes_of_string text)) ∧ 0 ∉ DlError.message (bytes_of_string text))
       ∨ (succeeded envp c v q p' ∧ M None r ∧ match c with CallSym _ _ _ => r = None | _ => True end))
    ∧ ∀ u, u ≠ t → ∃ p4, dlerror u p3 = Ret (a u, p4).
Proof.
  intros HM1 HM2 Huc Hrep Hrun. destruct (clear_run t p a Hrep) as (e & Hclr & Hrep1).
  set (q := with_errors p e) in *.
  assert (reports t None a q) as Hq.
  { exists (DlError.spec_put t None a). split; [exact Hrep1|]. unfold DlError.spec_put.
    split; [by rewrite decide_True|]. intros x Hx. by rewrite decide_False. }
  assert (outcome_of envp t M a q c v p') as Hout.
  { destruct c as [f fl ca|h nm ca|h]; simpl run_call in Hrun;
      unfold dlopen_with_caller, dlsym_with_caller, dlclose in Hrun;
      erewrite st_bind_run in Hrun by exact Hclr;
      [by apply open_outcome|by apply sym_outcome|by apply close_outcome]. }
  assert (∃ r, reports t r a p' ∧
    ((∃ text, v = failure c ∧ failed envp c text q
        ∧ r = Some (DlError.message (bytes_of_string text)) ∧ 0 ∉ DlError.message (bytes_of_string text))
     ∨ (succeeded envp c v q p' ∧ M None r ∧ match c with CallSym _ _ _ => r = None | _ => True end)))
    as (r & (a' & Ha' & Ht & Hx) & Hr).
  { destruct Hout as [(text & Hv & Hf & Hm)|(Hs & m & HMm & Hmc & Hm)].
    - eexists. split; [exact Hm|]. left. exists text. split_and!; try done. apply DlError.message_no_nul.
    - exists m. split; [exact Hm|]. by right. }
  destruct (dlerror_run t p' a' Ha') as (e1 & H1 & Hrep2).
  destruct (dlerror_run t (with_errors p' e1) _ Hrep2) as (e2 & H2 & Hrep3).
  rewrite Ht in H1. unfold DlError.spec_put at 1 in H2. rewrite decide_True in H2 by done.
  eexists q, r, _, _. split; [exact Hclr|]. split; [exact H1|]. split; [exact H2|]. split; [by exists e2|]. split; [done|].
  intros u Hu. destruct (dlerror_run u (with_errors p' e2) _ Hrep3) as (e3 & H3 & _).
  exists (with_errors p' e3). etrans; [exact H3|]. unfold DlError.spec_put.
  by rewrite !decide_False, Hx.
Qed.

(** What [dlerror] of the preload library loses: after a call that failed the
    message is pending, the library returns null and leaves it pending. *)
Lemma preload_dlerror_silent t p a :
  DlError.es_rep (errors p) a →
  ∃ p' msg p2, dlclose drop_group t 0 p = Ret (-1, p') ∧ preload_dlerror p' = Ret (null, p')
    ∧ dlerror t p' = Ret (Some msg, p2).
Proof.
  intros Hrep. destruct (clear_run t p a Hrep) as (e1 & H1 & Hr1).
  destruct (set_run t "invalid library handle" (with_errors p e1) _ Hr1) as (e2 & H2 & Hr2).
  destruct (dlerror_run t (with_errors p e2) _ Hr2) as (e3 & H3 & _).
  eexists _, _, _. split; [|split; [reflexivity|]].
  - unfold dlclose. erewrite st_bind_run by exact H1. cbn [Z.eqb]. by erewrite st_bind_run by exact H2.
  - etrans; [exact H3|]. unfold DlError.spec_put. by rewrite decide_True.
Qed.
End props.

Import Toy DlError OpenProps DlApi.
#[local] Existing Instances may_leave_refl may_leave_trans.

(** A loader whose constructors make a call that fails. *)
Abbreviation dl_world := (Open.World toy (nat * nat) nat (unit * DlError.Std.state)).
Definition failing_call `{Build} : st dl_world Z := dlclose (Id := nat) (λ _, mret tt) 7 0.
#[local] Instance calling_linker `{Build} : Open.Linker dl_world toy nat (nat * nat) Z := {|
  Open.Raw := unit; Open.Prepared := list Z; Open.Relocated := list Z; Open.Published := nat * nat;
  Open.Load := nat * nat; Open.Failed := nat * nat;
  Open.load_dylib := Open.load_dylib (Linker := OpenProps.toy_linker (Ext := unit * DlError.Std.state));
  Open.resolve_committed := Open.resolve_committed (Linker := OpenProps.toy_linker (Ext := unit * DlError.Std.state));
  Open.prepare_load := Open.prepare_load (Linker := OpenProps.toy_linker (Ext := unit * DlError.Std.state));
  Open.prepare_mapped := Open.prepare_mapped (Linker := OpenProps.toy_linker (Ext := unit * DlError.Std.state));
  Open.relocate := Open.relocate (Linker := OpenProps.toy_linker (Ext := unit * DlError.Std.state));
  Open.publish := Open.publish (Linker := OpenProps.toy_linker (Ext := unit * DlError.Std.state));
  Open.root_of := snd;
  Open.rollback := Open.rollback (Linker := OpenProps.toy_linker (Ext := unit * DlError.Std.state));
  Open.initialize l := failing_call;; Open.initialize (Linker := OpenProps.toy_linker (Ext := unit * DlError.Std.state)) l;
  Open.failed_rollback := Open.failed_rollback (Linker := OpenProps.toy_linker (Ext := unit * DlError.Std.state));
  Open.into_parts l := (l, [l.2]) |}.
Definition dl_process (n : nat) : dl_world := Open.mkWorld (toy_manager n) false None (tt, DlError.Std.init).

Lemma failing_call_touches `{Build} : touches (may_leave 7 (λ _ _, True)) failing_call.
Proof.
  intros p v p' Hc a Ha. unfold failing_call, dlclose in Hc. destruct (clear_run 7 p a Ha) as (e & He & Hr).
  erewrite st_bind_run in Hc by exact He. cbn [Z.eqb] in Hc.
  destruct (set_run 7 "invalid library handle" (with_errors p e) _ Hr) as (e2 & He2 & Hr2).
  erewrite st_bind_run in Hc by exact He2. injection Hc as _ <-. eexists. split; [exact Hr2|]. split; [done|].
  intros u Hu. unfold DlError.spec_put. by rewrite !decide_False.
Qed.

Lemma calling_user_code `{Build} : user_code (LK := calling_linker) (λ _, mret tt) 7 (λ _ _, True).
Proof.
  assert (Reflexive (λ _ _ : option DlError.cstring, True)) by done.
  assert (Transitive (λ _ _ : option DlError.cstring, True)) by done.
  split.
  - intros plan pr w r w' [= _ <-]. reflexivity.
  - intros pub. apply touches_bind; [apply _|apply failing_call_touches|]. intros _ w r w' [= _ <-]. reflexivity.
  - intros u. apply touches_ret. apply _.
Qed.

Lemma error_protocol_witness :
  let BU : Build := Build_Build true X86_64 in
  let call := CallOpen (Some [70]) 2 0 in
  ∃ v p' r p2, run_call (LK := calling_linker) (λ _, EmptyString) (λ _, mret tt) None 7 call (dl_process 2) = Ret (v, p')
    ∧ dlerror 7 p' = Ret (r, p2) ∧ r = Some (bytes_of_string "invalid library handle")
    ∧ ∃ q, succeeded (LK := calling_linker) None call v q p'.
Proof.
  intros BU call.
  remember (run_call (LK := calling_linker) (λ _, EmptyString) (λ _, mret tt) None 7 call (dl_process 2)) as o eqn:Hrun.
  assert (match o with
          | Ret (v, p') => v ≠ 0 ∧ match dlerror 7 p' with
              Ret (r, _) => r = Some (bytes_of_string "invalid library handle") | _ => False end
          | _ => False
          end) as Hc by (rewrite Hrun; vm_compute; by split).
  destruct o as [[v p']| | |]; [|destruct Hc..]. destruct Hc as [Hv Hr]. symmetry in Hrun.
  assert (Reflexive (λ _ _ : option DlError.cstring, True)) as HM1 by exact (λ _, I).
  assert (Transitive (λ _ _ : option DlError.cstring, True)) as HM2 by exact (λ _ _ _ _ _, I).
  assert (DlError.es_rep (errors (dl_process 2)) (λ _, None)) as Hrep by (intros t; reflexivity).
  pose proof (error_protocol (LK := calling_linker) (λ _, EmptyString) (λ _, mret tt) None 7 (λ _ _, True) call (dl_process 2)
    (λ _, None) v p' HM1 HM2 calling_user_code Hrep Hrun) as (q & r & p2 & p3 & _ & H1 & _ & _ & Hcase & _).
  destruct Hcase as [(text & Hv' & _)|(Hs & _)]; [destruct (Hv Hv')|].
  rewrite H1 in Hr. exists v, p', r, p2. split; [reflexivity|]. split; [exact H1|]. split; [exact Hr|]. exists q. exact Hs.
Defined.
End DlApiProps.
