(* ===== verification/Threads.v ===== *)
(** * Threads over the loader lock

    The code of one thread is a tree of actions: accesses to the shared state,
    accesses to the thread's own state, and taking and releasing the loader
    lock.  A configuration runs many threads over either lock of LoaderLock.v,
    one action at a time.  Two results hold for any code: a run is a run of
    whole critical sections (the serial steps), and code that is safe section
    by section is safe in every interleaving. *)

From stdpp Require Import relations.
From S2P Require Import Prelude LoaderLock.

Module Threads.

(** ** Code *)
Section code.
Context {Sh Lc : Type}.

Inductive code (A : Type) : Type :=
  | Done (a : A)
  | Act (X : Type) (f : st Sh X) (k : X → code A)
  | Local (X : Type) (f : st Lc X) (k : X → code A)
  | Lock (k : code A)
  | Unlock (k : code A).
#[global] Arguments Done {A} a.
#[global] Arguments Act {A X} f k.
#[global] Arguments Local {A X} f k.
#[global] Arguments Lock {A} k.
#[global] Arguments Unlock {A} k.

Fixpoint bind {A B} (c : code A) (g : A → code B) : code B :=
  match c with
  | Done a => g a
  | Act f k => Act f (λ x, bind (k x) g)
  | Local f k => Local f (λ x, bind (k x) g)
  | Lock k => Lock (bind k g)
  | Unlock k => Unlock (bind k g)
  end.
#[global] Instance code_ret : MRet code := λ A, Done.
#[global] Instance code_bind : MBind code := λ A B g c, bind c g.

Definition act {X} (f : st Sh X) : code X := Act f Done.
Definition local {X} (f : st Lc X) : code X := Local f Done.
(** The scope of a guard: [let guard = lock(); ..; drop(guard)]. *)
Definition locked {A} (c : code A) : code A := Lock (x ← c; Unlock (Done x)).

(** The code alone: what the sequential model computes. *)
Fixpoint run {A} (c : code A) (s : Sh) (l : Lc) : outcome (A * (Sh * Lc)) :=
  match c with
  | Done a => Ret (a, (s, l))
  | Act f k => '(x, s') ← f s; run (k x) s' l
  | Local f k => '(x, l') ← f l; run (k x) s l'
  | Lock k | Unlock k => run k s l
  end.

(** Every guard that is taken is dropped, and [n] guards of callers are. *)
Fixpoint balanced {A} (n : nat) (c : code A) : Prop :=
  match c with
  | Done _ => n = O
  | Act f k => ∀ x, balanced n (k x)
  | Local f k => ∀ x, balanced n (k x)
  | Lock k => balanced (1 + n) k
  | Unlock k => match n with O => False | S n => balanced n k end
  end.

(** The registry is only accessed under a guard. *)
Fixpoint guarded {A} (n : nat) (c : code A) : Prop :=
  match c with
  | Done _ => True
  | Act f k => n ≠ O ∧ ∀ x, guarded n (k x)
  | Local f k => ∀ x, guarded n (k x)
  | Lock k => guarded (1 + n) k
  | Unlock k => match n with O => False | S n => guarded n k end
  end.

(** From inside of a section, with [n] guards besides the one that began it, to
    the drop of that guard: the code behind it and the states there. *)
Fixpoint section {A} (n : nat) (c : code A) (s : Sh) (l : Lc) : outcome (code A * (Sh * Lc)) :=
  match c with
  | Done _ => Panic
  | Act f k => '(x, s') ← f s; section n (k x) s' l
  | Local f k => '(x, l') ← f l; section n (k x) s l'
  | Lock k => section (S n) k s l
  | Unlock k => match n with O => Ret (k, (s, l)) | S n => section n k s l end
  end.

Lemma run_bind {A B} (c : code A) (g : A → code B) s l :
  run (bind c g) s l = ('(a, (s', l')) ← run c s l; run (g a) s' l').
Proof.
  revert s l. induction c as [a|X h k IH|X h k IH|k IH|k IH]; intros s l; simpl; try done.
  - destruct (h s) as [[x s']| | |]; simpl; auto.
  - destruct (h l) as [[x l']| | |]; simpl; auto.
Qed.

Lemma run_locked {A} (c : code A) s l : run (locked c) s l = run c s l.
Proof.
  unfold locked. simpl. unfold mbind, code_bind. rewrite run_bind.
  by destruct (run c s l) as [[a [s' l']]| | |].
Qed.

(** A section of balanced code computes what the code computes alone. *)
Lemma section_bind {A B} n m (c : code A) (g : A → code B) s l :
  balanced n c → section (n + m) (bind c g) s l = ('(a, (s', l')) ← run c s l; section m (g a) s' l').
Proof.
  revert n s l. induction c as [a|X h k IH|X h k IH|k IH|k IH]; intros n s l Hb; simpl in *.
  - by subst.
  - destruct (h s) as [[x s']| | |]; simpl; auto.
  - destruct (h l) as [[x l']| | |]; simpl; auto.
  - by apply (IH (S n)).
  - destruct n; [done|]. by apply IH.
Qed.

(** A guard's scope as a whole. *)
Lemma section_locked {A B} (c : code A) (g : A → code B) s l :
  balanced 0 c → ∃ k, bind (locked c) g = Lock k
    ∧ section 0 k s l = ('(a, (s', l')) ← run c s l; Ret (g a, (s', l'))).
Proof.
  intros Hb. eexists. split; [reflexivity|]. unfold mbind, code_bind.
  assert (∀ n s l, balanced n c → section n (bind (bind c (λ x, Unlock (Done x))) g) s l
    = ('(a, (s', l')) ← run c s l; Ret (g a, (s', l')))) as H; [|by apply H].
  clear. induction c as [a|X h k IH|X h k IH|k IH|k IH]; intros n s l Hb; simpl in *.
  - by subst.
  - destruct (h s) as [[x s']| | |]; simpl; auto.
  - destruct (h l) as [[x l']| | |]; simpl; auto.
  - auto.
  - destruct n; [done|]. auto.
Qed.

Lemma balanced_bind {A B} n m (c : code A) (g : A → code B) :
  balanced n c → (∀ a, balanced m (g a)) → balanced (n + m) (bind c g).
Proof.
  intros Hc Hg. revert n Hc. induction c as [a|X h k IH|X h k IH|k IH|k IH]; intros n Hc; simpl in *; auto.
  - by subst.
  - by apply (IH (S n)).
  - destruct n; [done|]. by apply IH.
Qed.
Lemma balanced_locked {A} (c : code A) : balanced 0 c → balanced 0 (locked c).
Proof.
  intros Hc. unfold locked. simpl. change 1%nat with (0 + 1)%nat. by apply balanced_bind.
Qed.

Lemma guarded_bind {A B} n m (c : code A) (g : A → code B) :
  balanced n c → guarded (n + m) c → (∀ a, guarded m (g a)) → guarded (n + m) (bind c g).
Proof.
  intros Hb Hc Hg. revert n Hb Hc. induction c as [a|X h k IH|X h k IH|k IH|k IH]; intros n Hb Hc; simpl in *; auto.
  - by subst.
  - destruct Hc. auto.
  - by apply (IH (S n)).
  - destruct n; [done|]. by apply IH.
Qed.
End code.
Arguments code : clear implicits.

(** ** Configurations *)
Section threads.
Context {Sh Lc A L : Type} {RL : ReentrantLock L}.
Local Abbreviation prog := (code Sh Lc A).
Local Abbreviation pool := (gmap Z (prog * Lc)).

Record config := mk { lock : L; shared : Sh; threads : pool }.

(** The lock may move on its own; a thread takes or drops a guard when its code
    says so, accesses the registry only while it holds one, and its own state
    at any time. *)
Inductive step : config → config → Prop :=
  | step_lock c l' :
      rl_step (lock c) l' → (∀ u, rl_guards l' u = rl_guards (lock c) u) →
      step c (mk l' (shared c) (threads c))
  | step_acquire c t k lc l' :
      threads c !! t = Some (Lock k, lc) → rl_step (lock c) l' →
      (∀ u, rl_guards l' u = if decide (u = t) then S (rl_guards (lock c) u) else rl_guards (lock c) u) →
      step c (mk l' (shared c) (<[t := (k, lc)]> (threads c)))
  | step_release c t k lc l' :
      threads c !! t = Some (Unlock k, lc) → rl_step (lock c) l' →
      (∀ u, rl_guards (lock c) u = if decide (u = t) then S (rl_guards l' u) else rl_guards l' u) →
      step c (mk l' (shared c) (<[t := (k, lc)]> (threads c)))
  | step_act c t X (f : st Sh X) k lc x s' :
      threads c !! t = Some (Act f k, lc) → rl_guards (lock c) t ≠ O → f (shared c) = Ret (x, s') →
      step c (mk (lock c) s' (<[t := (k x, lc)]> (threads c)))
  | step_local c t X (f : st Lc X) k lc x lc' :
      threads c !! t = Some (Local f k, lc) → f lc = Ret (x, lc') →
      step c (mk (lock c) (shared c) (<[t := (k x, lc')]> (threads c))).

Definition start (s : Sh) (ts : pool) : config := mk rl_init s ts.
Definition free (c : config) : Prop := ∀ t, rl_guards (lock c) t = O.

(** ** Serial steps: a whole critical section, or one access to own state *)

Inductive serial : Sh * pool → Sh * pool → Prop :=
  | serial_section s ts t k lc s' k' lc' :
      ts !! t = Some (Lock k, lc) → section 0 k s lc = Ret (k', (s', lc')) →
      serial (s, ts) (s', <[t := (k', lc')]> ts)
  | serial_local s ts t X (f : st Lc X) k lc x lc' :
      ts !! t = Some (Local f k, lc) → f lc = Ret (x, lc') →
      serial (s, ts) (s, <[t := (k x, lc')]> ts).

(** A configuration and the serial state it stands for: while a thread is in a
    section, the serial state is the one before the section. *)
Definition stands_for (c : config) (x : Sh * pool) : Prop :=
  (free c ∧ x = (shared c, threads c))
  ∨ ∃ t n k lc0 code lc, rl_guards (lock c) t = S n ∧ threads c !! t = Some (code, lc)
      ∧ x.2 = <[t := (Lock k, lc0)]> (threads c)
      ∧ section 0 k x.1 lc0 = section n code (shared c) lc.

Record inv (c : config) (x : Sh * pool) : Prop := {
  inv_lock : rtc rl_step rl_init (lock c);
  inv_stands : stands_for c x }.

Lemma guards_unique c x t u :
  inv c x → rl_guards (lock c) t ≠ O → rl_guards (lock c) u ≠ O → t = u.
Proof. intros [Hr _]. by apply Registry.lock_owner_unique. Qed.

Lemma inv_start s ts : inv (start s ts) (s, ts).
Proof.
  split; [constructor|]. left. split; [|done]. intros t. simpl.
  destruct (rl_guards rl_init t) eqn:Hg; [done|].
  destruct (rl_owner rl_init t) as [m Hn]; [constructor|by rewrite Hg|]. by rewrite rl_init_abs in Hn.
Qed.

(** The owner goes on inside of its section. *)
Lemma inv_inner c x t n m code lc code' lc' s' l' :
  inv c x → rtc rl_step rl_init l' → rl_guards (lock c) t = S n → rl_guards l' t = S m →
  threads c !! t = Some (code, lc) → section n code (shared c) lc = section m code' s' lc' →
  inv (mk l' s' (<[t := (code', lc')]> (threads c))) x.
Proof.
  intros Hinv Hl Hg Hg' Ht Hin. assert (rl_guards (lock c) t ≠ O) as Hg0 by (by rewrite Hg).
  pose proof (λ u, guards_unique c x t u Hinv Hg0) as Hu.
  destruct Hinv as [_ [[Hf _]|(t' & n' & k & lc0 & cd & lcd & Hn' & Ht' & Hx & Hp)]]; [by rewrite Hf in Hg|].
  assert (t = t') as <- by (apply Hu; by rewrite Hn').
  rewrite Ht in Ht'. injection Ht' as <- <-. rewrite Hg in Hn'. injection Hn' as <-.
  split; [done|]. right. exists t, m, k, lc0, code', lc'. simpl. split_and!; [done| | |].
  - by rewrite lookup_insert_eq.
  - by rewrite Hx, insert_insert_eq.
  - by rewrite Hp.
Qed.

(** A thread that holds no guard takes its first: its section begins. *)
Lemma inv_enter c x t k lc l' :
  inv c x → rtc rl_step rl_init l' → rl_guards (lock c) t = O → threads c !! t = Some (Lock k, lc) →
  (∀ u, rl_guards l' u = if decide (u = t) then S (rl_guards (lock c) u) else rl_guards (lock c) u) →
  inv (mk l' (shared c) (<[t := (k, lc)]> (threads c))) x.
Proof.
  intros [_ Hst] Hr Hn Ht Hg. pose proof (Hg t) as Hgt. rewrite decide_True, Hn in Hgt by done.
  split; [done|]. destruct Hst as [[Hf ->]|(t' & n' & k' & lc0 & cd & lcd & Hn' & Ht' & Hx & Hp)].
  - right. exists t, O, k, lc, k, lc. simpl. by rewrite lookup_insert_eq, insert_insert_eq, insert_id.
  - exfalso. assert (t = t') as <-; [|by rewrite Hn in Hn'].
    apply (Registry.lock_owner_unique l'); [done|by rewrite Hgt|]. rewrite Hg. case_decide; by rewrite Hn'.
Qed.

(** It drops its last: the whole section is one serial step. *)
Lemma inv_leave c x t k lc l' :
  inv c x → rtc rl_step rl_init l' → rl_guards l' t = O → threads c !! t = Some (Unlock k, lc) →
  (∀ u, rl_guards (lock c) u = if decide (u = t) then S (rl_guards l' u) else rl_guards l' u) →
  ∃ y, serial x y ∧ inv (mk l' (shared c) (<[t := (k, lc)]> (threads c))) y.
Proof.
  intros Hinv Hr Hm Ht Hg. pose proof (Hg t) as Hgt. rewrite decide_True, Hm in Hgt by done.
  assert (rl_guards (lock c) t ≠ O) as Hg0 by (by rewrite Hgt).
  pose proof (λ u, guards_unique c x t u Hinv Hg0) as Hu.
  destruct Hinv as [_ [[Hf _]|(t' & n' & k' & lc0 & cd & lcd & Hn' & Ht' & Hx & Hp)]]; [by rewrite Hf in Hgt|].
  assert (t = t') as <- by (apply Hu; by rewrite Hn').
  rewrite Ht in Ht'. injection Ht' as <- <-. rewrite Hgt in Hn'. injection Hn' as <-.
  exists (shared c, <[t := (k, lc)]> x.2). split.
  - destruct x as [s ts]. eapply serial_section; [|exact Hp]. simpl in *. by rewrite Hx, lookup_insert_eq.
  - split; [done|]. left. rewrite Hx, insert_insert_eq. split; [|done].
    intros u. simpl. destruct (decide (u = t)) as [->|Hne]; [done|].
    specialize (Hg u). rewrite decide_False in Hg by done. rewrite <-Hg.
    destruct (rl_guards (lock c) u) eqn:Hgu; [done|]. destruct Hne. symmetry. apply Hu. by rewrite Hgu.
Qed.

(** A thread without a guard works on its own state. *)
Lemma inv_local c x t X (f : st Lc X) k lc r lc' :
  inv c x → rl_guards (lock c) t = O → threads c !! t = Some (Local f k, lc) → f lc = Ret (r, lc') →
  ∃ y, serial x y ∧ inv (mk (lock c) (shared c) (<[t := (k r, lc')]> (threads c))) y.
Proof.
  intros [Hl Hst] Hn Ht Hf.
  destruct Hst as [[Hfr ->]|(t' & n' & k' & lc0 & cd & lcd & Hn' & Ht' & Hx & Hp)].
  - eexists. split; [by eapply serial_local|]. split; [done|]. by left.
  - assert (t ≠ t') as Hne by (intros ->; by rewrite Hn in Hn').
    exists (x.1, <[t := (k r, lc')]> x.2). split.
    { destruct x as [s ts]. eapply serial_local; [|exact Hf]. simpl in *. by rewrite Hx, lookup_insert_ne. }
    split; [done|]. right. exists t', n', k', lc0, cd, lcd. simpl. split_and!; [done| | |done].
    + by rewrite lookup_insert_ne.
    + rewrite Hx. by rewrite insert_insert_ne.
Qed.

Lemma threads_inv_step c c' x : inv c x → step c c' → ∃ y, rtc serial x y ∧ inv c' y.
Proof.
  intros Hinv Hs. pose proof (inv_lock _ _ Hinv) as Hl.
  destruct Hs as [c l' Hl' Hg|c t k lc l' Ht Hl' Hg|c t k lc l' Ht Hl' Hg|c t X f k lc r s' Ht Hg Hf|c t X f k lc r lc' Ht Hf].
  - exists x. split; [done|]. split; [by eapply rtc_r|].
    destruct (inv_stands _ _ Hinv) as [[Hf ->]|(t & n & Hrest)]; [left|right].
    + split; [|done]. intros t. simpl. by rewrite Hg.
    + exists t, n. simpl. by rewrite Hg.
  - assert (rtc rl_step rl_init l') as Hr by (by eapply rtc_r). exists x. split; [done|].
    destruct (rl_guards (lock c) t) as [|n] eqn:Hn; [by apply inv_enter|].
    pose proof (Hg t) as Hgt. rewrite decide_True, Hn in Hgt by done. by eapply inv_inner.
  - assert (rtc rl_step rl_init l') as Hr by (by eapply rtc_r).
    destruct (rl_guards l' t) as [|m] eqn:Hm.
    + destruct (inv_leave c x t k lc l') as (y & Hy & Hi); try done. exists y. split; [by apply rtc_once|done].
    + pose proof (Hg t) as Hgt. rewrite decide_True, Hm in Hgt by done. exists x. split; [done|]. by eapply inv_inner.
  - destruct (rl_guards (lock c) t) as [|n] eqn:Hn; [done|].
    exists x. split; [done|]. eapply inv_inner; try done. simpl. by rewrite Hf.
  - destruct (rl_guards (lock c) t) as [|n] eqn:Hn.
    + destruct (inv_local c x t X f k lc r lc') as (y & Hy & Hi); try done. exists y. split; [by apply rtc_once|done].
    + exists x. split; [done|]. eapply inv_inner; try done. simpl. by rewrite Hf.
Qed.

Lemma threads_inv_reachable s0 ts0 c :
  rtc step (start s0 ts0) c → ∃ x, rtc serial (s0, ts0) x ∧ inv c x.
Proof.
  intros Hr. assert (∀ d x, rtc serial (s0, ts0) x → inv d x → rtc step d c →
    ∃ y, rtc serial (s0, ts0) y ∧ inv c y) as H.
  { clear Hr. intros d x Hx Hi Hd. revert x Hx Hi. induction Hd as [d|d e f Hde _ IH]; intros x Hx Hi; [eauto|].
    destruct (threads_inv_step d e x Hi Hde) as (y & Hy & Hie). apply (IH y); [by etrans|done]. }
  eapply H; [done|apply inv_start|done].
Qed.
End threads.
Arguments config Sh Lc A L : clear implicits.

(** ** Safe code

    Threads own resources; [I s rs] relates the shared state with no section
    running to all resources.  A section may use the resources of its thread,
    keeps those of the others, and must not get stuck. *)
Section safe.
Context {Sh Lc Res : Type} (I : Sh → list Res → Prop).

Section code.
Context {A : Type} (Q : A → Lc → list Res → Prop).
Fixpoint safe (c : code Sh Lc A) (lc : Lc) (own : list Res) : Prop :=
  match c with
  | Done a => Q a lc own
  | Act _ _ | Unlock _ => False
  | Local f k => ∃ x lc', f lc = Ret (x, lc') ∧ safe (k x) lc' own
  | Lock k => ∀ s rest, I s (own ++ rest) → inside O k s lc rest
  end
with inside (n : nat) (c : code Sh Lc A) (s : Sh) (lc : Lc) (rest : list Res) : Prop :=
  match c with
  | Done _ => False
  | Act f k => ∃ x s', f s = Ret (x, s') ∧ inside n (k x) s' lc rest
  | Local f k => ∃ x lc', f lc = Ret (x, lc') ∧ inside n (k x) s lc' rest
  | Lock k => inside (S n) k s lc rest
  | Unlock k =>
      match n with
      | O => ∃ own, I s (own ++ rest) ∧ safe k lc own
      | S n => inside n k s lc rest
      end
  end.
End code.

Section rules.
Context {A B : Type}.
Implicit Types (own rest extra : list Res).

(** The scheme for [safe] and [inside] together. *)
Lemma safe_bind_both (Q : B → Lc → list Res → Prop) (g : A → code Sh Lc B) (c : code Sh Lc A) :
  (∀ lc own, safe (λ a lc own, safe Q (g a) lc own) c lc own → safe Q (bind c g) lc own)
  ∧ (∀ n s lc rest, inside (λ a lc own, safe Q (g a) lc own) n c s lc rest → inside Q n (bind c g) s lc rest).
Proof.
  induction c as [a|X f k IH|X f k IH|k [IH1 IH2]|k [IH1 IH2]]; split; simpl; try done.
  - intros n s lc rest (x & s' & Hf & H). exists x, s'. split; [done|]. by apply IH.
  - intros lc own (x & lc' & Hf & H). exists x, lc'. split; [done|]. by apply IH.
  - intros n s lc rest (x & lc' & Hf & H). exists x, lc'. split; [done|]. by apply IH.
  - auto.
  - auto.
  - intros [|n] s lc rest; [|by apply IH2]. intros (own & Hi & H). exists own. auto.
Qed.
Lemma safe_bind (Q : B → Lc → list Res → Prop) (g : A → code Sh Lc B) (c : code Sh Lc A) lc own :
  safe (λ a lc own, safe Q (g a) lc own) c lc own → safe Q (bind c g) lc own.
Proof. apply safe_bind_both. Qed.

Lemma safe_mono_both (Q Q' : A → Lc → list Res → Prop) extra (c : code Sh Lc A) :
  (∀ a lc own, Q a lc own → Q' a lc (own ++ extra)) →
  (∀ lc own, safe Q c lc own → safe Q' c lc (own ++ extra))
  ∧ (∀ n s lc rest, inside Q n c s lc (extra ++ rest) → inside Q' n c s lc rest).
Proof.
  intros HQ. induction c as [a|X f k IH|X f k IH|k [IH1 IH2]|k [IH1 IH2]]; split; simpl; try done.
  - intros lc own. apply HQ.
  - intros n s lc rest (x & s' & Hf & H). exists x, s'. split; [done|]. by apply IH.
  - intros lc own (x & lc' & Hf & H). exists x, lc'. split; [done|]. by apply IH.
  - intros n s lc rest (x & lc' & Hf & H). exists x, lc'. split; [done|]. by apply IH.
  - intros lc own H s rest Hi. apply IH2, H. by rewrite (assoc_L (++)).
  - auto.
  - intros [|n] s lc rest; [|by apply IH2]. intros (own & Hi & H). exists (own ++ extra).
    rewrite <-(assoc_L (++)). auto.
Qed.
(** The resources of a caller are left alone. *)
Lemma safe_frame (Q Q' : A → Lc → list Res → Prop) extra (c : code Sh Lc A) lc own :
  (∀ a lc own, Q a lc own → Q' a lc (own ++ extra)) →
  safe Q c lc own → safe Q' c lc (own ++ extra).
Proof. intros HQ. by apply safe_mono_both. Qed.
Lemma safe_mono (Q Q' : A → Lc → list Res → Prop) (c : code Sh Lc A) lc own :
  (∀ a lc own, Q a lc own → Q' a lc own) → safe Q c lc own → safe Q' c lc own.
Proof.
  intros HQ Hc. rewrite <-(app_nil_r own). eapply safe_frame; [|exact Hc].
  intros. rewrite app_nil_r. auto.
Qed.

Lemma safe_perm (Q : A → Lc → list Res → Prop) (c : code Sh Lc A) lc own own' :
  (∀ s r1 r2, r1 ≡ₚ r2 → I s r1 → I s r2) → (∀ a lc r1 r2, r1 ≡ₚ r2 → Q a lc r1 → Q a lc r2) →
  own ≡ₚ own' → safe Q c lc own → safe Q c lc own'.
Proof.
  intros HI HQ Hp. revert lc. induction c as [a|X f k IH|X f k IH|k _|k _]; intros lc; simpl; try done.
  - by apply HQ.
  - intros (x & lc' & Hf & H). exists x, lc'. auto.
  - intros H s rest Hi. apply H. eapply HI; [|exact Hi]. by rewrite Hp.
Qed.

(** A section is safe when the code alone returns and restores the invariant. *)
Lemma inside_run (Q : B → Lc → list Res → Prop) (g : A → code Sh Lc B) (c : code Sh Lc A) m n s l x s' l' rest :
  balanced m c → run c s l = Ret (x, (s', l')) →
  inside Q n (g x) s' l' rest → inside Q (m + n) (bind c g) s l rest.
Proof.
  revert m s l. induction c as [a|X f k IH|X f k IH|k IH|k IH]; intros m s l Hb Hr Hin; simpl in *.
  - subst m. by injection Hr as -> -> ->.
  - destruct (f s) as [[y s1]| | |] eqn:Hf; try done. eauto.
  - destruct (f l) as [[y l1]| | |] eqn:Hf; try done. eauto.
  - by apply (IH (S m)).
  - destruct m as [|m]; [done|]. by apply (IH m).
Qed.
End rules.

Lemma safe_locked {A} (Q : A → Lc → list Res → Prop) (c : code Sh Lc A) lc (own : list Res) :
  balanced 0 c →
  (∀ s rest, I s (own ++ rest) → ∃ x s' lc' own', run c s lc = Ret (x, (s', lc'))
     ∧ I s' (own' ++ rest) ∧ Q x lc' own') →
  safe Q (locked c) lc own.
Proof.
  intros Hb H s rest Hi. destruct (H s rest Hi) as (x & s' & lc' & own' & Hr & Hi' & HQ).
  simpl. unfold mbind, code_bind. apply (inside_run Q _ c 0 0 s lc x s' lc'); [done..|]. simpl. eauto.
Qed.

(** ** Safe threads in every interleaving *)
Section adequacy.
Context {A L : Type} {RL : ReentrantLock L}.
Context (I_perm : ∀ s r1 r2, r1 ≡ₚ r2 → I s r1 → I s r2).
Context (Q : Z → A → Lc → list Res → Prop).
Local Abbreviation pool := (gmap Z (code Sh Lc A * Lc)).

Definition total (om : gmap Z (list Res)) : list Res := map_to_list om ≫= λ p, p.2.
Lemma total_delete om t own : om !! t = Some own → total om ≡ₚ own ++ total (delete t om).
Proof.
  intros Ht. unfold total. rewrite <-(insert_delete_id om t own) at 1 by done.
  by rewrite map_to_list_insert by apply lookup_delete_eq.
Qed.
Lemma total_insert om t own : total (<[t := own]> om) ≡ₚ own ++ total (delete t om).
Proof. unfold total. rewrite <-insert_delete_eq. by rewrite map_to_list_insert by apply lookup_delete_eq. Qed.

(** Every thread is safe with its resources. *)
Definition threads_safe (om : gmap Z (list Res)) (ts : pool) : Prop :=
  ∀ t, match ts !! t with
  | Some (c, lc) => ∃ own, om !! t = Some own ∧ safe (Q t) c lc own
  | None => om !! t = None
  end.
Definition ok (x : Sh * pool) : Prop := ∃ om, I x.1 (total om) ∧ threads_safe om x.2.

Lemma threads_safe_lookup om ts t c lc :
  threads_safe om ts → ts !! t = Some (c, lc) → ∃ own, om !! t = Some own ∧ safe (Q t) c lc own.
Proof. intros H Ht. specialize (H t). by rewrite Ht in H. Qed.
Lemma threads_safe_insert om ts t own c lc :
  threads_safe om ts → safe (Q t) c lc own → threads_safe (<[t := own]> om) (<[t := (c, lc)]> ts).
Proof.
  intros Hs Hc u. destruct (decide (u = t)) as [->|Hne].
  - rewrite !lookup_insert_eq. eauto.
  - rewrite !lookup_insert_ne by done. apply (Hs u).
Qed.

Lemma inside_section t n c s lc rest :
  inside (Q t) n c s lc rest → ∃ k s' lc' own, section n c s lc = Ret (k, (s', lc'))
    ∧ I s' (own ++ rest) ∧ safe (Q t) k lc' own.
Proof.
  revert n s lc. induction c as [a|X f k IH|X f k IH|k IH|k IH]; intros n s lc; simpl; try done.
  - intros (x & s' & -> & H). by apply IH in H.
  - intros (x & l' & -> & H). by apply IH in H.
  - by intros H%IH.
  - destruct n as [|n]; [|by intros H%IH]. intros (own & Hi & Hk). by exists k, s, lc, own.
Qed.

Lemma serial_ok x y : serial x y → ok x → ok y.
Proof.
  intros Hs (om & Hi & Hts). destruct Hs as [s ts t k lc s' k' lc' Ht Hp|s ts t X f k lc x lc' Ht Hf];
    simpl in Hi, Hts; destruct (threads_safe_lookup _ _ _ _ _ Hts Ht) as (own & Ho & Hsafe); simpl in Hsafe.
  - destruct (inside_section t 0 k s lc (total (delete t om))) as (k1 & s1 & l1 & own' & Hsec & Hi' & Hk).
    { apply Hsafe. eapply I_perm; [|exact Hi]. by apply total_delete. }
    rewrite Hp in Hsec. injection Hsec as <- <- <-. exists (<[t := own']> om). simpl.
    split; [|by apply threads_safe_insert]. eapply I_perm; [|exact Hi']. symmetry. apply total_insert.
  - destruct Hsafe as (x' & l & Hf' & Hk). rewrite Hf in Hf'. injection Hf' as <- <-.
    exists om. split; [done|]. simpl. rewrite <-(insert_id om t own) by done. by apply threads_safe_insert.
Qed.

(** The next action of a thread that holds [g] guards goes through. *)
Definition can_go (g : nat) (c : code Sh Lc A) (s : Sh) (lc : Lc) : Prop :=
  match c with
  | Done _ | Lock _ => True
  | Act f _ => g ≠ O ∧ ∃ x s', f s = Ret (x, s')
  | Local f _ => ∃ x lc', f lc = Ret (x, lc')
  | Unlock _ => g ≠ O
  end.
Lemma safe_can_go t g c s lc own : safe (Q t) c lc own → can_go g c s lc.
Proof. destruct c as [a|X f k|X f k|k|k]; simpl; try done. intros (x & lc' & Hf & _). eauto. Qed.
Lemma section_can_go n c s lc y : section n c s lc = Ret y → can_go (S n) c s lc.
Proof.
  destruct c as [a|X f k|X f k|k|k]; simpl; try done.
  - intros ([x s'] & Hf & _)%bind_Ret_inv. eauto.
  - intros ([x lc'] & Hf & _)%bind_Ret_inv. eauto.
Qed.

(** The serial state behind a reachable configuration is in order. *)
Lemma serial_reachable s0 (ts0 : pool) (c : config Sh Lc A L) :
  ok (s0, ts0) → rtc step (start s0 ts0) c → ∃ x, ok x ∧ inv c x.
Proof.
  intros Hok Hr. destruct (threads_inv_reachable s0 ts0 c Hr) as (x & Hx & Hinv). exists x. split; [|done].
  clear -Hok Hx I_perm. induction Hx as [|x y z Hxy _ IH]; [done|]. apply IH. by eapply serial_ok.
Qed.

(** The owner of the lock is in a section that ends. *)
Lemma owner_section (c : config Sh Lc A L) x t n :
  ok x → inv c x → rl_guards (lock c) t = S n →
  ∃ code lc y lc0 k, threads c !! t = Some (code, lc) ∧ section n code (shared c) lc = Ret y
    ∧ x.2 = <[t := (Lock k, lc0)]> (threads c).
Proof.
  intros (om & Hi & Hts) Hinv Hn. assert (rl_guards (lock c) t ≠ O) as Hg by (by rewrite Hn).
  pose proof (λ u, guards_unique c x t u Hinv Hg) as Hu.
  destruct Hinv as [_ [[Hf _]|(t' & n' & k & lc0 & cd & lcd & Hn' & Ht & Hxe & Hp)]]; [by rewrite Hf in Hn|].
  assert (t = t') as <- by (apply Hu; by rewrite Hn'). rewrite Hn in Hn'. injection Hn' as <-.
  rewrite Hxe in Hts.
  destruct (threads_safe_lookup om _ t (Lock k) lc0 Hts) as (own & Ho & Hs); [by rewrite lookup_insert_eq|].
  destruct (inside_section t 0 k x.1 lc0 (total (delete t om))) as (k1 & s1 & l1 & own' & Hsec & _).
  { apply Hs. eapply I_perm; [|exact Hi]. by apply total_delete. }
  rewrite Hp in Hsec. by eexists _, _, _, lc0, k.
Qed.

Lemma safe_threads s0 (ts0 : pool) (c : config Sh Lc A L) :
  ok (s0, ts0) → rtc step (start s0 ts0) c →
  (free c → ok (shared c, threads c))
  ∧ ∀ t code lc, threads c !! t = Some (code, lc) →
      can_go (rl_guards (lock c) t) code (shared c) lc
      ∧ ∀ a, code = Done a → ∃ own, Q t a lc own.
Proof.
  intros Hok Hr. destruct (serial_reachable s0 ts0 c Hok Hr) as (x & Hokx & Hinv). split.
  - intros Hf. destruct Hinv as [_ [[_ ->]|(t & n & _ & _ & _ & _ & Hn & _)]]; [done|]. by rewrite Hf in Hn.
  - intros u code lc Hu. destruct (rl_guards (lock c) u) as [|n] eqn:Hn.
    + assert (x.2 !! u = Some (code, lc)) as Hxu.
      { destruct Hinv as [_ [[_ ->]|(t & n & k & lc0 & _ & _ & Hn' & _ & -> & _)]]; [done|].
        rewrite lookup_insert_ne; [done|]. by intros ->; rewrite Hn in Hn'. }
      destruct Hokx as (om & Hi & Hts). destruct (threads_safe_lookup _ _ _ _ _ Hts Hxu) as (own & _ & Hs).
      split; [by eapply safe_can_go|]. intros a ->. by exists own.
    + destruct (owner_section c x u n Hokx Hinv Hn) as (cd & lcd & y & lc0 & k & Ht & Hs & _).
      rewrite Hu in Ht. injection Ht as <- <-. split; [by eapply section_can_go|]. by intros a ->.
Qed.
End adequacy.
End safe.

(** ** Running interleavings

    The abstract lock is a lock; over it a schedule is a list of threads. *)
Definition spec_guards (l : lock_spec) (t : Z) : nat :=
  match l with Some (o, n) => if decide (o = t) then n else O | None => O end.
#[export] Program Instance spec_lock : ReentrantLock lock_spec := {|
  rl_init := None; rl_step := spec_step; rl_guards := spec_guards; rl_abs l := l |}.
Next Obligation. done. Qed.
Next Obligation. by right. Qed.
Next Obligation.
  intros [[o n]|] t _; simpl; [|done]. case_decide; [subst; eauto|done].
Qed.

Definition spec_acquired (l : lock_spec) (t : Z) : option lock_spec :=
  match l with
  | None => Some (Some (t, 1%nat))
  | Some (o, S n) => if decide (o = t) then Some (Some (t, S (S n))) else None
  | Some (_, O) => None
  end.
Definition spec_released (l : lock_spec) (t : Z) : option lock_spec :=
  match l with
  | Some (o, S (S n)) => if decide (o = t) then Some (Some (t, S n)) else None
  | Some (o, S O) => if decide (o = t) then Some None else None
  | _ => None
  end.

Section exec.
Context {Sh Lc A : Type}.
Local Abbreviation cfg := (config Sh Lc A lock_spec).

Definition exec_step (t : Z) (c : cfg) : option cfg :=
  '(code, lc) ← threads c !! t;
  match code with
  | Done _ => None
  | Act f k =>
      '(x, s') ← (if decide (spec_guards (lock c) t = O) then None else outcome_value (f (shared c)));
      Some (mk (lock c) s' (<[t := (k x, lc)]> (threads c)))
  | Local f k => '(x, lc') ← outcome_value (f lc); Some (mk (lock c) (shared c) (<[t := (k x, lc')]> (threads c)))
  | Lock k => l' ← spec_acquired (lock c) t; Some (mk l' (shared c) (<[t := (k, lc)]> (threads c)))
  | Unlock k => l' ← spec_released (lock c) t; Some (mk l' (shared c) (<[t := (k, lc)]> (threads c)))
  end.
Fixpoint exec (schedule : list Z) (c : cfg) : option cfg :=
  match schedule with [] => Some c | t :: schedule => c' ← exec_step t c; exec schedule c' end.

Lemma spec_acquired_step l t l' :
  spec_acquired l t = Some l' → spec_step l l' ∧ ∀ u, spec_guards l' u = if decide (u = t) then S (spec_guards l u) else spec_guards l u.
Proof.
  destruct l as [[o [|n]]|]; simpl; [done| |]; [case_decide as Ho; [subst|done]|]; intros [= <-];
    (split; [constructor|intros u; simpl; repeat case_decide; congruence]).
Qed.
Lemma spec_released_step l t l' :
  spec_released l t = Some l' → spec_step l l' ∧ ∀ u, spec_guards l u = if decide (u = t) then S (spec_guards l' u) else spec_guards l' u.
Proof.
  destruct l as [[o [|[|n]]]|]; simpl; [done| | |done]; (case_decide as Ho; [subst|done]); intros [= <-];
    (split; [constructor|intros u; simpl; repeat case_decide; congruence]).
Qed.

Lemma exec_step_sound t c c' : exec_step t c = Some c' → step c c'.
Proof.
  unfold exec_step. intros ([code lc] & Ht & H)%bind_Some. destruct code as [a|X f k|X f k|k|k]; [done|..].
  - apply bind_Some in H as ([x s'] & Hf & [= <-]). case_decide as Hg; [done|].
    destruct (f (shared c)) as [[]| | |] eqn:Hfs; try done. injection Hf as -> ->. by eapply step_act.
  - apply bind_Some in H as ([x l'] & Hf & [= <-]).
    destruct (f lc) as [[]| | |] eqn:Hfs; try done. injection Hf as -> ->. by eapply step_local.
  - apply bind_Some in H as (l' & [Hs Hg]%spec_acquired_step & [= <-]). by eapply step_acquire.
  - apply bind_Some in H as (l' & [Hs Hg]%spec_released_step & [= <-]). by eapply step_release.
Qed.
Lemma exec_sound schedule c c' : exec schedule c = Some c' → rtc step c c'.
Proof.
  revert c. induction schedule as [|t sch IH]; intros c; simpl; [intros [= <-]; done|].
  intros (d & Hd%exec_step_sound & H)%bind_Some. eapply rtc_l; [done|by apply IH].
Qed.

(** Where a schedule leads, if every step of it can be made. *)
Definition exec_to (schedule : list Z) (c : cfg) : cfg := default c (exec schedule c).
Lemma exec_to_sound schedule c :
  (if exec schedule c is Some _ then true else false) = true → rtc step c (exec_to schedule c).
Proof. unfold exec_to. destruct (exec schedule c) eqn:He; [|done]. intros _. by apply (exec_sound schedule). Qed.
End exec.

(** ** Completion

    Over the abstract lock safe threads never block each other for good. *)
Section completion.
Context {Sh Lc A Res : Type} (I : Sh → list Res → Prop).
Context (I_perm : ∀ s r1 r2, r1 ≡ₚ r2 → I s r1 → I s r2) (Q : Z → A → Lc → list Res → Prop).
Local Abbreviation cfg := (config Sh Lc A lock_spec).
Implicit Types c : cfg.

(** One action of thread [t], by its code. *)
Definition goes_to t c (l : lock_spec) (s : Sh) (code' : code Sh Lc A) (lc' : Lc) : Prop :=
  rtc step c (mk l s (<[t := (code', lc')]> (threads c))).
Lemma goes_trans t c d l s code' lc' :
  step c d → (∃ x, threads d = <[t := x]> (threads c)) → goes_to t d l s code' lc' → goes_to t c l s code' lc'.
Proof.
  intros Hs [x Hx] Hd. eapply rtc_l; [exact Hs|]. unfold goes_to in Hd. by rewrite Hx, insert_insert_eq in Hd.
Qed.
Lemma goes_act t c X (f : st Sh X) k lc n x s' l s code' lc' :
  lock c = Some (t, S n) → threads c !! t = Some (Act f k, lc) → f (shared c) = Ret (x, s') →
  goes_to t (mk (lock c) s' (<[t := (k x, lc)]> (threads c))) l s code' lc' → goes_to t c l s code' lc'.
Proof.
  intros Hl Ht Hf. apply goes_trans; [|by eexists]. eapply step_act; [done| |done].
  rewrite Hl. simpl. by rewrite decide_True.
Qed.
Lemma goes_local t c X (f : st Lc X) k lc x lc1 l s code' lc' :
  threads c !! t = Some (Local f k, lc) → f lc = Ret (x, lc1) →
  goes_to t (mk (lock c) (shared c) (<[t := (k x, lc1)]> (threads c))) l s code' lc' → goes_to t c l s code' lc'.
Proof. intros Ht Hf. apply goes_trans; [|by eexists]. by eapply step_local. Qed.
Lemma goes_lock t c k lc l1 l s code' lc' :
  threads c !! t = Some (Lock k, lc) → spec_acquired (lock c) t = Some l1 →
  goes_to t (mk l1 (shared c) (<[t := (k, lc)]> (threads c))) l s code' lc' → goes_to t c l s code' lc'.
Proof. intros Ht [Hs Hg]%spec_acquired_step. apply goes_trans; [|by eexists]. by eapply step_acquire. Qed.
Lemma goes_unlock t c k lc l1 l s code' lc' :
  threads c !! t = Some (Unlock k, lc) → spec_released (lock c) t = Some l1 →
  goes_to t (mk l1 (shared c) (<[t := (k, lc)]> (threads c))) l s code' lc' → goes_to t c l s code' lc'.
Proof. intros Ht [Hs Hg]%spec_released_step. apply goes_trans; [|by eexists]. by eapply step_release. Qed.

Lemma spec_acquired_own t n : spec_acquired (Some (t, S n)) t = Some (Some (t, S (S n))).
Proof. simpl. by rewrite decide_True. Qed.
Lemma spec_released_inner t n : spec_released (Some (t, S (S n))) t = Some (Some (t, S n)).
Proof. simpl. by rewrite decide_True. Qed.
Lemma spec_released_last t : spec_released (Some (t, 1%nat)) t = Some None.
Proof. simpl. by rewrite decide_True. Qed.

(** The owner can end its section. *)
Lemma section_completes t n code c lc k s' lc' :
  lock c = Some (t, S n) → threads c !! t = Some (code, lc) → section n code (shared c) lc = Ret (k, (s', lc')) →
  goes_to t c None s' k lc'.
Proof.
  revert n c lc. induction code as [a|X f g IH|X f g IH|g IH|g IH]; intros n c lc Hl Ht Hs; simpl in Hs.
  - done.
  - apply bind_Ret_inv in Hs as ([x s1] & Hf & Hs). eapply goes_act; [done..|].
    by apply (IH x n _ lc); [|simpl; rewrite lookup_insert_eq|].
  - apply bind_Ret_inv in Hs as ([x l1] & Hf & Hs). eapply goes_local; [done..|].
    by apply (IH x n _ l1); [|simpl; rewrite lookup_insert_eq|].
  - eapply goes_lock; [done|by rewrite Hl, spec_acquired_own|].
    by apply (IH (S n) _ lc); [|simpl; rewrite lookup_insert_eq|].
  - destruct n as [|n].
    + injection Hs as <- <- <-. eapply goes_unlock; [done|by rewrite Hl, spec_released_last|].
      unfold goes_to. simpl. by rewrite insert_insert_eq.
    + eapply goes_unlock; [done|by rewrite Hl, spec_released_inner|].
      by apply (IH n _ lc); [|simpl; rewrite lookup_insert_eq|].
Qed.

(** A safe thread can finish while the lock is free. *)
Lemma safe_completes_both t code :
  (∀ c lc own rest, lock c = None → threads c !! t = Some (code, lc) → I (shared c) (own ++ rest) →
     safe I (Q t) code lc own → ∃ a s' lc', goes_to t c None s' (Done a) lc')
  ∧ (∀ n c lc rest, lock c = Some (t, S n) → threads c !! t = Some (code, lc) →
     inside I (Q t) n code (shared c) lc rest → ∃ a s' lc', goes_to t c None s' (Done a) lc').
Proof.
  induction code as [a|X f k IH|X f k IH|k [IH1 IH2]|k [IH1 IH2]]; split; simpl; try done.
  - intros c lc own rest Hl Ht _ _. exists a, (shared c), lc. unfold goes_to. rewrite insert_id by done.
    destruct c as [l s ts]. simpl in *. by rewrite Hl.
  - intros n c lc rest Hl Ht (x & s' & Hf & H). destruct (IH x) as [_ IH2].
    destruct (IH2 n (mk (lock c) s' (<[t := (k x, lc)]> (threads c))) lc rest) as (a & s1 & l1 & Hg); [done|by apply lookup_insert_eq|done|].
    exists a, s1, l1. by eapply goes_act.
  - intros c lc own rest Hl Ht Hi (x & lc' & Hf & H). destruct (IH x) as [IH1 _].
    destruct (IH1 (mk (lock c) (shared c) (<[t := (k x, lc')]> (threads c))) lc' own rest) as (a & s1 & l1 & Hg); [done|by apply lookup_insert_eq|done|done|].
    exists a, s1, l1. by eapply goes_local.
  - intros n c lc rest Hl Ht (x & lc' & Hf & H). destruct (IH x) as [_ IH2].
    destruct (IH2 n (mk (lock c) (shared c) (<[t := (k x, lc')]> (threads c))) lc' rest) as (a & s1 & l1 & Hg); [done|by apply lookup_insert_eq|done|].
    exists a, s1, l1. by eapply goes_local.
  - intros c lc own rest Hl Ht Hi H.
    destruct (IH2 O (mk (Some (t, 1%nat)) (shared c) (<[t := (k, lc)]> (threads c))) lc rest) as (a & s1 & l1 & Hg); [done|by apply lookup_insert_eq|by apply H|].
    exists a, s1, l1. eapply goes_lock; [done| |done]. by rewrite Hl.
  - intros n c lc rest Hl Ht H.
    destruct (IH2 (S n) (mk (Some (t, S (S n))) (shared c) (<[t := (k, lc)]> (threads c))) lc rest) as (a & s1 & l1 & Hg); [done|by apply lookup_insert_eq|done|].
    exists a, s1, l1. eapply goes_lock; [done| |done]. by rewrite Hl, spec_acquired_own.
  - intros [|n] c lc rest Hl Ht H.
    + destruct H as (own & Hi & H).
      destruct (IH1 (mk None (shared c) (<[t := (k, lc)]> (threads c))) lc own rest) as (a & s1 & l1 & Hg); [done|by apply lookup_insert_eq|done|done|].
      exists a, s1, l1. eapply goes_unlock; [done| |done]. by rewrite Hl, spec_released_last.
    + destruct (IH2 n (mk (Some (t, S n)) (shared c) (<[t := (k, lc)]> (threads c))) lc rest) as (a & s1 & l1 & Hg); [done|by apply lookup_insert_eq|done|].
      exists a, s1, l1. eapply goes_unlock; [done| |done]. by rewrite Hl, spec_released_inner.
Qed.

Lemma spec_lock_shape l : rtc spec_step None l → l = None ∨ ∃ t n, l = Some (t, S n).
Proof.
  revert l. apply (reachable_ind spec_step (λ l, l = None ∨ ∃ t n, l = Some (t, S n))); [by left|].
  intros s s' _ Hs. destruct Hs; eauto.
Qed.

(** From any configuration the owner of the lock can leave its section. *)
Lemma can_free s0 ts0 c :
  ok I Q (s0, ts0) → rtc step (start s0 ts0) c → ∃ d, rtc step c d ∧ lock d = None.
Proof.
  intros Hok Hr. destruct (serial_reachable I I_perm Q s0 ts0 c Hok Hr) as (x & Hx & Hinv).
  destruct (spec_lock_shape _ (inv_lock _ _ Hinv)) as [Hl|(t & n & Hl)]; [by exists c|].
  destruct (owner_section I I_perm Q c x t n Hx Hinv) as (code & lc & [k [s' lc']] & _ & _ & Ht & Hs & _).
  { rewrite Hl. simpl. by rewrite decide_True. }
  eexists. split; [by eapply (section_completes t n)|done].
Qed.

(** A thread that is not done. *)
Definition pending c (t : Z) : Prop := ∃ code lc, threads c !! t = Some (code, lc) ∧ ¬ ∃ a, code = Done a.

(** Then the threads can finish one after the other. *)
Lemma can_finish s0 ts0 (ts : list Z) c :
  ok I Q (s0, ts0) → rtc step (start s0 ts0) c → lock c = None →
  ∃ d, rtc step c d ∧ lock d = None ∧ ∀ u, pending d u → pending c u ∧ u ∉ ts.
Proof.
  intros Hok. revert c. induction ts as [|t ts IH]; intros c Hr Hl.
  { exists c. split_and!; [done..|]. intros u Hu. split; [done|apply not_elem_of_nil]. }
  assert (∃ d, rtc step c d ∧ lock d = None ∧ ∀ u, pending d u → pending c u ∧ u ≠ t) as (d & Hd & Hdl & Hdp).
  { destruct (threads c !! t) as [[code lc]|] eqn:Ht; cycle 1.
    { exists c. split_and!; [done..|]. intros u Hu. split; [done|]. intros ->. destruct Hu as (? & ? & ? & _). congruence. }
    destruct (safe_threads I I_perm Q s0 ts0 c Hok Hr) as [Hf _].
    destruct Hf as (om & Hi & Hts); [intros u; by rewrite Hl|].
    destruct (threads_safe_lookup I Q om _ t code lc Hts Ht) as (own & Ho & Hs).
    destruct (proj1 (safe_completes_both t code) c lc own (total (delete t om)) Hl Ht) as (a & s' & lc' & Hg); [|done|].
    { eapply I_perm; [|exact Hi]. by apply total_delete. }
    eexists. split; [exact Hg|]. split; [done|]. intros u (cu & lu & Hu & Hn). simpl in Hu.
    destruct (decide (u = t)) as [->|Hne].
    - rewrite lookup_insert_eq in Hu. injection Hu as <- <-. destruct Hn. by exists a.
    - split; [|done]. rewrite lookup_insert_ne in Hu by done. by exists cu, lu. }
  destruct (IH d) as (e & He & Hel & Hep); [by etrans|done|]. exists e. split; [by etrans|]. split; [done|].
  intros u Hu. destruct (Hep u Hu) as [Hu1 Hn1]. destruct (Hdp u Hu1) as [Hu2 Hn2].
  split; [done|]. by apply not_elem_of_cons.
Qed.

Lemma safe_complete s0 ts0 c :
  ok I Q (s0, ts0) → rtc step (start s0 ts0) c →
  ∃ d, rtc step c d ∧ free d ∧ ∀ t code lc, threads d !! t = Some (code, lc) → ∃ a, code = Done a.
Proof.
  intros Hok Hr. destruct (can_free s0 ts0 c Hok Hr) as (d & Hd & Hl).
  destruct (can_finish s0 ts0 (map_to_list (threads d)).*1 d) as (e & He & Hel & Hep); [done|by etrans|done|].
  exists e. split; [by etrans|]. split; [intros t; by rewrite Hel|]. intros t code lc Ht.
  destruct code as [a| | | |]; [by exists a|..];
    (destruct (Hep t) as [(cd & ld & Hd' & _) []]; [eexists _, _; split; [exact Ht|by intros [? ?]]|];
     apply list_elem_of_fmap; exists (t, (cd, ld)); split; [done|by apply elem_of_map_to_list]).
Qed.
End completion.

End Threads.
