(* ===== verification/Concurrent.v ===== *)
(** * The C interface on many threads

    The critical sections of dlopen, dlsym and dlclose: where
    src/registry/manager.rs, src/dlopen/run.rs and src/api take the loader lock
    and drop it.  The calls of DlApi.v are written as code of Threads.v, action
    by action; alone they compute what DlApi.v says when user code does not use
    the error state, and in every interleaving, with either lock, threads that
    open, look up and close libraries are safe. *)

From stdpp Require Import relations.
From S2P Require Import Prelude Utf8 Errors LoaderLock DlError Manager Open DlApi Threads.

Module Concurrent.
Import Threads.

(** The state of one thread: the message that dlerror would return. *)
Definition tls_error : Type := option DlError.cstring.

Section calls.
Context {Ctx Id Lease Mod Ext LErr : Type} `{ED : EqDecision Id, LC : !LinkCtx Ctx Id Lease Mod, MA : !ModuleApi Mod}.
Context {BU : Build} {LK : Open.Linker (Open.World Ctx Lease Mod Ext) Ctx Id Lease LErr}.
Context (fmt_loader : LErr → string).
Local Abbreviation W := (Open.World Ctx Lease Mod Ext).
Local Abbreviation C := (code W tls_error).
Local Abbreviation Mgr := (Manager.Manager (Ctx := Ctx) (Lease := Lease) (Mod := Mod)).
Local Abbreviation Opened := (Manager.OpenedLibrary (Lease := Lease) (Mod := Mod)).
Local Abbreviation E := (Error LErr).

(** Dropping what a close unloaded is code of the modules. *)
Context (drop_unloaded : list Id → C unit).

Definition registry_borrow {X} (m : st Mgr X) : C X := act (Open.borrow_mut m).

(** ** manager.rs: one guard each *)
Definition register_handle (opened : Opened) : C Z := locked (registry_borrow (Manager.register_handle opened)).
Definition release_handle (handle : Z) : C bool :=
  unloaded ← locked (registry_borrow (Manager.release_handle handle));
  let valid := match unloaded with Some _ => true | None => false end in
  (match unloaded with Some u => drop_unloaded u | None => mret tt end);;
  mret valid.
Definition global_find (nm : list Z) : C (option Z) := locked (registry_borrow (Manager.global_find nm)).
Definition next_find (addr : Z) (nm : list Z) : C (option Z) := locked (registry_borrow (Manager.next_find addr nm)).
Definition handle_find (handle : Z) (nm : list Z) : C (option Z) := locked (registry_borrow (Manager.handle_find handle nm)).

(** ** run.rs: one guard for the whole open *)
Definition open_main : C Opened := locked (registry_borrow (o ← Manager.main_library; Manager.expect o)).

(** From the relocation to the constructors, with a borrow for each access. *)
Definition commit (flags : OpenFlags.t) (before_init : Id → st W (result E unit)) (prepared : Open.Prepared)
    : C (result E Opened) :=
  relocated ← act (Open.convert_err (Open.relocate (Open.on_relocation flags) prepared));
  match relocated with
  | Err e => mret (Err e)
  | Ok relocated =>
      published ← registry_borrow (Open.on_context (Open.publish relocated));
      match published with
      | Err e => mret (Err (LoaderError e))
      | Ok published =>
          b ← act (before_init (Open.root_of published));
          match b with
          | Err error =>
              r ← registry_borrow (Open.on_context (Open.rollback published));
              mret (Err (match r with Err e => LoaderError e | Ok _ => error end))
          | Ok _ =>
              i ← act (Open.initialize published);
              match i with
              | Ok load =>
                  o ← registry_borrow (Manager.open_load (Open.into_parts load).1 (Open.into_parts load).2 flags);
                  mret (Ok o)
              | Err failed =>
                  e ← registry_borrow (Open.on_context (Open.failed_rollback failed));
                  mret (Err (LoaderError e))
              end
          end
      end
  end.

(** The scope of [open_with]'s guard. *)
Definition open_locked (envp : option (list (list Z))) (request : list Z) (flags : OpenFlags.t)
    (root : Open.LinkRoot Open.Raw) (caller : option Z) (before_init : Id → st W (result E unit)) : C (result E Opened) :=
  let flags := Open.env_flags envp flags in
  reuse ← (if Open.is_file_or_binary root then registry_borrow (Manager.open_existing request flags) else mret None);
  match reuse with
  | Some lib => mret (Ok lib)
  | None =>
      if OpenFlags.is_noload flags && Open.is_binary root then mret (Err (Open.can_not_find_file request))
      else
        match Open.map_root root with
        | Err e => mret (Err e)
        | Ok root =>
            paths ← act (Open.force_search_paths envp);
            prepared ← registry_borrow (Open.prepare request flags paths caller root);
            match prepared with
            | Err e => mret (Err e)
            | Ok (inl lib) => mret (Ok lib)
            | Ok (inr prepared) => commit flags before_init prepared
            end
        end
  end.
Definition open_with (envp : option (list (list Z))) (request : list Z) (flags : OpenFlags.t)
    (root : Open.LinkRoot Open.Raw) (caller : option Z) (before_init : Id → st W (result E unit)) : C (result E Opened) :=
  locked (open_locked envp request flags root caller before_init).
Definition open_file (envp : option (list (list Z))) (path : list Z) (flags : OpenFlags.t) (caller : Z) : C (result E Opened) :=
  open_with envp path flags (Open.File path) (Some caller) (λ _, mret (Ok tt)).

(** ** The C calls *)
Definition dlerror_clear : C unit := local (λ _, Ret (tt, None)).
Definition dlerror_set (msg : string) : C unit := local (λ _, Ret (tt, Some (DlError.message (bytes_of_string msg)))).
Definition dlerror : C (option DlError.cstring) := local (λ m, Ret (m, None)).

Definition dlopen_with_caller (envp : option (list (list Z))) (filename : option (list Z)) (flags caller : Z) : C Z :=
  dlerror_clear;;
  match filename with
  | None => opened ← open_main; register_handle opened
  | Some filename =>
      match from_utf8 filename with
      | None => dlerror_set "library name is not valid UTF-8";; mret DlApi.null
      | Some path =>
          r ← open_file envp path (OpenFlags.from_bits_retain flags) caller;
          match r with
          | Ok opened => register_handle opened
          | Err error => dlerror_set (Error_fmt fmt_loader error);; mret DlApi.null
          end
      end
  end.

Definition find_by_handle (handle caller : Z) (nm : list Z) : C (result E Z) :=
  o ← (if handle =? DlApi.RTLD_DEFAULT then global_find nm
       else if handle =? DlApi.RTLD_NEXT then next_find caller nm
       else handle_find handle nm);
  mret (DlApi.ok_or_else o (DlApi.can_not_find_symbol nm)).

Definition dlsym_with_caller (handle : Z) (symbol_name : option (list Z)) (caller : Z) : C Z :=
  dlerror_clear;;
  match symbol_name with
  | None => dlerror_set "symbol name is null";; mret DlApi.null
  | Some symbol_name =>
      match from_utf8 symbol_name with
      | None => dlerror_set "symbol name is not valid UTF-8";; mret DlApi.null
      | Some nm =>
          sym ← find_by_handle handle caller nm;
          match sym with
          | Ok sym => mret sym
          | Err error => dlerror_set (Error_fmt fmt_loader error);; mret DlApi.null
          end
      end
  end.

Definition dlclose (handle : Z) : C Z :=
  dlerror_clear;;
  if handle =? 0 then dlerror_set "invalid library handle";; mret (-1)
  else
    valid ← release_handle handle;
    if (valid : bool) then mret 0
    else dlerror_set "invalid library handle";; mret (-1).

Definition call_code (envp : option (list (list Z))) (c : DlApi.call) : C Z :=
  match c with
  | DlApi.CallOpen f fl ca => dlopen_with_caller envp f fl ca
  | DlApi.CallSym h n ca => dlsym_with_caller h n ca
  | DlApi.CallClose h => dlclose h
  end.
(** A thread that makes calls one after the other. *)
Fixpoint calls_code (envp : option (list (list Z))) (cs : list DlApi.call) : C (list Z) :=
  match cs with
  | [] => mret []
  | c :: cs => v ← call_code envp c; vs ← calls_code envp cs; mret (v :: vs)
  end.
End calls.
End Concurrent.

Module ConcurrentProps.
Import Threads Concurrent.

(** ** The calls alone *)
Section alone.
Context {Ctx Id Lease Mod Ext LErr : Type} `{ED : EqDecision Id, LC : !LinkCtx Ctx Id Lease Mod, MA : !ModuleApi Mod}.
Context {BU : Build} {LK : Open.Linker (Open.World Ctx Lease Mod Ext) Ctx Id Lease LErr}.
Local Abbreviation W := (Open.World Ctx Lease Mod Ext).
Local Abbreviation C := (code W tls_error).

(** Code that leaves the thread's own state alone. *)
Definition lift {A} (m : st W A) (w : W) (l : tls_error) : outcome (A * (W * tls_error)) :=
  '(a, w') ← m w; Ret (a, (w', l)).
Definition runs {A} (c : C A) (m : st W A) : Prop := ∀ w l, run c w l = lift m w l.

Lemma runs_ret {A} (a : A) : runs (mret a) (mret a).
Proof. done. Qed.
Lemma runs_act {A} (m : st W A) : runs (act m) m.
Proof. done. Qed.
Lemma runs_bind {A B} (c : C A) (m : st W A) (g : A → C B) (k : A → st W B) :
  runs c m → (∀ a, runs (g a) (k a)) → runs (c ≫= g) (m ≫= k).
Proof.
  intros Hc Hg w l. unfold mbind at 1, code_bind. rewrite run_bind, Hc. unfold lift, mbind, st_bind.
  destruct (m w) as [[a w']| | |]; simpl; [apply Hg|done..].
Qed.
Lemma runs_locked {A} (c : C A) m : runs c m → runs (locked c) m.
Proof. intros H w l. by rewrite run_locked. Qed.
Lemma runs_ext {A} (c : C A) (m m' : st W A) : (∀ w, m w = m' w) → runs c m → runs c m'.
Proof. intros He H w l. rewrite H. unfold lift. by rewrite He. Qed.
Lemma runs_try {E A B} (c : C (result E A)) m (g : A → C (result E B)) k :
  runs c m → (∀ a, runs (g a) (k a)) →
  runs (r ← c; match r with Ok a => g a | Err e => mret (Err e) end) (try_res k m).
Proof. intros Hc Hg. apply runs_bind; [done|]. intros [a|e]; [apply Hg|apply runs_ret]. Qed.
Lemma runs_convert {A B} (c : C (result LErr A)) m (g : A → C (result (Error LErr) B)) k :
  runs c m → (∀ a, runs (g a) (k a)) →
  runs (r ← c; match r with Ok a => g a | Err e => mret (Err (LoaderError e)) end)
       (try_res k (Open.convert_err m)).
Proof.
  intros Hc Hg. eapply runs_ext; [|apply (runs_bind c m)]; [|done|].
  - intros w. unfold try_res, Open.convert_err. rewrite st_bind_assoc. apply st_bind_ext.
    intros r w' _. by instantiate (1 := λ r, match r with Ok a => k a | Err e => mret (Err (LoaderError e)) end); destruct r.
  - intros [a|e]; [apply Hg|apply runs_ret].
Qed.

Lemma runs_try_mret {E A B} (c : C (result E B)) (k : A → st W (result E B)) r :
  runs c (match r with Ok a => k a | Err e => mret (Err e) end) → runs c (try_res k (mret r)).
Proof. intros H. by destruct r. Qed.

Ltac runs := repeat first
  [ apply runs_ret | apply runs_act | apply runs_try | apply runs_convert | apply runs_bind | apply runs_locked
  | progress intros
  | match goal with |- runs (match ?x with _ => _ end) _ => destruct x end ].

Lemma commit_runs flags before_init prepared :
  runs (commit flags before_init prepared) (Open.commit flags before_init prepared).
Proof. unfold commit, Open.commit, registry_borrow. runs. Qed.

Lemma open_locked_runs envp request flags root caller before_init :
  runs (open_locked envp request flags root caller before_init)
       (Open.open_with envp request flags root caller before_init).
Proof.
  unfold open_locked, Open.open_with, registry_borrow. apply runs_bind.
  { destruct (Open.is_file_or_binary root); runs. }
  intros [lib|]; [runs|]. destruct (_ && _); [runs|].
  apply runs_try_mret. destruct (Open.map_root root) as [rt|e]; [|runs]. apply runs_bind; [runs|]. intros paths.
  apply runs_try; [runs|]. intros [lib|p]; [runs|]. apply commit_runs.
Qed.

End alone.

(** ** Agreement with DlApi.v

    For user code that does not use the error state: here it is the thread's
    own state, there a part of the process. *)
Section agree.
Context {Ctx Id Lease Mod Ext LErr S : Type} `{ED : EqDecision Id, LC : !LinkCtx Ctx Id Lease Mod, MA : !ModuleApi Mod}.
Local Abbreviation W := (Open.World Ctx Lease Mod (Ext * S)).
Context {BU : Build} {LK : Open.Linker W Ctx Id Lease LErr}.
Context {ES : DlError.ErrorState S} {EL : DlError.ErrorStateLaws S}.
Local Abbreviation C := (code W tls_error).

(** Code that neither reads nor writes the error state. *)
Definition blind {A} (m : st W A) : Prop := ∀ (p : W) e,
  m (DlApi.with_errors p e) = ('(a, p') ← m p; Ret (a, DlApi.with_errors p' e)).

Lemma blind_ret {A} (a : A) : blind (mret a).
Proof. done. Qed.
Lemma blind_bind {A B} (m : st W A) (k : A → st W B) : blind m → (∀ a, blind (k a)) → blind (m ≫= k).
Proof.
  intros Hm Hk p e. unfold mbind at 1 3, st_bind. rewrite Hm. unfold mbind.
  destruct (m p) as [[a p']| | |]; simpl; [apply Hk|done..].
Qed.
Lemma blind_try {E A B} (m : st W (result E A)) (k : A → st W (result E B)) :
  blind m → (∀ a, blind (k a)) → blind (try_res k m).
Proof. intros Hm Hk. apply blind_bind; [done|]. intros [a|e]; [apply Hk|apply blind_ret]. Qed.
Lemma blind_convert {A} (m : st W (result LErr A)) : blind m → blind (Open.convert_err m).
Proof. intros Hm. apply blind_bind; [done|]. intros r. apply blind_ret. Qed.
Lemma blind_borrow {A} (m : st Manager.Manager A) : blind (Open.borrow_mut m).
Proof.
  intros p e. unfold Open.borrow_mut, Open.acquire, Open.with_manager, Open.drop_guard, mbind, st_bind.
  simpl. destruct (Open.borrowed p); [done|]. simpl. by destruct (m (Open.manager p)) as [[]| | |].
Qed.
Lemma blind_paths envp : blind (Open.force_search_paths envp).
Proof. intros [m b [c|] [x e0]] e; done. Qed.

(** The relocation resolvers and the constructors are. *)
Hypothesis relocate_blind : ∀ plan pr, blind (Open.relocate plan pr).
Hypothesis initialize_blind : ∀ pub, blind (Open.initialize pub).

Lemma open_blind envp path flags caller : blind (Open.open_file envp path flags caller).
Proof.
  unfold Open.open_file, Open.open, Open.open_with. cbn [Open.is_file_or_binary]. apply blind_bind; [apply blind_borrow|].
  intros [lib|]; [apply blind_ret|]. destruct (_ && _); [apply blind_ret|].
  apply blind_try; [apply blind_ret|]. intros rt. apply blind_bind; [apply blind_paths|]. intros paths.
  apply blind_try; [apply blind_borrow|]. intros [lib|p]; [apply blind_ret|]. unfold Open.commit.
  apply blind_try; [apply blind_convert, relocate_blind|]. intros rl.
  apply blind_try; [apply blind_convert, blind_borrow|]. intros pb. apply blind_bind; [apply blind_ret|].
  intros [[]|e]; [|apply blind_bind; [apply blind_borrow|intros; apply blind_ret]].
  apply blind_bind; [apply initialize_blind|].
  intros [ld|fl]; (apply blind_bind; [apply blind_borrow|intros; apply blind_ret]).
Qed.

(** Thread [t] of a process that the calls of DlApi.v describe: the same world
    but for its error state, which is not used here ([e0]); the thread's own
    message, and the messages of the other threads as in [a]. *)
Definition here (e0 : S) (t : Z) (a : DlError.spec) (p w : W) (l : tls_error) : Prop :=
  w = DlApi.with_errors p e0
  ∧ ∃ a', DlError.es_rep (DlApi.errors p) a' ∧ a' t = l ∧ ∀ u, u ≠ t → a' u = a u.

Context (e0 : S) (t : Z) (a : DlError.spec).

(** Both return, with equal values and states that agree, or fail alike. *)
Definition alike {A} (o : outcome (A * W)) (o' : outcome (A * (W * tls_error))) : Prop :=
  match o, o' with
  | Ret (x, p), Ret (y, (w, l)) => x = y ∧ here e0 t a p w l
  | Panic, Panic | Fault, Fault | OutOfFuel, OutOfFuel => True
  | _, _ => False
  end.
Definition sim {A} (m : st W A) (c : C A) : Prop := ∀ p w l, here e0 t a p w l → alike (m p) (run c w l).

Lemma sim_ret {A} (x : A) : sim (mret x) (mret x).
Proof. intros p w l H. by split. Qed.
Lemma sim_bind {A B} (m : st W A) (c : C A) (k : A → st W B) (g : A → C B) :
  sim m c → (∀ x, sim (k x) (g x)) → sim (m ≫= k) (c ≫= g).
Proof.
  intros Hm Hk p w l H. specialize (Hm p w l H). unfold mbind, code_bind, st_bind. rewrite run_bind.
  destruct (m p) as [[x p']| | |], (run c w l) as [[y [w' l']]| | |]; simpl in *; try done.
  destruct Hm as [-> H']. by apply Hk.
Qed.

(** A blind step does not change the errors either. *)
Lemma blind_keeps {A} (m : st W A) p x p' : blind m → m p = Ret (x, p') → DlApi.errors p' = DlApi.errors p.
Proof.
  intros Hm Hr. specialize (Hm p (DlApi.errors p)).
  replace (DlApi.with_errors p (DlApi.errors p)) with p in Hm by by destruct p as [? ? ? []].
  rewrite Hr in Hm. simpl in Hm. injection Hm as Hp. by rewrite Hp.
Qed.
Lemma sim_world {A} (m : st W A) (c : C A) : blind m → runs c m → sim m c.
Proof.
  intros Hm Hc p w l [-> (a' & Ha' & Hl)]. rewrite Hc. unfold lift. rewrite Hm. unfold mbind.
  destruct (m p) as [[x p']| | |] eqn:Hr; simpl; try done. split; [done|]. split; [done|].
  exists a'. by rewrite (blind_keeps _ _ _ _ Hm Hr).
Qed.
Lemma sim_registry {A} (m : st Manager.Manager A) : sim (Open.borrow_mut m) (locked (registry_borrow m)).
Proof. apply sim_world; [apply blind_borrow|apply runs_locked, runs_act]. Qed.

Lemma spec_put_here (s : DlError.spec) m :
  (∀ u, u ≠ t → s u = a u) →
  DlError.spec_put t m s t = m ∧ ∀ u, u ≠ t → DlError.spec_put t m s u = a u.
Proof.
  intros H. unfold DlError.spec_put. split; [by rewrite decide_True|]. intros u Hu. rewrite decide_False; auto.
Qed.
Lemma sim_clear : sim (DlApi.dlerror_clear t) dlerror_clear.
Proof.
  intros p w l [-> (s & Hs & _ & Hu)]. destruct (DlApiProps.clear_run t p s Hs) as (e & He & Hs').
  rewrite He. split; [done|]. split; [done|]. eexists. split; [exact Hs'|]. by apply spec_put_here.
Qed.
Lemma sim_set msg : sim (DlApi.dlerror_set t msg) (dlerror_set msg).
Proof.
  intros p w l [-> (s & Hs & _ & Hu)]. destruct (DlApiProps.set_run t msg p s Hs) as (e & He & Hs').
  rewrite He. split; [done|]. split; [done|]. eexists. split; [exact Hs'|]. by apply spec_put_here.
Qed.
Lemma sim_fail {A} msg (v : A) :
  sim (DlApi.dlerror_set t msg;; mret v) (dlerror_set msg;; mret v).
Proof. apply sim_bind; [apply sim_set|]. intros _. apply sim_ret. Qed.

Context (fmt_loader : LErr → string).
Context (drop_group : list Id → st W unit) (drop_unloaded : list Id → C unit).
Hypothesis drop_blind : ∀ u, blind (drop_group u).
Hypothesis drop_runs : ∀ u, runs (drop_unloaded u) (drop_group u).

Lemma sim_release h : sim (DlApi.release_handle drop_group h) (release_handle drop_unloaded h).
Proof.
  apply sim_bind; [apply sim_registry|]. intros [u|]; (apply sim_bind; [|intros _; apply sim_ret]).
  - apply sim_world; [apply drop_blind|apply drop_runs].
  - apply sim_ret.
Qed.
Lemma sim_find h caller nm :
  sim (DlApi.find_by_handle (LErr := LErr) h caller nm) (find_by_handle h caller nm).
Proof.
  unfold DlApi.find_by_handle, DlApi.dlsym_default, DlApi.dlsym_next, find_by_handle.
  destruct (_ =? _); [|destruct (_ =? _)]; (apply sim_bind; [apply sim_registry|intros o; apply sim_ret]).
Qed.
Lemma sim_open envp f flags caller :
  sim (DlApi.dlopen_with_caller fmt_loader envp t f flags caller) (dlopen_with_caller fmt_loader envp f flags caller).
Proof.
  apply sim_bind; [apply sim_clear|]. intros _. destruct f as [f|].
  - destruct (from_utf8 f) as [path|]; [|apply sim_fail]. apply sim_bind.
    + apply sim_world; [apply open_blind|apply runs_locked, open_locked_runs].
    + intros [o|e]; [apply sim_registry|apply sim_fail].
  - apply sim_bind; [apply sim_registry|]. intros o. apply sim_registry.
Qed.

Lemma sim_call envp c :
  sim (DlApi.run_call fmt_loader drop_group envp t c) (call_code fmt_loader drop_unloaded envp c).
Proof.
  destruct c as [f fl ca|h nm ca|h]; simpl; [apply sim_open| |].
  - apply sim_bind; [apply sim_clear|]. intros _. destruct nm as [nm|]; [|apply sim_fail].
    destruct (from_utf8 nm) as [nm'|]; [|apply sim_fail]. apply sim_bind; [apply sim_find|].
    intros [v|e]; [apply sim_ret|apply sim_fail].
  - apply sim_bind; [apply sim_clear|]. intros _. destruct (h =? 0); [apply sim_fail|].
    apply sim_bind; [apply sim_release|]. intros [|]; [apply sim_ret|apply sim_fail].
Qed.

(** The calls action by action, run alone, compute what the calls of DlApi.v
    compute: same result, same registry, same pending message of the calling
    thread and of the others, and they fail alike. *)
Lemma code_is_model envp c p :
  DlError.es_rep (DlApi.errors p) a →
  alike (DlApi.run_call fmt_loader drop_group envp t c p)
    (run (call_code fmt_loader drop_unloaded envp c) (DlApi.with_errors p e0) (a t)).
Proof. intros Hs. apply sim_call. split; [done|]. by exists a. Qed.

End agree.

(** ** The calls among other threads *)
Section interleaved.
Context {Ctx Id Lease Mod Ext LErr : Type} `{ED : EqDecision Id, LC : !LinkCtx Ctx Id Lease Mod, MA : !ModuleApi Mod}.
Context {BU : Build} {LK : Open.Linker (Open.World Ctx Lease Mod Ext) Ctx Id Lease LErr}.
Context (fmt_loader : LErr → string).
Local Abbreviation W := (Open.World Ctx Lease Mod Ext).
Local Abbreviation C := (code W tls_error).
Context (drop_unloaded : list Id → C unit).

(** Guards are dropped and the registry is accessed under a guard only. *)
Definition well_locked {A} (c : C A) : Prop := balanced 0 c ∧ guarded 0 c.

Lemma well_locked_ret {A} (a : A) : well_locked (mret a : C A).
Proof. done. Qed.
Lemma well_locked_bind {A B} (c : C A) (g : A → C B) :
  well_locked c → (∀ a, well_locked (g a)) → well_locked (c ≫= g).
Proof.
  intros [Hb Hg] H. split.
  - apply (balanced_bind 0 0); [done|]. apply H.
  - apply (guarded_bind 0 0); [done..|]. apply H.
Qed.
Lemma well_locked_local {A} (f : st tls_error A) : well_locked (local f).
Proof. done. Qed.
Lemma well_locked_section {A} (c : C A) : balanced 0 c → guarded 1 c → well_locked (locked c).
Proof.
  intros Hb Hg. split; [by apply balanced_locked|]. unfold locked. simpl.
  by apply (guarded_bind 0 1).
Qed.
Lemma well_locked_registry {A} (m : st Manager.Manager A) : well_locked (locked (registry_borrow m)).
Proof. by apply well_locked_section. Qed.

(** Code of a section: guards come and go in pairs. *)
Definition in_section {A} (c : C A) : Prop := balanced 0 c ∧ guarded 1 c.
Lemma in_section_bind {A B} (c : C A) (g : A → C B) :
  in_section c → (∀ a, in_section (g a)) → in_section (c ≫= g).
Proof.
  intros [Hb Hg] H. split.
  - apply (balanced_bind 0 0); [done|]. apply H.
  - apply (guarded_bind 0 1); [done..|]. apply H.
Qed.
Lemma in_section_ret {A} (a : A) : in_section (mret a : C A).
Proof. done. Qed.
Lemma in_section_act {A} (m : st W A) : in_section (act m : C A).
Proof. done. Qed.

Ltac in_section := repeat first
  [ apply in_section_bind | apply in_section_ret | apply in_section_act | progress intros
  | match goal with |- in_section (match ?x with _ => _ end) => destruct x end ].

Lemma open_in_section envp request flags root caller before_init :
  in_section (open_locked envp request flags root caller before_init).
Proof. unfold open_locked, commit, registry_borrow. in_section. Qed.
Lemma open_with_section envp request flags root caller before_init :
  well_locked (open_with envp request flags root caller before_init).
Proof. apply well_locked_section; apply open_in_section. Qed.

Hypothesis drop_well_locked : ∀ u, well_locked (drop_unloaded u).

Ltac well_locked := repeat first
  [ apply well_locked_ret | apply well_locked_local | apply well_locked_registry | apply open_with_section
  | apply drop_well_locked | apply well_locked_bind | progress intros
  | match goal with |- well_locked (match ?x with _ => _ end) => destruct x end ].

Lemma call_well_locked envp c : well_locked (call_code fmt_loader drop_unloaded envp c).
Proof.
  destruct c as [[f|] fl ca|h [nm|] ca|h]; simpl; unfold dlopen_with_caller, dlsym_with_caller, dlclose,
    find_by_handle, release_handle, open_file, open_main, register_handle, global_find, next_find, handle_find,
    dlerror_clear, dlerror_set; well_locked.
Qed.
Lemma calls_well_locked envp cs : well_locked (calls_code fmt_loader drop_unloaded envp cs).
Proof.
  induction cs as [|c cs IH]; simpl; [apply well_locked_ret|].
  apply well_locked_bind; [apply call_well_locked|]. intros v. apply well_locked_bind; [done|].
  intros vs. apply well_locked_ret.
Qed.

(** Threads that start with no message pending. *)
Definition threads_of {A} (progs : gmap Z (C A)) : gmap Z (C A * tls_error) := (λ c, (c, None)) <$> progs.

(** C8. dlopen, dlsym and dlclose are made of critical sections: they access
    the registry under the lock only and drop every guard they take; and with
    either lock, any number of threads that make calls, and any interleaving
    of their actions, whenever the lock is free the registry, the results and
    the pending messages are those of a run of whole sections, one at a time,
    each of which computes what its code computes alone. *)
Theorem calls_serializable {L} {RL : ReentrantLock L} envp (progs : gmap Z (list DlApi.call)) w
    (c : config W tls_error (list Z) L) :
  (∀ cs, well_locked (calls_code fmt_loader drop_unloaded envp cs))
  ∧ (rtc step (start w (threads_of (calls_code fmt_loader drop_unloaded envp <$> progs))) c → free c →
     rtc serial (w, threads_of (calls_code fmt_loader drop_unloaded envp <$> progs)) (shared c, threads c))
  ∧ ∀ B (d : C B) (g : B → C (list Z)) w l, balanced 0 d → ∃ k, locked d ≫= g = Lock k
      ∧ section 0 k w l = ('(a, (w', l')) ← run d w l; Ret (g a, (w', l'))).
Proof.
  split_and!; [apply calls_well_locked| |intros; by apply section_locked]. intros Hr Hf.
  destruct (threads_inv_reachable _ _ _ Hr) as (x & Hx & _ & [[_ ->]|(t & n & _ & _ & _ & _ & Hn & _)]); [done|].
  by rewrite Hf in Hn.
Qed.
End interleaved.

(** ** Examples *)
Import Toy.
Import (hints) DlError OpenProps.

(** Two threads open a module and close it; they take turns. *)
Definition toy_calls : gmap Z (list DlApi.call) :=
  {[ 1 := [DlApi.CallOpen (Some [0]) 2 0; DlApi.CallClose 4096]; 2 := [DlApi.CallOpen (Some [70]) 2 0] ]}.
Definition toy_threads `{Build} := threads_of (calls_code (LErr := Z) (Ext := unit) (Id := nat) (λ _, EmptyString) (λ _, mret tt) None <$> toy_calls).
Definition toy_schedule : list Z :=
  [1; 2; 1; 1; 1; 2; 2; 2; 2; 2; 2; 2; 2; 2; 2; 1; 1; 1; 2; 1; 2; 2; 1; 1; 1].
Definition toy_end `{Build} : config _ _ _ lock_spec := exec_to toy_schedule (start (OpenProps.toy_world 2) toy_threads).

Lemma calls_serializable_witness :
  let BU : Build := Build_Build false X86_64 in
  threads toy_end = {[ 1 := (Done [4096; 0], None); 2 := (Done [12288], None) ]}
  ∧ rtc serial (OpenProps.toy_world 2, toy_threads) (shared toy_end, threads toy_end).
Proof.
  intros BU. split; [by vm_compute|].
  apply (calls_serializable (LErr := Z) (Id := nat) (λ _, EmptyString) (λ _, mret tt) (λ _, well_locked_ret tt) None toy_calls (OpenProps.toy_world 2)).
  - refine (exec_to_sound toy_schedule (start (OpenProps.toy_world 2) toy_threads) _). by vm_compute.
  - intros t. by vm_compute.
Defined.
End ConcurrentProps.
