(* ===== verification/Sessions.v ===== *)
(** * Threads that open, look up and close libraries

    The composition of the lock, the registry, the opens and the C interface.
    Threads run programs of dlopen, dlsym and dlclose on handles they hold; in
    every interleaving, with either lock, no thread panics, every close of a
    held handle succeeds, and the counts of the handles are the handles that
    the threads hold.  A class says what an open relies on in the linker about
    leases; under it an open that fails leaves none behind. *)

From stdpp Require Import relations.
From S2P Require Import Prelude Utf8 Errors LoaderLock DlError Manager Open DlApi Threads Concurrent.

Module Sessions.
Import Threads Concurrent.

(** ** Leases on the way of a load *)
Section leases.
Context {Ctx Id Lease Mod Ext LErr : Type} `{ED : EqDecision Id, LC : !LinkCtx Ctx Id Lease Mod}.
Local Abbreviation W := (Open.World Ctx Lease Mod Ext).

(** The registry cell is free, the handles are [hs] and the leases [ls] are out. *)
Definition holds {LL : LinkCtxLaws Ctx Id Lease Mod} (w : W) (hs : gmap Z (Manager.HandleState (Lease := Lease) (Mod := Mod)))
    (ls : list Lease) : Prop :=
  Open.borrowed w = false ∧ Manager.handles (Open.manager w) = hs
  ∧ outstanding (Manager.link_ctx (Open.manager w)) ≡ₚ ls.

(** A load takes leases when it publishes its modules: they end in the lease
    of the opened library, or the rollback gives them back.  Everything else
    leaves leases and handles as they are, user code included. *)
Class LinkerLeases (LL : LinkCtxLaws Ctx Id Lease Mod) (LK : Open.Linker W Ctx Id Lease LErr) := {
  published_leases : Open.Published → list Lease;
  failed_leases : Open.Failed → list Lease;
  lease_resolve paths caller c path : ∃ r c', Open.resolve_committed paths caller c path = (r, c')
    ∧ outstanding c' ≡ₚ outstanding c ∧ ∀ i, r = Ok (Some i) → is_Some (ctx_meta c' i);
  lease_prepare paths caller c path : outstanding (Open.prepare_load paths caller c path).2 ≡ₚ outstanding c;
  lease_prepare_mapped paths caller c key raw :
    outstanding (Open.prepare_mapped paths caller c key raw).2 ≡ₚ outstanding c;
  lease_relocate plan p w hs ls : holds w hs ls → ∃ r w', Open.relocate plan p w = Ret (r, w') ∧ holds w' hs ls;
  lease_publish p c : ∃ r c', Open.publish p c = (r, c')
    ∧ outstanding c' ≡ₚ (match r with Ok p => published_leases p | Err _ => [] end) ++ outstanding c;
  lease_rollback p c ls : outstanding c ≡ₚ published_leases p ++ ls → outstanding (Open.rollback p c).2 ≡ₚ ls;
  lease_initialize p w hs ls : holds w hs (published_leases p ++ ls) →
    ∃ r w', Open.initialize p w = Ret (r, w')
    ∧ match r with
      | Ok load =>
          let '(l, ids) := Open.into_parts load in
          holds w' hs (l :: ls) ∧ is_Some (ctx_meta (Manager.link_ctx (Open.manager w')) (lease_id l))
          ∧ Forall (λ i, is_Some (ctx_meta (Manager.link_ctx (Open.manager w')) i)) ids ∧ NoDup ids
          ∧ 0 ≤ Manager.adds (Open.manager w') ∧ Manager.adds (Open.manager w') + zlen ids < 2 ^ 64
      | Err failed => holds w' hs (failed_leases failed ++ ls)
      end;
  lease_failed f c ls : outstanding c ≡ₚ failed_leases f ++ ls → outstanding (Open.failed_rollback f c).2 ≡ₚ ls }.
End leases.

(** ** Resources of a thread *)
Inductive resource (Lease : Type) := RLease (l : Lease) | RHandle (handle : Z).
Arguments RLease {Lease} l.
Arguments RHandle {Lease} handle.

Definition leases_of {Lease} (rs : list (resource Lease)) : list Lease :=
  omap (λ r, match r with RLease l => Some l | RHandle _ => None end) rs.
Definition handles_of {Lease} (rs : list (resource Lease)) : list Z :=
  omap (λ r, match r with RHandle h => Some h | RLease _ => None end) rs.
Definition occurrences (h : Z) (hs : list Z) : nat := length (filter (λ x, x = h) hs).

(** ** Programs *)
Section programs.
Context {Ctx Id Lease Mod Ext LErr : Type} `{ED : EqDecision Id, LC : !LinkCtx Ctx Id Lease Mod, MA : !ModuleApi Mod}.
Context {BU : Build} {LK : Open.Linker (Open.World Ctx Lease Mod Ext) Ctx Id Lease LErr}.
Context {LL : LinkCtxLaws Ctx Id Lease Mod}.
Context (fmt_loader : LErr → string).
Local Abbreviation W := (Open.World Ctx Lease Mod Ext).
Local Abbreviation C := (code W tls_error).
Context (drop_unloaded : list Id → C unit) (envp : option (list (list Z))).

(** Commands of a thread: open a file, look up a name in the [i]-th handle that
    the thread holds, close it. *)
Inductive command :=
  | COpen (path : list Z) (flags caller : Z)
  | CSym (i : nat) (nm : option (list Z)) (caller : Z)
  | CClose (i : nat).

(** The handles that the thread holds at the end, and the results of its closes. *)
Fixpoint program (cmds : list command) (held : list Z) : C (list Z * list Z) :=
  match cmds with
  | [] => mret (held, [])
  | COpen path flags caller :: cmds =>
      h ← call_code fmt_loader drop_unloaded envp (DlApi.CallOpen (Some path) flags caller);
      program cmds (if h =? DlApi.null then held else h :: held)
  | CSym i nm caller :: cmds =>
      match held !! i with
      | Some h => call_code fmt_loader drop_unloaded envp (DlApi.CallSym h nm caller);; program cmds held
      | None => program cmds held
      end
  | CClose i :: cmds =>
      match held !! i with
      | Some h =>
          v ← call_code fmt_loader drop_unloaded envp (DlApi.CallClose h);
          r ← program cmds (delete i held);
          mret (r.1, v :: r.2)
      | None => program cmds held
      end
  end.

(** ** The invariant of the free registry

    [base] and [ext] are the handles and leases of the rest of the process. *)
Definition registry_inv (base : Z → nat) (ext : list Lease) (w : W) (rs : list (resource Lease)) : Prop :=
  Open.borrowed w = false
  ∧ Manager.owns (Open.manager w) (leases_of rs ++ ext)
  ∧ ∀ h, Manager.count_of (Manager.handles (Open.manager w)) h = (base h + occurrences h (handles_of rs))%nat.

(** The handles that finished threads hold. *)
Definition held_by {Lc} (ts : gmap Z (code W Lc (list Z * list Z) * Lc)) : list Z :=
  map_to_list ts ≫= λ p, match p.2.1 with Done (held, _) => held | _ => [] end.
End programs.
End Sessions.

Module SessionsProps.
Import Threads Concurrent ConcurrentProps Sessions.

(** ** Opens and leases *)
Section opens.
Context {Ctx Id Lease Mod Ext LErr : Type} `{ED : EqDecision Id, LC : !LinkCtx Ctx Id Lease Mod, MA : !ModuleApi Mod}.
Context {BU : Build} {LK : Open.Linker (Open.World Ctx Lease Mod Ext) Ctx Id Lease LErr}.
Context {LL : LinkCtxLaws Ctx Id Lease Mod} {LLe : LinkerLeases LL LK}.
Local Abbreviation W := (Open.World Ctx Lease Mod Ext).
Local Abbreviation Mgr := (Manager.Manager (Ctx := Ctx) (Lease := Lease) (Mod := Mod)).
Local Abbreviation Opened := (Manager.OpenedLibrary (Lease := Lease) (Mod := Mod)).
Implicit Types (w : W) (s : Mgr).
Hypothesis elf_groups : ManagerProps.elf_groups (Ctx := Ctx) (Id := Id) (Lease := Lease) (Mod := Mod).

(** An opened library with lease [l]. *)
Definition opened_with (o : Opened) (l : Lease) : Prop :=
  ∃ m g, o = Manager.mkOpened (m :: g) l ∧ is_elf m = true.
Definition mholds s hs (ls : list Lease) : Prop :=
  Manager.handles s = hs ∧ outstanding (Manager.link_ctx s) ≡ₚ ls.

Lemma open_module_leases id s hs ls :
  is_Some (ctx_meta (Manager.link_ctx s) id) → mholds s hs ls →
  ∃ o l s', Manager.open_module id s = Ret (Some o, s') ∧ opened_with o l ∧ mholds s' hs (l :: ls).
Proof.
  intros Hm [Hh Hl]. destruct (Manager.open_module_free id s Hm) as (m & g & l & c' & Hr & Hg & _ & Ho & _).
  eexists _, l, _. split; [exact Hr|]. split; [exists m, g; split; [done|by eapply elf_groups]|].
  split; [done|]. simpl. by rewrite Ho, Hl.
Qed.

Lemma promote_leases id flags s hs ls :
  is_Some (ctx_meta (Manager.link_ctx s) id) → mholds s hs ls →
  ∃ s', Manager.promote id flags s = Ret (tt, s') ∧ mholds s' hs ls ∧ is_Some (ctx_meta (Manager.link_ctx s') id).
Proof.
  intros [m Hm] [Hh Hl]. destruct (ManagerProps.promote_run id flags s m Hm) as (c' & Hr & Hm' & Ho & _).
  eexists. split; [exact Hr|]. split; [split; [done|]; simpl; by rewrite Ho|].
  simpl. rewrite Hm', decide_True by done. by eexists.
Qed.

Lemma open_existing_leases request flags s hs ls :
  mholds s hs ls → ∃ r s', Manager.open_existing (Id := Id) request flags s = Ret (r, s')
    ∧ match r with Some o => ∃ l, opened_with o l ∧ mholds s' hs (l :: ls) | None => mholds s' hs ls end.
Proof.
  intros Hh. unfold Manager.open_existing, Manager.ctx. erewrite st_bind_run by reflexivity.
  destruct (ctx_module_id (Manager.link_ctx s) request) as [id|] eqn:Hid.
  - erewrite (try_some_run _ _ _ (Some id)) by reflexivity.
    destruct (promote_leases id flags s hs ls) as (s1 & H1 & Hh1 & Hm1); [by eapply law_module_id|done|].
    erewrite st_bind_run by exact H1.
    destruct (open_module_leases id s1 hs ls Hm1 Hh1) as (o & l & s2 & H2 & Ho & Hh2).
    eexists _, _. split; [exact H2|]. by exists l.
  - erewrite (try_some_run _ _ _ None) by reflexivity. eexists _, _. by split.
Qed.

Lemma holds_borrow {A} (m : st Mgr A) w hs hs' ls ls' a s' :
  holds w hs ls → m (Open.manager w) = Ret (a, s') → mholds s' hs' ls' →
  ∃ w', Open.borrow_mut m w = Ret (a, w') ∧ holds w' hs' ls' ∧ Open.manager w' = s'.
Proof.
  intros (Hb & _ & _) Hm [Hh Hl]. eexists. split; [by apply OpenProps.borrow_run|]. done.
Qed.

Definition opens (r : result (Error LErr) Opened) w hs ls : Prop :=
  match r with
  | Ok o => ∃ l, opened_with o l ∧ holds w hs (l :: ls)
  | Err _ => holds w hs ls
  end.

Lemma holds_context {A} (f : Ctx → A * Ctx) w hs ls ls' :
  holds w hs ls → (∀ c, outstanding c ≡ₚ ls → outstanding (f c).2 ≡ₚ ls') →
  ∃ a w', Open.borrow_mut (Open.on_context f) w = Ret (a, w') ∧ holds w' hs ls'.
Proof.
  intros Hh Hf. destruct (holds_borrow (Open.on_context f) w hs hs ls ls' _ _ Hh (OpenProps.on_context_run _ _)) as (w' & Hw & Hh' & _).
  { split; [apply Hh|]. simpl. apply Hf, Hh. }
  eauto.
Qed.
Lemma convert_run {S A B} (m : st S (result LErr A)) (k : A → st S (result (Error LErr) B)) x r x' :
  m x = Ret (r, x') →
  try_res k (Open.convert_err m) x = match r with Ok a => k a x' | Err e => Ret (Err (LoaderError e), x') end.
Proof.
  intros Hm. unfold try_res, Open.convert_err. rewrite st_bind_assoc. erewrite st_bind_run by exact Hm. by destruct r.
Qed.

Lemma prepare_leases request flags paths caller root s hs ls :
  Open.is_binary root = false → mholds s hs ls →
  ∃ r s', Open.prepare request flags paths caller root s = Ret (r, s')
    ∧ match r with
      | Ok (inl o) => ∃ l, opened_with o l ∧ mholds s' hs (l :: ls)
      | _ => mholds s' hs ls
      end.
Proof.
  intros Hroot Hh. pose proof Hh as [Hhs Hls]. unfold Open.prepare. unfold Manager.ctx at 1. erewrite st_bind_run by reflexivity.
  destruct root as [path|key bytes|key raw]; [|done|].
  - cbv beta zeta. set (id0 := caller ≫= _). destruct (OpenFlags.is_noload flags).
    + destruct (lease_resolve paths id0 (Manager.link_ctx s) path) as (r & c' & Hr & Hout & Hid).
      erewrite convert_run by apply OpenProps.on_context_run. cbv beta. rewrite Hr. simpl.
      set (s1 := Manager.mkManager c' _ _ _). assert (mholds s1 hs ls) as Hh1 by (split; [done|]; simpl; by rewrite Hout).
      destruct r as [[id|]|e]; [|eexists _, _; by split..].
      destruct (promote_leases id flags s1 hs ls) as (s2 & Hp & Hh2 & Hm2); [by apply Hid|done|].
      erewrite st_bind_run by exact Hp.
      destruct (open_module_leases id s2 hs ls Hm2 Hh2) as (o & l & s3 & Ho & Hop & Hh3).
      erewrite st_bind_run by exact Ho. erewrite st_bind_run by reflexivity.
      eexists _, _. split; [reflexivity|]. by exists l.
    + erewrite convert_run by apply OpenProps.on_context_run. cbv beta.
      pose proof (lease_prepare paths id0 (Manager.link_ctx s) path) as Hout.
      destruct (Open.prepare_load _ _ _ _) as [[p|e] c']; eexists _, _; (split; [reflexivity|]); split; try done; simpl; by rewrite Hout.
  - erewrite convert_run by apply OpenProps.on_context_run. cbv beta.
    pose proof (lease_prepare_mapped paths (caller ≫= λ addr, ctx_module_id_at (Manager.link_ctx s) addr) (Manager.link_ctx s) key raw) as Hout.
    destruct (Open.prepare_mapped _ _ _ _ _) as [[p|e] c']; eexists _, _; (split; [reflexivity|]); split; try done; simpl; by rewrite Hout.
Qed.

(** The part behind the publication. *)
Lemma initialized_leases flags p w hs ls :
  holds w hs (published_leases p ++ ls) →
  ∃ r w', (i ← Open.initialize p;
    match i with
    | Ok load => o ← Open.borrow_mut (Manager.open_load (Open.into_parts load).1 (Open.into_parts load).2 flags); mret (Ok o)
    | Err failed => e ← Open.borrow_mut (Open.on_context (Open.failed_rollback failed)); mret (Err (LoaderError e))
    end) w = Ret (r, w') ∧ opens r w' hs ls.
Proof.
  intros Hh. destruct (lease_initialize p w hs ls Hh) as (r & w1 & H1 & Hr). erewrite st_bind_run by exact H1.
  destruct r as [ld|fl].
  - destruct (Open.into_parts ld) as [l ids]; simpl. destruct Hr as (Hh1 & Hroot & Hall & Hnd & Ha1 & Ha2).
    destruct (ManagerProps.open_load_run l ids flags (Open.manager w1) Hall Hnd Hroot Ha1 Ha2)
      as (sc & c' & Hr & Hg & Hm & _ & Ho & _).
    destruct (holds_borrow (Manager.open_load l ids flags) w1 hs hs (l :: ls) (l :: ls) _ _ Hh1 Hr) as (w2 & H2 & Hh2 & _).
    { split; [apply Hh1|]. simpl. rewrite Ho. apply Hh1. }
    erewrite st_bind_run by exact H2. eexists _, _. split; [reflexivity|]. exists l. split; [|done].
    destruct (law_load_group _ _ Hroot) as (x & g & Hg'). rewrite Hg in Hg'. injection Hg' as ->.
    exists x, g. split; [done|]. by eapply elf_groups.
  - destruct (holds_context (Open.failed_rollback fl) w1 hs _ ls Hr) as (e & w2 & H2 & Hh2).
    { intros c. apply lease_failed. }
    erewrite st_bind_run by exact H2. eexists _, _. by split.
Qed.

(** Code before the constructors that leaves leases and handles alone. *)
Definition quiet (before_init : Id → st W (result (Error LErr) unit)) : Prop :=
  ∀ i w hs ls, holds w hs ls → ∃ r w', before_init i w = Ret (r, w') ∧ holds w' hs ls.

Lemma commit_leases flags before_init prepared w hs ls :
  quiet before_init → holds w hs ls →
  ∃ r w', Open.commit flags before_init prepared w = Ret (r, w') ∧ opens r w' hs ls.
Proof.
  intros Hq Hh. unfold Open.commit.
  destruct (lease_relocate (Open.on_relocation flags) prepared w hs ls Hh) as (r1 & w1 & H1 & Hh1).
  erewrite convert_run by exact H1. destruct r1 as [rel|e]; [|eexists _, _; by split].
  destruct (lease_publish rel (Manager.link_ctx (Open.manager w1))) as (r2 & c2 & H2 & Hout).
  destruct (holds_borrow (Open.on_context (Open.publish rel)) w1 hs hs ls
    ((match r2 with Ok p => published_leases p | Err _ => [] end) ++ ls) _ _ Hh1 (OpenProps.on_context_run _ _))
    as (w2 & Hw2 & Hh2 & _).
  { split; [apply Hh1|]. simpl. rewrite H2. simpl. rewrite Hout. by f_equiv; apply Hh1. }
  rewrite H2 in Hw2. erewrite convert_run by exact Hw2. simpl. destruct r2 as [pub|e]; [|eexists _, _; by split].
  destruct (Hq (Open.root_of pub) w2 hs _ Hh2) as (r3 & w3 & H3 & Hh3). erewrite st_bind_run by exact H3.
  destruct r3 as [[]|e]; [by apply initialized_leases|].
  destruct (holds_context (Open.rollback pub) w3 hs _ ls Hh3) as (e' & w4 & H4 & Hh4).
  { intros c. apply lease_rollback. }
  erewrite st_bind_run by exact H4. eexists _, _. by split.
Qed.

(** An open takes exactly the lease of the library it returns, and nothing
    when it fails; the handles stay as they are. *)
Lemma open_with_leases envp request flags root caller before_init w hs ls :
  quiet before_init → holds w hs ls →
  ∃ r w', Open.open_with envp request flags root caller before_init w = Ret (r, w') ∧ opens r w' hs ls.
Proof.
  intros Hq Hh. unfold Open.open_with. set (fl := Open.env_flags envp flags).
  assert (∃ o w1, (if Open.is_file_or_binary root then Open.borrow_mut (Manager.open_existing request fl) else mret None) w
      = Ret (o, w1) ∧ match o with Some o => ∃ l, opened_with o l ∧ holds w1 hs (l :: ls) | None => holds w1 hs ls end)
    as (o & w1 & H1 & Ho).
  { destruct (Open.is_file_or_binary root); [|by exists None, w].
    destruct (open_existing_leases request fl (Open.manager w) hs ls) as (r & s' & Hr & Hr'); [split; apply Hh|].
    destruct r as [o|]; [destruct Hr' as (l & Hl & Hr')|].
    - destruct (holds_borrow _ w hs hs ls (l :: ls) _ _ Hh Hr Hr') as (w1 & Hw & Hh1 & _). eexists _, _. split; [exact Hw|]. by exists l.
    - destruct (holds_borrow _ w hs hs ls ls _ _ Hh Hr Hr') as (w1 & Hw & Hh1 & _). by eexists _, _. }
  erewrite st_bind_run by exact H1. destruct o as [lib|].
  { eexists _, w1. split; [reflexivity|]. done. }
  destruct (_ && _); [eexists _, w1; by split|].
  destruct (Open.map_root root) as [rt|e] eqn:Hrt; [|eexists _, w1; by split].
  rewrite (try_res_ok _ _ _ rt w1) by done. destruct (OpenProps.paths_run envp w1) as (paths & H2).
  erewrite st_bind_run by exact H2. set (w2 := Open.mkWorld _ _ _ _).
  assert (holds w2 hs ls) as Hh2 by done.
  destruct (prepare_leases request fl paths caller rt (Open.manager w2) hs ls) as (r & s' & H3 & Hr).
  { destruct root; simpl in Hrt; [by injection Hrt as <-| |by injection Hrt as <-].
    destruct (Open.loader_err _); simpl in Hrt; [by injection Hrt as <-|done]. }
  { split; apply Hh2. }
  unfold try_res. destruct r as [[lib|prepared]|e].
  - destruct Hr as (l & Hl & Hr). destruct (holds_borrow _ w2 hs hs ls (l :: ls) _ _ Hh2 H3 Hr) as (w3 & Hw3 & Hh3 & _).
    erewrite st_bind_run by exact Hw3. eexists _, _. split; [reflexivity|]. by exists l.
  - destruct (holds_borrow _ w2 hs hs ls ls _ _ Hh2 H3 Hr) as (w3 & Hw3 & Hh3 & _).
    erewrite st_bind_run by exact Hw3. by apply commit_leases.
  - destruct (holds_borrow _ w2 hs hs ls ls _ _ Hh2 H3 Hr) as (w3 & Hw3 & Hh3 & _).
    erewrite st_bind_run by exact Hw3. eexists _, _. by split.
Qed.

(** C32. Every open settles its account.  Publishing takes leases on the new
    modules; an open that then fails, in the hook before the constructors or in
    a constructor, gives all of them back by one of its two rollbacks, and so
    does one that fails earlier, with nothing to give back: leases, handles and
    (as far as user code leaves them alone) the load and unload counters are as
    before.  An open that succeeds keeps exactly one lease, that of the library
    it returns.  It always returns, with the registry cell free. *)
Theorem open_settles_leases envp request flags root caller before_init w hs ls :
  quiet before_init → holds w hs ls →
  ∃ r w', Open.open_with (Id := Id) envp request flags root caller before_init w = Ret (r, w')
    ∧ Open.borrowed w' = false ∧ Manager.handles (Open.manager w') = hs
    ∧ match r with
      | Ok o => ∃ m g l, o = Manager.mkOpened (m :: g) l
          ∧ outstanding (Manager.link_ctx (Open.manager w')) ≡ₚ l :: ls
      | Err _ => outstanding (Manager.link_ctx (Open.manager w')) ≡ₚ ls
          ∧ ((∀ plan p, OpenProps.wkeeps (Open.relocate plan p)) → (∀ p, OpenProps.wkeeps (Open.initialize p)) →
             (∀ i, OpenProps.wkeeps (before_init i)) →
             OpenProps.counters (Open.manager w') = OpenProps.counters (Open.manager w))
      end.
Proof.
  intros Hq Hh.
  destruct (open_with_leases envp request flags root caller before_init w hs ls Hq Hh) as (r & w' & Hr & Ho).
  exists r, w'. split; [exact Hr|]. destruct r as [o|e].
  - destruct Ho as (l & (m & g & -> & _) & Hb & Hhs & Hl). split_and!; [done..|]. by exists m, g, l.
  - destruct Ho as (Hb & Hhs & Hl). split_and!; try done. intros H1 H2 H3. by eapply OpenProps.failed_open_counters.
Qed.
End opens.

(** ** Resources *)
Section resources.
Context {Lease : Type}.
Implicit Types rs : list (resource Lease).

Lemma leases_of_app rs rs' : leases_of (rs ++ rs') = leases_of rs ++ leases_of rs'.
Proof. apply omap_app. Qed.
Lemma handles_of_app rs rs' : handles_of (rs ++ rs') = handles_of rs ++ handles_of rs'.
Proof. apply omap_app. Qed.
Lemma occurrences_app h hs hs' : occurrences h (hs ++ hs') = (occurrences h hs + occurrences h hs')%nat.
Proof. unfold occurrences. by rewrite filter_app, length_app. Qed.
Lemma occurrences_perm h hs hs' : hs ≡ₚ hs' → occurrences h hs = occurrences h hs'.
Proof. intros Hp. unfold occurrences. by rewrite Hp. Qed.
Lemma handles_of_perm rs rs' : rs ≡ₚ rs' → handles_of rs ≡ₚ handles_of rs'.
Proof. intros Hp. unfold handles_of. by rewrite Hp. Qed.
Lemma leases_of_perm rs rs' : rs ≡ₚ rs' → leases_of rs ≡ₚ leases_of rs'.
Proof. intros Hp. unfold leases_of. by rewrite Hp. Qed.
Lemma handles_of_held hs : handles_of (RHandle <$> hs : list (resource Lease)) = hs.
Proof. induction hs; simpl; [done|]. by f_equal. Qed.
Lemma leases_of_held hs : leases_of (RHandle <$> hs : list (resource Lease)) = [].
Proof. induction hs; done. Qed.
End resources.

(** ** Calls and resources *)
Section calls.
Context {Ctx Id Lease Mod Ext LErr : Type} `{ED : EqDecision Id, LC : !LinkCtx Ctx Id Lease Mod, MA : !ModuleApi Mod}.
Context {BU : Build} {LK : Open.Linker (Open.World Ctx Lease Mod Ext) Ctx Id Lease LErr}.
Context {LL : LinkCtxLaws Ctx Id Lease Mod} {LLe : LinkerLeases LL LK}.
Context (fmt_loader : LErr → string) (envp : option (list (list Z))).
Local Abbreviation W := (Open.World Ctx Lease Mod Ext).
Local Abbreviation C := (code W tls_error).
Local Abbreviation Res := (resource Lease).
Context (drop_unloaded : list Id → C unit) (base : Z → nat) (ext : list Lease).
Local Abbreviation I := (registry_inv (Ctx := Ctx) (Mod := Mod) (Ext := Ext) base ext).

(** From the resources [own] the code is safe and ends with [P]. *)
Definition gives {A} (P : A → list Res → Prop) (c : C A) (own : list Res) : Prop :=
  ∀ lc, safe I (λ a _ own', P a own') c lc own.

Lemma gives_ret {A} (P : A → list Res → Prop) a own : P a own → gives P (mret a) own.
Proof. by intros H lc. Qed.
Lemma gives_bind {A B} (P : A → list Res → Prop) (P' : B → list Res → Prop) (c : C A) (g : A → C B) own :
  gives P c own → (∀ a own', P a own' → gives P' (g a) own') → gives P' (c ≫= g) own.
Proof.
  intros Hc Hg lc. apply safe_bind. eapply safe_mono; [|apply Hc]. intros a lc' own' HP. by apply Hg.
Qed.
Lemma gives_frame {A} (P P' : A → list Res → Prop) (c : C A) own extra :
  gives P c own → (∀ a own', P a own' → P' a (own' ++ extra)) → gives P' c (own ++ extra).
Proof. intros Hc HP lc. eapply safe_frame; [|apply Hc]. intros a lc' own'. apply HP. Qed.
Lemma gives_local {A} (P : A → list Res → Prop) (f : st tls_error A) own :
  (∀ m, ∃ a m', f m = Ret (a, m') ∧ P a own) → gives P (local f) own.
Proof. intros H lc. destruct (H lc) as (a & m' & Hf & HP). by exists a, m'. Qed.
Lemma gives_locked {A} (P : A → list Res → Prop) (c : C A) (m : st W A) own :
  balanced 0 c → runs c m →
  (∀ w rest, I w (own ++ rest) → ∃ a w' own', m w = Ret (a, w') ∧ I w' (own' ++ rest) ∧ P a own') →
  gives P (locked c) own.
Proof.
  intros Hb Hr H lc. apply safe_locked; [done|]. intros w rest Hi.
  destruct (H w rest Hi) as (a & w' & own' & Hm & Hi' & HP). exists a, w', lc, own'.
  rewrite Hr. unfold lift. by rewrite Hm.
Qed.

Lemma registry_inv_perm w rs rs' : rs ≡ₚ rs' → I w rs → I w rs'.
Proof.
  intros Hp (Hb & Ho & Hc). split; [done|]. split.
  - unfold Manager.owns in *. by rewrite Ho, (leases_of_perm _ _ Hp).
  - intros h. by rewrite Hc, (occurrences_perm h _ _ (handles_of_perm _ _ Hp)).
Qed.

(** A section that only reads the registry. *)
Lemma gives_read {A} (m : st Manager.Manager A) own :
  (∀ s, ∃ a, m s = Ret (a, s)) → gives (λ _ own', own' = own) (locked (registry_borrow m)) own.
Proof.
  intros H. eapply gives_locked; [done|apply runs_act|]. intros w rest (Hb & Ho & Hc).
  destruct (H (Open.manager w)) as (a & Hm). eexists a, _, own. split; [by apply OpenProps.borrow_run|]. done.
Qed.

Lemma gives_clear own : gives (λ _ own', own' = own) dlerror_clear own.
Proof. apply gives_local. intros m. by eexists _, _. Qed.
Lemma gives_fail {A} (P : A → list Res → Prop) msg v own : P v own → gives P (dlerror_set msg;; mret v) own.
Proof.
  intros HP. eapply (gives_bind (λ _ own', own' = own)).
  - apply gives_local. intros m. by eexists _, _.
  - intros _ own' ->. by apply gives_ret.
Qed.

Hypothesis release_build : overflow_checks = false.
Hypothesis elf_groups : ManagerProps.elf_groups (Ctx := Ctx) (Id := Id) (Lease := Lease) (Mod := Mod).
Hypothesis maps_not_null : ∀ m : Mod, is_elf m = true → mod_link_map m ≠ 0.
Hypothesis drop_safe : ∀ u, gives (λ _ own', own' = []) (drop_unloaded u) [].

Lemma gives_register o l :
  opened_with o l → gives (λ h own', h ≠ 0 ∧ own' = [RHandle h]) (register_handle o) [RLease l].
Proof.
  intros (m & g & -> & Helf). eapply gives_locked; [done|apply runs_act|]. intros w rest (Hb & Ho & Hc).
  destruct (Manager.register_handle_run m g l (Open.manager w) (leases_of rest ++ ext) Helf) as (s' & Hr & Ho' & _ & Hc').
  { unfold Manager.owns in Ho. rewrite Ho. simpl. symmetry. apply Permutation_middle. }
  eexists _, _, _. split; [by apply OpenProps.borrow_run|]. split; [|split; [by apply maps_not_null|reflexivity]].
  split; [done|]. split; [done|]. intros h. simpl. rewrite Hc', Hc. simpl. unfold occurrences. simpl.
  rewrite filter_cons. repeat case_decide; simpl; try congruence; lia.
Qed.

Lemma gives_release h :
  gives (λ v own', v = true ∧ own' = []) (release_handle drop_unloaded h) [RHandle h].
Proof.
  eapply (gives_bind (λ (u : option (list Id)) own', is_Some u ∧ own' = [])).
  - eapply gives_locked; [done|apply runs_act|]. intros w rest (Hb & Ho & Hc).
    pose proof (Manager.release_handle_run release_build h (Open.manager w) (leases_of rest ++ ext) Ho) as Hr.
    pose proof (Hc h) as Hh. simpl in Hh. unfold occurrences in Hh. rewrite filter_cons, decide_True in Hh by done.
    simpl in Hh. unfold Manager.count_of in Hh at 1.
    destruct (Manager.handles (Open.manager w) !! h) as [hst|]; [|lia]. destruct Hr as (u & s' & Hr & Ho' & Hc').
    eexists _, _, []. split; [by apply OpenProps.borrow_run|]. split; [|split; [by eexists|done]].
    split; [done|]. split; [done|]. intros x. simpl. rewrite Hc', Hc. simpl. unfold occurrences. rewrite filter_cons.
    repeat case_decide; simpl; try congruence; lia.
  - intros u own' [[x ->] ->]. eapply gives_bind; [apply drop_safe|]. intros _ own' ->. by apply gives_ret.
Qed.

Lemma gives_open_file path flags caller :
  gives (λ r own', match r with Ok o => ∃ l, opened_with o l ∧ own' = [RLease l] | Err _ => own' = [] end)
    (open_file envp path flags caller) [].
Proof.
  eapply gives_locked; [apply open_in_section|apply open_locked_runs|]. intros w rest (Hb & Ho & Hc).
  destruct (open_with_leases elf_groups envp path flags (Open.File path) (Some caller) (λ _, mret (Ok tt)) w
    (Manager.handles (Open.manager w)) (Manager.all_leases (Manager.handles (Open.manager w)) ++ leases_of rest ++ ext))
    as (r & w' & Hr & Hop); [by intros i v hs ls Hh; exists (Ok tt), v|done|].
  destruct r as [o|e].
  - destruct Hop as (l & Hl & Hb' & Hh' & Ho'). exists (Ok o), w', [RLease l]. split; [exact Hr|]. split; [|by exists l].
    split; [done|]. unfold Manager.owns. rewrite Hh'. split; [|done]. rewrite Ho'. simpl. apply Permutation_middle.
  - destruct Hop as (Hb' & Hh' & Ho'). exists (Err e), w', []. split; [exact Hr|]. split; [|done].
    split; [done|]. unfold Manager.owns. by rewrite Hh'.
Qed.
Lemma gives_open path flags caller :
  gives (λ h own', (h = DlApi.null ∧ own' = []) ∨ (h ≠ DlApi.null ∧ own' = [RHandle h]))
    (call_code fmt_loader drop_unloaded envp (DlApi.CallOpen (Some path) flags caller)) [].
Proof.
  eapply gives_bind; [apply gives_clear|]. intros _ own' ->.
  destruct (from_utf8 path) as [nm|]; [|apply gives_fail; by left].
  eapply gives_bind; [apply gives_open_file|]. intros [o|e] own'; cbv beta iota; [intros (l & Hl & ->)|intros ->].
  - intros lc. eapply safe_mono; [|by eapply gives_register]. intros h _ own' [Hh ->]. by right.
  - apply gives_fail. by left.
Qed.

Lemma gives_sym h nm caller :
  gives (λ _ own', own' = []) (call_code fmt_loader drop_unloaded envp (DlApi.CallSym h nm caller)) [].
Proof.
  eapply gives_bind; [apply gives_clear|]. intros _ own' ->. destruct nm as [nm|]; [|by apply gives_fail].
  destruct (from_utf8 nm) as [nm'|]; [|by apply gives_fail]. eapply (gives_bind (λ _ own', own' = [])).
  - unfold find_by_handle. destruct (_ =? _); [|destruct (_ =? _)];
      (eapply gives_bind; [by apply gives_read; intros s; eexists|]; intros o own' ->; by apply gives_ret).
  - intros [v|e] own' ->; [by apply gives_ret|by apply gives_fail].
Qed.

Lemma gives_close h :
  h ≠ 0 → gives (λ v own', v = 0 ∧ own' = [])
    (call_code fmt_loader drop_unloaded envp (DlApi.CallClose h)) [RHandle h].
Proof.
  intros Hh. eapply gives_bind; [apply gives_clear|]. intros _ own' ->.
  destruct (Z.eqb_spec h 0) as [|_]; [done|].
  eapply gives_bind; [apply gives_release|]. intros v own' [-> ->]. by apply gives_ret.
Qed.

(** ** Programs *)
Definition ends (r : list Z * list Z) (own : list Res) : Prop :=
  own ≡ₚ RHandle <$> r.1 ∧ Forall (λ v, v = 0) r.2.

Lemma gives_perm {A} (P : A → list Res → Prop) (c : C A) own own' :
  (∀ a r1 r2, r1 ≡ₚ r2 → P a r1 → P a r2) → own ≡ₚ own' → gives P c own → gives P c own'.
Proof.
  intros HP Hp Hc lc. eapply safe_perm; [|intros a _; apply HP|exact Hp|apply Hc].
  intros s r1 r2. apply registry_inv_perm.
Qed.
Lemma ends_perm r r1 r2 : r1 ≡ₚ r2 → ends r r1 → ends r r2.
Proof. intros Hp [H1 H2]. split; [by rewrite <-Hp|done]. Qed.

Lemma gives_program cmds held :
  Forall (λ h, h ≠ 0) held → gives ends (program fmt_loader drop_unloaded envp cmds held) (RHandle <$> held).
Proof.
  revert held. induction cmds as [|[path flags caller|i nm caller|i] cmds IH]; intros held Hall; cbn [program].
  - by apply gives_ret.
  - change (RHandle <$> held : list Res) with ([] ++ (RHandle <$> held : list Res)).
    eapply gives_bind; [eapply (gives_frame _ (λ h own', own' = RHandle <$> (if h =? DlApi.null then held else h :: held))); [apply gives_open|]|].
    + intros h own' [[-> ->]|[Hh ->]]; [done|]. by destruct (Z.eqb_spec h DlApi.null).
    + intros h own' ->. apply IH. destruct (Z.eqb_spec h DlApi.null); [done|]. by constructor.
  - destruct (held !! i) as [h|]; [|by apply IH].
    change (RHandle <$> held : list Res) with ([] ++ (RHandle <$> held : list Res)).
    eapply gives_bind; [eapply (gives_frame _ (λ _ own', own' = RHandle <$> held)); [apply gives_sym|]|].
    + by intros v own' ->.
    + intros v own' ->. by apply IH.
  - destruct (held !! i) as [h|] eqn:Hi; [|by apply IH].
    pose proof (delete_Permutation _ _ _ Hi) as Hp.
    eapply (gives_perm _ _ ([RHandle h] ++ (RHandle <$> delete i held))); [apply ends_perm|symmetry; exact (fmap_Permutation RHandle _ _ Hp)|].
    assert (h ≠ 0) as Hh by (by eapply Forall_lookup_1 in Hi; [|exact Hall]).
    eapply gives_bind; [eapply (gives_frame _ (λ v own', v = 0 ∧ own' = RHandle <$> delete i held)); [by apply gives_close|]|].
    + by intros v own' [-> ->].
    + intros v own' [-> ->]. eapply gives_bind; [apply IH; by apply Forall_delete|].
      intros [hs rs] own' [H1 H2]. apply gives_ret. split; [done|]. by constructor.
Qed.

(** ** All threads *)
Definition programs (progs : gmap Z (list command)) : gmap Z (C (list Z * list Z) * tls_error) :=
  threads_of ((λ cmds, program fmt_loader drop_unloaded envp cmds []) <$> progs).

Lemma programs_ok w progs : I w [] → ok I (λ _ r _ own, ends r own) (w, programs progs).
Proof.
  intros Hi. exists ((λ _, []) <$> progs). split.
  - eapply registry_inv_perm; [|exact Hi]. simpl. induction progs as [|t cs progs Ht IH] using map_ind.
    + unfold total. by rewrite fmap_empty, map_to_list_empty.
    + rewrite fmap_insert, total_insert. simpl. rewrite delete_id; [done|]. by rewrite lookup_fmap, Ht.
  - intros t. simpl. unfold programs, threads_of. rewrite !lookup_fmap.
    destruct (progs !! t) as [cmds|]; simpl; [|done]. exists []. split; [done|]. by apply (gives_program cmds []).
Qed.

(** When all threads are done, the resources are the handles that they hold. *)
Lemma total_done om (ts : gmap Z (C (list Z * list Z) * tls_error)) :
  threads_safe I (λ _ r _ own, ends r own) om ts →
  (∀ t c lc, ts !! t = Some (c, lc) → ∃ r, c = Done r) → total om ≡ₚ RHandle <$> held_by ts.
Proof.
  revert om. induction ts as [|t [c lc] ts Ht IH] using map_ind; intros om Hs Hd.
  - assert (om = ∅) as -> by (apply map_eq; intros t; specialize (Hs t); rewrite lookup_empty in *; done).
    unfold total, held_by. by rewrite !map_to_list_empty.
  - destruct (threads_safe_lookup I _ om _ t c lc Hs) as (own & Ho & Hown); [by rewrite lookup_insert_eq|].
    destruct (Hd t c lc) as [[hs rs] ->]; [by rewrite lookup_insert_eq|]. destruct Hown as [Hown _].
    rewrite (total_delete om t own Ho), Hown. unfold held_by. rewrite map_to_list_insert by done. simpl.
    rewrite fmap_app. f_equiv. apply (IH (delete t om)).
    + intros u. specialize (Hs u). destruct (decide (u = t)) as [->|Hne].
      * by rewrite Ht, lookup_delete_eq.
      * by rewrite lookup_insert_ne, lookup_delete_ne in * by done.
    + intros u d l Hu. apply (Hd u d l). rewrite lookup_insert_ne; [done|]. by intros ->; rewrite Ht in Hu.
Qed.

(** What holds in every configuration that such threads reach. *)
Lemma sessions_run {L} {RL : ReentrantLock L} progs w (c : config W tls_error (list Z * list Z) L) :
  I w [] → rtc step (start w (programs progs)) c →
  (∀ t code lc, threads c !! t = Some (code, lc) → can_go (rl_guards (lock c) t) code (shared c) lc)
  ∧ (∀ t held closes lc, threads c !! t = Some (Done (held, closes), lc) → Forall (λ v, v = 0) closes)
  ∧ (free c → (∀ t code lc, threads c !! t = Some (code, lc) → ∃ r, code = Done r) →
     Manager.owns (Open.manager (shared c)) ext
     ∧ ∀ h, Manager.count_of (Manager.handles (Open.manager (shared c))) h
            = (base h + occurrences h (held_by (threads c)))%nat).
Proof.
  intros Hi Hr.
  destruct (safe_threads I registry_inv_perm (λ _ r _ own, ends r own) w (programs progs) c) as [Hf Hgo];
    [by apply programs_ok|done|]. split_and!.
  - intros t code lc Ht. by apply Hgo.
  - intros t held closes lc Ht. destruct (Hgo t _ lc Ht) as [_ H]. by destruct (H _ eq_refl) as (own & _ & Hc).
  - intros Hfree Hdone. destruct (Hf Hfree) as (om & Hom & Hts).
    destruct (registry_inv_perm _ _ _ (total_done om (threads c) Hts Hdone) Hom) as (_ & Ho & Hc).
    rewrite leases_of_held in Ho. rewrite handles_of_held in Hc. by split.
Qed.

(** C5. Libraries on many threads: threads run any programs of opens, lookups
    and closes of handles they hold.  In every interleaving of their actions,
    with either lock, no thread gets stuck or panics, whatever the opens
    return; every close of a held handle returns 0; and when all threads are
    done and the lock is free, each handle counts exactly the opens that were
    not closed, and every lease belongs to a handle or to the rest of the
    process. *)
Theorem sessions_safe {L} {RL : ReentrantLock L} progs w (c : config W tls_error (list Z * list Z) L) :
  I w [] → rtc step (start w (programs progs)) c →
  (∀ t code lc, threads c !! t = Some (code, lc) → can_go (rl_guards (lock c) t) code (shared c) lc)
  ∧ (∀ t held closes lc, threads c !! t = Some (Done (held, closes), lc) → Forall (λ v, v = 0) closes)
  ∧ (free c → (∀ t code lc, threads c !! t = Some (code, lc) → ∃ r, code = Done r) →
     Manager.owns (Open.manager (shared c)) ext
     ∧ ∀ h, Manager.count_of (Manager.handles (Open.manager (shared c))) h
            = (base h + occurrences h (held_by (threads c)))%nat).
Proof. apply sessions_run. Qed.

(** No deadlock: over the abstract lock, which both locks refine, the threads
    of such programs can finish from every configuration they reach, whatever
    the interleaving so far and whichever thread is in a section. *)
Theorem sessions_complete progs w (c : config W tls_error (list Z * list Z) lock_spec) :
  I w [] → rtc step (start w (programs progs)) c →
  ∃ d, rtc step c d ∧ free d ∧ ∀ t code lc, threads d !! t = Some (code, lc) →
    ∃ held closes, code = Done (held, closes).
Proof.
  intros Hi Hr.
  destruct (safe_complete I registry_inv_perm (λ _ r _ own, ends r own) w (programs progs) c) as (d & Hd & Hf & Hdone);
    [by apply programs_ok|done|].
  exists d. split; [done|]. split; [done|]. intros t code lc Ht. destruct (Hdone t code lc Ht) as [[hs rs] ->]. eauto.
Qed.
End calls.

(** ** A small linker that gives its leases back *)
Import Toy.
Local Abbreviation tworld := (Open.World toy (nat * nat) nat unit).

#[export] Instance leasing_linker : Open.Linker tworld toy nat (nat * nat) Z := {|
  Open.Raw := unit; Open.Prepared := list Z; Open.Relocated := list Z; Open.Published := nat * nat;
  Open.Load := nat * nat; Open.Failed := nat * nat;
  Open.load_dylib _ bytes := match bytes with [] => Err 1 | _ => Ok tt end;
  Open.resolve_committed _ _ c p := (Ok (ctx_module_id c p), c);
  Open.prepare_load _ _ c p := (match p with [] => Err 2 | _ => Ok p end, c);
  Open.prepare_mapped _ _ c key _ := (Ok key, c);
  Open.relocate _ p := λ w, Ret (match p with 66 :: _ => Err 3 | _ => Ok p end, w);
  Open.publish p c := match ctx_insert c p 0%nat 0 [] with Some (l, c') => (Ok l, c') | None => (Err 4, c) end;
  Open.root_of := snd;
  Open.rollback l c := (Ok tt, give_back l c);
  Open.initialize l := λ w, Ret (if bool_decide (OpenProps.good_load l w) then Ok l else Err l, w);
  Open.failed_rollback l c := (5, give_back l c);
  Open.into_parts l := (l, [l.2]) |}.

#[export] Program Instance leasing_laws : LinkerLeases toy_laws leasing_linker := {|
  published_leases l := [l]; failed_leases l := [l] |}.
Next Obligation.
  intros paths caller c path. eexists _, _. split; [reflexivity|]. split; [done|].
  intros i [= Hi]. by refine (law_module_id c path i _).
Qed.
Next Obligation. done. Qed.
Next Obligation. done. Qed.
Next Obligation. intros plan p w hs ls Hh. by eexists _, _. Qed.
Next Obligation. intros p c. by eexists _, _. Qed.
Next Obligation. intros p c ls. apply give_back_leases. Qed.
Next Obligation.
  intros p w hs ls Hh. eexists _, _. split; [reflexivity|]. case_bool_decide as Hg; [|done].
  destruct Hg as (H1 & H2 & H3 & H4). simpl. split; [done|]. split; [done|]. split; [by apply Forall_singleton|].
  split; [apply NoDup_singleton|]. by split.
Qed.
Next Obligation. intros f c ls. apply give_back_leases. Qed.

(** Two threads: one opens a new library, the other opens the first module
    twice and closes it once; they take turns. *)
Definition toy_progs : gmap Z (list command) :=
  {[ 1 := [COpen [70] 2 0; CSym 0 None 0; CClose 0]; 2 := [COpen [0] 2 0; COpen [0] 2 0; CClose 1] ]}.
Definition toy_drop (u : list nat) : code tworld tls_error unit :=
  locked (registry_borrow (Manager.global_find [7]));; mret tt.
Definition toy_start `{Build} : config _ _ _ lock_spec :=
  start (OpenProps.toy_world 2) (programs (LErr := Z) (Id := nat) (λ _, EmptyString) None toy_drop toy_progs).
Definition toy_turns : list Z :=
  [1; 2; 1; 1; 1; 1; 1; 1; 1; 1; 1; 1; 2; 2; 2; 1; 1; 1; 2; 1; 2; 1; 2; 1; 2;
   1; 1; 1; 2; 2; 2; 1; 1; 1; 2; 2; 2; 2; 2; 2; 2; 2; 2; 2].
Definition toy_done `{Build} : config _ _ _ lock_spec := exec_to toy_turns toy_start.

Lemma toy_elf : ManagerProps.elf_groups (Ctx := toy) (Id := nat) (Lease := nat * nat) (Mod := nat).
Proof. done. Qed.
(** A load that publishes its module and then fails: in the hook, and in the
    constructors (the load counter is at its end). *)
Definition toy_hook : nat → st tworld (result (Error Z) unit) := λ _, mret (Err (find_lib_error EmptyString)).
Definition full_world : tworld :=
  Open.mkWorld (Manager.mkManager (mkToy [1; 1] [] 0 [] []) ∅ (2 ^ 64 - 1) 0) false None tt.
Lemma open_settles_leases_witness :
  let BU : Build := Build_Build true X86_64 in
  let fails (m : st tworld (result (Error Z) (Manager.OpenedLibrary (Lease := nat * nat) (Mod := nat)))) (w : tworld) :=
    ∃ e w', m w = Ret (Err e, w') ∧ t_out (Manager.link_ctx (Open.manager w')) ≡ₚ [] in
  fails (Open.open_with (LK := leasing_linker) None [70] 2 (Open.File [70]) None toy_hook) (OpenProps.toy_world 2)
  ∧ fails (Open.open_with (LK := leasing_linker) None [70] 2 (Open.File [70]) None OpenProps.no_hook) full_world.
Proof.
  intros BU fails. split.
  - destruct (open_settles_leases (BU := BU) (LK := leasing_linker) toy_elf None [70] 2 (Open.File [70]) None toy_hook
      (OpenProps.toy_world 2) ∅ []) as (r & w' & Hr & _ & _ & Hl).
    + intros i w hs ls Hh. by eexists _, _.
    + by split.
    + destruct r as [o|e]; [by vm_compute in Hr|]. exists e, w'. split; [exact Hr|apply Hl].
  - destruct (open_settles_leases (BU := BU) (LK := leasing_linker) toy_elf None [70] 2 (Open.File [70]) None OpenProps.no_hook
      full_world ∅ []) as (r & w' & Hr & _ & _ & Hl).
    + intros i w hs ls Hh. by eexists _, _.
    + by split.
    + destruct r as [o|e]; [by vm_compute in Hr|]. exists e, w'. split; [exact Hr|apply Hl].
Defined.

Lemma toy_maps (m : nat) : is_elf m = true → mod_link_map m ≠ 0.
Proof. intros _. simpl. lia. Qed.
Lemma toy_drop_safe u : gives (LL := toy_laws) (λ _, O) [] (λ _ own', own' = []) (toy_drop u) [].
Proof.
  eapply gives_bind; [apply gives_read; intros s; by eexists|]. intros a own' ->. by apply gives_ret.
Qed.

Lemma toy_inv : registry_inv (LL := toy_laws) (λ _, O) [] (OpenProps.toy_world 2) [].
Proof.
  split; [reflexivity|]. split; [|reflexivity]. unfold Manager.owns, Manager.all_leases. simpl.
  by rewrite map_to_list_empty.
Qed.

Lemma sessions_safe_witness :
  let BU : Build := Build_Build false X86_64 in
  threads toy_done = {[ 1 := (Done ([], [0]), None); 2 := (Done ([4096], [0]), None) ]}
  ∧ ∀ h, Manager.count_of (Manager.handles (Open.manager (shared toy_done))) h
         = (0 + Sessions.occurrences h (held_by (threads toy_done)))%nat.
Proof.
  intros BU. assert (threads toy_done = {[ 1 := (Done ([], [0]), None); 2 := (Done ([4096], [0]), None) ]}) as Ht
    by by vm_compute.
  split; [exact Ht|].
  apply (sessions_safe (BU := BU) (LErr := Z) (λ _, EmptyString) None toy_drop (λ _, O) [] eq_refl toy_elf toy_maps toy_drop_safe
    toy_progs (OpenProps.toy_world 2)).
  - apply toy_inv.
  - refine (exec_to_sound toy_turns toy_start _). by vm_compute.
  - intros t. by vm_compute.
  - intros t code lc. rewrite Ht. intros [[_ [= <- _]]|[_ H]]%lookup_insert_Some; [eauto|].
    apply lookup_singleton_Some in H as [_ [= <- _]]. eauto.
Defined.

(** The first thread is stopped in its section. *)
Lemma sessions_complete_witness :
  let BU : Build := Build_Build false X86_64 in
  let c := exec_to (take 8 toy_turns) toy_start in
  lock c = Some (1, 1%nat) ∧ ∃ d, rtc step c d ∧ free d.
Proof.
  intros BU c. split; [by vm_compute|].
  destruct (sessions_complete (BU := BU) (LErr := Z) (λ _, EmptyString) None toy_drop (λ _, O) [] eq_refl toy_elf toy_maps toy_drop_safe
    toy_progs (OpenProps.toy_world 2) c) as (d & Hd & Hf & _).
  - apply toy_inv.
  - refine (exec_to_sound (take 8 toy_turns) toy_start _). by vm_compute.
  - exists d. split; [exact Hd|exact Hf].
Defined.
End SessionsProps.
