(* ===== verification/Introspect.v ===== *)
(** * Introspection (src/api/dladdr.rs, dl_iterate_phdr.rs, dl_find_object.rs,
    and [ElfLibrary] of src/library.rs)

    Queries over the registered modules: the symbol that covers an address,
    the walk over all program headers with its callback, and the lookup that
    unwinders use.  Each of them takes leases for the time of the query and
    gives them back when the owning values are dropped. *)

From S2P Require Import Prelude Utf8 Errors LinkMap Manager Open.

(** A symbol of a module's dynamic symbol table. *)
Record ElfSymbol := mkSymbol {
  is_exported : bool;
  st_value : Z;
  st_size : Z;
  symbol_name : option name }.

(** What the queries read of a module. *)
Class Image (Mod : Type) := {
  img_base : Mod → Z;
  img_phdrs : Mod → option (list ElfPhdr);
  img_tls : Mod → option Z;                  (* the TLS module id *)
  img_c_name : Mod → Z;                      (* [extra_data.c_name().as_ptr()] *)
  img_exports : Mod → list ElfSymbol;
  img_range_at : Mod → Z → option (Z * Z) }.

Module Introspect.

(** ** dladdr.rs *)
Section symbols.
Context {BU : Build}.

(** The body of the closure of [find_best_symbol]. *)
Definition visit_symbol (base addr : Z) (best_match : option (option name * Z)) (symbol : ElfSymbol)
    : outcome (option (option name * Z)) :=
  if negb (is_exported symbol) || (st_value symbol =? 0) then Ret best_match
  else
    start ← uadd base (st_value symbol);
    end_ ← uadd start (st_size symbol);
    if (start <=? addr) && ((st_size symbol =? 0) || (addr <? end_))
       && (match best_match with None => true | Some (_, best_start) => best_start <? start end)
    then Ret (Some (symbol_name symbol, start)) else Ret best_match.
Fixpoint visit_symbols (base addr : Z) (best_match : option (option name * Z)) (exports : list ElfSymbol)
    : outcome (option (option name * Z)) :=
  match exports with
  | [] => Ret best_match
  | symbol :: exports =>
      best_match ← visit_symbol base addr best_match symbol;
      visit_symbols base addr best_match exports
  end.
Definition find_best_symbol (base addr : Z) (exports : list ElfSymbol)
    : outcome (option (option name * Z)) := visit_symbols base addr None exports.
End symbols.

Section introspect.
Context {Ctx Id Lease Mod Ext : Type} `{ED : EqDecision Id, LC : !LinkCtx Ctx Id Lease Mod, MA : !ModuleApi Mod}.
Context {BU : Build} {IM : Image Mod}.
Local Abbreviation W := (Open.World Ctx Lease Mod Ext).
Local Abbreviation Mgr := (Manager.Manager (Ctx := Ctx) (Lease := Lease) (Mod := Mod)).
Local Abbreviation ElfLibrary := (Manager.OpenedLibrary (Lease := Lease) (Mod := Mod)).

(** [Drop for ModuleLease] *)
Definition drop_lease (l : Lease) : st W unit :=
  Open.borrow_mut (Manager.release (Id := Id) l);; mret tt.

(** ** ElfLibrary (one handle of it; clones share the lease) *)
Definition lib_module (dylib : ElfLibrary) : outcome Mod := Manager.opened_module dylib.
Definition lib_base (dylib : ElfLibrary) : outcome Z := m ← lib_module dylib; Ret (img_base m).
Definition lib_cname (dylib : ElfLibrary) : outcome Z := m ← lib_module dylib; Ret (img_c_name m).
Definition lib_get {LErr} (dylib : ElfLibrary) (nm : name) : result (Error LErr) Z :=
  match Manager.find_symbol (Manager.scope dylib) nm with
  | Some s => Ok s
  | None => Err (find_symbol_error ("can not find symbol:" +:+ string_of_bytes nm))
  end.
Definition lib_flags (dylib : ElfLibrary) : st W OpenFlags.t :=
  f ← Open.borrow_mut (Manager.flags_of (lease_id (Manager.lease dylib)));
  mret (default OpenFlags.empty f).

Record DlInfo := mkDlInfo { dylib : ElfLibrary; sname : option name; saddr : Z }.
Definition info_symbol_name (i : DlInfo) : option name := sname i.
Definition symbol_addr (i : DlInfo) : option Z := if saddr i =? 0 then None else Some (saddr i).

(** [ElfLibrary::dladdr] *)
Definition lib_dladdr (addr : Z) : st W (option DlInfo) :=
  o ← Open.borrow_mut (Manager.library_by_addr addr);
  match o with
  | None => mret None
  | Some dylib =>
      m ← st_lift (lib_module dylib);
      b ← st_lift (find_best_symbol (img_base m) addr (img_exports m));
      let '(sname, saddr) := default (None, 0) b in
      mret (Some (mkDlInfo dylib sname saddr))
  end.

(** [CDlInfo]; a name is the string its pointer denotes. *)
Record CDlInfo := mkCDlInfo {
  dli_fname : Z; dli_fbase : Z; dli_sname : option name; dli_saddr : Z }.
(** The structure is written only when the result is 1. *)
Definition dladdr (addr : Z) (info : CDlInfo) : st W (Z * CDlInfo) :=
  o ← lib_dladdr addr;
  match o with
  | None => mret (0, info)
  | Some dl_info =>
      fbase ← st_lift (lib_base (dylib dl_info));
      fname ← st_lift (lib_cname (dylib dl_info));
      let info := mkCDlInfo fname fbase (info_symbol_name dl_info) (default 0 (symbol_addr dl_info)) in
      drop_lease (Manager.lease (dylib dl_info));;
      mret (1, info)
  end.

(** ** dl_iterate_phdr.rs *)
Record DlPhdrInfo := mkPhdrInfo {
  info_base : Z; info_name : Z; info_phdrs : list ElfPhdr;
  dlpi_adds : Z; dlpi_subs : Z; tls_modid : Z; tls_data : Z }.

(** [tls_data_ptr]: the block of the calling thread. *)
Variable tls_data_ptr : Z → Z.
(** [TlsModuleId::RESERVED] of the loader crate. *)
Variable RESERVED : Z.

(** [DlPhdrInfo::name]; [str_at] is the string at an address. *)
Definition phdr_name (str_at : Z → list Z) (info : DlPhdrInfo) : list Z :=
  if info_name info =? 0 then [] else default [] (from_utf8 (str_at (info_name info))).

Definition phdr_info (adds subs : Z) (m : Mod) : option DlPhdrInfo :=
  match default [] (img_phdrs m) with
  | [] => None
  | phdrs =>
      Some (mkPhdrInfo (img_base m) (img_c_name m) phdrs adds subs
        (default RESERVED (img_tls m)) (from_option tls_data_ptr 0 (img_tls m)))
  end.

(** The loop over the snapshot; the callback may run any code. *)
Fixpoint visit_libraries {E} (callback : DlPhdrInfo → st W (result E unit)) (adds subs : Z)
    (libraries : list (Manager.LibrarySnapshot (Lease := Lease) (Mod := Mod))) : st W (result E unit) :=
  match libraries with
  | [] => mret (Ok tt)
  | lib :: libraries =>
      match phdr_info adds subs (Manager.snap_module lib) with
      | None => visit_libraries callback adds subs libraries
      | Some info =>
          _u ←! callback info;
          visit_libraries callback adds subs libraries
      end
  end.
(** The snapshot is dropped in order, on every path. *)
Fixpoint drop_leases (ls : list Lease) : st W unit :=
  match ls with [] => mret tt | l :: ls => drop_lease l;; drop_leases ls end.

Definition for_each_phdr {E} (callback : DlPhdrInfo → st W (result E unit)) : st W (result E unit) :=
  p ← Open.borrow_mut (s ← st_get; l ← Manager.library_snapshot (Id := Id); mret (Manager.adds s, Manager.subs s, l));
  let '(adds, subs, libraries) := p in
  r ← visit_libraries callback adds subs libraries;
  drop_leases (Manager.snap_lease <$> libraries);;
  mret r.

(** [ElfLibrary::dl_iterate_phdr] *)
Definition lib_dl_iterate_phdr {LErr} (callback : DlPhdrInfo → st W (result (Error LErr) unit))
    : st W (result (Error LErr) unit) := for_each_phdr callback.

Record CDlPhdrInfo := mkCPhdrInfo {
  dlpi_addr : Z; dlpi_name : Z; dlpi_phdr : list ElfPhdr; dlpi_phnum : Z;
  c_adds : Z; c_subs : Z; dlpi_tls_modid : Z; dlpi_tls_data : Z }.
Definition c_info (info : DlPhdrInfo) : CDlPhdrInfo :=
  mkCPhdrInfo (info_base info) (info_name info) (info_phdrs info) (as_u16 (zlen (info_phdrs info)))
    (dlpi_adds info) (dlpi_subs info) (tls_modid info) (tls_data info).

Definition dl_iterate_phdr (callback : option (CDlPhdrInfo → st W Z)) : st W Z :=
  match callback with
  | None => mret 0
  | Some callback =>
      r ← for_each_phdr (E := Z) (λ info,
            ret ← callback (c_info info);
            mret (if negb (ret =? 0) then Err ret else Ok tt));
      mret (match r with Err e => e | Ok _ => 0 end)
  end.

(** ** dl_find_object.rs *)
Variable vm_add : Z → Z → Z.
Record DlFindObject := mkFindObject {
  dlfo_flags : Z; dlfo_map_start : Z; dlfo_map_end : Z; dlfo_link_map : Z; dlfo_eh_frame : Z;
  dlfo_reserved : list Z }.

Definition loaded_by_addr (addr : Z) : st W (option Mod) :=
  Open.borrow_mut (Manager.module_by_addr (Id := Id) addr).

Definition dl_find_object (pc : Z) (dlfo : DlFindObject) : st W (Z * DlFindObject) :=
  o ← loaded_by_addr pc;
  match o with
  | None => mret (-1, dlfo)
  | Some dso =>
      match img_range_at dso pc with
      | None => st_fail Panic
      | Some range =>
          let eh_frame := from_option (λ p, vm_add (img_base dso) (p_vaddr p)) 0
                            (find_phdr PT_GNU_EH_FRAME (default [] (img_phdrs dso))) in
          mret (0, mkFindObject 0 (img_base dso) range.2 (mod_link_map dso) eh_frame (replicate 7 0))
      end
  end.
Definition dl_find_dso_for_object (addr : Z) : st W Z :=
  o ← loaded_by_addr addr;
  mret (match o with None => 0 | Some dso => mod_link_map dso end).

End introspect.
End Introspect.

Module IntrospectProps.
Import Introspect.

(** ** The best symbol *)
Section symbols.
Context {BU : Build} (base addr : Z).

(** The exported symbol [s] covers the address; a symbol without size covers
    everything behind its start. *)
Definition covers (s : ElfSymbol) : Prop :=
  is_exported s = true ∧ st_value s ≠ 0 ∧ base + st_value s ≤ addr
  ∧ (st_size s = 0 ∨ addr < base + st_value s + st_size s).
(** Addresses of the image fit a machine word. *)
Definition in_image (s : ElfSymbol) : Prop :=
  0 ≤ st_value s ∧ 0 ≤ st_size s ∧ base + st_value s + st_size s < 2 ^ 64.

(** [r] is the first of the greatest covering symbols of [seen]. *)
Definition best_of (seen : list ElfSymbol) (r : option (option name * Z)) : Prop :=
  match r with
  | None => ∀ x, x ∈ seen → ¬ covers x
  | Some (n, start) => ∃ pre s post, seen = pre ++ s :: post ∧ covers s
      ∧ n = symbol_name s ∧ start = base + st_value s
      ∧ (∀ x, x ∈ pre → covers x → st_value x < st_value s)
      ∧ (∀ x, x ∈ post → covers x → st_value x ≤ st_value s)
  end.

(** Passing a symbol that is not better keeps the best. *)
Lemma best_of_skip seen r x :
  best_of seen r → (covers x → match r with None => False | Some (_, b) => base + st_value x ≤ b end) →
  best_of (seen ++ [x]) r.
Proof.
  destruct r as [[n b]|]; simpl.
  - intros (pre & s & post & -> & Hc & Hn & Hb & H1 & H2) Hx. exists pre, s, (post ++ [x]).
    split_and!; try done; [by rewrite <-app_assoc|].
    intros y [Hy| ->%list_elem_of_singleton]%elem_of_app Hcy; [by apply H2|]. specialize (Hx Hcy). lia.
  - intros H1 Hx y [Hy| ->%list_elem_of_singleton]%elem_of_app; [by apply H1|done].
Qed.
Lemma best_of_take seen r x :
  best_of seen r → covers x → match r with None => True | Some (_, b) => b < base + st_value x end →
  best_of (seen ++ [x]) (Some (symbol_name x, base + st_value x)).
Proof.
  intros Hb Hx Hlt. exists seen, x, []. split_and!; try done; [|intros y Hy; by apply elem_of_nil in Hy].
  intros y Hy Hcy. destruct r as [[n b]|]; [|by destruct (Hb y Hy)].
  destruct Hb as (pre & s & post & -> & Hc & _ & -> & H1 & H2).
  apply elem_of_app in Hy as [Hy|[-> |Hy]%elem_of_cons]; [specialize (H1 y Hy Hcy)| |specialize (H2 y Hy Hcy)]; lia.
Qed.

Lemma visit_symbol_best seen r x :
  0 ≤ base → in_image x → best_of seen r →
  ∃ r', visit_symbol base addr r x = Ret r' ∧ best_of (seen ++ [x]) r'.
Proof.
  intros Hbase (Hv & Hs & Hfit) Hbest. unfold visit_symbol.
  destruct (is_exported x) eqn:He; simpl;
    [destruct (Z.eqb_spec (st_value x) 0) as [Hz|Hz]|];
    try (exists r; split; [done|]; apply best_of_skip; [done|]; intros (He' & Hz' & _); congruence).
  u_small. match goal with |- context [if ?b then _ else _] => destruct b eqn:Hb end;
    eexists; (split; [reflexivity|]).
  - apply andb_true_iff in Hb as [[Hb1%Z.leb_le Hb2%orb_true_iff]%andb_true_iff Hb3].
    eapply best_of_take; [done| |].
    + split_and!; try done. destruct Hb2 as [?%Z.eqb_eq|?%Z.ltb_lt]; [by left|by right].
    + destruct r as [[n b]|]; [by apply Z.ltb_lt|done].
  - apply best_of_skip; [done|]. intros (_ & _ & Hc1 & Hc2).
    rewrite (proj2 (Z.leb_le _ _)) in Hb by done.
    replace ((st_size x =? 0) || (addr <? base + st_value x + st_size x)) with true in Hb
      by (symmetry; apply orb_true_iff; destruct Hc2; [left; by apply Z.eqb_eq|right; by apply Z.ltb_lt]).
    simpl in Hb. destruct r as [[n b]|]; [|done]. by apply Z.ltb_ge in Hb.
Qed.

Lemma visit_symbols_best seen exports r :
  0 ≤ base → Forall in_image exports → best_of seen r →
  ∃ r', visit_symbols base addr r exports = Ret r' ∧ best_of (seen ++ exports) r'.
Proof.
  intros Hbase Hall. revert seen r. induction exports as [|x exports IH]; intros seen r Hbest; simpl.
  { exists r. by rewrite app_nil_r. }
  apply Forall_cons in Hall as [Hx Hall].
  destruct (visit_symbol_best seen r x Hbase Hx Hbest) as (r1 & -> & Hb1). rewrite bind_Ret.
  destruct (IH Hall _ _ Hb1) as (r2 & H2 & Hb2). exists r2. split; [done|]. by rewrite <-app_assoc in Hb2.
Qed.

(** C19. [dladdr] names the nearest symbol: among the exported symbols that
    cover the address it returns the one that starts last, the first in table
    order of those that start together, and nothing exactly when no symbol
    covers the address; no sum overflows in a mapped image. *)
Theorem best_symbol_nearest exports :
  0 ≤ base → Forall in_image exports →
  ∃ r, find_best_symbol base addr exports = Ret r ∧ best_of exports r.
Proof.
  intros Hbase Hall. destruct (visit_symbols_best [] exports None Hbase Hall) as (r & Hr & Hb); [|by exists r].
  intros x Hx. by apply elem_of_nil in Hx.
Qed.
End symbols.

Definition sample_symbols : list ElfSymbol :=
  [mkSymbol true 16 0 (Some [97]); mkSymbol true 64 32 (Some [98]); mkSymbol false 80 8 (Some [99]);
   mkSymbol true 64 16 (Some [100])].

Lemma best_symbol_nearest_witness :
  let BU : Build := Build_Build true X86_64 in
  ∃ r, find_best_symbol 4096 (4096 + 90) sample_symbols = Ret r
    ∧ best_of 4096 (4096 + 90) sample_symbols r.
Proof.
  intros BU. apply (best_symbol_nearest 4096 (4096 + 90) sample_symbols).
  - lia.
  - unfold sample_symbols, in_image. repeat constructor; cbn [st_value st_size]; lia.
Defined.

Example best_symbol_sample :
  let BU : Build := Build_Build true X86_64 in
  find_best_symbol 4096 (4096 + 90) sample_symbols = Ret (Some (Some [98], 4160)).
Proof. reflexivity. Qed.

(** ** The walk over the program headers *)
Section walk.
Context {Ctx Id Lease Mod Ext : Type} `{ED : EqDecision Id, LC : !LinkCtx Ctx Id Lease Mod, MA : !ModuleApi Mod}.
Context {BU : Build} {IM : Image Mod} {LL : LinkCtxLaws Ctx Id Lease Mod}.
Context (tls_data_ptr : Z → Z) (RESERVED : Z).
Implicit Types (w : Open.World Ctx Lease Mod Ext).
Local Abbreviation out w := (outstanding (Manager.link_ctx (Open.manager w))).

(** The ELF root of a committed module. *)
Definition root_module (c : Ctx) (id : Id) : option Mod :=
  g ← ctx_load_group (Lease := Lease) c id; m ← head g; if is_elf m then Some m else None.

Lemma snapshot_ids_run ids (s : Manager.Manager) :
  ∃ snaps c', Manager.snapshot_ids ids s =
      Ret (snaps, Manager.mkManager c' (Manager.handles s) (Manager.adds s) (Manager.subs s))
    ∧ Manager.snap_module <$> snaps = omap (root_module (Manager.link_ctx s)) ids
    ∧ outstanding c' ≡ₚ (Manager.snap_lease <$> snaps) ++ outstanding (Manager.link_ctx s)
    ∧ (∀ j, ctx_load_group c' j = ctx_load_group (Manager.link_ctx s) j).
Proof.
  revert s. induction ids as [|id ids IH]; intros s.
  { exists [], (Manager.link_ctx s). by destruct s. }
  simpl Manager.snapshot_ids. unfold Manager.ctx at 1. erewrite st_bind_run by reflexivity.
  simpl omap. unfold root_module at 1.
  assert (∀ c', (∀ j, ctx_load_group c' j = ctx_load_group (Manager.link_ctx s) j) →
    omap (root_module c') ids = omap (root_module (Manager.link_ctx s)) ids) as Hroot.
  { intros c' Hc'. apply list_omap_ext. apply Forall_Forall2_diag, Forall_true. intros x.
    unfold root_module. by rewrite Hc'. }
  destruct (IH s) as (snaps & c' & Hrun & Hmods & Hout & Hg).
  destruct (ctx_load_group (Manager.link_ctx s) id) as [g|] eqn:Hgr; simpl.
  2: { erewrite st_bind_run by reflexivity. erewrite st_bind_run by exact Hrun. by exists snaps, c'. }
  destruct (head g) as [m|]; simpl.
  2: { erewrite st_bind_run by reflexivity. erewrite st_bind_run by exact Hrun. by exists snaps, c'. }
  destruct (is_elf m).
  2: { erewrite st_bind_run by reflexivity. erewrite st_bind_run by exact Hrun. by exists snaps, c'. }
  assert (is_Some (ctx_meta (Manager.link_ctx s) id)) as Hm.
  { destruct (ctx_meta (Manager.link_ctx s) id) eqn:E; [by eexists|]. by rewrite (law_missing _ _ E) in Hgr. }
  destruct (Manager.acquire_module_run id s Hm) as (l & c1 & Ha & _ & Ho1 & _ & Hg1).
  set (s1 := Manager.mkManager c1 _ _ _) in *.
  destruct (IH s1) as (snaps1 & c2 & Hrun1 & Hmods1 & Hout1 & Hg2).
  exists (Manager.mkSnapshot m l :: snaps1), c2. split.
  { rewrite st_bind_assoc. erewrite st_bind_run by exact Ha. rewrite st_bind_ret.
    erewrite st_bind_run by exact Hrun1. reflexivity. }
  split_and!.
  - rewrite fmap_cons, Hmods1. simpl. f_equal. by apply Hroot.
  - rewrite Hout1. simpl. rewrite Ho1. by rewrite Permutation_middle.
  - intros j. by rewrite Hg2, Hg1.
Qed.

Lemma drop_lease_run l w :
  overflow_checks = false → Open.borrowed w = false → l ∈ out w →
  ∃ w', drop_lease (Id := Id) l w = Ret (tt, w') ∧ Open.borrowed w' = false ∧ l :: out w' ≡ₚ out w.
Proof.
  intros Hrel Hb Hl. destruct (Manager.release_run Hrel l (Open.manager w) Hl) as (u & c' & v & Hr & Ho).
  eexists. split.
  { unfold drop_lease. erewrite st_bind_run by (apply OpenProps.borrow_run; [done|exact Hr]). reflexivity. }
  by split.
Qed.

Lemma drop_leases_run ls rest w :
  overflow_checks = false → Open.borrowed w = false → out w ≡ₚ ls ++ rest →
  ∃ w', drop_leases (Id := Id) ls w = Ret (tt, w') ∧ Open.borrowed w' = false ∧ out w' ≡ₚ rest.
Proof.
  intros Hrel. revert w. induction ls as [|l ls IH]; intros w Hb Ho; simpl; [by exists w|].
  destruct (drop_lease_run l w Hrel Hb) as (w1 & H1 & Hb1 & Ho1); [rewrite Ho; set_solver|].
  erewrite st_bind_run by exact H1. apply IH; [done|]. apply (Permutation_cons_inv (a := l)). by rewrite Ho1.
Qed.

(** The callback sees the entries in order until it returns something else
    than 0, which is the result. *)
Inductive visits (callback : CDlPhdrInfo → st (Open.World Ctx Lease Mod Ext) Z) :
    list CDlPhdrInfo → Open.World Ctx Lease Mod Ext → Z → Open.World Ctx Lease Mod Ext → Prop :=
  | visits_nil w : visits callback [] w 0 w
  | visits_stop i rest w r w' : callback i w = Ret (r, w') → r ≠ 0 → visits callback (i :: rest) w r w'
  | visits_next i rest w w1 r w' : callback i w = Ret (0, w1) → visits callback rest w1 r w' →
      visits callback (i :: rest) w r w'.

(** Callbacks that work when the registry cell is free and give back the
    leases that they take. *)
Definition well_behaved (callback : CDlPhdrInfo → st (Open.World Ctx Lease Mod Ext) Z) : Prop :=
  ∀ i w, Open.borrowed w = false →
    ∃ r w', callback i w = Ret (r, w') ∧ Open.borrowed w' = false ∧ out w' ≡ₚ out w.

Definition loop_callback (callback : CDlPhdrInfo → st (Open.World Ctx Lease Mod Ext) Z) (info : DlPhdrInfo) :
    st (Open.World Ctx Lease Mod Ext) (result Z unit) :=
  ret ← callback (c_info info); mret (if negb (ret =? 0) then Err ret else Ok tt).

Lemma visit_libraries_run callback a b snaps w :
  well_behaved callback → Open.borrowed w = false →
  ∃ r w', visit_libraries tls_data_ptr RESERVED (loop_callback callback) a b snaps w = Ret (r, w')
    ∧ Open.borrowed w' = false ∧ out w' ≡ₚ out w
    ∧ visits callback (c_info <$> omap (phdr_info tls_data_ptr RESERVED a b) (Manager.snap_module <$> snaps))
        w (match r with Err e => e | Ok _ => 0 end) w'.
Proof.
  intros Hcb. revert w. induction snaps as [|lib snaps IH]; intros w Hb; simpl.
  { exists (Ok tt), w. split_and!; try done. constructor. }
  destruct (phdr_info _ _ _ _ _) as [info|]; simpl; [|by apply IH].
  destruct (Hcb (c_info info) w Hb) as (r & w1 & Hr & Hb1 & Ho1).
  assert (loop_callback callback info w = Ret (if negb (r =? 0) then Err r else Ok tt, w1)) as Hl
    by (unfold loop_callback; by erewrite st_bind_run by exact Hr).
  unfold try_res at 1. erewrite st_bind_run by exact Hl.
  destruct (Z.eqb_spec r 0) as [->|Hne]; simpl.
  - destruct (IH w1 Hb1) as (r2 & w2 & H2 & Hb2 & Ho2 & Hv). exists r2, w2. split; [exact H2|].
    split; [done|]. split; [by rewrite Ho2|]. by eapply visits_next.
  - exists (Err r), w1. split_and!; try done. by apply visits_stop.
Qed.

(** C28. [dl_iterate_phdr] visits the ELF root of every committed module that
    has program headers, in load order and with the counters of the start,
    until the callback returns something else than 0, which it returns.  The
    registry cell is free while the callback runs, so the callback may open
    and close libraries; all modules stay loaded during the walk, and at the
    end, early exit included, exactly the leases that were taken are released. *)
Theorem iterate_visits_all callback w :
  overflow_checks = false → well_behaved callback → Open.borrowed w = false →
  let m := Open.manager w in
  let infos := omap (phdr_info tls_data_ptr RESERVED (Manager.adds m) (Manager.subs m))
                 (omap (root_module (Manager.link_ctx m)) (ctx_load_order (Manager.link_ctx m))) in
  ∃ v w1 w2 w',
    dl_iterate_phdr tls_data_ptr RESERVED (Some callback) w = Ret (v, w')
    ∧ visits callback (c_info <$> infos) w1 v w2
    ∧ out w ⊆+ out w1 ∧ out w2 ≡ₚ out w1
    ∧ out w' ≡ₚ out w ∧ Open.borrowed w' = false.
Proof.
  intros Hrel Hcb Hb m infos. subst m.
  destruct (snapshot_ids_run (ctx_load_order (Manager.link_ctx (Open.manager w))) (Open.manager w))
    as (snaps & c' & Hsnap & Hmods & Hout & _).
  set (w1 := Open.mkWorld (Manager.mkManager c' (Manager.handles (Open.manager w)) (Manager.adds (Open.manager w))
    (Manager.subs (Open.manager w))) false (Open.search_path_cell w) (Open.rest w)).
  destruct (visit_libraries_run callback (Manager.adds (Open.manager w)) (Manager.subs (Open.manager w)) snaps w1 Hcb eq_refl)
    as (r & w2 & H2 & Hb2 & Ho2 & Hv).
  destruct (drop_leases_run (Manager.snap_lease <$> snaps) (out w) w2 Hrel Hb2) as (w' & H3 & Hb3 & Ho3).
  { rewrite Ho2. exact Hout. }
  eexists _, w1, w2, w'. split.
  { unfold dl_iterate_phdr, for_each_phdr. rewrite st_bind_assoc.
    erewrite st_bind_run by (apply OpenProps.borrow_run; [done|];
      erewrite st_bind_run by reflexivity; unfold Manager.library_snapshot, Manager.ctx;
      rewrite st_bind_assoc; erewrite st_bind_run by reflexivity; erewrite st_bind_run by exact Hsnap; reflexivity).
    cbn beta iota. rewrite st_bind_assoc. erewrite st_bind_run by exact H2.
    rewrite st_bind_assoc. erewrite st_bind_run by exact H3. rewrite st_bind_ret. reflexivity. }
  split; [by rewrite Hmods in Hv|]. split; [|by repeat split].
  subst w1. simpl. rewrite Hout. by apply submseteq_inserts_l.
Qed.
End walk.

(** Module [i] of the small context has [i] program headers. *)
Import Toy.
#[export] Instance toy_image : Image nat := {|
  img_base m := 4096 * (Z.of_nat m + 1);
  img_phdrs m := Some (replicate m (mkPhdr PT_LOAD 5 0 0 0 64 64 4096));
  img_tls m := if decide (m = 2%nat) then Some 1 else None;
  img_c_name m := 100 + Z.of_nat m;
  img_exports _ := [];
  img_range_at m a := Some (0, 4096 * (Z.of_nat m + 2)) |}.

(** A callback that re-enters the registry and stops at the third module. *)
Definition toy_callback (info : CDlPhdrInfo) : st (Open.World toy (nat * nat) nat unit) Z :=
  Open.borrow_mut (Manager.flags_of (Id := nat) 0%nat);;
  mret (if dlpi_addr info =? 12288 then 7 else 0).

Lemma iterate_visits_all_witness :
  let BU : Build := Build_Build false X86_64 in
  ∃ v w', dl_iterate_phdr (Id := nat) id 0 (Some toy_callback) (OpenProps.toy_world 4) = Ret (v, w')
    ∧ t_out (Manager.link_ctx (Open.manager w')) = [].
Proof.
  intros BU.
  destruct (iterate_visits_all (Id := nat) id 0 toy_callback (OpenProps.toy_world 4))
    as (v & w1 & w2 & w' & H1 & _ & _ & _ & H2 & _).
  - reflexivity.
  - intros i w Hb. unfold toy_callback.
    erewrite st_bind_run by (apply OpenProps.borrow_run; [exact Hb|reflexivity]).
    eexists _, _. split; [reflexivity|]. by split.
  - reflexivity.
  - exists v, w'. split; [exact H1|]. exact (proj1 (Permutation_nil_r _) H2).
Defined.

Example iterate_stops :
  let BU : Build := Build_Build false X86_64 in
  fst <$> outcome_value (dl_iterate_phdr (Id := nat) id 0 (Some toy_callback) (OpenProps.toy_world 4)) = Some 7.
Proof. by vm_compute. Qed.

End IntrospectProps.
