(* ===== verification/Library.v ===== *)
(** * The Rust interface (src/library.rs, [ModuleLease] of src/registry/manager.rs)

    [ElfLibrary] is a reference-counted handle: clones share one opened library,
    and dropping the last of them drops its lease, which releases it under the
    loader lock.  The standard library's [Arc] is a table of counts; file names
    of all the accepted types are read as UTF-8. *)

From S2P Require Import Prelude Utf8 Errors LinkMap Manager Open Introspect Sessions.

(** Versioned lookup in the loader crate. *)
Class VersionApi (Mod : Type) := { get_version_symbol : Mod → name → name → option Z }.

Module Library.

(** ** File names *)
Inductive filename :=
  | Str (s : list Z)
  | String (s : list Z)
  | Ref (f : filename)
  | Path (s : list Z)
  | PathBuf (s : list Z)
  | OsStr (s : list Z)
  | OsString (s : list Z).
(** A [str] is valid UTF-8 already; the others may not be. *)
Definition to_str (s : list Z) : outcome (list Z) :=
  match from_utf8 s with Some s => Ret s | None => Panic end.
Fixpoint as_filename (f : filename) : outcome (list Z) :=
  match f with
  | Str s | String s => Ret s
  | Ref f => as_filename f
  | Path s | PathBuf s | OsStr s | OsString s => to_str s
  end.

(** ** The data of a module ([c_name] and [link_map] are addresses of boxes) *)
Record ExtraData := mkExtra { c_name : Z; link_map : Z; dynamic_table : list (Z * Z) }.
Definition ExtraData_new (c_name link_map : Z) : ExtraData := mkExtra c_name link_map [].
Definition with_dynamic_table (c_name link_map : Z) (dynamic_table : list (Z * Z)) : ExtraData :=
  mkExtra c_name link_map dynamic_table.

Section library.
Context {Ctx Id Lease Mod Ext LErr : Type} `{ED : EqDecision Id, LC : !LinkCtx Ctx Id Lease Mod, MA : !ModuleApi Mod}.
Context {BU : Build} {LK : Open.Linker (Open.World Ctx Lease Mod Ext) Ctx Id Lease LErr}.
Context {IM : Image Mod} {VA : VersionApi Mod}.
Local Abbreviation W := (Open.World Ctx Lease Mod Ext).
Local Abbreviation Opened := (Manager.OpenedLibrary (Lease := Lease) (Mod := Mod)).
Context (drop_group : list Id → st W unit).

(** ** Leases *)
Record ModuleLease := mkLease { inner : option Lease }.
Definition lease_new (l : Lease) : ModuleLease := mkLease (Some l).
Definition lease_id_of (l : ModuleLease) : outcome Id :=
  match inner l with Some l => Ret (lease_id l) | None => Panic end.
(** The acquisition, and the value that goes out of scope. *)
Definition into_inner (l : ModuleLease) : outcome (Lease * ModuleLease) :=
  match inner l with Some a => Ret (a, mkLease None) | None => Panic end.
(** [Drop for ModuleLease] *)
Definition drop_lease (l : ModuleLease) : st W unit :=
  match inner l with
  | None => mret tt
  | Some lease =>
      unloaded ← Open.borrow_mut (Manager.release (Id := Id) lease);
      drop_group unloaded
  end.

(** ** Reference counts *)
Record Rust := mkRust { world : W; arcs : gmap Z (Z * Opened); next_arc : Z }.
(** [ElfLibrary] is the address of an allocation. *)
Local Abbreviation ElfLibrary := Z.

Definition in_world {A} (m : st W A) : st Rust A := λ r,
  '(a, w) ← m (world r); Ret (a, mkRust w (arcs r) (next_arc r)).
Definition set_arcs (a : gmap Z (Z * Opened)) : st Rust unit := λ r, Ret (tt, mkRust (world r) a (next_arc r)).

(** [From<OpenedLibrary>]: [Arc::new] *)
Definition from_opened (opened : Opened) : st Rust ElfLibrary := λ r,
  Ret (next_arc r, mkRust (world r) (<[next_arc r := (1, opened)]> (arcs r)) (next_arc r + 1)).

(** The allocation behind a handle. *)
Definition arc (lib : ElfLibrary) : st Rust (Z * Opened) := λ r,
  match arcs r !! lib with Some a => Ret (a, r) | None => Fault end.
Definition opened (lib : ElfLibrary) : st Rust Opened := a ← arc lib; mret a.2.

(** [Clone]: [Arc::clone] aborts above [isize::MAX] references. *)
Definition clone (lib : ElfLibrary) : st Rust ElfLibrary :=
  a ← arc lib;
  if isize_max <? a.1 then st_fail Panic
  else
    r ← st_get;
    set_arcs (<[lib := (a.1 + 1, a.2)]> (arcs r));;
    mret lib.
(** [Drop]: the last handle drops the library, the scope before the lease. *)
Definition drop (lib : ElfLibrary) : st Rust unit :=
  a ← arc lib;
  r ← st_get;
  if a.1 =? 1 then
    set_arcs (delete lib (arcs r));;
    in_world (drop_lease (lease_new (Manager.lease a.2)))
  else set_arcs (<[lib := (a.1 - 1, a.2)]> (arcs r)).

(** ** Queries *)
Definition scope (lib : ElfLibrary) : st Rust (list Mod) := o ← opened lib; mret (Manager.scope o).
Definition module (lib : ElfLibrary) : st Rust Mod := o ← opened lib; st_lift (Manager.opened_module o).
Definition lib_name (lib : ElfLibrary) : st Rust name := m ← module lib; mret (mod_name m).
Definition cname (lib : ElfLibrary) : st Rust Z := m ← module lib; mret (img_c_name m).
Definition base (lib : ElfLibrary) : st Rust Z := m ← module lib; mret (img_base m).
Definition phdrs (lib : ElfLibrary) : st Rust (option (list ElfPhdr)) := m ← module lib; mret (img_phdrs m).
Definition flags (lib : ElfLibrary) : st Rust OpenFlags.t :=
  o ← opened lib;
  id ← st_lift (lease_id_of (lease_new (Manager.lease o)));
  f ← in_world (Open.borrow_mut (Manager.flags_of id));
  mret (default OpenFlags.empty f).

Definition not_found (nm : name) : Error LErr :=
  find_symbol_error ("can not find symbol:" +:+ string_of_bytes nm).
(** The log line of [get] reads the first module of the scope. *)
Definition get (lib : ElfLibrary) (nm : name) : st Rust (result (Error LErr) Z) :=
  s ← scope lib;
  _ ← st_lift (index s 0);
  mret (match head (omap (λ m, get_symbol m nm) s) with Some v => Ok v | None => Err (not_found nm) end).
Definition get_version (lib : ElfLibrary) (nm version : name) : st Rust (result (Error LErr) Z) :=
  s ← scope lib;
  mret (match head (omap (λ m, get_version_symbol m nm version) s) with Some v => Ok v | None => Err (not_found nm) end).

(** ** Opening *)
Definition map_ok (r : result (Error LErr) Opened) : st Rust (result (Error LErr) ElfLibrary) :=
  match r with Ok o => lib ← from_opened o; mret (Ok lib) | Err e => mret (Err e) end.
Definition this : st Rust ElfLibrary := o ← in_world Open.open_main; from_opened o.
(** [caller] is [caller_module_address()]. *)
Definition dlopen (envp : option (list (list Z))) (path : filename) (flags : OpenFlags.t) (caller : Z)
    : st Rust (result (Error LErr) ElfLibrary) :=
  path ← st_lift (as_filename path);
  r ← in_world (Open.open_file envp path flags caller);
  map_ok r.
Definition dlopen_from_binary (envp : option (list (list Z))) (bytes : list Z) (path : filename)
    (flags : OpenFlags.t) (caller : Z) : st Rust (result (Error LErr) ElfLibrary) :=
  path ← st_lift (as_filename path);
  r ← in_world (Open.dlopen_from_binary envp bytes path flags caller);
  map_ok r.
Definition library_by_addr (addr : Z) : st Rust (option ElfLibrary) :=
  o ← in_world (Open.borrow_mut (Manager.library_by_addr addr));
  match o with Some o => lib ← from_opened o; mret (Some lib) | None => mret None end.

(** ** A program with variables of type [ElfLibrary] *)
Inductive command :=
  | LOpen (path : filename) (flags caller : Z)
  | LOpenBinary (bytes : list Z) (path : filename) (flags caller : Z)
  | LByAddr (addr : Z)
  | LClone (i : nat)
  | LDrop (i : nat)
  | LGet (i : nat) (nm : name)
  | LFlags (i : nat).

Definition on_var {A} (vars : list ElfLibrary) (i : nat) (f : ElfLibrary → st Rust A) (k : A → list ElfLibrary) : st Rust (list ElfLibrary) :=
  match vars !! i with Some lib => a ← f lib; mret (k a) | None => mret vars end.
Definition add_ok (vars : list ElfLibrary) (r : result (Error LErr) ElfLibrary) : list ElfLibrary :=
  match r with Ok lib => lib :: vars | Err _ => vars end.
Definition run_command (envp : option (list (list Z))) (c : command) (vars : list ElfLibrary) : st Rust (list ElfLibrary) :=
  match c with
  | LOpen path flags caller => r ← dlopen envp path flags caller; mret (add_ok vars r)
  | LOpenBinary bytes path flags caller => r ← dlopen_from_binary envp bytes path flags caller; mret (add_ok vars r)
  | LByAddr addr => o ← library_by_addr addr; mret (match o with Some lib => lib :: vars | None => vars end)
  | LClone i => on_var vars i clone (λ lib, lib :: vars)
  | LDrop i => on_var vars i drop (λ _, delete i vars)
  | LGet i nm => on_var vars i (λ lib, get lib nm) (λ _, vars)
  | LFlags i => on_var vars i flags (λ _, vars)
  end.
Fixpoint run_commands (envp : option (list (list Z))) (cs : list command) (vars : list ElfLibrary) : st Rust (list ElfLibrary) :=
  match cs with
  | [] => mret vars
  | c :: cs => vars ← run_command envp c vars; run_commands envp cs vars
  end.
End library.
End Library.

Module LibraryProps.
Import Library.

(** ** File names *)

(** [as_filename] gives back the bytes of the name: always for strings, and
    exactly when they are valid UTF-8 for paths and OS strings. *)
Fixpoint filename_bytes (f : filename) : list Z :=
  match f with
  | Str s | String s | Path s | PathBuf s | OsStr s | OsString s => s
  | Ref f => filename_bytes f
  end.
Fixpoint is_str (f : filename) : bool :=
  match f with Str _ | String _ => true | Ref f => is_str f | _ => false end.
Theorem as_filename_utf8 f :
  as_filename f = if is_str f || utf8_valid (filename_bytes f) then Ret (filename_bytes f) else Panic.
Proof.
  assert (∀ s, to_str s = if utf8_valid s then Ret s else Panic) as H.
  { intros s. unfold to_str. destruct (from_utf8 s) as [x|] eqn:E.
    - apply from_utf8_Some in E as [-> ->]. done.
    - destruct (utf8_valid s) eqn:Ev; [|done]. by rewrite (proj2 (from_utf8_Some s s)) in E. }
  induction f as [s|s|f IH|s|s|s|s]; simpl; auto.
Qed.

Section props.
Context {Ctx Id Lease Mod Ext LErr : Type} `{ED : EqDecision Id, LC : !LinkCtx Ctx Id Lease Mod, MA : !ModuleApi Mod}.
Context {BU : Build} {LK : Open.Linker (Open.World Ctx Lease Mod Ext) Ctx Id Lease LErr}.
Context {LL : LinkCtxLaws Ctx Id Lease Mod} {LLe : Sessions.LinkerLeases LL LK}.
Context {IM : Image Mod} {VA : VersionApi Mod}.
Local Abbreviation W := (Open.World Ctx Lease Mod Ext).
Local Abbreviation Opened := (Manager.OpenedLibrary (Lease := Lease) (Mod := Mod)).
Local Abbreviation Rust := (Rust (Ctx := Ctx) (Ext := Ext) (Lease := Lease) (Mod := Mod)).
Context (drop_group : list Id → st W unit).
Implicit Types (r : Rust) (vars : list Z) (w : W).

(** ** Reference counts and leases *)
Definition arc_leases (a : gmap Z (Z * Opened)) : list Lease := (λ p, Manager.lease p.2.2) <$> map_to_list a.

(** How many of the variables refer to [lib]. *)
Definition refs (lib : Z) vars : Z := zlen (filter (λ x, x = lib) vars).

Lemma refs_cons lib x vars : refs lib (x :: vars) = (if decide (x = lib) then 1 else 0) + refs lib vars.
Proof. unfold refs. rewrite filter_cons. case_decide; [rewrite zlen_cons|]; lia. Qed.
Lemma refs_nonneg lib vars : 0 ≤ refs lib vars.
Proof. apply zlen_nonneg. Qed.
Lemma refs_pos lib vars : 0 < refs lib vars ↔ lib ∈ vars.
Proof.
  induction vars as [|x vars IH]; [split; [done|intros H; by apply elem_of_nil in H]|].
  rewrite refs_cons, elem_of_cons, <-IH. pose proof (refs_nonneg lib vars). case_decide; [|naive_solver lia].
  split; [by left|lia].
Qed.
Lemma refs_le lib vars : refs lib vars ≤ zlen vars.
Proof. apply Nat2Z.inj_le, length_filter. Qed.
Lemma refs_perm lib vars vars' : vars ≡ₚ vars' → refs lib vars = refs lib vars'.
Proof. intros Hp. unfold refs, zlen. by rewrite Hp. Qed.
Lemma refs_delete lib i x vars :
  vars !! i = Some x → refs lib vars = (if decide (x = lib) then 1 else 0) + refs lib (delete i vars).
Proof. intros Hi. rewrite (refs_perm _ _ _ (delete_Permutation _ _ _ Hi)). apply refs_cons. Qed.

(** The variables [vars] are the references; the live allocations own one
    lease each, and [ls] are the leases of the handles [hs] and of others. *)
Record rust_inv (hs : gmap Z (Manager.HandleState (Lease := Lease) (Mod := Mod))) (ls : list Lease) r vars : Prop := {
  ri_holds : Sessions.holds (world r) hs (arc_leases (arcs r) ++ ls);
  ri_count lib n o : arcs r !! lib = Some (n, o) →
    n = refs lib vars ∧ 0 < n ∧ SessionsProps.opened_with o (Manager.lease o);
  ri_live lib : lib ∈ vars → is_Some (arcs r !! lib);
  ri_next lib : is_Some (arcs r !! lib) → lib < next_arc r }.

Lemma arc_leases_insert a lib n o :
  a !! lib = None → arc_leases (<[lib := (n, o)]> a) ≡ₚ Manager.lease o :: arc_leases a.
Proof. intros Ha. unfold arc_leases. by rewrite map_to_list_insert. Qed.
Lemma arc_leases_delete a lib n o :
  a !! lib = Some (n, o) → arc_leases a ≡ₚ Manager.lease o :: arc_leases (delete lib a).
Proof.
  intros Ha. rewrite <-(insert_delete_id a lib (n, o)) at 1 by done. apply arc_leases_insert, lookup_delete_eq.
Qed.
Lemma arc_leases_update a lib n m o :
  a !! lib = Some (n, o) → arc_leases (<[lib := (m, o)]> a) ≡ₚ arc_leases a.
Proof.
  intros Ha. rewrite <-insert_delete_eq, arc_leases_insert by apply lookup_delete_eq. symmetry. by eapply arc_leases_delete.
Qed.

Lemma holds_perm (w : W) hs ls ls' : ls ≡ₚ ls' → Sessions.holds w hs ls → Sessions.holds w hs ls'.
Proof. intros Hp (H1 & H2 & H3). split_and!; try done. by rewrite H3. Qed.

(** A new allocation. *)
Lemma from_opened_inv hs ls r w' vars o l :
  rust_inv hs ls r vars → SessionsProps.opened_with o l → Sessions.holds w' hs (l :: arc_leases (arcs r) ++ ls) →
  ∃ r', from_opened o (mkRust w' (arcs r) (next_arc r)) = Ret (next_arc r, r') ∧ rust_inv hs ls r' (next_arc r :: vars).
Proof.
  intros Hi Ho Hw. eexists. split; [reflexivity|]. simpl.
  assert (arcs r !! next_arc r = None) as Hn.
  { destruct (arcs r !! next_arc r) eqn:E; [|done]. assert (next_arc r < next_arc r); [|lia]. eapply ri_next; [done|by rewrite E]. }
  assert (next_arc r ∉ vars) as Hnv by (intros Hv; apply (ri_live _ _ _ _ Hi) in Hv as [? Hv]; congruence).
  assert (Manager.lease o = l) as Hl by (by destruct Ho as (m & g & -> & _)).
  split; simpl.
  - eapply holds_perm; [|exact Hw]. rewrite arc_leases_insert by done. by rewrite Hl.
  - intros lib n o'. rewrite refs_cons. intros [[<- [= <- <-]]|[Hne Ha]]%lookup_insert_Some.
    + rewrite decide_True by done. rewrite <-refs_pos in Hnv. pose proof (refs_nonneg (next_arc r) vars).
      split_and!; [lia|lia|]. by rewrite Hl.
    + rewrite decide_False by done. by apply (ri_count _ _ _ _ Hi).
  - intros lib [->|Hl']%elem_of_cons; [rewrite lookup_insert_eq; by eexists|].
    rewrite lookup_insert_ne by set_solver. by apply (ri_live _ _ _ _ Hi).
  - intros lib [x [[<- _]|[Hne Ha]]%lookup_insert_Some]; [lia|].
    assert (lib < next_arc r); [|lia]. apply (ri_next _ _ _ _ Hi). by rewrite Ha.
Qed.

Lemma arc_run hs ls r vars lib :
  rust_inv hs ls r vars → lib ∈ vars → ∃ n o, arcs r !! lib = Some (n, o) ∧ arc lib r = Ret ((n, o), r).
Proof.
  intros Hi Hl. destruct (ri_live _ _ _ _ Hi lib Hl) as [[n o] Ha]. exists n, o. split; [done|].
  unfold arc. by rewrite Ha.
Qed.
Lemma opened_run hs ls r vars lib :
  rust_inv hs ls r vars → lib ∈ vars →
  ∃ o, opened lib r = Ret (o, r) ∧ SessionsProps.opened_with o (Manager.lease o).
Proof.
  intros Hi Hl. destruct (arc_run hs ls r vars lib Hi Hl) as (n & o & Ha & Hr). exists o.
  unfold opened. erewrite st_bind_run by exact Hr. split; [done|]. by apply (ri_count _ _ _ _ Hi lib n o).
Qed.

Lemma clone_inv hs ls r vars lib :
  rust_inv hs ls r vars → lib ∈ vars → zlen vars ≤ isize_max →
  ∃ r', clone lib r = Ret (lib, r') ∧ rust_inv hs ls r' (lib :: vars).
Proof.
  intros Hi Hl Hlen. destruct (arc_run hs ls r vars lib Hi Hl) as (n & o & Ha & Hr).
  destruct (ri_count _ _ _ _ Hi lib n o Ha) as (Hn & Hpos & Ho). pose proof (refs_le lib vars).
  unfold clone. erewrite st_bind_run by exact Hr. simpl.
  destruct (Z.ltb_spec isize_max n); [lia|]. rewrite st_bind_get. eexists. split; [reflexivity|]. split; simpl.
  - eapply holds_perm; [|apply (ri_holds _ _ _ _ Hi)]. by rewrite (arc_leases_update _ _ _ _ _ Ha).
  - intros l m o'. rewrite refs_cons. intros [[<- [= <- <-]]|[Hne Ha']]%lookup_insert_Some.
    + rewrite decide_True by done. split_and!; [lia|lia|done].
    + rewrite decide_False by done. by apply (ri_count _ _ _ _ Hi).
  - intros l Hl'. destruct (decide (lib = l)) as [<-|Hne]; [rewrite lookup_insert_eq; by eexists|].
    rewrite lookup_insert_ne by done. apply (ri_live _ _ _ _ Hi). set_solver.
  - intros l [x [[<- _]|[Hne Ha']]%lookup_insert_Some]; apply (ri_next _ _ _ _ Hi); by eexists.
Qed.

Hypothesis release_build : overflow_checks = false.
Lemma release_holds l w hs ls :
  Sessions.holds w hs (l :: ls) → ∃ u w', Open.borrow_mut (Manager.release (Id := Id) l) w = Ret (u, w') ∧ Sessions.holds w' hs ls.
Proof.
  intros Hh. pose proof Hh as (_ & Hhs & Hls).
  destruct (Manager.release_run release_build l (Open.manager w)) as (u & c' & v & Hr & Ho); [rewrite Hls; set_solver|].
  destruct (SessionsProps.holds_borrow _ w hs hs (l :: ls) ls _ _ Hh Hr) as (w' & Hw & Hh' & _).
  { split; [done|]. apply (Permutation_cons_inv (a := l)). by rewrite Ho. }
  eauto.
Qed.

(** Dropping unloaded modules runs user code that gives back what it takes. *)
Hypothesis drop_quiet : ∀ u w hs ls, Sessions.holds w hs ls → ∃ w', drop_group u w = Ret (tt, w') ∧ Sessions.holds w' hs ls.

Lemma drop_lease_holds l w hs ls :
  Sessions.holds w hs (l :: ls) → ∃ w', drop_lease drop_group (lease_new l) w = Ret (tt, w') ∧ Sessions.holds w' hs ls.
Proof.
  intros Hh. destruct (release_holds l w hs ls Hh) as (u & w1 & H1 & Hh1). unfold drop_lease. simpl.
  erewrite st_bind_run by exact H1. by apply drop_quiet.
Qed.

Lemma drop_inv hs ls r vars i lib :
  rust_inv hs ls r vars → vars !! i = Some lib →
  ∃ r', drop drop_group lib r = Ret (tt, r') ∧ rust_inv hs ls r' (delete i vars).
Proof.
  intros Hi Hv. pose proof (list_elem_of_lookup_2 _ _ _ Hv) as Hl.
  destruct (arc_run hs ls r vars lib Hi Hl) as (n & o & Ha & Hr).
  destruct (ri_count _ _ _ _ Hi lib n o Ha) as (Hn & Hpos & Ho).
  pose proof (λ x, refs_delete x i lib vars Hv) as Hd. pose proof (Hd lib) as Hdl. rewrite decide_True in Hdl by done.
  assert (∀ x, x ∈ delete i vars → x ∈ vars) as Hsub.
  { intros x Hx. rewrite (delete_Permutation _ _ _ Hv). by right. }
  unfold drop. erewrite st_bind_run by exact Hr. rewrite st_bind_get. simpl.
  destruct (Z.eqb_spec n 1) as [->|Hn1].
  - destruct (drop_lease_holds (Manager.lease o) (world r) hs (arc_leases (delete lib (arcs r)) ++ ls)) as (w' & Hw & Hh).
    { eapply holds_perm; [|apply (ri_holds _ _ _ _ Hi)]. by rewrite (arc_leases_delete _ _ _ _ Ha). }
    erewrite st_bind_run by reflexivity. unfold in_world. simpl. rewrite Hw. eexists. split; [reflexivity|].
    assert (lib ∉ delete i vars) as Hout by (rewrite <-refs_pos; lia). split; simpl; [done| | |].
    + intros x m o' [Hne Hx]%lookup_delete_Some. specialize (Hd x). rewrite decide_False in Hd by done.
      assert (refs x (delete i vars) = refs x vars) as -> by lia. by apply (ri_count _ _ _ _ Hi).
    + intros x Hx. rewrite lookup_delete_ne by set_solver. by apply (ri_live _ _ _ _ Hi), Hsub.
    + intros x [y [Hne Hx]%lookup_delete_Some]. apply (ri_next _ _ _ _ Hi). by eexists.
  - eexists. split; [reflexivity|]. split; simpl.
    + eapply holds_perm; [|apply (ri_holds _ _ _ _ Hi)]. by rewrite (arc_leases_update _ _ _ _ _ Ha).
    + intros x m o' [[<- [= <- <-]]|[Hne Ha']]%lookup_insert_Some; [split_and!; [lia|lia|done]|].
      specialize (Hd x). rewrite decide_False in Hd by done.
      assert (refs x (delete i vars) = refs x vars) as -> by lia. by apply (ri_count _ _ _ _ Hi).
    + intros x Hx. destruct (decide (lib = x)) as [<-|Hne]; [rewrite lookup_insert_eq; by eexists|].
      rewrite lookup_insert_ne by done. by apply (ri_live _ _ _ _ Hi), Hsub.
    + intros x [y [[<- _]|[Hne Ha']]%lookup_insert_Some]; apply (ri_next _ _ _ _ Hi); by eexists.
Qed.

Hypothesis elf_groups : ManagerProps.elf_groups (Ctx := Ctx) (Id := Id) (Lease := Lease) (Mod := Mod).

(** Running code of the crate on the world. *)
Lemma in_world_run {A} (m : st W A) r a w' :
  m (world r) = Ret (a, w') → in_world m r = Ret (a, mkRust w' (arcs r) (next_arc r)).
Proof. intros Hm. unfold in_world. by rewrite Hm. Qed.

Lemma world_inv hs ls r vars w' :
  rust_inv hs ls r vars → Sessions.holds w' hs (arc_leases (arcs r) ++ ls) →
  rust_inv hs ls (mkRust w' (arcs r) (next_arc r)) vars.
Proof. intros [H1 H2 H3 H4] Hw. by split. Qed.

(** What an open did, wrapped into a handle. *)
Lemma map_ok_inv hs ls r vars w' (x : result (Error LErr) Opened) :
  rust_inv hs ls r vars → SessionsProps.opens x w' hs (arc_leases (arcs r) ++ ls) →
  ∃ y r', map_ok x (mkRust w' (arcs r) (next_arc r)) = Ret (y, r') ∧ rust_inv hs ls r' (add_ok vars y).
Proof.
  intros Hi Hx. destruct x as [o|e]; simpl.
  - destruct Hx as (l & Ho & Hw). destruct (from_opened_inv hs ls r w' vars o l Hi Ho Hw) as (r' & Hr & Hi').
    erewrite st_bind_run by exact Hr. by eexists _, r'.
  - eexists _, _. split; [reflexivity|]. by apply world_inv.
Qed.

Lemma dlopen_inv envp path fl caller s hs ls r vars :
  rust_inv hs ls r vars → as_filename path = Ret s →
  ∃ x r', dlopen envp path fl caller r = Ret (x, r') ∧ rust_inv hs ls r' (add_ok vars x).
Proof.
  intros Hi Hs. unfold dlopen. erewrite st_bind_run by (apply st_lift_run; exact Hs).
  destruct (SessionsProps.open_with_leases elf_groups envp s fl (Open.File s) (Some caller) (λ _, mret (Ok tt)) (world r)
    hs (arc_leases (arcs r) ++ ls)) as (x & w' & Hx & Hop); [by intros i v h l Hh; exists (Ok tt), v|apply Hi|].
  erewrite st_bind_run by (apply in_world_run; exact Hx). by apply map_ok_inv.
Qed.
Lemma dlopen_from_binary_inv envp bytes path fl caller s hs ls r vars :
  rust_inv hs ls r vars → as_filename path = Ret s →
  ∃ x r', dlopen_from_binary envp bytes path fl caller r = Ret (x, r') ∧ rust_inv hs ls r' (add_ok vars x).
Proof.
  intros Hi Hs. unfold dlopen_from_binary. erewrite st_bind_run by (apply st_lift_run; exact Hs).
  destruct (SessionsProps.open_with_leases elf_groups envp s fl (Open.Binary s bytes) (Some caller) (λ _, mret (Ok tt)) (world r)
    hs (arc_leases (arcs r) ++ ls)) as (x & w' & Hx & Hop); [by intros i v h l Hh; exists (Ok tt), v|apply Hi|].
  erewrite st_bind_run by (apply in_world_run; exact Hx). by apply map_ok_inv.
Qed.

Lemma library_by_addr_inv addr hs ls r vars :
  rust_inv hs ls r vars →
  ∃ x r', library_by_addr addr r = Ret (x, r')
    ∧ rust_inv hs ls r' (match x with Some lib => lib :: vars | None => vars end).
Proof.
  intros Hi. pose proof (ri_holds _ _ _ _ Hi) as Hh. pose proof Hh as (_ & Hhs & Hls).
  assert (∃ x s', Manager.library_by_addr (Id := Id) addr (Open.manager (world r)) = Ret (x, s') ∧ match x with
    | Some o => ∃ l, SessionsProps.opened_with o l ∧ SessionsProps.mholds s' hs (l :: arc_leases (arcs r) ++ ls)
    | None => s' = Open.manager (world r) end) as (x & s' & Hx & Hs').
  { unfold Manager.library_by_addr, Manager.ctx. erewrite st_bind_run by reflexivity.
    destruct (ctx_module_id_at _ addr) as [id|]; [|eexists None, _; by split].
    erewrite (try_some_run _ _ _ (Some id)) by reflexivity.
    destruct (ctx_meta (Manager.link_ctx (Open.manager (world r))) id) eqn:Hm.
    - destruct (SessionsProps.open_module_leases elf_groups id (Open.manager (world r)) hs (arc_leases (arcs r) ++ ls))
        as (o & l & s' & Ho & Hw & Hs'); [by rewrite Hm|done|]. exists (Some o), s'. split; [done|]. by exists l.
    - pose proof (Manager.open_module_run id (Open.manager (world r))) as H. rewrite Hm in H. by exists None, (Open.manager (world r)). }
  unfold library_by_addr. destruct x as [o|].
  - destruct Hs' as (l & Ho & Hs'). destruct (SessionsProps.holds_borrow _ _ _ _ _ _ _ _ Hh Hx Hs') as (w' & Hw & Hh' & _).
    erewrite st_bind_run by (apply in_world_run; exact Hw).
    destruct (from_opened_inv hs ls r w' vars o l Hi Ho Hh') as (r' & Hr & Hi').
    erewrite st_bind_run by exact Hr. by eexists _, r'.
  - destruct (SessionsProps.holds_borrow _ _ hs hs _ (arc_leases (arcs r) ++ ls) _ _ Hh Hx) as (w' & Hw & Hh' & _); [by subst|].
    erewrite st_bind_run by (apply in_world_run; exact Hw). eexists _, _. split; [reflexivity|]. by apply world_inv.
Qed.

Lemma get_inv hs ls r vars lib nm :
  rust_inv hs ls r vars → lib ∈ vars → ∃ x, get (LErr := LErr) lib nm r = Ret (x, r).
Proof.
  intros Hi Hl. destruct (opened_run hs ls r vars lib Hi Hl) as ([sc l] & Hr & m & g & [= ->] & _).
  unfold get, scope. rewrite st_bind_assoc. erewrite st_bind_run by exact Hr. by eexists.
Qed.
Lemma flags_inv hs ls r vars lib :
  rust_inv hs ls r vars → lib ∈ vars → ∃ x r', flags (Id := Id) lib r = Ret (x, r') ∧ rust_inv hs ls r' vars.
Proof.
  intros Hi Hl. destruct (opened_run hs ls r vars lib Hi Hl) as (o & Hr & _).
  unfold flags. erewrite st_bind_run by exact Hr. erewrite st_bind_run by reflexivity.
  pose proof (ri_holds _ _ _ _ Hi) as Hh.
  destruct (SessionsProps.holds_borrow (Manager.flags_of (lease_id (Manager.lease o))) (world r) hs hs
    (arc_leases (arcs r) ++ ls) (arc_leases (arcs r) ++ ls) _ _ Hh eq_refl) as (w' & Hw & Hh' & _); [by destruct Hh as (_ & ? & ?)|].
  erewrite st_bind_run by (apply in_world_run; exact Hw). eexists _, _. split; [reflexivity|]. by apply world_inv.
Qed.

(** Names that [as_filename] accepts. *)
Definition named (c : command) : Prop :=
  match c with LOpen path _ _ | LOpenBinary _ path _ _ => ∃ s, as_filename path = Ret s | _ => True end.

(** One command. *)
Lemma run_command_inv envp c hs ls r vars :
  rust_inv hs ls r vars → named c → zlen vars ≤ isize_max →
  ∃ vars' r', run_command (LErr := LErr) drop_group envp c vars r = Ret (vars', r') ∧ rust_inv hs ls r' vars'
    ∧ zlen vars' ≤ zlen vars + 1.
Proof.
  intros Hi Hn Hlen. pose proof (zlen_nonneg vars).
  assert (∀ lib, zlen (lib :: vars) ≤ zlen vars + 1) as Hc by (intros; by rewrite zlen_cons).
  destruct c as [path fl caller|bytes path fl caller|addr|i|i|i nm|i]; simpl run_command; unfold on_var.
  - destruct Hn as [s Hs]. destruct (dlopen_inv envp path fl caller s hs ls r vars Hi Hs) as (x & r' & Hr & Hi').
    erewrite st_bind_run by exact Hr. eexists _, r'. split_and!; [reflexivity|done|]. destruct x; simpl; [apply Hc|lia].
  - destruct Hn as [s Hs]. destruct (dlopen_from_binary_inv envp bytes path fl caller s hs ls r vars Hi Hs) as (x & r' & Hr & Hi').
    erewrite st_bind_run by exact Hr. eexists _, r'. split_and!; [reflexivity|done|]. destruct x; simpl; [apply Hc|lia].
  - destruct (library_by_addr_inv addr hs ls r vars Hi) as (x & r' & Hr & Hi').
    erewrite st_bind_run by exact Hr. eexists _, r'. split_and!; [reflexivity|done|]. destruct x; [apply Hc|lia].
  - destruct (vars !! i) as [lib|] eqn:Hv; [|eexists _, r; split_and!; [reflexivity|done|lia]].
    destruct (clone_inv hs ls r vars lib Hi (list_elem_of_lookup_2 _ _ _ Hv) Hlen) as (r' & Hr & Hi').
    erewrite st_bind_run by exact Hr. by eexists _, r'.
  - destruct (vars !! i) as [lib|] eqn:Hv; [|eexists _, r; split_and!; [reflexivity|done|lia]].
    destruct (drop_inv hs ls r vars i lib Hi Hv) as (r' & Hr & Hi').
    erewrite st_bind_run by exact Hr. eexists _, r'. split_and!; [reflexivity|done|].
    unfold zlen in *. rewrite length_delete by by rewrite Hv. lia.
  - destruct (vars !! i) as [lib|] eqn:Hv; [|eexists _, r; split_and!; [reflexivity|done|lia]].
    destruct (get_inv hs ls r vars lib nm Hi (list_elem_of_lookup_2 _ _ _ Hv)) as (x & Hr).
    erewrite st_bind_run by exact Hr. eexists _, r. split_and!; [reflexivity|done|lia].
  - destruct (vars !! i) as [lib|] eqn:Hv; [|eexists _, r; split_and!; [reflexivity|done|lia]].
    destruct (flags_inv hs ls r vars lib Hi (list_elem_of_lookup_2 _ _ _ Hv)) as (x & r' & Hr & Hi').
    erewrite st_bind_run by exact Hr. eexists _, r'. split_and!; [reflexivity|done|lia].
Qed.

(** C20. Handles of the Rust interface keep their library loaded: any program that
    opens, clones, queries and drops [ElfLibrary] values returns without a
    panic (a release build, names in UTF-8, fewer than 2^63 values); the
    values share one lease per open, which is outstanding while a clone is
    left and released once with the last; the C handles are untouched, and
    when no value is left every lease is back. *)
Theorem library_leases envp cs hs ls r vars :
  rust_inv hs ls r vars → Forall named cs → zlen vars + zlen cs ≤ isize_max →
  ∃ vars' r', run_commands (LErr := LErr) drop_group envp cs vars r = Ret (vars', r') ∧ rust_inv hs ls r' vars'
    ∧ (vars' = [] → arcs r' = ∅ ∧ Sessions.holds (world r') hs ls).
Proof.
  intros Hi. revert r vars Hi. induction cs as [|c cs IH]; intros r vars Hi Hn Hlen.
  - exists vars, r. split_and!; [done|done|]. intros ->.
    assert (arcs r = ∅) as Ha.
    { apply map_empty. intros lib. destruct (arcs r !! lib) as [[n o]|] eqn:E; [|done].
      destruct (ri_count _ _ _ _ Hi lib n o E) as (-> & Hp & _). done. }
    split; [done|]. pose proof (ri_holds _ _ _ _ Hi) as Hh. rewrite Ha in Hh.
    unfold arc_leases in Hh. by rewrite map_to_list_empty in Hh.
  - apply Forall_cons in Hn as [Hc Hcs]. rewrite zlen_cons in Hlen. pose proof (zlen_nonneg cs).
    destruct (run_command_inv envp c hs ls r vars Hi Hc) as (vars1 & r1 & Hr & Hi1 & Hl1); [lia|].
    simpl. erewrite st_bind_run by exact Hr. apply IH; [done|done|lia].
Qed.
End props.

Import Toy.
Import (hints) OpenProps SessionsProps.

Definition toy_program : list command :=
  [LOpen (Ref (Str [70])) 2 0; LClone 0; LGet 1 [2]; LFlags 0; LDrop 0; LByAddr 1; LDrop 1; LDrop 0].
Definition toy_rust : Rust := mkRust (OpenProps.toy_world 2) ∅ 0.

Lemma library_leases_witness :
  let BU : Build := Build_Build false X86_64 in
  ∃ r', run_commands (LErr := Z) (Id := nat) (λ _, mret tt) None toy_program [] toy_rust = Ret ([], r')
    ∧ Sessions.holds (LL := toy_laws) (world r') ∅ [].
Proof.
  intros BU.
  destruct (library_leases (BU := BU) (LErr := Z) (Id := nat) (λ _, mret tt) eq_refl (λ u w hs ls H, ex_intro _ w (conj eq_refl H))
    SessionsProps.toy_elf None toy_program ∅ [] toy_rust []) as (vars' & r' & Hr & _ & Hend).
  - split; simpl; [|by intros lib n o H|intros lib H; by apply elem_of_nil in H|by intros lib [x H]].
    split; [done|]. split; [done|]. unfold arc_leases. by rewrite map_to_list_empty.
  - repeat constructor. by exists [70].
  - by vm_compute.
  - exists r'. assert (vars' = []) as ->.
    { apply (f_equal outcome_value) in Hr. vm_compute in Hr. by injection Hr as <- _. }
    split; [exact Hr|]. by apply Hend.
Defined.
End LibraryProps.
