(* ===== verification/Stack.v ===== *)
(** * The initial process stack (rtld/impl/src/bootstrap/stack.rs)

    The kernel leaves argc, argv, envp and the auxiliary vector on the stack.
    [parse] finds them, [rewrite_for_program] removes the loader's own
    arguments for a direct invocation, [patch_auxv] describes the program that
    was loaded.  All of them work on words in byte memory; the loops run on
    fuel that bounds the number of words looked at. *)

From S2P Require Import Prelude LinkMap Machine.

Module Stack.
Import Machine.

Record AuxValues := mkAux {
  phdr : Z; phent : Z; phnum : Z; base : Z; entry : Z; secure : Z; pagesize : Z; platform : Z;
  hwcap : Z; hwcap2 : Z; hwcap3 : Z; hwcap4 : Z; clktck : Z; fpucw : Z; minsigstacksize : Z;
  sysinfo_ehdr : Z }.
Definition empty : AuxValues := mkAux 0 0 0 0 0 0 0 0 0 0 0 0 0 0 0 0.

(** The arm of the match for one entry. *)
Definition set_aux (kind value : Z) (aux : AuxValues) : AuxValues :=
  let 'mkAux phdr phent phnum base entry secure pagesize platform hwcap hwcap2 hwcap3 hwcap4
       clktck fpucw minsig sysinfo := aux in
  let put k old := if kind =? k then value else old in
  mkAux (put AT_PHDR phdr) (put AT_PHENT phent) (put AT_PHNUM phnum) (put AT_BASE base)
    (put AT_ENTRY entry) (put AT_SECURE secure) (put AT_PAGESZ pagesize) (put AT_PLATFORM platform)
    (put AT_HWCAP hwcap) (put AT_HWCAP2 hwcap2) (put AT_HWCAP3 hwcap3) (put AT_HWCAP4 hwcap4)
    (put AT_CLKTCK clktck) (put AT_FPUCW fpucw) (put AT_MINSIGSTKSZ minsig)
    (put AT_SYSINFO_EHDR sysinfo).

(** [ptr.add(n)] on words. *)
Definition add (p n : Z) : Z := p + 8 * n.

Fixpoint parse_auxv (fuel : nat) (auxv : Z) (aux : AuxValues) : st mem AuxValues :=
  match fuel with
  | O => st_fail OutOfFuel
  | S fuel =>
      kind ← load64 auxv;
      value ← load64 (add auxv 1);
      if kind =? AT_NULL then mret aux
      else parse_auxv fuel (add auxv 2) (set_aux kind value aux)
  end.

(** ** Program headers in memory *)
Definition size_of_phdr : Z := 56.
(** [ptr::read_unaligned] of an [Elf64_Phdr]. *)
Definition read_phdr (p : Z) : st mem ElfPhdr :=
  ty ← load32 p; fl ← load32 (p + 4); off ← load64 (p + 8); va ← load64 (p + 16);
  pa ← load64 (p + 24); fs ← load64 (p + 32); ms ← load64 (p + 40); al ← load64 (p + 48);
  mret (mkPhdr ty fl off va pa fs ms al).

Fixpoint read_phdrs (n : nat) (p : Z) : st mem (list ElfPhdr) :=
  match n with
  | O => mret []
  | S n => x ← read_phdr p; rest ← read_phdrs n (p + size_of_phdr); mret (x :: rest)
  end.

(** [ptr::read_unaligned] of an [Elf64_Ehdr]: [e_entry], [e_phoff],
    [e_phentsize], [e_phnum]. *)
Definition read_ehdr (p : Z) : st mem (Z * Z * Z * Z) :=
  h ← load_bytes 64 p;
  let num (o n : nat) := le_decode (take n (drop o h)) in
  mret (num 24%nat 8%nat, num 32%nat 8%nat, num 54%nat 2%nat, num 56%nat 2%nat).

Definition phdr_at (self : AuxValues) (index : Z) : st mem (option ElfPhdr) :=
  if (phdr self =? 0) || (phent self <? size_of_phdr) then mret None
  else
    match checked_mul index (phent self) with
    | None => mret None
    | Some offset => p ← read_phdr (wrapping_add (phdr self) offset); mret (Some p)
    end.
(** [(index..phnum).filter_map(phdr_at).find(..)] with [n] headers to go. *)
Fixpoint find_phdr_from (n : nat) (self : AuxValues) (index : Z) (program_type : Z) : st mem (option ElfPhdr) :=
  match n with
  | O => mret None
  | S n =>
      p ← phdr_at self index;
      match p with
      | Some p => if p_type p =? program_type then mret (Some p)
                  else find_phdr_from n self (index + 1) program_type
      | None => find_phdr_from n self (index + 1) program_type
      end
  end.
Definition find_phdr (self : AuxValues) (program_type : Z) : st mem (option ElfPhdr) :=
  find_phdr_from (Z.to_nat (phnum self)) self 0 program_type.

Definition load_bias (self : AuxValues) : st mem Z :=
  p ← find_phdr self PT_PHDR;
  mret (from_option (λ p, wrapping_sub (phdr self) (p_vaddr p)) 0 p).
Definition dynamic (self : AuxValues) (load_bias : Z) : st mem Z :=
  p ← find_phdr self PT_DYNAMIC;
  mret (from_option (λ p, wrapping_add load_bias (p_vaddr p)) 0 p).
Definition has_tls (self : AuxValues) : st mem bool :=
  p ← find_phdr self PT_TLS; mret (match p with Some _ => true | None => false end).

(** ** The stack *)
Record ProcessStack := mkProcess { argc : Z; argv : Z; envp : Z; auxv : Z; exec_path : Z }.
Record InitialStack := mkInitial { raw : Z; process : ProcessStack; aux : AuxValues }.
Record DirectProgram := mkDirect { argv_index : Z; argv0 : Z }.

(** [while *p != 0 { p = p.add(1) }] *)
Fixpoint skip_to_null (fuel : nat) (p : Z) : st mem Z :=
  match fuel with
  | O => st_fail OutOfFuel
  | S fuel => v ← load64 p; if v =? 0 then mret p else skip_to_null fuel (add p 1)
  end.

Definition parse (fuel : nat) (stack : Z) : st mem InitialStack :=
  argc ← load64 stack;
  let argv := add stack 1 in
  let envp := add stack (wrapping_add argc 2) in
  auxv ← skip_to_null fuel envp;
  let auxv := add auxv 1 in
  aux ← parse_auxv fuel auxv empty;
  mret (mkInitial stack (mkProcess argc argv envp auxv 0) aux).

(** [while *end != AT_NULL { end = end.add(2) }] *)
Fixpoint skip_auxv (fuel : nat) (p : Z) : st mem Z :=
  match fuel with
  | O => st_fail OutOfFuel
  | S fuel => v ← load64 p; if v =? AT_NULL then mret p else skip_auxv fuel (add p 2)
  end.
(** The copy of [count] words. *)
Fixpoint copy_words (count : nat) (dst src : Z) : st mem unit :=
  match count with
  | O => mret tt
  | S count => v ← load64 src; store64 dst v;; copy_words count (add dst 1) (add src 1)
  end.

Definition rewrite_for_program (fuel : nat) (self : InitialStack) (direct : DirectProgram) : st mem ProcessStack :=
  let argc := wrapping_sub (argc (process self)) (argv_index direct) in
  let src := add (raw self) (1 + argv_index direct) in
  let dst := add (raw self) 1 in
  end_ ← skip_auxv fuel (auxv (process self));
  let end_ := add end_ 2 in
  let count := (end_ - src) / 8 in
  copy_words (Z.to_nat count) dst src;;
  store64 (raw self) argc;;
  exec_path ← load64 dst;
  (if negb (argv0 direct =? 0) then store64 dst (argv0 direct) else mret tt);;
  let argv := add (raw self) 1 in
  let envp := add (raw self) (wrapping_add argc 2) in
  auxv ← skip_to_null fuel envp;
  mret (mkProcess argc argv envp (add auxv 1) exec_path).

(** The values that [patch_auxv] writes for one kind. *)
Definition patched (kind value phdr phnum base entry exec_path : Z) : Z :=
  if kind =? AT_PHDR then phdr
  else if kind =? AT_PHENT then size_of_phdr
  else if kind =? AT_PHNUM then phnum
  else if kind =? AT_BASE then base
  else if kind =? AT_ENTRY then entry
  else if kind =? AT_EXECFN then exec_path
  else value.
Definition is_patched (kind : Z) : bool :=
  existsb (Z.eqb kind) [AT_PHDR; AT_PHENT; AT_PHNUM; AT_BASE; AT_ENTRY; AT_EXECFN].
Fixpoint patch_loop (fuel : nat) (auxv phdr phnum base entry exec_path : Z) : st mem unit :=
  match fuel with
  | O => st_fail OutOfFuel
  | S fuel =>
      kind ← load64 auxv;
      if kind =? AT_NULL then mret tt
      else
        (if is_patched kind then store64 (add auxv 1) (patched kind 0 phdr phnum base entry exec_path)
         else mret tt);;
        patch_loop fuel (add auxv 2) phdr phnum base entry exec_path
  end.
Definition patch_auxv (fuel : nat) (auxv phdr phnum base entry exec_path : Z) : st mem unit :=
  if auxv =? 0 then mret tt else patch_loop fuel auxv phdr phnum base entry exec_path.

(** What [startup.rs] does with the stack for a direct invocation: [new] and
    [run] parse and rewrite, [prepare_direct_exec] patches. *)
Definition direct_exec (fuel : nat) (stack : Z) (direct : DirectProgram) (phdr phnum base entry : Z)
    : st mem ProcessStack :=
  initial ← parse fuel stack;
  process ← rewrite_for_program fuel initial direct;
  patch_auxv fuel (auxv process) phdr phnum base entry (exec_path process);;
  mret process.

(** ** The layout that the kernel builds *)

(** Consecutive words in memory. *)
Definition words_at (m : mem) (a : Z) (ws : list Z) : Prop :=
  ∀ i v, ws !! i = Some v → word_at m (add a (Z.of_nat i)) v.

Definition aux_words (pairs : list (Z * Z)) : list Z := pairs ≫= λ p, [p.1; p.2].
Definition stack_words (args envs : list Z) (pairs : list (Z * Z)) : list Z :=
  zlen args :: args ++ 0 :: envs ++ 0 :: aux_words pairs ++ [AT_NULL; 0].

(** The kernel's promises: no null pointer among the strings, no AT_NULL
    before the end, and words. *)
Record good (args envs : list Z) (pairs : list (Z * Z)) : Prop := {
  good_args : Forall (λ v, v ≠ 0) args;
  good_envs : Forall (λ v, v ≠ 0) envs;
  good_pairs : Forall (λ p, p.1 ≠ 0) pairs;
  good_words : Forall in_usize (stack_words args envs pairs);
  good_size : 8 * zlen (stack_words args envs pairs) < 2 ^ 64 }.

Definition aux_of (pairs : list (Z * Z)) : AuxValues := foldl (λ a p, set_aux p.1 p.2 a) empty pairs.

(** ** Words in memory *)
Lemma words_at_cons m a w ws :
  words_at m a (w :: ws) ↔ word_at m a w ∧ words_at m (add a 1) ws.
Proof.
  unfold words_at, add. split.
  - intros H. split; [by specialize (H 0%nat w eq_refl); rewrite Z.add_0_r in H|].
    intros i v Hi. specialize (H (S i) v Hi). by replace (a + 8 * 1 + 8 * Z.of_nat i) with (a + 8 * Z.of_nat (S i)) by lia.
  - intros [H1 H2] [|i] v Hi; simpl in Hi.
    + injection Hi as <-. by rewrite Z.add_0_r.
    + replace (a + 8 * Z.of_nat (S i)) with (a + 8 * 1 + 8 * Z.of_nat i) by lia. by apply H2.
Qed.

Lemma add_add p n k : add (add p n) k = add p (n + k).
Proof. unfold add. lia. Qed.
Lemma add_0 p : add p 0 = p.
Proof. unfold add. lia. Qed.

Lemma words_at_app m a ws vs :
  words_at m a (ws ++ vs) ↔ words_at m a ws ∧ words_at m (add a (zlen ws)) vs.
Proof.
  revert a. induction ws as [|w ws IH]; intros a.
  - unfold zlen. simpl. rewrite add_0. split; [intros H; split; [intros i v Hi; done|done]|by intros [_ H]].
  - simpl. rewrite !words_at_cons, IH, zlen_cons, add_add, (Z.add_comm 1). tauto.
Qed.

Lemma words_at_bytes m m' a ws :
  (∀ x, a ≤ x < add a (zlen ws) → m' x = m x) → words_at m a ws → words_at m' a ws.
Proof.
  intros Hx Hw i v Hi j b Hj. rewrite Hx; [by apply (Hw i v Hi)|].
  apply lookup_lt_Some in Hi, Hj. rewrite length_le_encode in Hj. unfold add, zlen in *. lia.
Qed.

Lemma words_at_mapped m a ws : words_at m a ws → mapped m a (8 * zlen ws).
Proof.
  revert a. induction ws as [|w ws IH]; intros a Hw x Hx; [unfold zlen in Hx; simpl in Hx; lia|].
  apply words_at_cons in Hw as [Hw Hws]. rewrite zlen_cons in Hx.
  destruct (decide (x < a + 8)); [apply (word_at_mapped _ _ _ Hw); lia|].
  apply (IH _ Hws). unfold add. lia.
Qed.

Lemma load_word m a w ws : words_at m a (w :: ws) → in_usize w → load64 a m = Ret (w, m).
Proof. intros [Hw _]%words_at_cons Hu. by apply load64_run. Qed.

(** [write m a] of one word, seen as words. *)
Lemma store_word m a w ws v :
  words_at m a (w :: ws) → ∃ m', store64 a v m = Ret (tt, m') ∧ words_at m' a (v :: ws)
    ∧ ∀ x, x < a ∨ a + 8 ≤ x → m' x = m x.
Proof.
  intros [Hw Hws]%words_at_cons. exists (write m a (le_encode 8 v)).
  split; [apply store64_run; by eapply word_at_mapped|].
  assert (∀ x, x < a ∨ a + 8 ≤ x → write m a (le_encode 8 v) x = m x) as Hout
    by (intros x Hx; apply write_outside; rewrite zlen_le_encode; lia).
  split; [|done]. apply words_at_cons. split; [apply word_at_write|].
  eapply words_at_bytes; [|exact Hws]. intros x Hx. apply Hout. unfold add in Hx. lia.
Qed.

(** ** The loops *)
Lemma skip_to_null_run fuel m a ws rest :
  words_at m a (ws ++ 0 :: rest) → Forall (λ v, v ≠ 0) ws → Forall in_usize ws → (length ws < fuel)%nat →
  skip_to_null fuel a m = Ret (add a (zlen ws), m).
Proof.
  revert a fuel. induction ws as [|w ws IH]; intros a [|fuel] Hw Hnz Hu Hf; simpl in *; try lia.
  - erewrite st_bind_run by (eapply load_word; [exact Hw|unfold in_usize; lia]).
    unfold zlen. simpl. by rewrite add_0.
  - apply Forall_cons in Hnz as [Hnz Hnzs], Hu as [Hu Hus].
    erewrite st_bind_run by (by eapply load_word). rewrite (proj2 (Z.eqb_neq w 0)) by done.
    apply words_at_cons in Hw as [_ Hw]. rewrite (IH (add a 1) fuel) by (done || lia).
    by rewrite add_add, zlen_cons, (Z.add_comm 1).
Qed.

Lemma parse_auxv_run fuel m a pairs rest aux :
  words_at m a (aux_words pairs ++ AT_NULL :: rest) → rest ≠ [] → Forall (λ p, p.1 ≠ 0) pairs →
  Forall in_usize (aux_words pairs ++ AT_NULL :: rest) → (length pairs < fuel)%nat →
  parse_auxv fuel a aux m = Ret (foldl (λ a p, set_aux p.1 p.2 a) aux pairs, m).
Proof.
  revert a fuel aux. induction pairs as [|[k v] pairs IH]; intros a [|fuel] aux Hw Hr Hnz Hu Hf; simpl in *; try lia.
  - destruct rest as [|r rest]; [done|]. apply Forall_cons in Hu as [_ Hu]. apply Forall_cons in Hu as [Hu _].
    erewrite st_bind_run by (eapply load_word; [exact Hw|unfold in_usize, AT_NULL; lia]).
    apply words_at_cons in Hw as [_ Hw]. erewrite st_bind_run by (by eapply load_word). done.
  - apply Forall_cons in Hnz as [Hnz Hnzs]. apply Forall_cons in Hu as [Hk Hu]. apply Forall_cons in Hu as [Hv Hu].
    erewrite st_bind_run by (by eapply load_word). apply words_at_cons in Hw as [_ Hw].
    erewrite st_bind_run by (by eapply load_word). apply words_at_cons in Hw as [_ Hw].
    rewrite (proj2 (Z.eqb_neq k AT_NULL)) by done. rewrite add_add in Hw. apply IH; try done. lia.
Qed.

Lemma skip_auxv_run fuel m a pairs rest :
  words_at m a (aux_words pairs ++ AT_NULL :: rest) → Forall (λ p, p.1 ≠ 0) pairs →
  Forall in_usize (aux_words pairs) → (length pairs < fuel)%nat →
  skip_auxv fuel a m = Ret (add a (zlen (aux_words pairs)), m).
Proof.
  revert a fuel. induction pairs as [|[k v] pairs IH]; intros a [|fuel] Hw Hnz Hu Hf; simpl in *; try lia.
  - erewrite st_bind_run by (eapply load_word; [exact Hw|unfold in_usize, AT_NULL; lia]).
    unfold zlen. simpl. by rewrite add_0.
  - apply Forall_cons in Hnz as [Hnz Hnzs]. apply Forall_cons in Hu as [Hk Hu]. apply Forall_cons in Hu as [Hv Hu].
    erewrite st_bind_run by (by eapply load_word). rewrite (proj2 (Z.eqb_neq k AT_NULL)) by done.
    apply words_at_cons in Hw as [_ Hw]. apply words_at_cons in Hw as [_ Hw]. rewrite add_add in Hw.
    rewrite (IH (add a 2) fuel) by (done || lia). rewrite add_add. rewrite !zlen_cons. do 3 f_equal. lia.
Qed.

(** The forward copy is right because it moves the words down. *)
Lemma copy_words_run ws m dst src :
  words_at m src ws → dst ≤ src → mapped m dst (8 * zlen ws) → Forall in_usize ws →
  ∃ m', copy_words (length ws) dst src m = Ret (tt, m') ∧ words_at m' dst ws
    ∧ ∀ x, x < dst ∨ add dst (zlen ws) ≤ x → m' x = m x.
Proof.
  revert m dst src. induction ws as [|w ws IH]; intros m dst src Hw Hle Hmap Hu; simpl.
  { exists m. split; [done|]. split; [intros i v Hi; done|done]. }
  apply Forall_cons in Hu as [Hwu Hu]. erewrite st_bind_run by (by eapply load_word).
  apply words_at_cons in Hw as [_ Hw]. rewrite zlen_cons in *. pose proof (zlen_nonneg ws).
  assert (∀ x, x < dst ∨ dst + 8 ≤ x → write m dst (le_encode 8 w) x = m x) as Hout
    by (intros x Hx; apply write_outside; rewrite zlen_le_encode; lia).
  erewrite st_bind_run by (apply store64_run; eapply mapped_le; [exact Hmap|lia|lia]).
  set (m1 := write m dst (le_encode 8 w)) in *.
  destruct (IH m1 (add dst 1) (add src 1)) as (m2 & H2 & Hw2 & Ho2).
  - eapply words_at_bytes; [|exact Hw]. intros x Hx. apply Hout. unfold add in Hx. lia.
  - unfold add. lia.
  - apply write_mapped. eapply mapped_le; [exact Hmap|unfold add; lia|unfold add; lia].
  - done.
  - exists m2. split; [exact H2|]. split.
    + apply words_at_cons. split; [|done]. intros i b Hi. rewrite Ho2.
      * by apply word_at_write.
      * apply lookup_lt_Some in Hi. rewrite length_le_encode in Hi. unfold add. lia.
    + intros x Hx. rewrite Ho2 by (unfold add in *; lia). apply Hout. unfold add in *. lia.
Qed.

End Stack.

Module StackProps.
Import Machine Stack.

Lemma aux_words_length pairs : length (aux_words pairs) = (2 * length pairs)%nat.
Proof. induction pairs as [|[k v] pairs IH]; simpl in *; lia. Qed.

Lemma good_parts args envs pairs : good args envs pairs →
  Forall in_usize args ∧ Forall in_usize envs ∧ Forall in_usize (aux_words pairs) ∧ in_usize (zlen args).
Proof.
  intros [_ _ _ Hw _]. unfold stack_words in Hw. apply Forall_cons in Hw as [Hl Hw].
  apply Forall_app in Hw as [Ha Hw]. apply Forall_cons in Hw as [_ Hw].
  apply Forall_app in Hw as [He Hw]. apply Forall_cons in Hw as [_ Hw]. apply Forall_app in Hw as [Hp _]. done.
Qed.

Lemma stack_words_length args envs pairs :
  zlen (stack_words args envs pairs) = zlen args + zlen envs + 2 * zlen pairs + 5.
Proof.
  unfold stack_words, zlen. simpl. rewrite !length_app. simpl. rewrite !length_app. simpl.
  rewrite length_app, aux_words_length. simpl. lia.
Qed.

Definition enough (fuel : nat) (args envs : list Z) (pairs : list (Z * Z)) : Prop :=
  (length args < fuel ∧ length envs < fuel ∧ length pairs < fuel)%nat.

(** The parts of a stack. *)
Lemma stack_parts m sp args envs pairs :
  words_at m sp (stack_words args envs pairs) ↔
  word_at m sp (zlen args) ∧ words_at m (add sp 1) (args ++ [0])
  ∧ words_at m (add sp (zlen args + 2)) (envs ++ [0])
  ∧ words_at m (add sp (zlen args + zlen envs + 3)) (aux_words pairs ++ [AT_NULL; 0]).
Proof.
  assert (stack_words args envs pairs =
    zlen args :: (args ++ [0]) ++ (envs ++ [0]) ++ (aux_words pairs ++ [AT_NULL; 0])) as ->
    by (unfold stack_words; by rewrite <-!app_assoc).
  rewrite words_at_cons, (words_at_app m (add sp 1) (args ++ [0])), (words_at_app m _ (envs ++ [0])).
  rewrite !zlen_app, !add_add. change (zlen [0]) with 1.
  replace (1 + (zlen args + 1)) with (zlen args + 2) by lia.
  by replace (zlen args + 2 + (zlen envs + 1)) with (zlen args + zlen envs + 3) by lia.
Qed.

Lemma parse_run fuel m sp args envs pairs :
  words_at m sp (stack_words args envs pairs) → good args envs pairs → enough fuel args envs pairs →
  parse fuel sp m = Ret (mkInitial sp (mkProcess (zlen args) (add sp 1) (add sp (zlen args + 2))
    (add sp (zlen args + zlen envs + 3)) 0) (aux_of pairs), m).
Proof.
  intros Hw Hg (Hf1 & Hf2 & Hf3). destruct (good_parts _ _ _ Hg) as (Ha & He & Hp & Hl).
  pose proof (good_size _ _ _ Hg) as Hsz. rewrite stack_words_length in Hsz.
  pose proof (zlen_nonneg args). pose proof (zlen_nonneg envs). pose proof (zlen_nonneg pairs).
  apply stack_parts in Hw as (Hn & _ & Hwe & Hwp). unfold parse.
  erewrite st_bind_run by (by apply load64_run).
  unfold wrapping_add. rewrite wrap_small by (unfold in_usize; lia).
  erewrite st_bind_run by (eapply skip_to_null_run; [exact Hwe|apply Hg|done|done]).
  rewrite !add_add. replace (zlen args + 2 + (zlen envs + 1)) with (zlen args + zlen envs + 3) by lia.
  erewrite st_bind_run; [reflexivity|]. eapply parse_auxv_run; [exact Hwp|done|apply Hg| |done].
  apply Forall_app. split; [done|]. by apply (bool_decide_unpack _).
Qed.

(** The program's own arguments. *)
Definition program_args (args : list Z) (k : nat) (argv0 : Z) : list Z :=
  match drop k args with
  | [] => []
  | prog :: rest => (if argv0 =? 0 then prog else argv0) :: rest
  end.

(** The words that are moved down: from the program's name to the end of the
    auxiliary vector. *)
Definition moved (prog : Z) (rest envs : list Z) (pairs : list (Z * Z)) : list Z :=
  prog :: rest ++ 0 :: envs ++ 0 :: aux_words pairs ++ [AT_NULL; 0].

Lemma moved_zlen prog rest envs pairs :
  zlen (moved prog rest envs pairs) = zlen rest + zlen envs + 2 * zlen pairs + 5.
Proof.
  unfold moved, zlen. simpl. rewrite !length_app. simpl. rewrite !length_app. simpl.
  rewrite length_app, aux_words_length. simpl. lia.
Qed.

Lemma moved_split args envs pairs k prog : args !! k = Some prog →
  stack_words args envs pairs = (zlen args :: take k args) ++ moved prog (drop (S k) args) envs pairs.
Proof.
  intros Hk. unfold stack_words, moved. rewrite <-(take_drop_middle _ _ _ Hk) at 2. by rewrite <-!app_assoc.
Qed.

Lemma words_at_single m a v : word_at m a v → words_at m a [v].
Proof. intros Hv. apply words_at_cons. split; [done|]. by intros i x Hi. Qed.

(** The copy: the words end up behind argc, which is untouched. *)
Lemma moved_run m sp args envs pairs k prog :
  words_at m sp (stack_words args envs pairs) → good args envs pairs → args !! k = Some prog →
  let ws := moved prog (drop (S k) args) envs pairs in
  ∃ m1, copy_words (length ws) (add sp 1) (add sp (1 + Z.of_nat k)) m = Ret (tt, m1)
    ∧ words_at m1 sp [zlen args] ∧ words_at m1 (add sp 1) ws ∧ Forall in_usize ws
    ∧ ∀ x, x < add sp 1 ∨ add sp (1 + zlen ws) ≤ x → m1 x = m x.
Proof.
  intros Hw Hg Hk ws. pose proof (moved_split args envs pairs k prog Hk) as Hsplit. fold ws in Hsplit.
  pose proof (lookup_lt_Some _ _ _ Hk) as Hklt.
  assert (zlen (take k args) = Z.of_nat k) as Htk by (unfold zlen; rewrite length_take; lia).
  assert (Forall in_usize ws) as Hwsu.
  { pose proof (good_words _ _ _ Hg) as Hu. rewrite Hsplit in Hu. by apply Forall_app in Hu as [_ Hu]. }
  pose proof (words_at_mapped _ _ _ Hw) as Hmap. rewrite Hsplit, zlen_app, zlen_cons, Htk in Hmap.
  assert (words_at m (add sp (1 + Z.of_nat k)) ws) as Hsrc.
  { rewrite Hsplit in Hw. apply words_at_app in Hw as [_ Hw]. by rewrite zlen_cons, Htk, Z.add_comm in Hw. }
  destruct (copy_words_run ws m (add sp 1) (add sp (1 + Z.of_nat k)) Hsrc) as (m1 & H1 & Hw1 & Ho1);
    [unfold add; lia|eapply mapped_le; [exact Hmap|unfold add; lia|unfold add; lia]|done|].
  exists m1. split_and!; [exact H1| |exact Hw1|exact Hwsu|].
  - apply stack_parts in Hw as (Hn & _). apply words_at_single. intros i b Hi. rewrite Ho1; [by apply Hn|].
    apply lookup_lt_Some in Hi. rewrite length_le_encode in Hi. unfold add. lia.
  - intros x Hx. apply Ho1. unfold add in *. lia.
Qed.

(** The optional new name of the program. *)
Lemma set_argv0_run m a prog ws argv0 : words_at m a (prog :: ws) →
  ∃ m', (if negb (argv0 =? 0) then store64 a argv0 else mret tt) m = Ret (tt, m')
    ∧ words_at m' a ((if argv0 =? 0 then prog else argv0) :: ws) ∧ ∀ x, x < a ∨ add a 1 ≤ x → m' x = m x.
Proof.
  intros Hw. destruct (argv0 =? 0); simpl; [by exists m|].
  destruct (store_word m a prog ws argv0 Hw) as (m' & H & Hw' & Ho). exists m'. split_and!; [done..|].
  intros x Hx. apply Ho. unfold add in *. lia.
Qed.

Lemma rewrite_run fuel m sp args envs pairs k prog argv0 init :
  words_at m sp (stack_words args envs pairs) → good args envs pairs → enough fuel args envs pairs →
  args !! k = Some prog → in_usize argv0 →
  raw init = sp → argc (process init) = zlen args →
  auxv (process init) = add sp (zlen args + zlen envs + 3) →
  ∃ m', rewrite_for_program fuel init (mkDirect (Z.of_nat k) argv0) m =
      Ret (mkProcess (zlen args - Z.of_nat k) (add sp 1) (add sp (zlen args - Z.of_nat k + 2))
             (add sp (zlen args - Z.of_nat k + zlen envs + 3)) prog, m')
    ∧ words_at m' sp (stack_words (program_args args k argv0) envs pairs)
    ∧ ∀ x, x < sp ∨ sp + 8 * zlen (stack_words args envs pairs) ≤ x → m' x = m x.
Proof.
  intros Hw Hg (Hf1 & Hf2 & Hf3) Hk Hargv0 Hraw Hargc Hauxv.
  destruct (good_parts _ _ _ Hg) as (Ha & He & Hp & Hl).
  pose proof (lookup_lt_Some _ _ _ Hk) as Hklt. pose proof (good_size _ _ _ Hg) as Hsz. rewrite stack_words_length in Hsz.
  pose proof (zlen_nonneg envs). pose proof (zlen_nonneg pairs).
  destruct (moved_run m sp args envs pairs k prog Hw Hg Hk) as (m1 & H1 & Hn1 & Hw1 & Hwsu & Ho1).
  set (ws := moved prog (drop (S k) args) envs pairs) in *. pose proof (moved_zlen prog (drop (S k) args) envs pairs) as Hws.
  set (rest := drop (S k) args) in *. fold ws in Hws.
  assert (zlen rest = zlen args - Z.of_nat k - 1) as Hrest by (unfold rest, zlen; rewrite length_drop; lia).
  unfold rewrite_for_program. rewrite Hraw, Hargc, Hauxv. cbn [argv_index Stack.argv0].
  unfold wrapping_sub. rewrite wrap_small by (unfold in_usize, zlen in *; lia).
  apply stack_parts in Hw as (_ & _ & _ & Hwp).
  erewrite st_bind_run by (eapply skip_auxv_run; [exact Hwp|apply Hg|done|done]).
  assert (zlen (aux_words pairs) = 2 * zlen pairs) as Haw by (unfold zlen; rewrite aux_words_length; lia).
  replace (Z.to_nat _) with (length ws); [|rewrite !add_add, Haw; unfold add;
    match goal with |- _ = Z.to_nat (?a / 8) => replace a with (zlen ws * 8) by lia end;
    rewrite Z.div_mul by lia; unfold zlen; lia].
  erewrite st_bind_run by exact H1.
  destruct (store_word m1 sp _ _ (zlen args - Z.of_nat k) Hn1) as (m2 & H2 & Hn2 & Ho2).
  erewrite st_bind_run by exact H2.
  assert (words_at m2 (add sp 1) ws) as Hw2.
  { eapply words_at_bytes; [|exact Hw1]. intros x Hx. apply Ho2. unfold add in Hx. lia. }
  erewrite st_bind_run by (eapply load_word; [exact Hw2|by apply Forall_cons in Hwsu as [? _]]).
  destruct (set_argv0_run m2 _ _ _ argv0 Hw2) as (m3 & H3 & Hw3 & Ho3). erewrite st_bind_run by exact H3.
  assert (program_args args k argv0 = (if argv0 =? 0 then prog else argv0) :: rest) as Hpa
    by (unfold program_args; by rewrite (drop_S _ prog)).
  assert (zlen (program_args args k argv0) = zlen args - Z.of_nat k) as Hpl by (rewrite Hpa, zlen_cons, Hrest; lia).
  assert (words_at m3 sp (stack_words (program_args args k argv0) envs pairs)) as Hw4.
  { unfold stack_words. rewrite Hpl, Hpa. apply words_at_cons. split; [|exact Hw3].
    apply words_at_cons in Hn2 as [Hn2 _]. intros i b Hi. rewrite Ho3; [by apply Hn2|].
    apply lookup_lt_Some in Hi. rewrite length_le_encode in Hi. unfold add. lia. }
  apply stack_parts in Hw4 as Hparts. destruct Hparts as (_ & _ & Hwe4 & _). rewrite Hpl in Hwe4.
  unfold wrapping_add. rewrite wrap_small by (unfold in_usize, zlen in *; lia).
  erewrite st_bind_run by (eapply skip_to_null_run; [exact Hwe4|apply Hg|done|done]).
  exists m3. split_and!; [|done|].
  - rewrite !add_add.
    by replace (zlen args - Z.of_nat k + 2 + (zlen envs + 1)) with (zlen args - Z.of_nat k + zlen envs + 3) by lia.
  - intros x Hx. rewrite stack_words_length in Hx. assert (Z.of_nat k < zlen args) by (unfold zlen; lia).
    rewrite Ho3, Ho2, Ho1 by (unfold add; lia). done.
Qed.

Section patch.
Context (phdr phnum base entry exec_path : Z).
Definition patch_pair (p : Z * Z) : Z * Z := (p.1, patched p.1 p.2 phdr phnum base entry exec_path).

Lemma patched_is k v v' : is_patched k = true → patched k v phdr phnum base entry exec_path
  = patched k v' phdr phnum base entry exec_path.
Proof.
  unfold is_patched, patched. simpl. repeat (destruct (k =? _); [done|]). done.
Qed.
Lemma patched_not k v : is_patched k = false → patched k v phdr phnum base entry exec_path = v.
Proof. unfold is_patched, patched. simpl. repeat (destruct (k =? _); [done|]). done. Qed.

Lemma patch_loop_run fuel m a pairs :
  words_at m a (aux_words pairs ++ [AT_NULL; 0]) → Forall (λ p, p.1 ≠ 0) pairs →
  Forall in_usize (aux_words pairs) → (length pairs < fuel)%nat →
  ∃ m', patch_loop fuel a phdr phnum base entry exec_path m = Ret (tt, m')
    ∧ words_at m' a (aux_words (patch_pair <$> pairs) ++ [AT_NULL; 0])
    ∧ ∀ x, x < a ∨ add a (2 * zlen pairs) ≤ x → m' x = m x.
Proof.
  revert a fuel m. induction pairs as [|[k v] pairs IH]; intros a [|fuel] m Hw Hnz Hu Hf; simpl in *; try lia.
  - erewrite st_bind_run by (eapply load_word; [exact Hw|unfold in_usize, AT_NULL; lia]). by exists m.
  - apply Forall_cons in Hnz as [Hnz Hnzs]. apply Forall_cons in Hu as [Hk Hu]. apply Forall_cons in Hu as [Hv Hu].
    erewrite st_bind_run by (by eapply load_word). rewrite (proj2 (Z.eqb_neq k AT_NULL)) by done.
    apply words_at_cons in Hw as [Hkw Hw].
    assert (∃ m1, (if is_patched k then store64 (add a 1) (patched k 0 phdr phnum base entry exec_path)
        else mret tt) m = Ret (tt, m1)
      ∧ words_at m1 (add a 1) (patched k v phdr phnum base entry exec_path :: aux_words pairs ++ [AT_NULL; 0])
      ∧ ∀ x, x < add a 1 ∨ add a 2 ≤ x → m1 x = m x) as (m1 & H1 & Hw1 & Ho1).
    { destruct (is_patched k) eqn:Hp.
      - destruct (store_word m (add a 1) v _ (patched k 0 phdr phnum base entry exec_path) Hw) as (m1 & H1 & Hw1 & Ho1).
        exists m1. rewrite (patched_is k v 0 Hp). split; [done|]. split; [done|].
        intros x Hx. apply Ho1. unfold add in *. lia.
      - exists m. by rewrite patched_not. }
    erewrite st_bind_run by exact H1. apply words_at_cons in Hw1 as [Hv1 Hw1]. rewrite add_add in Hw1.
    destruct (IH (add a 2) fuel m1 Hw1) as (m2 & H2 & Hw2 & Ho2); [done|done|lia|].
    exists m2. split; [exact H2|]. rewrite zlen_cons. pose proof (zlen_nonneg pairs). split.
    + apply words_at_cons. split; [|apply words_at_cons; split; [|by rewrite add_add]].
      * intros i b Hi. rewrite Ho2, Ho1; [by apply Hkw| |]; apply lookup_lt_Some in Hi;
          rewrite length_le_encode in Hi; unfold add; lia.
      * intros i b Hi. rewrite Ho2; [by apply Hv1|]; apply lookup_lt_Some in Hi;
          rewrite length_le_encode in Hi; unfold add; lia.
    + intros x Hx. rewrite Ho2, Ho1; [done| |]; unfold add in *; lia.
Qed.
End patch.

Section direct.
Context (args envs : list Z) (pairs : list (Z * Z)) (k : nat) (prog argv0 phdr phnum base entry : Z).
Hypothesis Hg : good args envs pairs.
Hypothesis Hk : args !! k = Some prog.
Hypothesis Hargv0 : in_usize argv0.
Hypothesis Hu : Forall in_usize [phdr; phnum; base; entry].

Lemma program_args_eq : program_args args k argv0 = (if argv0 =? 0 then prog else argv0) :: drop (S k) args.
Proof. unfold program_args. by rewrite (drop_S _ prog). Qed.

Lemma program_args_zlen : zlen (program_args args k argv0) = zlen args - Z.of_nat k.
Proof.
  pose proof (lookup_lt_Some _ _ _ Hk). rewrite program_args_eq, zlen_cons. unfold zlen. rewrite length_drop. lia.
Qed.

Lemma prog_usize : in_usize prog.
Proof. destruct (good_parts _ _ _ Hg) as (Ha & _). exact (proj1 (Forall_lookup _ _) Ha _ _ Hk). Qed.

Lemma patched_usize kk v : in_usize v → in_usize (patched kk v phdr phnum base entry prog).
Proof.
  intros Hv. pose proof prog_usize. unfold patched, size_of_phdr.
  repeat (destruct (kk =? _); [by decompose_Forall_hyps|]). done.
Qed.

Lemma patched_words l :
  Forall in_usize (aux_words l) → Forall in_usize (aux_words (patch_pair phdr phnum base entry prog <$> l)).
Proof.
  unfold aux_words. induction l as [|[kk v] l IH]; simpl; intros Hl; [constructor|].
  apply Forall_cons in Hl as [Hkk Hl]. apply Forall_cons in Hl as [Hv Hl].
  constructor; [done|]. constructor; [by apply patched_usize|by apply IH].
Qed.

Lemma good_direct : good (program_args args k argv0) envs (patch_pair phdr phnum base entry prog <$> pairs).
Proof.
  destruct (good_parts _ _ _ Hg) as (Ha & He & Hp & Hl). pose proof (lookup_lt_Some _ _ _ Hk) as Hklt.
  pose proof (patched_words _ Hp) as Hpu.
  constructor.
  - rewrite program_args_eq. pose proof (good_args _ _ _ Hg) as Hnz. constructor; [|by apply Forall_drop].
    destruct (Z.eqb_spec argv0 0); [|done]. exact (proj1 (Forall_lookup _ _) Hnz _ _ Hk).
  - apply Hg.
  - apply Forall_fmap. apply (good_pairs _ _ _ Hg).
  - unfold stack_words. apply Forall_cons. split.
    { rewrite program_args_zlen. unfold in_usize, zlen in *. lia. }
    apply Forall_app. split.
    { rewrite program_args_eq. constructor; [|by apply Forall_drop].
      destruct (argv0 =? 0); [apply prog_usize|done]. }
    apply Forall_cons. split; [done|]. apply Forall_app. split; [done|]. apply Forall_cons. split; [done|].
    apply Forall_app. split; [done|]. by apply (bool_decide_unpack _).
  - pose proof (good_size _ _ _ Hg) as Hs. rewrite !stack_words_length in *. rewrite program_args_zlen.
    unfold zlen in *. rewrite length_fmap. lia.
Qed.
End direct.

(** C15. Running a program directly through the loader: after the stack of the
    loader is parsed, rewritten and patched, it is the stack that the kernel
    would have built for the program: the program's own arguments (its name
    replaced by --argv0 when given), the same environment, the same auxiliary
    vector with the entries that describe the program; the returned pointers
    are the ones a fresh parse finds, and no byte outside the old stack
    changes. *)
Theorem direct_exec_stack fuel m sp args envs pairs k prog argv0 phdr phnum base entry :
  words_at m sp (stack_words args envs pairs) → good args envs pairs → enough fuel args envs pairs →
  args !! k = Some prog → 0 < sp → in_usize argv0 →
  Forall in_usize [phdr; phnum; base; entry] →
  let args' := program_args args k argv0 in
  let pairs' := patch_pair phdr phnum base entry prog <$> pairs in
  ∃ m' p, direct_exec fuel sp (mkDirect (Z.of_nat k) argv0) phdr phnum base entry m = Ret (p, m')
    ∧ words_at m' sp (stack_words args' envs pairs')
    ∧ parse fuel sp m' = Ret (mkInitial sp (mkProcess (argc p) (argv p) (envp p) (auxv p) 0) (aux_of pairs'), m')
    ∧ argc p = zlen args - Z.of_nat k ∧ exec_path p = prog
    ∧ ∀ x, x < sp ∨ sp + 8 * zlen (stack_words args envs pairs) ≤ x → m' x = m x.
Proof.
  intros Hw Hg Hf Hk Hsp Hargv0 Hu args' pairs'.
  pose proof (lookup_lt_Some _ _ _ Hk) as Hklt.
  pose proof (program_args_zlen args k prog argv0 Hk) as Hlen. fold args' in Hlen.
  pose proof (good_direct _ _ _ _ _ _ _ _ _ _ Hg Hk Hargv0 Hu) as Hg'. fold args' pairs' in Hg'.
  assert (zlen pairs' = zlen pairs) as Hlp by (unfold pairs', zlen; by rewrite length_fmap).
  assert (enough fuel args' envs pairs') as Hf'.
  { destruct Hf as (? & ? & ?). unfold enough, zlen in *. split; [|split]; lia. }
  destruct (good_parts _ _ _ Hg) as (_ & _ & Hpu & _).
  set (i := mkInitial sp (mkProcess (zlen args) (add sp 1) (add sp (zlen args + 2))
    (add sp (zlen args + zlen envs + 3)) 0) (aux_of pairs)).
  destruct (rewrite_run fuel m sp args envs pairs k prog argv0 i Hw Hg Hf Hk Hargv0 eq_refl eq_refl eq_refl)
    as (m1 & H1 & Hw1 & Ho1). fold args' in Hw1.
  apply stack_parts in Hw1 as (Hn & Hwa & Hwe & Hwp). rewrite Hlen in Hn, Hwe, Hwp.
  destruct (patch_loop_run phdr phnum base entry prog fuel m1 _ pairs Hwp) as (m2 & H2 & Hw2 & Ho2);
    [apply Hg|done|apply Hf|]. fold pairs' in Hw2.
  pose proof (zlen_nonneg envs). pose proof (zlen_nonneg pairs). assert (Z.of_nat k < zlen args) by (unfold zlen; lia).
  assert (words_at m2 sp (stack_words args' envs pairs')) as Hfin.
  { apply stack_parts. rewrite Hlen. split_and!; [| | |exact Hw2].
    - intros j b Hj. rewrite Ho2; [by apply Hn|]. apply lookup_lt_Some in Hj.
      rewrite length_le_encode in Hj. unfold add. lia.
    - eapply words_at_bytes; [|exact Hwa]. intros x Hx. apply Ho2.
      rewrite zlen_app, Hlen in Hx. change (zlen [0]) with 1 in Hx. unfold add in *. lia.
    - eapply words_at_bytes; [|exact Hwe]. intros x Hx. apply Ho2.
      rewrite zlen_app in Hx. change (zlen [0]) with 1 in Hx. unfold add in *. lia. }
  exists m2. eexists. split.
  { unfold direct_exec. erewrite st_bind_run by (by apply parse_run). fold i.
    erewrite st_bind_run by exact H1. cbn [auxv exec_path].
    erewrite st_bind_run; [reflexivity|]. unfold patch_auxv. rewrite (proj2 (Z.eqb_neq _ 0)); [exact H2|].
    unfold add. lia. }
  cbn [argc argv envp auxv exec_path]. split; [exact Hfin|].
  split; [rewrite (parse_run fuel m2 sp args' envs pairs' Hfin Hg' Hf'); by rewrite Hlen|].
  split; [done|]. split; [done|]. intros x Hx. rewrite stack_words_length in Hx.
  rewrite Ho2 by (unfold add; lia). apply Ho1. rewrite stack_words_length. lia.
Qed.

Lemma words_at_of_words m a ws : bytes_at m a (ws ≫= le_encode 8) → words_at m a ws.
Proof.
  revert a. induction ws as [|w ws IH]; intros a Hb; [intros i v Hi; done|].
  change ((w :: ws) ≫= le_encode 8) with (le_encode 8 w ++ (ws ≫= le_encode 8)) in Hb.
  apply bytes_at_app in Hb as [Hw Hb]. rewrite zlen_le_encode in Hb.
  apply words_at_cons. split; [exact Hw|by apply IH].
Qed.

(** A direct invocation [ld.so --argv0 NAME prog x] with one variable. *)
Definition demo_args : list Z := [9000; 9010; 9020; 9030; 9040].
Definition demo_pairs : list (Z * Z) := [(AT_PHDR, 64); (AT_PAGESZ, 4096); (AT_ENTRY, 77)].
Definition demo_stack : mem := of_bytes 65536 (stack_words demo_args [9050] demo_pairs ≫= le_encode 8).

Lemma direct_exec_stack_witness :
  ∃ m' p, direct_exec 16 65536 (mkDirect 3 9020) 4160 9 1048576 5000 demo_stack = Ret (p, m')
    ∧ words_at m' 65536 (stack_words [9020; 9040] [9050] [(AT_PHDR, 4160); (AT_PAGESZ, 4096); (AT_ENTRY, 5000)])
    ∧ argc p = 2 ∧ exec_path p = 9030.
Proof.
  destruct (direct_exec_stack 16 demo_stack 65536 demo_args [9050] demo_pairs 3 9030 9020 4160 9 1048576 5000)
    as (m' & p & H1 & H2 & _ & H3 & H4 & _).
  - apply words_at_of_words, write_bytes_at.
  - constructor; by apply (bool_decide_unpack _).
  - unfold enough. simpl. lia.
  - reflexivity.
  - lia.
  - unfold in_usize. lia.
  - by apply (bool_decide_unpack _).
  - exists m', p. split; [exact H1|]. split; [exact H2|]. split; [exact H3|exact H4].
Defined.

End StackProps.
