(* ===== verification/SelfReloc.v ===== *)
(** * Self-relocation (rtld/impl/src/bootstrap/self_reloc.rs)

    The loader relocates itself before anything else works: it scans its
    dynamic section, refuses what it cannot handle, and applies relative
    relocations.  The same scan decides whether the kernel-mapped program can
    be entered without any linking.  Applying a run of relocations is done by
    the ELF loader crate, which is a parameter. *)

From S2P Require Import Prelude Machine Stack.

Module SelfReloc.
Import Machine.

(** Dynamic tags (x86_64: RELA relocations). *)
Definition DT_NULL : Z := 0.
Definition DT_NEEDED : Z := 1.
Definition DT_PLTRELSZ : Z := 2.
Definition NATIVE_RELOCATION_TAG : Z := 7.
Definition NATIVE_RELOCATION_SIZE_TAG : Z := 8.
Definition NATIVE_RELOCATION_ENTRY_SIZE_TAG : Z := 9.
Definition DT_JMPREL : Z := 23.
Definition DT_RELRSZ : Z := 35.
Definition DT_RELR : Z := 36.
Definition DT_RELRENT : Z := 37.
(** INIT, FINI, INIT_ARRAY, INIT_ARRAYSZ, FINI_ARRAY, FINI_ARRAYSZ,
    PREINIT_ARRAY, PREINIT_ARRAYSZ. *)
Definition lifecycle_tags : list Z := [12; 13; 25; 27; 26; 28; 32; 33].

Definition size_of_rel : Z := 24.
Definition size_of_relr : Z := 8.

Record RelocationTable := mkTable { offset : Z; size : Z; entry_size : Z }.
Definition empty (entry_size : Z) : RelocationTable := mkTable 0 0 entry_size.
Definition is_empty (self : RelocationTable) : bool := size self =? 0.
(** [validate::<T>()] with [t] the size of [T]. *)
Definition validate (t : Z) (self : RelocationTable) : option RelocationTable :=
  if is_empty self then Some (mkTable (offset self) (size self) t)
  else if (offset self =? 0) || negb (entry_size self =? t) || negb (size self mod entry_size self =? 0)
  then None else Some self.
Definition len (self : RelocationTable) : Z := size self / entry_size self.

Record RelocationTables := mkTables {
  rela : RelocationTable; relr : RelocationTable; has_lifecycle : bool }.
Definition set_offset (v : Z) (t : RelocationTable) := mkTable v (size t) (entry_size t).
Definition set_size (v : Z) (t : RelocationTable) := mkTable (offset t) v (entry_size t).
Definition set_entry_size (v : Z) (t : RelocationTable) := mkTable (offset t) (size t) v.

(** The arms of the scan that go on; [None] is [return None]. *)
Definition scan_entry (tag value : Z) (self : RelocationTables) : option RelocationTables :=
  if tag =? DT_NEEDED then None
  else if tag =? NATIVE_RELOCATION_TAG then
    Some (mkTables (set_offset value (rela self)) (relr self) (has_lifecycle self))
  else if tag =? NATIVE_RELOCATION_SIZE_TAG then
    Some (mkTables (set_size value (rela self)) (relr self) (has_lifecycle self))
  else if (tag =? NATIVE_RELOCATION_ENTRY_SIZE_TAG) && negb (value =? 0) then
    Some (mkTables (set_entry_size value (rela self)) (relr self) (has_lifecycle self))
  else if tag =? DT_RELR then
    Some (mkTables (rela self) (set_offset value (relr self)) (has_lifecycle self))
  else if tag =? DT_RELRSZ then
    Some (mkTables (rela self) (set_size value (relr self)) (has_lifecycle self))
  else if (tag =? DT_RELRENT) && negb (value =? 0) then
    Some (mkTables (rela self) (set_entry_size value (relr self)) (has_lifecycle self))
  else if ((tag =? DT_JMPREL) || (tag =? DT_PLTRELSZ)) && negb (value =? 0) then None
  else if existsb (Z.eqb tag) lifecycle_tags && negb (value =? 0) then
    Some (mkTables (rela self) (relr self) true)
  else Some self.

(** The scan, [n] entries to go. *)
Fixpoint scan (n : nat) (dynamic : Z) (self : RelocationTables) : st mem (option RelocationTables) :=
  match n with
  | O => mret None
  | S n =>
      tag ← load64 dynamic;
      value ← load64 (dynamic + 8);
      if tag =? DT_NULL then
        mret (a ← validate size_of_rel (rela self); b ← validate size_of_relr (relr self);
              Some (mkTables a b (has_lifecycle self)))
      else
        match scan_entry tag value self with
        | None => mret None
        | Some self => scan n (dynamic + 16) self
        end
  end.
Definition initial_tables : RelocationTables := mkTables (empty size_of_rel) (empty size_of_relr) false.
Definition parse (dynamic : Z) : st mem (option RelocationTables) :=
  if dynamic =? 0 then mret None else scan (Z.to_nat 4096) dynamic initial_tables.

Definition tables_can_pass_through (self : RelocationTables) : bool :=
  is_empty (rela self) && is_empty (relr self) && negb (has_lifecycle self).
Definition can_pass_through (dynamic : Z) : st mem bool :=
  if dynamic =? 0 then mret true
  else t ← parse dynamic; mret (match t with Some t => tables_can_pass_through t | None => false end).

(** ** Applying *)
Record ElfRel := mkRel { r_offset : Z; r_info : Z; r_addend : Z }.
Definition r_type (r : ElfRel) : Z := Z.land (r_info r) (2 ^ 32 - 1).
Definition R_NONE : Z := 0.
Definition R_RELATIVE : Z := 8.

Fixpoint read_rels (n : nat) (a : Z) : st mem (list ElfRel) :=
  match n with
  | O => mret []
  | S n =>
      o ← load64 a; i ← load64 (a + 8); d ← load64 (a + 16);
      l ← read_rels n (a + 24); mret (mkRel o i d :: l)
  end.
Fixpoint read_words (n : nat) (a : Z) : st mem (list Z) :=
  match n with O => mret [] | S n => w ← load64 a; l ← read_words n (a + 8); mret (w :: l) end.

(** [slice::split(pred)] *)
Fixpoint split_at {A} (pred : A → bool) (l : list A) : list (list A) :=
  match l with
  | [] => [[]]
  | x :: l =>
      if pred x then [] :: split_at pred l
      else match split_at pred l with g :: gs => (x :: g) :: gs | [] => [[x]] end
  end.

Section apply.
(** [relocate_relative] and [relocate_relr] of the loader crate with the
    bootstrap memory of this load bias; [true] is [Ok]. *)
Variable relocate_relative : Z → list ElfRel → st mem bool.
Variable relocate_relr : Z → list Z → st mem bool.

Fixpoint apply_groups (load_bias : Z) (groups : list (list ElfRel)) : st mem bool :=
  match groups with
  | [] => mret true
  | relative :: groups =>
      match relative with
      | [] => apply_groups load_bias groups
      | _ =>
          if forallb (λ r, r_type r =? R_RELATIVE) relative then
            ok ← relocate_relative load_bias relative;
            if (ok : bool) then apply_groups load_bias groups else mret false
          else mret false
      end
  end.

Definition apply_rela (self : RelocationTables) (load_bias : Z) : st mem bool :=
  if is_empty (rela self) then mret true
  else
    relocations ← read_rels (Z.to_nat (len (rela self))) (wrapping_add load_bias (offset (rela self)));
    apply_groups load_bias (split_at (λ r, r_type r =? R_NONE) relocations).
Definition apply (self : RelocationTables) (load_bias : Z) : st mem bool :=
  ok ← apply_rela self load_bias;
  if negb ok then mret false
  else if is_empty (relr self) then mret true
  else
    entries ← read_words (Z.to_nat (len (relr self))) (wrapping_add load_bias (offset (relr self)));
    relocate_relr load_bias entries.

Definition relocate (dynamic load_bias : Z) : st mem bool :=
  t ← parse dynamic;
  match t with Some t => apply t load_bias | None => mret false end.
End apply.

(** ** [BootstrapMemory]: addresses are host pointers *)
Definition host_ptr (addr : Z) : option Z := if addr =? 0 then None else Some addr.
Definition host_ptr_range (addr n : Z) : option Z :=
  if negb (n =? 0) then _ ← checked_add addr (n - 1); host_ptr addr else host_ptr addr.
Definition read_bytes (addr n : Z) : st mem (list Z) :=
  if n =? 0 then mret [] else load_bytes (Z.to_nat n) addr.
Definition memory_write_bytes (addr : Z) (src : list Z) : st mem unit :=
  match src with [] => mret tt | _ => store_bytes addr src end.
End SelfReloc.

Module SelfRelocProps.
Import Machine Stack SelfReloc.

(** An entry that the loader cannot handle, and one with code to run. *)
Definition refused (p : Z * Z) : bool :=
  (p.1 =? DT_NEEDED) || (((p.1 =? DT_JMPREL) || (p.1 =? DT_PLTRELSZ)) && negb (p.2 =? 0)).
Definition lifecycle (p : Z * Z) : bool := existsb (Z.eqb p.1) lifecycle_tags && negb (p.2 =? 0).
(** The last value of a tag. *)
Definition last_value (tag : Z) (d : Z) (ds : list (Z * Z)) : Z :=
  foldl (λ acc p, if p.1 =? tag then p.2 else acc) d ds.

Lemma scan_entry_spec tag value t :
  match scan_entry tag value t with
  | None => refused (tag, value) = true
  | Some t' => refused (tag, value) = false
      ∧ size (rela t') = (if tag =? NATIVE_RELOCATION_SIZE_TAG then value else size (rela t))
      ∧ size (relr t') = (if tag =? DT_RELRSZ then value else size (relr t))
      ∧ has_lifecycle t' = has_lifecycle t || lifecycle (tag, value)
  end.
Proof.
  unfold scan_entry, refused, lifecycle, lifecycle_tags, NATIVE_RELOCATION_TAG, NATIVE_RELOCATION_SIZE_TAG,
    NATIVE_RELOCATION_ENTRY_SIZE_TAG, DT_NEEDED, DT_JMPREL, DT_PLTRELSZ, DT_RELR, DT_RELRSZ, DT_RELRENT.
  cbn [fst snd existsb].
  repeat match goal with
  | |- context [tag =? ?c] => destruct (Z.eqb_spec tag c) as [->|]; simpl; try (by rewrite ?orb_false_r)
  end; destruct (value =? 0); simpl; by rewrite ?orb_false_r, ?orb_true_r.
Qed.

Fixpoint scan_list (ds : list (Z * Z)) (t : RelocationTables) : option RelocationTables :=
  match ds with
  | [] => Some t
  | (tag, value) :: ds => t ← scan_entry tag value t; scan_list ds t
  end.

Lemma scan_list_spec ds t :
  match scan_list ds t with
  | None => existsb refused ds = true
  | Some t' => existsb refused ds = false
      ∧ size (rela t') = last_value NATIVE_RELOCATION_SIZE_TAG (size (rela t)) ds
      ∧ size (relr t') = last_value DT_RELRSZ (size (relr t)) ds
      ∧ has_lifecycle t' = has_lifecycle t || existsb lifecycle ds
  end.
Proof.
  revert t. induction ds as [|[tag value] ds IH]; intros t; simpl.
  { by rewrite orb_false_r. }
  pose proof (scan_entry_spec tag value t) as Hs. destruct (scan_entry tag value t) as [t1|]; simpl; [|by rewrite Hs].
  destruct Hs as (-> & Hr & Hrr & Hl). specialize (IH t1). simpl.
  destruct (scan_list ds t1) as [t2|]; [|done]. destruct IH as (-> & -> & -> & ->).
  by rewrite Hr, Hrr, Hl, orb_assoc.
Qed.

Lemma lifecycle_tag_in t : existsb (Z.eqb t) lifecycle_tags = bool_decide (t ∈ lifecycle_tags).
Proof.
  case_bool_decide as Hin.
  - apply existsb_exists. exists t. split; [by apply list_elem_of_In|apply Z.eqb_refl].
  - apply existsb_false. intros x Hx. apply Z.eqb_neq. by intros ->.
Qed.

(** The entries that keep a program from being passed through. *)
Lemma needs_nothing ds :
  existsb refused ds = false ∧ existsb lifecycle ds = false ↔
  (∀ p, p ∈ ds → p.1 ≠ DT_NEEDED)
  ∧ (∀ p, p ∈ ds → p.2 ≠ 0 → p.1 ∉ DT_JMPREL :: DT_PLTRELSZ :: lifecycle_tags).
Proof.
  rewrite !existsb_false. unfold refused, lifecycle. split.
  - intros [H1 H2]. split; intros p Hp; specialize (H1 p Hp); specialize (H2 p Hp); rewrite lifecycle_tag_in in H2.
    + apply orb_false_iff in H1 as [H1 _]. by apply Z.eqb_neq.
    + intros Hv. apply orb_false_iff in H1 as [_ H1]. rewrite (proj2 (Z.eqb_neq (p.2) 0)) in H1, H2 by done.
      rewrite andb_true_r in H1, H2. apply orb_false_iff in H1 as [H1%Z.eqb_neq H3%Z.eqb_neq].
      apply bool_decide_eq_false in H2. by rewrite !not_elem_of_cons.
  - intros [H1 H2]. split; intros p Hp; specialize (H1 p Hp); specialize (H2 p Hp);
      (destruct (Z.eqb_spec (p.2) 0) as [Hz|Hz]; cbn [negb]; [rewrite ?andb_false_r, ?orb_false_r|rewrite ?andb_true_r]).
    + by apply Z.eqb_neq.
    + specialize (H2 Hz). rewrite !not_elem_of_cons in H2. destruct H2 as (H2 & H3 & _).
      by rewrite !(proj2 (Z.eqb_neq _ _)).
    + done.
    + specialize (H2 Hz). rewrite !not_elem_of_cons in H2. destruct H2 as (_ & _ & H2).
      rewrite lifecycle_tag_in. by apply bool_decide_eq_false.
Qed.

Lemma validate_passes s t : size t = 0 → validate s t = Some (mkTable (offset t) (size t) s).
Proof. intros Hz. unfold validate, is_empty. by rewrite Hz. Qed.
Lemma validate_size s t t' : validate s t = Some t' → size t' = size t.
Proof. unfold validate. destruct (is_empty t); [by intros [= <-]|]. destruct (_ || _); [done|]. by intros [= <-]. Qed.

(** The dynamic section in memory. *)
Definition dynamic_at (m : mem) (a : Z) (ds : list (Z * Z)) : Prop :=
  words_at m a (aux_words ds ++ [DT_NULL; 0]) ∧ Forall (λ p, p.1 ≠ 0) ds ∧ Forall in_usize (aux_words ds).

Lemma scan_run n m a ds t :
  dynamic_at m a ds → (length ds < n)%nat →
  scan n a t m = Ret (t' ← scan_list ds t; x ← validate size_of_rel (rela t');
    y ← validate size_of_relr (relr t'); Some (mkTables x y (has_lifecycle t')), m).
Proof.
  intros (Hw & Hnz & Hu). revert a n t Hw. induction ds as [|[tag value] ds IH]; intros a [|n] t Hw Hn; simpl in *; try lia.
  - erewrite st_bind_run by (eapply load_word; [exact Hw|unfold in_usize, DT_NULL; lia]).
    apply words_at_cons in Hw as [_ Hw]. replace (a + 8) with (add a 1) by (unfold add; lia).
    erewrite st_bind_run by (eapply load_word; [exact Hw|unfold in_usize; lia]). done.
  - apply Forall_cons in Hnz as [Hnz Hnzs]. apply Forall_cons in Hu as [Hk Hu]. apply Forall_cons in Hu as [Hv Hu].
    erewrite st_bind_run by (by eapply load_word). apply words_at_cons in Hw as [_ Hw].
    replace (a + 8) with (add a 1) by (unfold add; lia).
    erewrite st_bind_run by (by eapply load_word). apply words_at_cons in Hw as [_ Hw]. rewrite add_add in Hw.
    rewrite (proj2 (Z.eqb_neq tag DT_NULL)) by done.
    destruct (scan_entry tag value t) as [t1|]; simpl; [|done].
    replace (a + 16) with (add a (1 + 1)) by (unfold add; lia). rewrite IH by (done || lia). done.
Qed.

(** The kernel-mapped program is entered without linking exactly when its
    dynamic section needs nothing: no DT_NEEDED, no lazy relocations, no
    initialisers or finalisers, and the last DT_RELASZ and DT_RELRSZ are zero
    or absent.  The scan ends within its bound and changes no memory. *)
Theorem pass_through_iff m a ds :
  0 < a → dynamic_at m a ds → zlen ds < 4096 →
  ∃ b, can_pass_through a m = Ret (b, m) ∧
    (b = true ↔ (∀ p, p ∈ ds → p.1 ≠ DT_NEEDED)
      ∧ (∀ p, p ∈ ds → p.2 ≠ 0 → p.1 ∉ DT_JMPREL :: DT_PLTRELSZ :: lifecycle_tags)
      ∧ last_value NATIVE_RELOCATION_SIZE_TAG 0 ds = 0 ∧ last_value DT_RELRSZ 0 ds = 0).
Proof.
  intros Ha Hd Hlen. unfold can_pass_through, parse. rewrite (proj2 (Z.eqb_neq a 0)) by lia.
  eexists. split; [erewrite st_bind_run by (eapply scan_run; [exact Hd|unfold zlen in Hlen; lia]); reflexivity|].
  pose proof (needs_nothing ds) as Href. pose proof (scan_list_spec ds initial_tables) as Hs.
  match goal with |- ?b = true ↔ _ => enough (b = true ↔ (existsb refused ds = false ∧ existsb lifecycle ds = false)
    ∧ last_value NATIVE_RELOCATION_SIZE_TAG 0 ds = 0 ∧ last_value DT_RELRSZ 0 ds = 0) as -> by tauto end. clear Href.
  destruct (scan_list ds initial_tables) as [t|]; simpl; [|split; [done|]; intros ([? _] & _); congruence].
  destruct Hs as (Hr & Hs1 & Hs2 & Hl). simpl in Hs1, Hs2, Hl. rewrite <-Hs1, <-Hs2, <-Hl. split.
  - destruct (validate size_of_rel (rela t)) as [x|] eqn:Hx; simpl; [|done].
    destruct (validate size_of_relr (relr t)) as [y|] eqn:Hy; simpl; [|done].
    apply validate_size in Hx as <-, Hy as <-. unfold tables_can_pass_through, is_empty. simpl.
    intros [[H1%Z.eqb_eq H2%Z.eqb_eq]%andb_true_iff H3%negb_true_iff]%andb_true_iff. done.
  - intros ((_ & H3) & H1 & H2). rewrite !validate_passes by done. simpl.
    unfold tables_can_pass_through, is_empty. simpl. by rewrite H1, H2, H3.
Qed.

(** ** Applying the relocations *)
Section apply.
Context (relocate_relative : Z → list ElfRel → st mem bool) (load_bias : Z).

(** The crate relocates one entry after the other and stops at an error. *)
Hypothesis relocate_app : ∀ l k m,
  relocate_relative load_bias (l ++ k) m =
    (ok ← relocate_relative load_bias l; if (ok : bool) then relocate_relative load_bias k else mret false) m.
Hypothesis relocate_nil : ∀ m, relocate_relative load_bias [] m = Ret (true, m).

Lemma apply_groups_eq g gs m :
  Forall (λ r, r_type r = R_RELATIVE) g →
  apply_groups relocate_relative load_bias (g :: gs) m =
    (ok ← relocate_relative load_bias g;
     if (ok : bool) then apply_groups relocate_relative load_bias gs else mret false) m.
Proof.
  intros Hg. destruct g as [|r g]; cbn [apply_groups].
  - by erewrite st_bind_run by apply relocate_nil.
  - rewrite (proj2 (forallb_forall _ _)); [done|]. intros x Hx%list_elem_of_In.
    apply Z.eqb_eq. by apply (proj1 (Forall_forall _ _) Hg).
Qed.

(** Splitting at R_NONE relocates every other entry, in order. *)
Lemma apply_groups_all l m :
  Forall (λ r, r_type r = R_NONE ∨ r_type r = R_RELATIVE) l →
  apply_groups relocate_relative load_bias (split_at (λ r, r_type r =? R_NONE) l) m =
  relocate_relative load_bias (filter (λ r, r_type r ≠ R_NONE) l) m.
Proof.
  intros Hl. cut (∀ pre m, Forall (λ r, r_type r = R_RELATIVE) pre →
    match split_at (λ r, r_type r =? R_NONE) l with
    | g :: gs => apply_groups relocate_relative load_bias ((pre ++ g) :: gs) m
    | [] => Fault
    end = relocate_relative load_bias (pre ++ filter (λ r, r_type r ≠ R_NONE) l) m).
  { intros Hc. specialize (Hc [] m (Forall_nil_2 _)). simpl in Hc. rewrite <-Hc.
    destruct l as [|x l]; simpl; [done|]. destruct (_ =? _); [done|]. by destruct (split_at _ l). }
  clear m. induction l as [|x l IH]; intros pre m Hpre.
  - cbn [split_at]. rewrite filter_nil, !app_nil_r, apply_groups_eq by done. cbn [apply_groups].
    unfold mbind, st_bind. by destruct (relocate_relative load_bias pre m) as [[[] m']| | |].
  - apply Forall_cons in Hl as [Hx Hl]. specialize (IH Hl). cbn [split_at].
    destruct (Z.eqb_spec (r_type x) R_NONE) as [Hn|Hn].
    + rewrite filter_cons_False by naive_solver. rewrite app_nil_r, apply_groups_eq, relocate_app by done.
      apply st_bind_ext. intros [] m' _; [|done]. specialize (IH [] m' (Forall_nil_2 _)). simpl in IH.
      rewrite <-IH. by destruct (split_at _ l) eqn:E; [destruct l as [|y l]; simpl in E; [|destruct (_ =? _), (split_at _ l)]|].
    + rewrite filter_cons_True by done. destruct Hx as [Hx|Hx]; [done|].
      specialize (IH (pre ++ [x]) m). rewrite <-!app_assoc in IH. simpl in IH. rewrite <-IH.
      * destruct (split_at _ l) as [|g gs] eqn:E; [destruct l as [|y l]; simpl in E; [done|destruct (_ =? _), (split_at _ l); done]|].
        by rewrite <-app_assoc.
      * apply Forall_app. split; [done|]. by constructor.
Qed.
End apply.

(** A program with an empty DT_RELASZ and one with an initialiser. *)
Definition demo_dynamic : mem := of_bytes 4096 ((aux_words [(5, 8); (8, 0)] ++ [DT_NULL; 0]) ≫= le_encode 8).
Lemma pass_through_iff_witness : ∃ b, can_pass_through 4096 demo_dynamic = Ret (b, demo_dynamic)
  ∧ (b = true ↔ (∀ p, p ∈ [(5, 8); (8, 0)] → p.1 ≠ DT_NEEDED)
      ∧ (∀ p, p ∈ [(5, 8); (8, 0)] → p.2 ≠ 0 → p.1 ∉ DT_JMPREL :: DT_PLTRELSZ :: lifecycle_tags)
      ∧ last_value NATIVE_RELOCATION_SIZE_TAG 0 [(5, 8); (8, 0)] = 0
      ∧ last_value DT_RELRSZ 0 [(5, 8); (8, 0)] = 0).
Proof.
  apply pass_through_iff; [lia| |by vm_compute].
  split; [apply StackProps.words_at_of_words, write_bytes_at|].
  split; by apply (bool_decide_unpack _).
Defined.

End SelfRelocProps.
