(* ===== verification/Glibc.v ===== *)
(** * glibc's runtime globals (rtld/impl/src/glibc/v2_39/mod.rs, globals.rs)

    The structures [_rtld_global] and [_rtld_global_ro] that glibc 2.39 reads
    by offset: their layout, their initial values, and the operations that
    publish the loaded objects, the static TLS size and the auxiliary values. *)

From S2P Require Import Prelude Machine Layout CStr.

Module Glibc.
Import Machine Layout CStr.

(** ** Types *)
Definition u8 := mkType 1 1.
Definition u16 := mkType 2 2.
Definition u32 := mkType 4 4.
Definition c_int := mkType 4 4.
Definition u64 := mkType 8 8.
Definition usize := mkType 8 8.
Definition ptr := mkType 8 8.

Definition DL_NNS : Z := 16.
Definition EXEC_PAGESIZE : Z := 4096.
Definition FPU_DEFAULT : Z := 0x037f.
Definition PTHREAD_MUTEX_RECURSIVE_NP : Z := 1.
Definition STDERR_FILENO : Z := 2.
Definition X86_CPU_FEATURES_SIZE : Z := 528.
Definition DEFAULT_STACK_PROT_FLAGS : Z := Z.lor 1 2.
Definition RTLD_GLOBAL_SIZE : Z := 2120.
Definition RTLD_GLOBAL_RO_SIZE : Z := 928.
Definition LINK_NAMESPACE_SIZE : Z := 112.

Definition RtldScopeElem : fields := [("list", ptr); ("nlist", u32); ("_padding", u32)].
Definition RtldList : fields := [("next", ptr); ("prev", ptr)].
Definition RtldPthreadMutex : fields :=
  [("lock", c_int); ("count", u32); ("owner", c_int); ("nusers", u32); ("kind", c_int);
   ("spins", u16); ("elision", u16); ("list", struct RtldList)].
Definition RtldRecursiveLock : fields := [("mutex", struct RtldPthreadMutex)].
Definition RtldUniqueSymTable : fields :=
  [("lock", struct RtldRecursiveLock); ("entries", ptr); ("size", usize); ("n_elements", usize);
   ("free", ptr)].
Definition RtldLinkNamespace : fields :=
  [("loaded", ptr); ("nloaded", u32); ("_padding_after_nloaded", u32); ("main_searchlist", ptr);
   ("global_scope_alloc", u32); ("global_scope_pending_adds", u32); ("libc_map", ptr);
   ("unique_sym_table", struct RtldUniqueSymTable)].
Definition RtldX86FeatureControl : fields := [("bits", u32)].

Definition RtldGlobal : fields :=
  [("dl_ns", array DL_NNS (struct RtldLinkNamespace)); ("dl_nns", usize);
   ("dl_load_lock", struct RtldRecursiveLock); ("dl_load_write_lock", struct RtldRecursiveLock);
   ("dl_load_tls_lock", struct RtldRecursiveLock); ("dl_load_adds", u64); ("dl_initfirst", ptr);
   ("dl_profile_map", ptr); ("dl_num_relocations", usize); ("dl_num_cache_relocations", usize);
   ("dl_all_dirs", ptr); ("dl_x86_feature_1", u32);
   ("dl_x86_feature_control", struct RtldX86FeatureControl); ("dl_stack_prot_flags", c_int);
   ("dl_tls_dtv_gaps", u8); ("_padding_after_tls_dtv_gaps", array 3 u8);
   ("dl_tls_max_dtv_idx", usize); ("dl_tls_dtv_slotinfo_list", ptr); ("dl_tls_static_nelem", usize);
   ("dl_tls_static_used", usize); ("dl_tls_static_optional", usize); ("dl_initial_dtv", ptr);
   ("dl_tls_generation", usize); ("dl_scope_free_list", ptr); ("dl_stack_used", struct RtldList);
   ("dl_stack_user", struct RtldList); ("dl_stack_cache", struct RtldList);
   ("dl_stack_cache_actsize", usize); ("dl_in_flight_stack", usize); ("dl_stack_cache_lock", c_int);
   ("_tail_padding", u32)].

Definition RtldGlobalRo : fields :=
  [("dl_debug_mask", c_int); ("_padding_after_debug_mask", u32); ("dl_platform", ptr);
   ("dl_platformlen", usize); ("dl_pagesize", usize); ("dl_minsigstacksize", usize);
   ("dl_inhibit_cache", c_int); ("_padding_after_inhibit_cache", u32);
   ("dl_initial_searchlist", struct RtldScopeElem); ("dl_clktck", c_int); ("dl_verbose", c_int);
   ("dl_debug_fd", c_int); ("dl_lazy", c_int); ("dl_bind_not", c_int); ("dl_dynamic_weak", c_int);
   ("dl_fpu_control", u16); ("_padding_after_fpu_control", array 6 u8); ("dl_hwcap", u64);
   ("dl_auxv", ptr); ("dl_x86_cpu_features", array X86_CPU_FEATURES_SIZE u8);
   ("dl_x86_tlsdesc_dynamic", ptr); ("dl_x86_64_runtime_resolve", ptr); ("dl_inhibit_rpath", ptr);
   ("dl_origin_path", ptr); ("dl_tls_static_size", usize); ("dl_tls_static_align", usize);
   ("dl_tls_static_surplus", usize); ("dl_profile", ptr); ("dl_profile_output", ptr);
   ("dl_init_all_dirs", ptr); ("dl_sysinfo_dso", ptr); ("dl_sysinfo_map", ptr);
   ("dl_vdso_clock_gettime64", ptr); ("dl_vdso_gettimeofday", ptr); ("dl_vdso_time", ptr);
   ("dl_vdso_getcpu", ptr); ("dl_vdso_clock_getres_time64", ptr); ("dl_vdso_getrandom", ptr);
   ("dl_hwcap2", u64); ("dl_hwcap3", u64); ("dl_hwcap4", u64); ("dl_dso_sort_algo", u32);
   ("_padding_after_dso_sort_algo", u32); ("dl_debug_printf", ptr); ("dl_mcount", ptr);
   ("dl_lookup_symbol_x", ptr); ("dl_open", ptr); ("dl_close", ptr); ("dl_catch_error", ptr);
   ("dl_error_free", ptr); ("dl_tls_get_addr_soft", ptr); ("dl_libc_freeres", ptr);
   ("dl_find_object", ptr); ("dl_readonly_area", ptr); ("dl_dlfcn_hook", ptr); ("dl_audit", ptr);
   ("dl_naudit", u32); ("_tail_padding", u32)].

(** The compile-time assertions of the file: sizes, and offsets of fields. *)
Definition size_assertions : list (fields * Z) :=
  [(RtldGlobal, RTLD_GLOBAL_SIZE); (RtldGlobalRo, RTLD_GLOBAL_RO_SIZE); (RtldLinkNamespace, LINK_NAMESPACE_SIZE)].
Definition offset_assertions : list (fields * string * Z) :=
  [(RtldGlobal, "dl_ns", 0); (RtldGlobal, "dl_nns", 1792); (RtldGlobal, "dl_x86_feature_1", 1968);
   (RtldGlobal, "dl_stack_prot_flags", 1976); (RtldGlobal, "dl_tls_max_dtv_idx", 1984);
   (RtldGlobal, "dl_initial_dtv", 2024); (RtldGlobal, "dl_tls_generation", 2032);
   (RtldGlobal, "dl_stack_used", 2048); (RtldGlobalRo, "dl_pagesize", 24); (RtldGlobalRo, "dl_hwcap", 96);
   (RtldGlobalRo, "dl_x86_cpu_features", 112); (RtldGlobalRo, "dl_x86_tlsdesc_dynamic", 640);
   (RtldGlobalRo, "dl_x86_64_runtime_resolve", 648); (RtldGlobalRo, "dl_inhibit_rpath", 656);
   (RtldGlobalRo, "dl_tls_static_size", 672); (RtldGlobalRo, "dl_sysinfo_dso", 720);
   (RtldGlobalRo, "dl_vdso_getrandom", 776); (RtldGlobalRo, "dl_hwcap2", 784);
   (RtldGlobalRo, "dl_find_object", 888); (RtldGlobalRo, "dl_readonly_area", 896);
   (RtldGlobalRo, "dl_dlfcn_hook", 904)].

(** ** Initial values: the fields in order with their bytes *)
Definition value (t : CType) (v : Z) : list Z := le_encode (Z.to_nat (csize t)) v.
Definition scalar (n : string) (t : CType) (v : Z) : string * list Z := (n, value t v).

Definition ScopeElem_ZERO : list (string * list Z) :=
  [scalar "list" ptr 0; scalar "nlist" u32 0; scalar "_padding" u32 0].
Definition List_ZERO : list (string * list Z) := [scalar "next" ptr 0; scalar "prev" ptr 0].
Definition PthreadMutex_RECURSIVE : list (string * list Z) :=
  [scalar "lock" c_int 0; scalar "count" u32 0; scalar "owner" c_int 0; scalar "nusers" u32 0;
   scalar "kind" c_int PTHREAD_MUTEX_RECURSIVE_NP; scalar "spins" u16 0; scalar "elision" u16 0;
   ("list", image List_ZERO)].
Definition RecursiveLock_RECURSIVE : list (string * list Z) := [("mutex", image PthreadMutex_RECURSIVE)].
Definition UniqueSymTable_ZERO : list (string * list Z) :=
  [("lock", image RecursiveLock_RECURSIVE); scalar "entries" ptr 0; scalar "size" usize 0;
   scalar "n_elements" usize 0; scalar "free" ptr 0].
Definition LinkNamespace_ZERO : list (string * list Z) :=
  [scalar "loaded" ptr 0; scalar "nloaded" u32 0; scalar "_padding_after_nloaded" u32 0;
   scalar "main_searchlist" ptr 0; scalar "global_scope_alloc" u32 0;
   scalar "global_scope_pending_adds" u32 0; scalar "libc_map" ptr 0;
   ("unique_sym_table", image UniqueSymTable_ZERO)].
Definition X86FeatureControl_DEFAULT : list (string * list Z) := [scalar "bits" u32 0].

Definition RtldGlobal_new : list (string * list Z) :=
  [("dl_ns", concat (replicate 16 (image LinkNamespace_ZERO))); scalar "dl_nns" usize 1;
   ("dl_load_lock", image RecursiveLock_RECURSIVE); ("dl_load_write_lock", image RecursiveLock_RECURSIVE);
   ("dl_load_tls_lock", image RecursiveLock_RECURSIVE); scalar "dl_load_adds" u64 0;
   scalar "dl_initfirst" ptr 0; scalar "dl_profile_map" ptr 0; scalar "dl_num_relocations" usize 0;
   scalar "dl_num_cache_relocations" usize 0; scalar "dl_all_dirs" ptr 0; scalar "dl_x86_feature_1" u32 0;
   ("dl_x86_feature_control", image X86FeatureControl_DEFAULT);
   scalar "dl_stack_prot_flags" c_int DEFAULT_STACK_PROT_FLAGS; scalar "dl_tls_dtv_gaps" u8 0;
   ("_padding_after_tls_dtv_gaps", replicate 3 0); scalar "dl_tls_max_dtv_idx" usize 0;
   scalar "dl_tls_dtv_slotinfo_list" ptr 0; scalar "dl_tls_static_nelem" usize 0;
   scalar "dl_tls_static_used" usize 0; scalar "dl_tls_static_optional" usize 0;
   scalar "dl_initial_dtv" ptr 0; scalar "dl_tls_generation" usize 1; scalar "dl_scope_free_list" ptr 0;
   ("dl_stack_used", image List_ZERO); ("dl_stack_user", image List_ZERO);
   ("dl_stack_cache", image List_ZERO); scalar "dl_stack_cache_actsize" usize 0;
   scalar "dl_in_flight_stack" usize 0; scalar "dl_stack_cache_lock" c_int 0; scalar "_tail_padding" u32 0].

Definition RtldGlobalRo_new : list (string * list Z) :=
  [scalar "dl_debug_mask" c_int 0; scalar "_padding_after_debug_mask" u32 0; scalar "dl_platform" ptr 0;
   scalar "dl_platformlen" usize 0; scalar "dl_pagesize" usize EXEC_PAGESIZE;
   scalar "dl_minsigstacksize" usize 0; scalar "dl_inhibit_cache" c_int 0;
   scalar "_padding_after_inhibit_cache" u32 0; ("dl_initial_searchlist", image ScopeElem_ZERO);
   scalar "dl_clktck" c_int 0; scalar "dl_verbose" c_int 0; scalar "dl_debug_fd" c_int STDERR_FILENO;
   scalar "dl_lazy" c_int 1; scalar "dl_bind_not" c_int 0; scalar "dl_dynamic_weak" c_int 0;
   scalar "dl_fpu_control" u16 FPU_DEFAULT; ("_padding_after_fpu_control", replicate 6 0);
   scalar "dl_hwcap" u64 0; scalar "dl_auxv" ptr 0;
   ("dl_x86_cpu_features", replicate 528 0); scalar "dl_x86_tlsdesc_dynamic" ptr 0;
   scalar "dl_x86_64_runtime_resolve" ptr 0; scalar "dl_inhibit_rpath" ptr 0; scalar "dl_origin_path" ptr 0;
   scalar "dl_tls_static_size" usize 0; scalar "dl_tls_static_align" usize 1;
   scalar "dl_tls_static_surplus" usize 0; scalar "dl_profile" ptr 0; scalar "dl_profile_output" ptr 0;
   scalar "dl_init_all_dirs" ptr 0; scalar "dl_sysinfo_dso" ptr 0; scalar "dl_sysinfo_map" ptr 0;
   scalar "dl_vdso_clock_gettime64" ptr 0; scalar "dl_vdso_gettimeofday" ptr 0; scalar "dl_vdso_time" ptr 0;
   scalar "dl_vdso_getcpu" ptr 0; scalar "dl_vdso_clock_getres_time64" ptr 0;
   scalar "dl_vdso_getrandom" ptr 0; scalar "dl_hwcap2" u64 0; scalar "dl_hwcap3" u64 0;
   scalar "dl_hwcap4" u64 0; scalar "dl_dso_sort_algo" u32 0; scalar "_padding_after_dso_sort_algo" u32 0;
   scalar "dl_debug_printf" ptr 0; scalar "dl_mcount" ptr 0; scalar "dl_lookup_symbol_x" ptr 0;
   scalar "dl_open" ptr 0; scalar "dl_close" ptr 0; scalar "dl_catch_error" ptr 0;
   scalar "dl_error_free" ptr 0; scalar "dl_tls_get_addr_soft" ptr 0; scalar "dl_libc_freeres" ptr 0;
   scalar "dl_find_object" ptr 0; scalar "dl_readonly_area" ptr 0; scalar "dl_dlfcn_hook" ptr 0;
   scalar "dl_audit" ptr 0; scalar "dl_naudit" u32 0; scalar "_tail_padding" u32 0].

(** ** Operations

    [self] is the address of the structure. *)
Definition sub_addr (fs : fields) (self : Z) (name : string) : Z := self + default 0 (offset_of fs name).

Definition init_list (l : Z) : st mem unit := write_fields RtldList l [("next", l); ("prev", l)].

Definition publish (self main main_searchlist nloaded libc_map : Z) : st mem unit :=
  let nloaded := as_u32 nloaded in
  let dl_ns_0 := sub_addr RtldGlobal self "dl_ns" in
  write_fields RtldGlobal self [("dl_nns", 1); ("dl_load_adds", nloaded)];;
  write_fields RtldLinkNamespace dl_ns_0
    [("loaded", main); ("nloaded", nloaded); ("main_searchlist", main_searchlist); ("libc_map", libc_map)];;
  init_list (sub_addr RtldGlobal self "dl_stack_used");;
  init_list (sub_addr RtldGlobal self "dl_stack_user");;
  init_list (sub_addr RtldGlobal self "dl_stack_cache").

Definition initial_searchlist (self : Z) : Z := sub_addr RtldGlobalRo self "dl_initial_searchlist".
Definition x86_cpu_features (self : Z) : Z := sub_addr RtldGlobalRo self "dl_x86_cpu_features".

Definition publish_tls_static_info (self size align : Z) : st mem unit :=
  write_fields RtldGlobalRo self [("dl_tls_static_size", size); ("dl_tls_static_align", Z.max align 1)].

Record RtldGlobalRoAux := mkRoAux {
  ro_auxv : Z;
  ro_platform : Z;
  ro_pagesize : Z;
  ro_minsigstacksize : Z;
  ro_clktck : Z;
  ro_fpucw : Z;
  ro_hwcap : Z;
  ro_hwcap2 : Z;
  ro_hwcap3 : Z;
  ro_hwcap4 : Z;
  ro_sysinfo_ehdr : Z }.

(** The addresses that the linker gives to the functions of symbols/. *)
Record Functions := mkFunctions {
  f_dl_catch_error : Z;
  f_dl_error_free : Z;
  f_dl_tls_get_addr_soft : Z;
  f_dlfcn_hook : Z }.

Definition publish_function_pointers (f : Functions) (self : Z) : st mem unit :=
  write_fields RtldGlobalRo self
    [("dl_catch_error", f_dl_catch_error f); ("dl_error_free", f_dl_error_free f);
     ("dl_tls_get_addr_soft", f_dl_tls_get_addr_soft f); ("dl_dlfcn_hook", f_dlfcn_hook f)].

Definition write_x86_cpu_usize (self offset v : Z) : st mem unit :=
  if X86_CPU_FEATURES_SIZE <? offset + 8 then mret tt else store64 (x86_cpu_features self + offset) v.

Definition RTLD_GLOBAL_RO_X86_FEATURES_OFFSET : Z := default 0 (offset_of RtldGlobalRo "dl_x86_cpu_features").
Definition x86_cpu_defaults : list (Z * Z) :=
  [(0x1e0 - RTLD_GLOBAL_RO_X86_FEATURES_OFFSET, 32 * 1024);
   (0x1e8 - RTLD_GLOBAL_RO_X86_FEATURES_OFFSET, 1024 * 1024);
   (0x1f0 - RTLD_GLOBAL_RO_X86_FEATURES_OFFSET, 1024 * 1024);
   (0x1f8 - RTLD_GLOBAL_RO_X86_FEATURES_OFFSET, 1024 * 1024);
   (0x200 - RTLD_GLOBAL_RO_X86_FEATURES_OFFSET, 1024 * 1024);
   (0x208 - RTLD_GLOBAL_RO_X86_FEATURES_OFFSET, 1024 * 1024)].
Fixpoint write_cpu_values (self : Z) (l : list (Z * Z)) : st mem unit :=
  match l with
  | [] => mret tt
  | (offset, v) :: l => write_x86_cpu_usize self offset v;; write_cpu_values self l
  end.
Definition publish_x86_cpu_defaults (self : Z) : st mem unit := write_cpu_values self x86_cpu_defaults.

Definition publish_aux (fuel : nat) (f : Functions) (self : Z) (ro_aux : RtldGlobalRoAux) : st mem unit :=
  publish_function_pointers f self;;
  let pagesize := if ro_pagesize ro_aux =? 0 then EXEC_PAGESIZE else ro_pagesize ro_aux in
  let fpucw := if ro_fpucw ro_aux =? 0 then FPU_DEFAULT else as_u16 (ro_fpucw ro_aux) in
  write_fields RtldGlobalRo self [("dl_platform", ro_platform ro_aux)];;
  platformlen ← c_strlen fuel (ro_platform ro_aux);
  write_fields RtldGlobalRo self
    [("dl_platformlen", platformlen); ("dl_pagesize", pagesize);
     ("dl_minsigstacksize", ro_minsigstacksize ro_aux); ("dl_clktck", as_i32 (ro_clktck ro_aux));
     ("dl_fpu_control", fpucw); ("dl_hwcap", ro_hwcap ro_aux); ("dl_auxv", ro_auxv ro_aux);
     ("dl_sysinfo_dso", ro_sysinfo_ehdr ro_aux); ("dl_sysinfo_map", 0); ("dl_hwcap2", ro_hwcap2 ro_aux);
     ("dl_hwcap3", ro_hwcap3 ro_aux); ("dl_hwcap4", ro_hwcap4 ro_aux)];;
  publish_x86_cpu_defaults self.

Definition publish_initial_searchlist (self list nlist : Z) : st mem unit :=
  write_fields RtldScopeElem (initial_searchlist self)
    [("list", list); ("nlist", as_u32 nlist); ("_padding", 0)].

(** globals.rs: the two statics are at the addresses the linker gave them. *)
Definition publish_rtld_link_maps (_rtld_global _rtld_global_ro main maps maps_len libc_map : Z) : st mem unit :=
  publish _rtld_global main (initial_searchlist _rtld_global_ro) maps_len libc_map;;
  publish_initial_searchlist _rtld_global_ro maps maps_len.

(** ** The layout is the one glibc reads *)
Lemma global_ok : fields_ok RtldGlobal.
Proof. by apply (bool_decide_unpack _); vm_compute. Qed.
Lemma global_ro_ok : fields_ok RtldGlobalRo.
Proof. by apply (bool_decide_unpack _); vm_compute. Qed.
Lemma namespace_ok : fields_ok RtldLinkNamespace.
Proof. by apply (bool_decide_unpack _); vm_compute. Qed.
Lemma scope_elem_ok : fields_ok RtldScopeElem.
Proof. by apply (bool_decide_unpack _); vm_compute. Qed.
Lemma list_ok : fields_ok RtldList.
Proof. by apply (bool_decide_unpack _); vm_compute. Qed.

(** [publish_aux] in one list of field values. *)
Definition published_aux (f : Functions) (a : RtldGlobalRoAux) (platformlen : Z) : list (string * Z) :=
  [("dl_catch_error", f_dl_catch_error f); ("dl_error_free", f_dl_error_free f);
   ("dl_tls_get_addr_soft", f_dl_tls_get_addr_soft f); ("dl_dlfcn_hook", f_dlfcn_hook f);
   ("dl_platform", ro_platform a); ("dl_platformlen", platformlen);
   ("dl_pagesize", if ro_pagesize a =? 0 then EXEC_PAGESIZE else ro_pagesize a);
   ("dl_minsigstacksize", ro_minsigstacksize a); ("dl_clktck", as_i32 (ro_clktck a));
   ("dl_fpu_control", if ro_fpucw a =? 0 then FPU_DEFAULT else as_u16 (ro_fpucw a));
   ("dl_hwcap", ro_hwcap a); ("dl_auxv", ro_auxv a); ("dl_sysinfo_dso", ro_sysinfo_ehdr a);
   ("dl_sysinfo_map", 0); ("dl_hwcap2", ro_hwcap2 a); ("dl_hwcap3", ro_hwcap3 a); ("dl_hwcap4", ro_hwcap4 a)].

(** The offsets that the operations use. *)
Lemma list_fields x : x = "next" ∨ x = "prev" → ∃ o, field RtldList x = Some (o, ptr) ∧ 0 ≤ o ≤ 8.
Proof. by intros [-> | ->]; eexists; (split; [vm_compute; reflexivity|lia]). Qed.

Lemma init_list_run m l :
  mapped m l 16 →
  ∃ m', init_list l m = Ret (tt, m') ∧ word_at m' l l ∧ word_at m' (l + 8) l
    ∧ (∀ x, mapped m x 1 → mapped m' x 1) ∧ (∀ x, x < l ∨ l + 16 ≤ x → m' x = m x).
Proof.
  intros Hm. destruct (write_fields_run m l RtldList ∅ [("next", l); ("prev", l)]) as (m' & H1 & Hr & Hmap & Ho).
  - exact list_ok.
  - repeat constructor; by eexists; vm_compute.
  - exact Hm.
  - apply struct_rep_empty.
  - exists m'. split_and!; [exact H1| | |done|done].
    + rewrite <-(Z.add_0_r l) at 1. by apply (struct_rep_lookup m' l RtldList _ "next" l 0 ptr Hr).
    + by apply (struct_rep_lookup m' l RtldList _ "prev" l 8 ptr Hr).
Qed.

(** The thresholds lie inside the feature array, where libc looks for them. *)
Definition cpu_inside (l : list (Z * Z)) : Prop := Forall (λ p, 0 ≤ p.1 ∧ p.1 + 8 ≤ X86_CPU_FEATURES_SIZE) l.
Fixpoint cpu_apart (l : list (Z * Z)) : Prop :=
  match l with
  | [] => True
  | p :: l => Forall (λ q, p.1 + 8 ≤ q.1) l ∧ cpu_apart l
  end.

#[export] Instance cpu_apart_dec l : Decision (cpu_apart l).
Proof. induction l as [|p l IH]; simpl; apply _. Defined.
#[export] Instance cpu_inside_dec l : Decision (cpu_inside l).
Proof. unfold cpu_inside. apply _. Defined.
Lemma x86_cpu_features_eq self : x86_cpu_features self = self + 112.
Proof. reflexivity. Qed.
Lemma cpu_field : field RtldGlobalRo "dl_x86_cpu_features" = Some (112, array X86_CPU_FEATURES_SIZE u8).
Proof. vm_compute. reflexivity. Qed.
Lemma x86_cpu_defaults_ok : cpu_inside x86_cpu_defaults ∧ cpu_apart x86_cpu_defaults.
Proof. split; by apply (bool_decide_unpack _); vm_compute. Qed.

Lemma write_cpu_values_run m self l :
  cpu_inside l → cpu_apart l → mapped m (x86_cpu_features self) X86_CPU_FEATURES_SIZE →
  ∃ m', write_cpu_values self l m = Ret (tt, m')
    ∧ Forall (λ p, word_at m' (x86_cpu_features self + p.1) p.2) l
    ∧ (∀ x, mapped m x 1 → mapped m' x 1)
    ∧ (∀ x, Forall (λ p, x < x86_cpu_features self + p.1 ∨ x86_cpu_features self + p.1 + 8 ≤ x) l → m' x = m x).
Proof.
  intros Hin. revert m. induction Hin as [|[o v] l [Ho1 Ho2] Hin IH]; intros m Hap Hm; cbn [write_cpu_values].
  { exists m. split_and!; [done|constructor|done|done]. }
  destruct Hap as [Hnext Hap]. cbn [fst snd] in *.
  set (a := x86_cpu_features self + o).
  assert (store64 a v m = Ret (tt, write m a (le_encode 8 v))) as Hst
    by (apply store64_run; eapply mapped_le; [exact Hm|lia|lia]).
  destruct (IH (write m a (le_encode 8 v)) Hap) as (m' & H1 & Hw & Hmap & Hout); [by apply write_mapped|].
  exists m'. split_and!.
  - erewrite st_bind_run; [exact H1|]. unfold write_x86_cpu_usize. destruct (Z.ltb_spec X86_CPU_FEATURES_SIZE (o + 8)); [lia|exact Hst].
  - constructor; [|done]. cbn [fst snd]. fold a. intros i b Hi. pose proof (lookup_lt_Some _ _ _ Hi) as Hlt.
    rewrite length_le_encode in Hlt. rewrite Hout; [by apply word_at_write|].
    eapply Forall_impl; [exact Hnext|]. intros [o' v'] Ho. simpl in *. lia.
  - intros x Hx. apply Hmap. by apply write_mapped.
  - intros x Hx. apply Forall_cons in Hx as [Hx1 Hx2]. rewrite Hout by done. apply write_outside.
    rewrite zlen_le_encode. unfold a. simpl in Hx1. lia.
Qed.

(** Which fields of a structure hold other structures, so that a map of
    scalar values does not have them. *)
Definition scalars_only (names : list string) (vals : gmap string Z) : Prop :=
  Forall (λ n, vals !! n = None) names.
Definition global_nested : list string := ["dl_ns"; "dl_stack_used"; "dl_stack_user"; "dl_stack_cache"].
Definition ro_nested : list string := ["dl_initial_searchlist"; "dl_x86_cpu_features"].

Lemma fields_known fs (l : list (string * Z)) :
  forallb (λ p, bool_decide (is_Some (field fs p.1))) l = true → Forall (λ p, is_Some (field fs p.1)) l.
Proof. intros H. apply Forall_forall. intros p Hp. rewrite forallb_forall in H. by eapply bool_decide_unpack, Is_true_true, H, list_elem_of_In. Qed.

Definition known (fs : fields) (l : list (string * Z)) : bool :=
  forallb (λ p, bool_decide (is_Some (field fs p.1))) l.
Lemma fields_run m a fs vals l :
  fields_ok fs → struct_rep m a fs vals → mapped m a (struct_size fs) → known fs l = true →
  ∃ m', write_fields fs a l m = Ret (tt, m')
    ∧ struct_rep m' a fs (updates l vals) ∧ mapped m' a (struct_size fs)
    ∧ (∀ x, mapped m x 1 → mapped m' x 1)
    ∧ (∀ x, x < a ∨ a + struct_size fs ≤ x → m' x = m x).
Proof.
  intros Hok Hrep Hm Hl.
  destruct (write_fields_run m a fs vals l) as (m' & H1 & H2 & H3 & H4); [done|by apply fields_known|done|done|].
  exists m'. split_and!; [done|done|by eapply mapped_mono|done|done].
Qed.

Lemma publish_aux_run m self f aux vals fuel s :
  mapped m self RTLD_GLOBAL_RO_SIZE →
  struct_rep m self RtldGlobalRo vals → scalars_only ["dl_x86_cpu_features"] vals →
  (ro_platform aux = 0 ∧ s = [] ∨ ro_platform aux ≠ 0 ∧ cstr_at m (ro_platform aux) s
     ∧ (ro_platform aux + zlen s < self ∨ self + RTLD_GLOBAL_RO_SIZE ≤ ro_platform aux)) →
  zlen s < 2 ^ 64 → (length s < fuel)%nat →
  ∃ m', publish_aux fuel f self aux m = Ret (tt, m')
    ∧ struct_rep m' self RtldGlobalRo (updates (published_aux f aux (zlen s)) vals)
    ∧ Forall (λ p, word_at m' (self + RTLD_GLOBAL_RO_X86_FEATURES_OFFSET + p.1) p.2) x86_cpu_defaults
    ∧ (∀ x, mapped m x 1 → mapped m' x 1)
    ∧ (∀ x, x < self ∨ self + RTLD_GLOBAL_RO_SIZE ≤ x → m' x = m x).
Proof.
  intros Hm Hrep Hsc Hplat Hlen Hf. pose proof global_ro_ok as Hok. unfold publish_aux.
  destruct (fields_run m self RtldGlobalRo vals
    [("dl_catch_error", f_dl_catch_error f); ("dl_error_free", f_dl_error_free f);
     ("dl_tls_get_addr_soft", f_dl_tls_get_addr_soft f); ("dl_dlfcn_hook", f_dlfcn_hook f)]
    Hok Hrep Hm eq_refl) as (m1 & H1 & R1 & M1 & K1 & O1).
  erewrite st_bind_run by exact H1. cbv zeta.
  destruct (fields_run m1 self RtldGlobalRo _ [("dl_platform", ro_platform aux)] Hok R1 M1 eq_refl)
    as (m2 & H2 & R2 & M2 & K2 & O2).
  erewrite st_bind_run by exact H2.
  assert (c_strlen fuel (ro_platform aux) m2 = Ret (zlen s, m2)) as H3.
  { destruct Hplat as [[-> ->]|(Hp & Hs & Hd)]; [done|]. apply c_strlen_run; try done.
    apply (cstr_at_frame m); [done|]. intros x Hx.
    rewrite O2, O1; [done|change (struct_size RtldGlobalRo) with RTLD_GLOBAL_RO_SIZE; lia..]. }
  erewrite st_bind_run by exact H3.
  match goal with |- context [write_fields RtldGlobalRo self ?l] => set (rest := l) end.
  destruct (fields_run m2 self RtldGlobalRo _ rest Hok R2 M2 eq_refl) as (m3 & H4 & R3 & M3 & K3 & O3).
  erewrite st_bind_run by exact H4.
  destruct x86_cpu_defaults_ok as [Hci Hca].
  destruct (write_cpu_values_run m3 self x86_cpu_defaults Hci Hca) as (m4 & H5 & W & M4 & O4).
  { rewrite x86_cpu_features_eq. eapply mapped_le; [exact M3|lia|].
    change (struct_size RtldGlobalRo) with 928. unfold X86_CPU_FEATURES_SIZE. lia. }
  assert (∀ x, x < self + 112 ∨ self + 112 + 528 ≤ x → m4 x = m3 x) as O4'.
  { intros x Hx. apply O4. rewrite x86_cpu_features_eq. eapply Forall_impl; [exact Hci|].
    intros p Hp. unfold X86_CPU_FEATURES_SIZE in Hp. lia. }
  exists m4. split_and!.
  - exact H5.
  - change (published_aux f aux (zlen s)) with
      ([("dl_catch_error", f_dl_catch_error f); ("dl_error_free", f_dl_error_free f);
        ("dl_tls_get_addr_soft", f_dl_tls_get_addr_soft f); ("dl_dlfcn_hook", f_dlfcn_hook f)]
       ++ [("dl_platform", ro_platform aux)] ++ rest).
    rewrite !updates_app.
    refine (struct_rep_inside m3 m4 self RtldGlobalRo _ _ _ _ Hok R3 _ cpu_field O4').
    apply Forall_inv in Hsc. rewrite !updates_lookup_ne; [exact Hsc|..];
      apply (bool_decide_unpack _); vm_compute; exact I.
  - exact W.
  - intros x Hx. auto.
  - intros x Hx. change (struct_size RtldGlobalRo) with 928 in *. unfold RTLD_GLOBAL_RO_SIZE in Hx.
    rewrite O4', O3, O2, O1 by lia. reflexivity.
Qed.

(** [publish] in two lists of field values. *)
Definition published_global (nloaded : Z) : list (string * Z) :=
  [("dl_nns", 1); ("dl_load_adds", as_u32 nloaded)].
Definition published_namespace (main searchlist nloaded libc_map : Z) : list (string * Z) :=
  [("loaded", main); ("nloaded", as_u32 nloaded); ("main_searchlist", searchlist); ("libc_map", libc_map)].
Definition empty_list_at (m : mem) (l : Z) : Prop := word_at m l l ∧ word_at m (l + 8) l.

Lemma scalars_none names vals n : scalars_only names vals → n ∈ names → vals !! n = None.
Proof. intros H. apply (proj1 (Forall_forall _ _) H). Qed.

Lemma empty_list_frame m m' l : empty_list_at m l → (∀ x, l ≤ x < l + 16 → m' x = m x) → empty_list_at m' l.
Proof.
  intros [H1 H2] Hf. split; intros i b Hi; pose proof (lookup_lt_Some _ _ _ Hi) as Hlt;
    rewrite length_le_encode in Hlt; (rewrite Hf; [auto|lia]).
Qed.

(** The three thread stack lists become empty circular lists, and nothing else
    of the structure changes. *)
Lemma stack_lists_run m self g :
  mapped m self RTLD_GLOBAL_SIZE → struct_rep m self RtldGlobal g → (∀ n, n ∈ global_nested → g !! n = None) →
  ∃ m', (init_list (self + 2048);; init_list (self + 2064);; init_list (self + 2080)) m = Ret (tt, m')
    ∧ struct_rep m' self RtldGlobal g
    ∧ empty_list_at m' (self + 2048) ∧ empty_list_at m' (self + 2064) ∧ empty_list_at m' (self + 2080)
    ∧ (∀ x, mapped m x 1 → mapped m' x 1)
    ∧ (∀ x, x < self + 2048 ∨ self + 2096 ≤ x → m' x = m x).
Proof.
  intros Hm Rg Hnone. pose proof global_ok as Hok. unfold RTLD_GLOBAL_SIZE in Hm.
  destruct (init_list_run m (self + 2048)) as (m3 & H3 & W3 & V3 & M3 & O3); [eapply mapped_le; [exact Hm|lia|lia]|].
  erewrite st_bind_run by exact H3.
  assert (mapped m3 self 2120) as Mg3 by (eapply mapped_mono; [exact M3|exact Hm]).
  destruct (init_list_run m3 (self + 2064)) as (m4 & H4 & W4 & V4 & M4 & O4); [eapply mapped_le; [exact Mg3|lia|lia]|].
  erewrite st_bind_run by exact H4.
  assert (mapped m4 self 2120) as Mg4 by (eapply mapped_mono; [exact M4|exact Mg3]).
  destruct (init_list_run m4 (self + 2080)) as (m5 & H5 & W5 & V5 & M5 & O5); [eapply mapped_le; [exact Mg4|lia|lia]|].
  exists m5. split_and!; [exact H5| | | |by split|intros x Hx; auto|].
  - refine (struct_rep_inside m4 m5 self RtldGlobal _ "dl_stack_cache" 2080 (struct RtldList) Hok _ (Hnone _ _) eq_refl O5);
      [|apply (bool_decide_unpack _); vm_compute; exact I].
    refine (struct_rep_inside m3 m4 self RtldGlobal _ "dl_stack_user" 2064 (struct RtldList) Hok _ (Hnone _ _) eq_refl O4);
      [|apply (bool_decide_unpack _); vm_compute; exact I].
    refine (struct_rep_inside m m3 self RtldGlobal _ "dl_stack_used" 2048 (struct RtldList) Hok Rg (Hnone _ _) eq_refl O3);
      apply (bool_decide_unpack _); vm_compute; exact I.
  - apply (empty_list_frame m3); [by split|]. intros x Hx. rewrite O5, O4 by lia. reflexivity.
  - apply (empty_list_frame m4); [by split|]. intros x Hx. rewrite O5 by lia. reflexivity.
  - intros x Hx. rewrite O5, O4, O3 by lia. reflexivity.
Qed.

Lemma publish_run m self main searchlist n libc_map g ns :
  mapped m self RTLD_GLOBAL_SIZE →
  struct_rep m self RtldGlobal g → scalars_only global_nested g → struct_rep m self RtldLinkNamespace ns →
  ∃ m', publish self main searchlist n libc_map m = Ret (tt, m')
    ∧ struct_rep m' self RtldGlobal (updates (published_global n) g)
    ∧ struct_rep m' self RtldLinkNamespace (updates (published_namespace main searchlist n libc_map) ns)
    ∧ empty_list_at m' (self + 2048) ∧ empty_list_at m' (self + 2064) ∧ empty_list_at m' (self + 2080)
    ∧ (∀ x, mapped m x 1 → mapped m' x 1)
    ∧ (∀ x, x < self ∨ self + RTLD_GLOBAL_SIZE ≤ x → m' x = m x).
Proof.
  intros Hm Rg Hsc Rn. pose proof global_ok as Hok. pose proof namespace_ok as Hnk. unfold publish. cbv zeta.
  change (sub_addr RtldGlobal self "dl_ns") with (self + 0).
  change (sub_addr RtldGlobal self "dl_stack_used") with (self + 2048).
  change (sub_addr RtldGlobal self "dl_stack_user") with (self + 2064).
  change (sub_addr RtldGlobal self "dl_stack_cache") with (self + 2080).
  rewrite Z.add_0_r.
  destruct (fields_run m self RtldGlobal g (published_global n) Hok Rg Hm eq_refl) as (m1 & H1 & R1 & Mg1 & M1 & O1).
  erewrite st_bind_run by exact H1.
  assert (field RtldGlobal "dl_ns" = Some (0, array DL_NNS (struct RtldLinkNamespace))) as Hns by (vm_compute; reflexivity).
  assert (struct_rep m1 self RtldLinkNamespace ns) as Rn1.
  { assert ("dl_ns" ∉ (published_global n).*1) as Hnot by (apply (bool_decide_unpack _); vm_compute; exact I).
    pose proof (write_fields_apart m self RtldGlobal _ _ _ _ m1 Hok Hns Hnot H1) as Ha.
    apply (struct_rep_outside m); [exact Hnk|exact Rn|]. intros x Hx. apply Ha.
    change (struct_size RtldLinkNamespace) with 112 in Hx. change (csize _) with 1792. lia. }
  assert (mapped m1 self (struct_size RtldLinkNamespace)) as Mn1
    by (eapply mapped_le; [exact Mg1|lia|]; change (self + 112 ≤ self + 2120); lia).
  destruct (fields_run m1 self RtldLinkNamespace ns (published_namespace main searchlist n libc_map) Hnk Rn1 Mn1 eq_refl)
    as (m2 & H2 & R2 & _ & M2 & O2).
  erewrite st_bind_run by exact H2. change (struct_size RtldLinkNamespace) with 112 in O2.
  assert (∀ n', n' ∈ global_nested → updates (published_global n) g !! n' = None) as Hnone.
  { intros n' Hn'. rewrite updates_lookup_ne; [by apply (scalars_none _ _ _ Hsc)|].
    revert n' Hn'. apply (Forall_forall (λ n', n' ∉ (published_global n).*1)).
    apply (bool_decide_unpack _). vm_compute. exact I. }
  destruct (stack_lists_run m2 self (updates (published_global n) g)) as (m3 & H3 & R3 & L1 & L2 & L3 & M3 & O3).
  - eapply mapped_mono; [exact M2|exact Mg1].
  - refine (struct_rep_inside m1 m2 self RtldGlobal _ "dl_ns" 0 _ Hok R1 (Hnone _ _) Hns _);
      [apply (bool_decide_unpack _); vm_compute; exact I|].
    intros x Hx. apply O2. change (csize _) with 1792 in Hx. lia.
  - exact Hnone.
  - exists m3. split_and!; [exact H3|exact R3| |done|done|done|intros x Hx; auto|].
    + apply (struct_rep_outside m2); [exact Hnk|exact R2|]. intros x Hx.
      change (struct_size RtldLinkNamespace) with 112 in Hx. apply O3. lia.
    + intros x Hx. change (struct_size RtldGlobal) with 2120 in O1. unfold RTLD_GLOBAL_SIZE in Hx.
      rewrite O3, O2, O1 by lia. reflexivity.
Qed.

End Glibc.

Module GlibcProps.
Import Machine Layout CStr Glibc.

Definition structures : list fields :=
  [RtldScopeElem; RtldList; RtldPthreadMutex; RtldRecursiveLock; RtldUniqueSymTable; RtldLinkNamespace;
   RtldX86FeatureControl; RtldGlobal; RtldGlobalRo].

(** The structures that glibc reads by offset have the layout the file
    asserts: the sizes and the offsets agree, every field is aligned, inside
    the structure and apart from the others, no field is preceded by implicit
    padding, and the initial values initialise every field at its own width. *)
Theorem globals_layout :
  (∀ fs z, (fs, z) ∈ size_assertions → struct_size fs = z)
  ∧ (∀ fs n z, (fs, n, z) ∈ offset_assertions → offset_of fs n = Some z)
  ∧ (∀ fs n o t, fs ∈ structures → field fs n = Some (o, t) →
       0 ≤ o ∧ o + csize t ≤ struct_size fs ∧ o mod calign t = 0
       ∧ ∀ n' o' t', n' ≠ n → field fs n' = Some (o', t') → o + csize t ≤ o' ∨ o' + csize t' ≤ o)
  ∧ (∀ fs, fs ∈ structures → packed 0 fs)
  ∧ typed RtldGlobal RtldGlobal_new ∧ typed RtldGlobalRo RtldGlobalRo_new.
Proof.
  assert (Forall fields_ok structures) as Hok by (apply (bool_decide_unpack _); vm_compute; exact I).
  assert (Forall (packed 0) structures) as Hpk by (apply (bool_decide_unpack _); vm_compute; exact I).
  split_and!.
  - intros fs z Hin. assert (Forall (λ p, struct_size p.1 = p.2) size_assertions) as H
      by (apply (bool_decide_unpack _); vm_compute; exact I).
    exact (proj1 (Forall_forall _ _) H _ Hin).
  - intros fs n z Hin. assert (Forall (λ p, offset_of p.1.1 p.1.2 = Some p.2) offset_assertions) as H
      by (apply (bool_decide_unpack _); vm_compute; exact I).
    exact (proj1 (Forall_forall _ _) H _ Hin).
  - intros fs n o t Hin Hf. by apply layout_sound_run, Hf; apply (proj1 (Forall_forall _ _) Hok).
  - apply Forall_forall, Hpk.
  - apply (bool_decide_unpack _); vm_compute; exact I.
  - apply (bool_decide_unpack _); vm_compute; exact I.
Qed.

Lemma globals_layout_witness :
  struct_size RtldGlobal = 2120 ∧ offset_of RtldGlobalRo "dl_dlfcn_hook" = Some 904.
Proof.
  destruct globals_layout as (Hs & Ho & _). split; [apply Hs; left|].
  apply Ho. do 20 right. left.
Defined.

(** Publishing the auxiliary values is one update of [_rtld_global_ro]: the
    listed fields get their values (with the defaults for a page size or FPU
    word that the kernel did not give, and the measured length of the platform
    string), the six cache thresholds are stored where libc's resolvers read
    them, every other field keeps its value and no byte outside changes. *)
Theorem aux_published m self f aux vals fuel s :
  mapped m self RTLD_GLOBAL_RO_SIZE →
  struct_rep m self RtldGlobalRo vals → vals !! "dl_x86_cpu_features" = None →
  (ro_platform aux = 0 ∧ s = [] ∨ ro_platform aux ≠ 0 ∧ cstr_at m (ro_platform aux) s
     ∧ (ro_platform aux + zlen s < self ∨ self + RTLD_GLOBAL_RO_SIZE ≤ ro_platform aux)) →
  zlen s < 2 ^ 64 → (length s < fuel)%nat →
  ∃ m', publish_aux fuel f self aux m = Ret (tt, m')
    ∧ struct_rep m' self RtldGlobalRo (list_to_map (published_aux f aux (zlen s)) ∪ vals)
    ∧ Forall (λ '(o, v), word_at m' (self + o) v)
        [(0x1e0, 32768); (0x1e8, 1048576); (0x1f0, 1048576); (0x1f8, 1048576); (0x200, 1048576); (0x208, 1048576)]
    ∧ (∀ x, x < self ∨ self + RTLD_GLOBAL_RO_SIZE ≤ x → m' x = m x).
Proof.
  intros Hm Hrep Hsc Hp Hlen Hf.
  destruct (publish_aux_run m self f aux vals fuel s Hm Hrep (Forall_cons_2 _ _ _ Hsc (Forall_nil_2 _)) Hp Hlen Hf)
    as (m' & H1 & H2 & H3 & _ & H4).
  exists m'. split_and!; [exact H1| | |exact H4].
  - rewrite <-updates_union; [exact H2|]. apply (bool_decide_unpack _). vm_compute. exact I.
  - change x86_cpu_defaults with
      [(368, 32768); (376, 1048576); (384, 1048576); (392, 1048576); (400, 1048576); (408, 1048576)] in H3.
    change RTLD_GLOBAL_RO_X86_FEATURES_OFFSET with 112 in H3.
    repeat (apply Forall_cons in H3 as [? H3]).
    repeat (constructor; [rewrite <-Z.add_assoc in *; assumption|]). constructor.
Qed.

Definition ro_image : mem := of_bytes 0x1000 (image RtldGlobalRo_new).
Lemma aux_published_witness :
  let aux := mkRoAux 64 0 0 2048 100 0 7 1 0 0 0x7000 in
  let f := mkFunctions 1 2 3 4 in
  ∃ m', publish_aux 1 f 0x1000 aux ro_image = Ret (tt, m') ∧ word_at m' (0x1000 + 0x1e0) 32768.
Proof.
  intros aux f. destruct (aux_published ro_image 0x1000 f aux ∅ 1 []) as (m' & H1 & _ & H3 & _).
  - unfold ro_image, of_bytes. intros x Hx. unfold write.
    change (zlen (image RtldGlobalRo_new)) with 928. unfold RTLD_GLOBAL_RO_SIZE in Hx.
    rewrite decide_True by lia. apply lookup_lt_is_Some.
    change (length (image RtldGlobalRo_new)) with 928%nat. lia.
  - apply struct_rep_empty.
  - done.
  - by left.
  - done.
  - simpl. lia.
  - exists m'. split; [exact H1|]. by apply Forall_inv in H3.
Defined.

(** Publishing the link maps connects the two structures: namespace 0 has
    the main map, the number of objects, libc's map, and a pointer to the
    initial search list inside [_rtld_global_ro], which holds the array of maps
    and the same count; the three stack lists are empty circular lists; every
    other field keeps its value and no byte outside the two structures changes. *)
Lemma link_maps_run m ga ro main maps n libc_map g ns r :
  mapped m ga RTLD_GLOBAL_SIZE → mapped m ro RTLD_GLOBAL_RO_SIZE →
  ga + RTLD_GLOBAL_SIZE ≤ ro ∨ ro + RTLD_GLOBAL_RO_SIZE ≤ ga →
  struct_rep m ga RtldGlobal g → scalars_only global_nested g → struct_rep m ga RtldLinkNamespace ns →
  struct_rep m ro RtldGlobalRo r → scalars_only ro_nested r →
  ∃ m', publish_rtld_link_maps ga ro main maps n libc_map m = Ret (tt, m')
    ∧ struct_rep m' ga RtldGlobal (list_to_map [("dl_nns", 1); ("dl_load_adds", as_u32 n)] ∪ g)
    ∧ struct_rep m' ga RtldLinkNamespace
        (list_to_map [("loaded", main); ("nloaded", as_u32 n); ("main_searchlist", ro + 48); ("libc_map", libc_map)] ∪ ns)
    ∧ struct_rep m' (ro + 48) RtldScopeElem (list_to_map [("list", maps); ("nlist", as_u32 n); ("_padding", 0)])
    ∧ struct_rep m' ro RtldGlobalRo r
    ∧ Forall (empty_list_at m') [ga + 2048; ga + 2064; ga + 2080]
    ∧ (∀ x, mapped m x 1 → mapped m' x 1)
    ∧ (∀ x, (x < ga ∨ ga + RTLD_GLOBAL_SIZE ≤ x) → (x < ro ∨ ro + RTLD_GLOBAL_RO_SIZE ≤ x) → m' x = m x).
Proof.
  intros Hmg Hmr Hd Rg Hg Rn Rr Hr. unfold publish_rtld_link_maps, RTLD_GLOBAL_SIZE, RTLD_GLOBAL_RO_SIZE in *.
  change (initial_searchlist ro) with (ro + 48).
  destruct (publish_run m ga main (ro + 48) n libc_map g ns Hmg Rg Hg Rn) as (m1 & H1 & G1 & N1 & L1 & L2 & L3 & M1 & O1).
  erewrite st_bind_run by exact H1. unfold RTLD_GLOBAL_SIZE in O1.
  assert (struct_rep m1 ro RtldGlobalRo r) as Rr1.
  { apply (struct_rep_outside m); [exact global_ro_ok|exact Rr|]. intros x Hx.
    change (struct_size RtldGlobalRo) with 928 in Hx. apply O1. lia. }
  assert (mapped m1 (ro + 48) (struct_size RtldScopeElem)) as Ms.
  { eapply mapped_le; [eapply mapped_mono; [exact M1|exact Hmr]|lia|]. change (struct_size RtldScopeElem) with 16. lia. }
  destruct (fields_run m1 (ro + 48) RtldScopeElem ∅ [("list", maps); ("nlist", as_u32 n); ("_padding", 0)]
    scope_elem_ok (struct_rep_empty _ _ _) Ms eq_refl) as (m2 & H2 & S2 & _ & M2 & O2).
  change (struct_size RtldScopeElem) with 16 in O2.
  exists m2. split_and!.
  - exact H2.
  - apply (struct_rep_outside m1); [exact global_ok| |].
    + rewrite <-updates_union; [exact G1|]. apply (bool_decide_unpack _). vm_compute. exact I.
    + intros x Hx. change (struct_size RtldGlobal) with 2120 in Hx. apply O2. lia.
  - apply (struct_rep_outside m1); [exact namespace_ok| |].
    + rewrite <-updates_union; [exact N1|]. apply (bool_decide_unpack _). vm_compute. exact I.
    + intros x Hx. change (struct_size RtldLinkNamespace) with 112 in Hx. apply O2. lia.
  - rewrite updates_union in S2; [by rewrite (right_id_L ∅ (∪)) in S2|]. apply (bool_decide_unpack _). vm_compute. exact I.
  - refine (struct_rep_inside m1 m2 ro RtldGlobalRo _ "dl_initial_searchlist" 48 (struct RtldScopeElem) global_ro_ok Rr1 _ eq_refl O2).
    apply (scalars_none _ _ _ Hr). left.
  - repeat (apply Forall_cons_2; [apply (empty_list_frame m1); [assumption|intros x Hx; apply O2; lia]|]). constructor.
  - intros x Hx. auto.
  - intros x Hx1 Hx2. rewrite O2, O1 by lia. reflexivity.
Qed.

(** The static TLS size; an alignment of 0 is published as 1. *)
Lemma tls_static_info_run m self vals size align :
  mapped m self RTLD_GLOBAL_RO_SIZE → struct_rep m self RtldGlobalRo vals →
  ∃ m', publish_tls_static_info self size align m = Ret (tt, m')
    ∧ struct_rep m' self RtldGlobalRo
        (<["dl_tls_static_align" := Z.max align 1]> (<["dl_tls_static_size" := size]> vals))
    ∧ (∀ x, mapped m x 1 → mapped m' x 1)
    ∧ (∀ x, x < self ∨ self + RTLD_GLOBAL_RO_SIZE ≤ x → m' x = m x).
Proof.
  intros Hm Hrep.
  destruct (fields_run m self RtldGlobalRo vals [("dl_tls_static_size", size); ("dl_tls_static_align", Z.max align 1)]
    global_ro_ok Hrep Hm eq_refl) as (m' & H1 & H2 & _ & H3 & H4).
  exists m'. split_and!; [exact H1|exact H2|exact H3|exact H4].
Qed.

(** The object that the compiler emits holds the initial values. *)
Lemma initial_global m a :
  bytes_at m a (image RtldGlobal_new) → struct_rep m a RtldGlobal (initial_values RtldGlobal_new).
Proof.
  apply image_rep; [exact global_ok|..]; apply (bool_decide_unpack _); vm_compute; exact I.
Qed.
Lemma initial_global_ro m a :
  bytes_at m a (image RtldGlobalRo_new) → struct_rep m a RtldGlobalRo (initial_values RtldGlobalRo_new).
Proof.
  apply image_rep; [exact global_ro_ok|..]; apply (bool_decide_unpack _); vm_compute; exact I.
Qed.
End GlibcProps.
