(* ===== verification/Cli.v ===== *)
(** * Direct invocation (rtld/impl/src/cli.rs, the output of runtime.rs)

    The runtime linker started as a program: the scan of its own options, the
    help and diagnostic output, and [--list] and [--verify], which read the
    ELF headers of a file through positioned reads.  The arguments are C
    strings in memory; the files are the kernel's, behind [Files]. *)

From S2P Require Import Prelude Machine CStr LinkMap Stack.

(** The system calls on files.  [openat] and [pread64] return [None] for an
    error; [pread64] returns the bytes it put at the start of the buffer. *)
Class Files (K : Type) := {
  openat : list Z → st K (option Z);
  pread64 : Z → Z → Z → st K (option (list Z));
  close_fd : Z → st K unit }.

Module Cli.
Import Machine CStr.

Section cli.
Context {K : Type} `{!Files K} `{!Build}.

(** Memory, the [write] calls made so far, and the kernel's files. *)
Record cli := mkCli { c_mem : mem; c_writes : list (Z * list Z); c_kernel : K }.

(** A call that may end the process: [Err status] is [exit(status)]. *)
#[local] Abbreviation exiting A := (st cli (result Z A)).
Definition exit {A} (status : Z) : exiting A := mret (Err status).

Definition on_mem {A} (f : st mem A) : st cli A := λ s,
  '(a, m) ← f (c_mem s); Ret (a, mkCli m (c_writes s) (c_kernel s)).
Definition on_kernel {A} (f : st K A) : st cli A := λ s,
  '(a, k) ← f (c_kernel s); Ret (a, mkCli (c_mem s) (c_writes s) k).

Definition write_fd (fd : Z) (bytes : list Z) : st cli unit := λ s,
  Ret (tt, mkCli (c_mem s) (c_writes s ++ [(fd, bytes)]) (c_kernel s)).
Definition write_stdout : list Z → st cli unit := write_fd 1.
Definition write_stderr : list Z → st cli unit := write_fd 2.

(** A byte string literal; [nl] is a newline and [q] a quotation mark. *)
Definition b (s : string) : list Z := bytes_of_string s.
Definition nl : list Z := [10].
Definition q : list Z := [34].

Definition write_cstr (fuel : nat) (fd ptr : Z) : st cli unit :=
  if ptr =? 0 then mret tt
  else
    len ← on_mem (cstr_len fuel ptr);
    bytes ← on_mem (load_bytes (Z.to_nat len) ptr);
    if fd =? 1 then write_stdout bytes else write_stderr bytes.
Definition write_cstr_stdout (fuel : nat) (ptr : Z) : st cli unit := write_cstr fuel 1 ptr.
Definition write_cstr_stderr (fuel : nat) (ptr : Z) : st cli unit := write_cstr fuel 2 ptr.

(** The buffer of 20 digits is filled from its end; [digits] is its used part. *)
Fixpoint decimal_loop (fuel : nat) (value index : Z) (digits : list Z) : outcome (list Z) :=
  match fuel with
  | O => OutOfFuel
  | S fuel =>
      if value =? 0 then Ret digits
      else
        index ← usub index 1;
        if decide (index < 20) then decimal_loop fuel (value / 10) index (48 + as_u8 (value mod 10) :: digits)
        else Panic
  end.
Definition write_decimal (value : Z) : st cli unit :=
  if value =? 0 then write_stdout (b "0")
  else digits ← st_lift (decimal_loop 22 value 20 []); write_stdout digits.

(** ** Messages *)
Definition help_lines : list (list Z) :=
  [b " [OPTION]... EXECUTABLE-FILE [ARGS-FOR-PROGRAM...]" ++ nl;
   b "Rust replacement program interpreter for dynamically linked ELF programs." ++ nl ++ nl;
   b "  --list                list direct DT_NEEDED dependencies" ++ nl;
   b "  --verify              verify that FILE is a dynamic ELF object this rtld can inspect" ++ nl;
   b "  --inhibit-cache       accepted for glibc ld.so command-line compatibility" ++ nl;
   b "  --library-path PATH   accepted for compatibility; full search override is pending" ++ nl;
   b "  --preload LIST        accepted for compatibility; preload loading is pending" ++ nl;
   b "  --audit LIST          accepted for compatibility; auditing is pending" ++ nl;
   b "  --argv0 STRING        accepted for compatibility; direct execution is pending" ++ nl;
   b "  --glibc-hwcaps-prepend LIST" ++ nl;
   b "                        accepted for command-line compatibility" ++ nl;
   b "  --glibc-hwcaps-mask LIST" ++ nl;
   b "                        accepted for command-line compatibility" ++ nl;
   b "  --inhibit-rpath LIST  accepted for command-line compatibility" ++ nl;
   b "  --list-tunables       list supported rtld tunables" ++ nl;
   b "  --list-diagnostics    list rtld diagnostics" ++ nl;
   b "  --help                display this help and exit" ++ nl;
   b "  --version             output version information and exit" ++ nl ++ nl;
   b "This program interpreter self-identifies as: ld-linux-x86-64.so.2" ++ nl].
Fixpoint write_all (fd : Z) (l : list (list Z)) : st cli unit :=
  match l with [] => mret tt | x :: l => write_fd fd x;; write_all fd l end.

Definition print_help (fuel : nat) (program : Z) : st cli unit :=
  write_stdout (b "Usage: ");; write_cstr_stdout fuel program;; write_all 1 help_lines.
Definition print_version : st cli unit :=
  write_all 1 [b "dlopen-rs rtld 0.1.0" ++ nl;
               b "Command-line compatible subset of glibc ld.so for x86_64 Linux." ++ nl].
Definition print_diagnostics (argc : Z) : st cli unit :=
  write_all 1 [b "dlopen.rtld.name=" ++ q ++ b "ld-linux-x86-64.so.2" ++ q ++ nl;
               b "dlopen.rtld.version=" ++ q ++ b "0.1.0" ++ q ++ nl;
               b "dlopen.rtld.target=" ++ q ++ b "x86_64-unknown-linux-gnu" ++ q ++ nl;
               b "dlopen.rtld.argc="];;
  write_decimal argc;; write_stdout nl.

Inductive InspectError := Open | Read | NotElf | Unsupported | NotDynamic | BadDynamic.
Definition inspect_message (err : InspectError) : list Z :=
  match err with
  | Open => b "cannot open file"
  | Read => b "cannot read ELF metadata"
  | NotElf => b "not an ELF object"
  | Unsupported => b "unsupported ELF object"
  | NotDynamic => b "not a dynamically linked object"
  | BadDynamic => b "invalid dynamic section"
  end ++ nl.
Definition print_inspect_error (fuel : nat) (path : Z) (err : InspectError) : st cli unit :=
  write_stderr (b "rtld: ");; write_cstr_stderr fuel path;; write_stderr (b ": ");;
  write_stderr (inspect_message err).

(** ** Reading a file *)
Definition open (fuel : nat) (path : Z) : st cli (option Z) :=
  if path =? 0 then mret None
  else bytes ← on_mem (to_bytes fuel path); on_kernel (openat bytes).
Definition close (fd : Z) : st cli unit := on_kernel (close_fd fd).

(** The bytes still to read are [n]; every round reads at least one, so
    [S n] rounds are enough. *)
Fixpoint pread_loop (fuel : nat) (fd n offset : Z) (buf : list Z) : st K (option (list Z)) :=
  match fuel with
  | O => st_fail OutOfFuel
  | S fuel =>
      if n =? 0 then mret (Some buf)
      else
        bytes ←!? pread64 fd n offset;
        let read := zlen bytes in
        if (read =? 0) || (n <? read) then mret None
        else pread_loop fuel fd (n - read) (wrapping_add offset read) (buf ++ bytes)
  end.
Definition pread_exact (fd n offset : Z) : st K (option (list Z)) :=
  pread_loop (S (Z.to_nat n)) fd n offset [].

Definition read_le (n : Z) (bytes : list Z) (offset : Z) : outcome Z :=
  l ← slice bytes offset (offset + n); mret (le_decode l).
Definition read_u16 := read_le 2.
Definition read_u32 := read_le 4.
Definition read_u64 := read_le 8.
Definition read_i64 (bytes : list Z) (offset : Z) : outcome Z := v ← read_u64 bytes offset; mret (as_isize v).

Definition EI_CLASS : Z := 4.
Definition EI_DATA : Z := 5.
Definition ELFCLASS64 : Z := 2.
Definition ELFDATA2LSB : Z := 1.
Definition ET_EXEC : Z := 2.
Definition ET_DYN : Z := 3.
Definition EM_X86_64 : Z := 62.
Definition MAX_PHDRS : Z := 256.
Definition MAX_LOADS : Z := 16.
Definition MAX_NEEDED : Z := 64.
Definition MAX_DYN : Z := 4096.
Definition DT_NULL : Z := 0.
Definition DT_NEEDED : Z := 1.
Definition DT_STRTAB : Z := 5.
Definition DT_STRSZ : Z := 10.

Record LoadSegment := mkLoad { vaddr : Z; seg_offset : Z; filesz : Z }.
Record ElfInfo := mkInfo { needed : list Z; strtab_offset : Z; strtab_size : Z }.

(** What the scan of the program headers collects: the used part of [loads],
    and where the dynamic section is. *)
Record Phdrs := mkPhdrs { loads : list LoadSegment; dynamic_offset : Z; dynamic_size : Z }.
Definition scan_phdr (phdr : list Z) (acc : Phdrs) : outcome Phdrs :=
  program_type ← read_u32 phdr 0;
  if (program_type =? PT_LOAD) && (zlen (loads acc) <? MAX_LOADS) then
    off ← read_u64 phdr 8; va ← read_u64 phdr 16; fs ← read_u64 phdr 32;
    mret (mkPhdrs (loads acc ++ [mkLoad va off fs]) (dynamic_offset acc) (dynamic_size acc))
  else if program_type =? PT_DYNAMIC then
    off ← read_u64 phdr 8; sz ← read_u64 phdr 32;
    mret (mkPhdrs (loads acc) off sz)
  else mret acc.
(** [n] headers to go, the next one is [index]. *)
Fixpoint phdr_loop (n : nat) (fd phoff phentsize index : Z) (acc : Phdrs) : st K (option Phdrs) :=
  match n with
  | O => mret (Some acc)
  | S n =>
      step ← st_lift (umul index phentsize);
      offset ← st_lift (uadd phoff step);
      phdr ←!? pread_exact fd 56 offset;
      acc ← st_lift (scan_phdr phdr acc);
      phdr_loop n fd phoff phentsize (wrapping_add index 1) acc
  end.

(** What the scan of the dynamic section collects. *)
Record Dyns := mkDyns { dyn_needed : list Z; strtab_vaddr : Z; dyn_strsz : Z }.
Definition scan_dyn (tag value : Z) (acc : Dyns) : Dyns :=
  if (tag =? DT_NEEDED) && (zlen (dyn_needed acc) <? MAX_NEEDED) then
    mkDyns (dyn_needed acc ++ [value]) (strtab_vaddr acc) (dyn_strsz acc)
  else if tag =? DT_STRTAB then mkDyns (dyn_needed acc) value (dyn_strsz acc)
  else if tag =? DT_STRSZ then mkDyns (dyn_needed acc) (strtab_vaddr acc) value
  else acc.
Fixpoint dyn_loop (n : nat) (fd dynamic_offset dyn_index : Z) (acc : Dyns) : st K (option Dyns) :=
  match n with
  | O => mret (Some acc)
  | S n =>
      step ← st_lift (umul dyn_index 16);
      offset ← st_lift (uadd dynamic_offset step);
      dyn_entry ←!? pread_exact fd 16 offset;
      tag ← st_lift (read_i64 dyn_entry 0);
      value ← st_lift (read_u64 dyn_entry 8);
      if tag =? DT_NULL then mret (Some acc)
      else dyn_loop n fd dynamic_offset (wrapping_add dyn_index 1) (scan_dyn tag value acc)
  end.

Fixpoint vaddr_to_offset (va : Z) (loads : list LoadSegment) : outcome (option Z) :=
  match loads with
  | [] => Ret None
  | segment :: loads =>
      if (vaddr segment <=? va) && (va - vaddr segment <? filesz segment) then
        o ← uadd (seg_offset segment) (va - vaddr segment); Ret (Some o)
      else vaddr_to_offset va loads
  end.

(** [.ok_or(InspectError::Read)?] *)
Definition or_read {A} (f : st K (option A)) : st K (result InspectError A) :=
  o ← f; mret (match o with Some a => Ok a | None => Err Read end).

(** The checks of the ELF header: the table of program headers. *)
Definition check_ehdr (ehdr : list Z) : outcome (result InspectError (Z * Z * Z)) :=
  magic ← slice ehdr 0 4;
  if negb (bool_decide (magic = [0x7f; 69; 76; 70])) then Ret (Err NotElf)
  else
    class ← index ehdr EI_CLASS;
    data ← index ehdr EI_DATA;
    if negb (class =? ELFCLASS64) || negb (data =? ELFDATA2LSB) then Ret (Err Unsupported)
    else
      e_type ← read_u16 ehdr 16;
      e_machine ← read_u16 ehdr 18;
      if (negb (e_type =? ET_EXEC) && negb (e_type =? ET_DYN)) || negb (e_machine =? EM_X86_64)
      then Ret (Err Unsupported)
      else
        phoff ← read_u64 ehdr 32;
        phentsize ← read_u16 ehdr 54;
        phnum ← read_u16 ehdr 56;
        if (phentsize <? 56) || (phnum =? 0) || (MAX_PHDRS <? phnum) then Ret (Err Unsupported)
        else Ret (Ok (phoff, phentsize, phnum)).

Definition inspect_fd (fd : Z) : st K (result InspectError ElfInfo) :=
  ehdr ←! or_read (pread_exact fd 64 0);
  hdr ←! st_lift (check_ehdr ehdr);
  let '(phoff, phentsize, phnum) := hdr in
  ph ←! or_read (phdr_loop (Z.to_nat phnum) fd phoff phentsize 0 (mkPhdrs [] 0 0));
  if (dynamic_offset ph =? 0) || (dynamic_size ph =? 0) then mret (Err NotDynamic)
  else
    let dynamic_len := Z.min (dynamic_size ph / 16) MAX_DYN in
    dy ←! or_read (dyn_loop (Z.to_nat dynamic_len) fd (dynamic_offset ph) 0 (mkDyns [] 0 0));
    if (strtab_vaddr dy =? 0) || (dyn_strsz dy =? 0) then mret (Err BadDynamic)
    else
      o ← st_lift (vaddr_to_offset (strtab_vaddr dy) (loads ph));
      match o with
      | None => mret (Err BadDynamic)
      | Some strtab_offset => mret (Ok (mkInfo (dyn_needed dy) strtab_offset (dyn_strsz dy)))
      end.

Definition inspect (fuel : nat) (path : Z) : st cli (result InspectError ElfInfo) :=
  o ← open fuel path;
  match o with
  | None => mret (Err Open)
  | Some fd => result ← on_kernel (inspect_fd fd); close fd;; mret result
  end.

Definition verify (fuel : nat) (path : Z) : st cli bool :=
  r ← inspect fuel path;
  match r with
  | Ok _ => mret true
  | Err err => print_inspect_error fuel path err;; mret false
  end.

(** [n] bytes to go up to the limit. *)
Fixpoint print_loop (n : nat) (fd cursor : Z) : st cli unit :=
  match n with
  | O => mret tt
  | S n =>
      byte ← on_kernel (pread_exact fd 1 cursor);
      match byte with
      | None => mret tt
      | Some byte =>
          c ← st_lift (index byte 0);
          if c =? 0 then mret tt
          else write_stdout byte;; print_loop n fd (wrapping_add cursor 1)
      end
  end.
Definition print_string_from_file (fd offset limit : Z) : st cli unit :=
  end_ ← st_lift (uadd offset limit);
  print_loop (Z.to_nat (end_ - offset)) fd offset.

Fixpoint list_loop (fd strtab_offset strtab_size : Z) (needed : list Z) : st cli unit :=
  match needed with
  | [] => mret tt
  | x :: needed =>
      write_stdout [9];;
      offset ← st_lift (uadd strtab_offset x);
      print_string_from_file fd offset strtab_size;;
      write_stdout (b " => not resolved by stage-0 rtld CLI" ++ nl);;
      list_loop fd strtab_offset strtab_size needed
  end.
(** [list] of the source. *)
Definition list_needed (fuel : nat) (path : Z) : st cli bool :=
  r ← inspect fuel path;
  match r with
  | Err err => print_inspect_error fuel path err;; mret false
  | Ok info =>
      o ← open fuel path;
      match o with
      | None => print_inspect_error fuel path Open;; mret false
      | Some fd =>
          list_loop fd (strtab_offset info) (strtab_size info) (needed info);;
          write_stdout (9 :: b "ld-linux-x86-64.so.2 => self" ++ nl);;
          close fd;;
          mret true
      end
  end.

(** ** Options *)
Definition option_value (argc argv index : Z) : st cli (option Z) :=
  next ← st_lift (uadd index 1);
  if argc <=? next then mret None
  else v ← on_mem (load64 (Stack.add argv next)); mret (Some v).

Fixpoint any_eq (arg : Z) (names : list (list Z)) : st cli bool :=
  match names with
  | [] => mret false
  | n :: names => e ← on_mem (cstr_eq arg n); if (e : bool) then mret true else any_eq arg names
  end.
Definition value_options : list (list Z) :=
  [b "--library-path"; b "--preload"; b "--audit"; b "--glibc-hwcaps-prepend"; b "--glibc-hwcaps-mask";
   b "--inhibit-rpath"].
Definition consumes_value (arg : Z) : st cli bool := any_eq arg value_options.

Definition missing_option_value {A} (fuel : nat) (arg : Z) : exiting A :=
  write_stderr (b "rtld: option requires an argument: ");;
  write_cstr_stderr fuel arg;;
  write_stderr nl;;
  exit 1.

(** [let Some(x) = option_value(..) else { missing_option_value(arg) }] *)
Definition with_value {A} (fuel : nat) (argc argv index arg : Z) (k : Z → exiting A) : exiting A :=
  o ← option_value argc argv index;
  match o with Some v => k v | None => missing_option_value fuel arg end.

Definition is_ (arg : Z) (name : string) (yes no : exiting Stack.DirectProgram) : exiting Stack.DirectProgram :=
  e ← on_mem (cstr_eq arg (b name)); if (e : bool) then yes else no.

(** The loop over the arguments: [n] bounds the rounds, every round moves
    forward; [fuel] bounds the strings. *)
Fixpoint options_loop (fuel n : nat) (argc argv index argv0 : Z) : exiting Stack.DirectProgram :=
  match n with
  | O => st_fail OutOfFuel
  | S n =>
      if negb (index <? argc) then
        program ← on_mem (load64 argv); print_help fuel program;; exit 0
      else
        arg ← on_mem (load64 (Stack.add argv index));
        is_ arg "--help" (program ← on_mem (load64 argv); print_help fuel program;; exit 0)
        (is_ arg "--version" (print_version;; exit 0)
        (is_ arg "--list-diagnostics" (print_diagnostics argc;; exit 0)
        (is_ arg "--list-tunables" (write_stdout (b "dlopen.rtld.tunables: none" ++ nl);; exit 0)
        (is_ arg "--verify"
          (with_value fuel argc argv index arg (λ target,
            ok ← verify fuel target; exit (if ok : bool then 0 else 1)))
        (is_ arg "--list"
          (with_value fuel argc argv index arg (λ target,
            ok ← list_needed fuel target; exit (if ok : bool then 0 else 1)))
        (is_ arg "--argv0"
          (with_value fuel argc argv index arg (λ value,
            options_loop fuel n argc argv (wrapping_add index 2) value))
        (c ← consumes_value arg;
         if (c : bool) then
           with_value fuel argc argv index arg (λ _,
             options_loop fuel n argc argv (wrapping_add index 2) argv0)
         else
           is_ arg "--inhibit-cache" (options_loop fuel n argc argv (wrapping_add index 1) argv0)
           (dash ← on_mem (starts_with_dash arg);
            if (dash : bool) then
              write_stderr (b "rtld: unrecognized option: ");;
              write_cstr_stderr fuel arg;;
              write_stderr (nl ++ b "Try '--help' for more information." ++ nl);;
              exit 1
            else mret (Ok (Stack.mkDirect index argv0))))))))))
  end.

Definition handle_direct_invocation (fuel : nat) (argc argv : Z) : exiting Stack.DirectProgram :=
  if argc <=? 1 then program ← on_mem (load64 argv); print_help fuel program;; exit 0
  else options_loop fuel (Z.to_nat argc) argc argv 1 0.

End cli.
Arguments cli : clear implicits.
Arguments mkCli {K} _ _ _.
Arguments c_mem {K} _.
Arguments c_writes {K} _.
Arguments c_kernel {K} _.
End Cli.

(** ** What the kernel documents about files

    A path that can be opened gives a fresh descriptor for its contents; a
    positioned read returns a non-empty part of what is asked for, or nothing
    at the end of the file; [close] frees the descriptor. *)
Class FilesSpec (K : Type) `{!Files K} := {
  disk : K → gmap (list Z) (list Z);
  fds : K → gmap Z (list Z);
  openat_spec path k :
    match disk k !! path with
    | Some c => ∃ fd k', openat path k = Ret (Some fd, k') ∧ fds k !! fd = None
                  ∧ fds k' = <[fd := c]> (fds k) ∧ disk k' = disk k
    | None => openat path k = Ret (None, k)
    end;
  pread64_spec fd n off k c :
    fds k !! fd = Some c → 0 < n → 0 ≤ off →
    ∃ r, pread64 fd n off k = Ret (Some r, k)
      ∧ (zlen c ≤ off → r = []) ∧ (off < zlen c → r ≠ [])
      ∧ r = take (length r) (drop (Z.to_nat off) c) ∧ zlen r ≤ n;
  close_spec fd k :
    ∃ k', close_fd fd k = Ret (tt, k') ∧ fds k' = delete fd (fds k) ∧ disk k' = disk k }.

Module CliSpec.
Import Machine CStr Cli.

(** The bytes of a file at an offset, all or none. *)
Definition bytes_in (c : list Z) (off n : Z) : option (list Z) :=
  if decide (off + n ≤ zlen c) then Some (take (Z.to_nat n) (drop (Z.to_nat off) c)) else None.
(** The [n]-byte number at an offset of a record. *)
Definition num (n : nat) (l : list Z) (o : nat) : Z := le_decode (take n (drop o l)).

Definition is_load (p : list Z) : bool := num 4 p 0 =? PT_LOAD.
Definition is_dynamic (p : list Z) : bool := num 4 p 0 =? PT_DYNAMIC.
Definition segment (p : list Z) : LoadSegment := mkLoad (num 8 p 16) (num 8 p 8) (num 8 p 32).

(** The entries of the dynamic section before its [DT_NULL]. *)
Fixpoint dyns_from (c : list Z) (off : Z) (n : nat) : option (list (Z * Z)) :=
  match n with
  | O => Some []
  | S n =>
      e ← bytes_in c off 16;
      if num 8 e 0 =? 0 then Some []
      else l ← dyns_from c (off + 16) n; Some ((num 8 e 0, num 8 e 8) :: l)
  end.
Definition values (tag : Z) (ds : list (Z * Z)) : list Z := snd <$> filter (λ d, d.1 = tag) ds.

(** The offset of an address: the first segment whose file part has it. *)
Definition file_offset (va : Z) (loads : list LoadSegment) : option Z :=
  s ← snd <$> list_find (λ s, vaddr s ≤ va < vaddr s + filesz s) loads; Some (seg_offset s + (va - vaddr s)).

Definition header_ok (h : list Z) : bool :=
  (num 1 h 4 =? ELFCLASS64) && (num 1 h 5 =? ELFDATA2LSB)
  && ((num 2 h 16 =? ET_EXEC) || (num 2 h 16 =? ET_DYN)) && (num 2 h 18 =? EM_X86_64)
  && (56 <=? num 2 h 54) && (0 <? num 2 h 56) && (num 2 h 56 <=? MAX_PHDRS).

Definition phdr_entries (c h : list Z) : option (list (list Z)) :=
  mapM (λ i, bytes_in c (num 8 h 32 + i * num 2 h 54) 56) (seqZ 0 (num 2 h 56)).

(** What the inspection of a file finds. *)
Definition inspect_file (c : list Z) : result InspectError ElfInfo :=
  match bytes_in c 0 64 with
  | None => Err Read
  | Some h =>
      if negb (bool_decide (take 4 h = [0x7f; 69; 76; 70])) then Err NotElf
      else if negb (header_ok h) then Err Unsupported
      else
        match phdr_entries c h with
        | None => Err Read
        | Some ps =>
            let d := default (replicate 56 0) (last (filter is_dynamic ps)) in
            let off := num 8 d 8 in
            let size := num 8 d 32 in
            if (off =? 0) || (size =? 0) then Err NotDynamic
            else
              match dyns_from c off (Z.to_nat (Z.min (size / 16) MAX_DYN)) with
              | None => Err Read
              | Some ds =>
                  let strtab := default 0 (last (values DT_STRTAB ds)) in
                  let strsz := default 0 (last (values DT_STRSZ ds)) in
                  if (strtab =? 0) || (strsz =? 0) then Err BadDynamic
                  else
                    match file_offset strtab (take 16 (segment <$> filter is_load ps)) with
                    | None => Err BadDynamic
                    | Some o => Ok (mkInfo (take 64 (values DT_NEEDED ds)) o strsz)
                    end
              end
        end
  end.

(** The offsets that the inspection computes stay below 2^64. *)
Definition offsets_fit (c : list Z) : Prop :=
  ∀ h ps, bytes_in c 0 64 = Some h → phdr_entries c h = Some ps →
    let d := default (replicate 56 0) (last (filter is_dynamic ps)) in
    num 8 d 8 + 16 * MAX_DYN < 2 ^ 64
    ∧ ∀ s, s ∈ segment <$> filter is_load ps → seg_offset s + filesz s ≤ 2 ^ 64.
Definition headers_fit (c : list Z) : Prop :=
  ∀ h, bytes_in c 0 64 = Some h → num 8 h 32 + 2 ^ 24 < 2 ^ 64.
End CliSpec.

Module CliInspect.
Import Machine CStr Cli CliSpec.

Lemma bytes_in_split c off n r :
  0 ≤ off → r ≠ [] → r = take (length r) (drop (Z.to_nat off) c) → zlen r ≤ n →
  bytes_in c off n = app r <$> bytes_in c (off + zlen r) (n - zlen r).
Proof.
  intros Ho Hne Hr Hn. unfold bytes_in. pose proof (zlen_nonneg r).
  replace (off + zlen r + (n - zlen r)) with (off + n) by lia.
  case_decide as Hd; [|done]. simpl. f_equal. rewrite Hr at 1. unfold zlen in *.
  replace (Z.to_nat n) with (length r + Z.to_nat (n - Z.of_nat (length r)))%nat by lia.
  rewrite <-take_take_drop. f_equal. rewrite drop_drop. f_equal. f_equal. lia.
Qed.

Lemma bytes_in_zlen c off n l : 0 ≤ off → 0 ≤ n → bytes_in c off n = Some l → zlen l = n.
Proof.
  unfold bytes_in. intros Ho Hn. case_decide as Hd; [|done]. intros [= <-]. unfold zlen in *.
  rewrite length_take, length_drop. lia.
Qed.
Lemma bytes_in_bytes c off n l : Forall is_byte c → bytes_in c off n = Some l → Forall is_byte l.
Proof. unfold bytes_in. intros Hc. case_decide; [|done]. intros [= <-]. by apply Forall_take, Forall_drop. Qed.

(** [read_le] inside a record. *)
Lemma read_le_run n l o :
  0 ≤ n → 0 ≤ o → o + n ≤ zlen l → read_le n l o = Ret (num (Z.to_nat n) l (Z.to_nat o)).
Proof.
  intros Hn Ho Hl. unfold read_le. rewrite slice_Ret by lia. rewrite bind_Ret. unfold num.
  do 4 f_equal. lia.
Qed.

Lemma num_bound n l o : Forall is_byte l → 0 ≤ num n l o < 2 ^ (8 * Z.of_nat n).
Proof.
  intros Hl. unfold num.
  assert (Forall is_byte (take n (drop o l))) as H by (by apply Forall_take, Forall_drop).
  pose proof (le_decode_bound _ H) as [H1 H2]. split; [done|].
  eapply Z.lt_le_trans; [exact H2|]. apply Z.pow_le_mono_r; [lia|]. unfold zlen. rewrite length_take. lia.
Qed.

Lemma as_isize_eqb v t : 0 ≤ v < 2 ^ 64 → 0 ≤ t < 2 ^ 63 → (as_isize v =? t) = (v =? t).
Proof.
  intros Hv Ht. unfold as_isize. case_decide; [done|].
  destruct (Z.eqb_spec (v - 2 ^ 64) t), (Z.eqb_spec v t); lia || done.
Qed.

Section inspect.
Context `{FS : FilesSpec K} `{!Build}.

(** Reads through short counts are whole reads. *)
Lemma pread_loop_run fuel fd n off buf k c :
  fds k !! fd = Some c → 0 ≤ n → (0 < n ∨ off ≤ zlen c) → 0 ≤ off → off + n < 2 ^ 64 →
  (Z.to_nat n < fuel)%nat →
  pread_loop fuel fd n off buf k = Ret (app buf <$> bytes_in c off n, k).
Proof.
  intros Hfd. revert n off buf. induction fuel as [|fuel IH]; intros n off buf Hn Hz Ho Hb Hf; [lia|].
  cbn [pread_loop]. destruct (Z.eqb_spec n 0) as [->|Hn0].
  { unfold bytes_in. rewrite decide_True by lia. simpl. by rewrite app_nil_r. }
  destruct (pread64_spec fd n off k c Hfd) as (r & Hr & Hend & Hne & Hpre & Hlen); [lia|done|].
  erewrite try_some_run by exact Hr. cbv zeta. pose proof (zlen_nonneg r) as Hr0.
  destruct (decide (zlen c ≤ off)) as [Hc|Hc].
  { rewrite Hend by done. cbn [orb]. unfold bytes_in. by rewrite decide_False by lia. }
  assert (r ≠ []) as Hne' by (apply Hne; lia). clear Hend Hne.
  assert (zlen r ≠ 0) as Hrz by (destruct r; [done|rewrite zlen_cons; pose proof (zlen_nonneg r); lia]).
  destruct (Z.eqb_spec (zlen r) 0); [done|]. destruct (Z.ltb_spec n (zlen r)); [lia|]. cbn [orb].
  assert (off + zlen r ≤ zlen c) as Hin.
  { rewrite Hpre at 1. unfold zlen. rewrite length_take, length_drop. unfold zlen in Hc. lia. }
  unfold wrapping_add. rewrite wrap_small by (unfold in_usize; lia).
  rewrite IH by lia. rewrite (bytes_in_split c off n r) by (done || lia).
  f_equal. f_equal. destruct (bytes_in _ _ _); simpl; [|done]. by rewrite app_assoc.
Qed.

Lemma pread_exact_run fd n off k c :
  fds k !! fd = Some c → 0 < n → 0 ≤ off → off + n < 2 ^ 64 →
  pread_exact fd n off k = Ret (bytes_in c off n, k).
Proof.
  intros Hfd Hn Ho Hb. unfold pread_exact. erewrite pread_loop_run by (done || lia).
  f_equal. f_equal. by destruct (bytes_in _ _ _).
Qed.

(** ** Program headers *)
Lemma scan_phdr_run p acc :
  zlen p = 56 →
  scan_phdr p acc = Ret
    (mkPhdrs (if is_load p && (zlen (loads acc) <? MAX_LOADS) then loads acc ++ [segment p] else loads acc)
       (if is_load p && (zlen (loads acc) <? MAX_LOADS) then dynamic_offset acc
        else if is_dynamic p then num 8 p 8 else dynamic_offset acc)
       (if is_load p && (zlen (loads acc) <? MAX_LOADS) then dynamic_size acc
        else if is_dynamic p then num 8 p 32 else dynamic_size acc)).
Proof.
  intros Hl. unfold scan_phdr, read_u32, read_u64. rewrite !read_le_run by lia. rewrite bind_Ret.
  change (num (Z.to_nat 4) p (Z.to_nat 0)) with (num 4 p 0).
  unfold is_load, is_dynamic. destruct ((num 4 p 0 =? PT_LOAD) && _); [done|].
  destruct (num 4 p 0 =? PT_DYNAMIC); [done|]. by destruct acc.
Qed.

(** The fold of the scan over entries. *)
Definition phdrs_after (acc : Phdrs) (ps : list (list Z)) : Phdrs :=
  let d := last (filter is_dynamic ps) in
  mkPhdrs (take 16 (loads acc ++ (segment <$> filter is_load ps)))
    (from_option (λ d, num 8 d 8) (dynamic_offset acc) d)
    (from_option (λ d, num 8 d 32) (dynamic_size acc) d).

Lemma phdrs_after_cons acc p ps :
  (length (loads acc) ≤ 16)%nat → zlen p = 56 →
  ∃ acc', scan_phdr p acc = Ret acc' ∧ (length (loads acc') ≤ 16)%nat
    ∧ phdrs_after acc' ps = phdrs_after acc (p :: ps).
Proof.
  intros Hlen Hp. rewrite scan_phdr_run by done. eexists. split; [done|].
  assert (is_load p → is_dynamic p → False) as Hex.
  { unfold is_load, is_dynamic. intros H1%Is_true_true H2%Is_true_true.
    apply Z.eqb_eq in H1, H2. rewrite H1 in H2. done. }
  unfold phdrs_after, MAX_LOADS. rewrite !filter_cons. cbn [loads dynamic_offset dynamic_size].
  destruct (is_load p) eqn:El, (is_dynamic p) eqn:Ed; try (exfalso; by apply Hex).
  - destruct (Z.ltb_spec (zlen (loads acc)) 16) as [Hlt|Hge]; cbn [andb];
      (rewrite decide_True by done); (rewrite decide_False by auto); unfold zlen in *.
    + split; [rewrite length_app; simpl; lia|]. f_equal. by rewrite <-app_assoc.
    + split; [done|]. f_equal. rewrite !take_app_le by lia. done.
  - cbn [andb]. rewrite decide_False by auto. rewrite decide_True by done. split; [done|].
    rewrite last_cons. by destruct (last (filter is_dynamic ps)).
  - cbn [andb]. rewrite !decide_False by auto. by split.
Qed.

Lemma phdr_loop_run n fd phoff phentsize i k c acc :
  fds k !! fd = Some c → 0 ≤ phoff → 0 ≤ phentsize < 2 ^ 16 → 0 ≤ i → i + Z.of_nat n ≤ MAX_PHDRS →
  phoff + 2 ^ 24 < 2 ^ 64 → (length (loads acc) ≤ 16)%nat →
  phdr_loop n fd phoff phentsize i acc k
  = Ret (phdrs_after acc <$> mapM (λ i, bytes_in c (phoff + i * phentsize) 56) (seqZ i (Z.of_nat n)), k).
Proof.
  intros Hfd Hp He. unfold MAX_PHDRS. revert i acc. induction n as [|n IH]; intros i acc Hi Hn Hb Hl; cbn [phdr_loop].
  { simpl. unfold phdrs_after. simpl. rewrite app_nil_r, take_ge by lia. by destruct acc. }
  assert (0 ≤ i * phentsize ≤ 255 * 65535) as Hstep by nia.
  erewrite st_bind_run by (apply st_lift_run, umul_small; lia).
  erewrite st_bind_run by (apply st_lift_run, uadd_small; lia).
  erewrite try_some_run by (apply (pread_exact_run _ _ _ _ c); (done || lia)).
  rewrite seqZ_cons by lia. cbn [mapM].
  replace (Z.pred (Z.of_nat (S n))) with (Z.of_nat n) by lia.
  destruct (bytes_in c (phoff + i * phentsize) 56) as [p|] eqn:Hbytes; [|done].
  destruct (phdrs_after_cons acc p [] Hl) as (acc' & Hs & Hl' & _); [apply bytes_in_zlen in Hbytes; lia|].
  erewrite st_bind_run by (apply st_lift_run; exact Hs).
  unfold wrapping_add. rewrite wrap_small by (unfold in_usize; lia).
  rewrite IH by (done || lia). replace (Z.succ i) with (i + 1) by lia. simpl.
  match goal with |- Ret (_ <$> ?m, _) = _ => change m with (mapM (λ i, bytes_in c (phoff + i * phentsize) 56) (seqZ (i + 1) (Z.of_nat n))) end.
  destruct (mapM _ (seqZ (i + 1) (Z.of_nat n))) as [ps|]; [|done]. simpl. do 2 f_equal.
  destruct (phdrs_after_cons acc p ps Hl) as (acc2 & Hs2 & _ & Heq); [apply bytes_in_zlen in Hbytes; lia|].
  rewrite Hs in Hs2. injection Hs2 as <-. by rewrite Heq.
Qed.

(** ** The dynamic section *)
Definition dyns_after (acc : Dyns) (ds : list (Z * Z)) : Dyns :=
  mkDyns (take 64 (dyn_needed acc ++ values DT_NEEDED ds))
    (default (strtab_vaddr acc) (last (values DT_STRTAB ds)))
    (default (dyn_strsz acc) (last (values DT_STRSZ ds))).

Lemma values_cons t d ds : values t (d :: ds) = if decide (d.1 = t) then d.2 :: values t ds else values t ds.
Proof. unfold values. rewrite filter_cons. by case_decide. Qed.

Lemma last_cons_default {A} (x y : A) l : default y (last (x :: l)) = default x (last l).
Proof. rewrite last_cons. by destruct (last l). Qed.

Lemma dyns_after_cons acc d ds :
  (length (dyn_needed acc) ≤ 64)%nat →
  (length (dyn_needed (scan_dyn d.1 d.2 acc)) ≤ 64)%nat
  ∧ dyns_after (scan_dyn d.1 d.2 acc) ds = dyns_after acc (d :: ds).
Proof.
  destruct d as [t v]. unfold scan_dyn, dyns_after, MAX_NEEDED. cbn [fst snd]. intros Hl.
  rewrite !values_cons. cbn [fst snd].
  destruct (Z.eqb_spec t DT_NEEDED) as [->|H1]; cbn [andb].
  { rewrite decide_True by done. rewrite !decide_False by done.
    destruct (Z.ltb_spec (zlen (dyn_needed acc)) 64) as [Hlt|Hge]; unfold zlen in *; cbn [dyn_needed strtab_vaddr dyn_strsz].
    - split; [rewrite length_app; simpl; lia|]. by rewrite <-app_assoc.
    - change (DT_NEEDED =? DT_STRTAB) with false. change (DT_NEEDED =? DT_STRSZ) with false. cbv iota.
      split; [done|]. rewrite !take_app_le by lia. done. }
  rewrite (decide_False (P := t = DT_NEEDED)) by done.
  destruct (Z.eqb_spec t DT_STRTAB) as [->|H2].
  { rewrite decide_True by done. rewrite (decide_False (P := _ = DT_STRSZ)) by done.
    cbn [dyn_needed strtab_vaddr dyn_strsz]. by rewrite last_cons_default. }
  rewrite (decide_False (P := t = DT_STRTAB)) by done.
  destruct (Z.eqb_spec t DT_STRSZ) as [->|H3].
  { rewrite decide_True by done. cbn [dyn_needed strtab_vaddr dyn_strsz]. by rewrite last_cons_default. }
  by rewrite (decide_False (P := t = DT_STRSZ)) by done.
Qed.

Lemma scan_dyn_isize v w acc : 0 ≤ v < 2 ^ 64 → scan_dyn (as_isize v) w acc = scan_dyn v w acc.
Proof. intros Hv. unfold scan_dyn. by rewrite !as_isize_eqb by (done || lia). Qed.

Lemma dyn_loop_run n fd off i k c acc :
  fds k !! fd = Some c → Forall is_byte c → 0 ≤ off → off + 16 * MAX_DYN < 2 ^ 64 →
  0 ≤ i → i + Z.of_nat n ≤ MAX_DYN → (length (dyn_needed acc) ≤ 64)%nat →
  dyn_loop n fd off i acc k = Ret (dyns_after acc <$> dyns_from c (off + 16 * i) n, k).
Proof.
  intros Hfd Hby Ho Hb. unfold MAX_DYN in *. revert i acc. induction n as [|n IH]; intros i acc Hi Hn Hl; cbn [dyn_loop dyns_from].
  { unfold dyns_after. simpl. rewrite app_nil_r, take_ge by lia. by destruct acc. }
  erewrite st_bind_run by (apply st_lift_run, umul_small; lia).
  erewrite st_bind_run by (apply st_lift_run, uadd_small; lia).
  erewrite try_some_run by (apply (pread_exact_run _ _ _ _ c); (done || lia)).
  replace (off + i * 16) with (off + 16 * i) by lia.
  destruct (bytes_in c (off + 16 * i) 16) as [e|] eqn:He; [|done]. cbn [mbind option_bind].
  assert (zlen e = 16) as Hlen by (apply (bytes_in_zlen c (off + 16 * i)); lia || exact He).
  pose proof (num_bound 8 e 0 (bytes_in_bytes _ _ _ _ Hby He)) as Ht.
  unfold read_i64, read_u64. rewrite !read_le_run by lia.
  change (num (Z.to_nat 8) e (Z.to_nat 0)) with (num 8 e 0).
  change (num (Z.to_nat 8) e (Z.to_nat 8)) with (num 8 e 8).
  erewrite st_bind_run by (apply st_lift_run; reflexivity).
  erewrite st_bind_run by (apply st_lift_run; reflexivity).
  rewrite as_isize_eqb by (change (2 ^ 64) with (2 ^ (8 * Z.of_nat 8)); done || lia). unfold DT_NULL.
  destruct (num 8 e 0 =? 0).
  { unfold dyns_after. simpl. rewrite app_nil_r, take_ge by lia. by destruct acc. }
  rewrite scan_dyn_isize by done.
  destruct (dyns_after_cons acc (num 8 e 0, num 8 e 8) [] Hl) as [Hl' _].
  unfold wrapping_add. rewrite wrap_small by (unfold in_usize; lia). rewrite IH by (done || lia).
  replace (off + 16 * (i + 1)) with (off + 16 * i + 16) by lia.
  destruct (dyns_from c (off + 16 * i + 16) n) as [ds|]; [|done]. simpl. do 3 f_equal.
  apply (dyns_after_cons acc (num 8 e 0, num 8 e 8) ds Hl).
Qed.

Lemma dyns_from_bound c (Hby : Forall is_byte c) n off ds :
  dyns_from c off n = Some ds → 0 ≤ default 0 (last (values DT_STRTAB ds)).
Proof.
  intros Hds. assert (Forall (λ d : Z * Z, 0 ≤ d.2) ds) as Hall.
  { revert off ds Hds. induction n as [|n IH]; intros off ds Hds; simpl in Hds.
    { injection Hds as <-. constructor. }
    destruct (bytes_in c off 16) as [e|] eqn:He; [|done]. simpl in Hds.
    destruct (num 8 e 0 =? 0); [injection Hds as <-; constructor|].
    destruct (dyns_from c (off + 16) n) as [l|] eqn:Hl; [|done]. simpl in Hds. injection Hds as <-.
    constructor; [|by eapply IH]. apply num_bound. by eapply bytes_in_bytes. }
  destruct (last (values DT_STRTAB ds)) as [v|] eqn:Hv; [|done]. apply last_Some_elem_of in Hv.
  unfold values in Hv. apply list_elem_of_fmap in Hv as (d & -> & Hin).
  apply list_elem_of_filter in Hin as [_ Hin]. exact (proj1 (Forall_forall _ _) Hall d Hin).
Qed.

Lemma vaddr_to_offset_run va ls :
  0 ≤ va → (∀ s, s ∈ ls → 0 ≤ seg_offset s ∧ seg_offset s + filesz s ≤ 2 ^ 64) →
  vaddr_to_offset va ls = Ret (file_offset va ls).
Proof.
  intros Hva. induction ls as [|s ls IH]; intros Hall; [done|]. cbn [vaddr_to_offset].
  pose proof (Hall s ltac:(left)) as [Hs1 Hs2]. unfold file_offset. cbn [list_find].
  destruct (Z.leb_spec (vaddr s) va) as [H1|H1], (Z.ltb_spec (va - vaddr s) (filesz s)) as [H2|H2]; cbn [andb].
  { rewrite decide_True by lia. rewrite uadd_small by lia. done. }
  all: rewrite decide_False by lia; rewrite IH by (intros s' Hs'; apply Hall; by right);
    unfold file_offset; rewrite <-option_fmap_compose; by destruct (list_find _ ls) as [[??]|].
Qed.

Lemma check_ehdr_run h :
  zlen h = 64 → Forall is_byte h →
  check_ehdr h = Ret (if negb (bool_decide (take 4 h = [0x7f; 69; 76; 70])) then Err NotElf
                      else if negb (header_ok h) then Err Unsupported
                      else Ok (num 8 h 32, num 2 h 54, num 2 h 56)).
Proof.
  intros Hl Hby. unfold check_ehdr. rewrite slice_Ret by lia. rewrite bind_Ret.
  change (Z.to_nat (4 - 0)) with 4%nat. change (drop (Z.to_nat 0) h) with h.
  destruct (bool_decide _); cbn [negb]; [|done].
  assert (∀ i, 0 ≤ i < 64 → index h i = Ret (num 1 h (Z.to_nat i))) as Hidx.
  { intros i Hi. unfold index, num. rewrite decide_True by lia.
    destruct (lookup_lt_is_Some_2 h (Z.to_nat i)) as [x Hx]; [unfold zlen in Hl; lia|]. rewrite Hx.
    rewrite (drop_S _ _ _ Hx). simpl. f_equal. lia. }
  unfold EI_CLASS, EI_DATA. rewrite !Hidx by lia. rewrite !bind_Ret.
  unfold read_u16, read_u64. rewrite !read_le_run by lia. rewrite !bind_Ret. unfold header_ok.
  repeat match goal with |- context [Z.to_nat ?z] => let n := eval vm_compute in (Z.to_nat z) in change (Z.to_nat z) with n end.
  rewrite (Z.leb_antisym _ 56), (Z.leb_antisym MAX_PHDRS (num 2 h 56)).
  pose proof (num_bound 2 h 56 Hby) as Hn.
  assert ((0 <? num 2 h 56) = negb (num 2 h 56 =? 0)) as -> by (destruct (Z.ltb_spec 0 (num 2 h 56)), (Z.eqb_spec (num 2 h 56) 0); lia || done).
  destruct (num 1 h 4 =? ELFCLASS64); cbn [negb orb andb]; [|done].
  destruct (num 1 h 5 =? ELFDATA2LSB); cbn [negb orb andb]; [|done].
  destruct (num 2 h 16 =? ET_EXEC), (num 2 h 16 =? ET_DYN), (num 2 h 18 =? EM_X86_64); cbn [negb orb andb]; try done;
    destruct (num 2 h 54 <? 56), (num 2 h 56 =? 0), (MAX_PHDRS <? num 2 h 56); done.
Qed.

(** The program headers are bytes, and so is the last dynamic one. *)
Lemma phdr_entries_bytes c h ps :
  Forall is_byte c → phdr_entries c h = Some ps →
  Forall (λ p, Forall is_byte p) ps ∧ Forall is_byte (default (replicate 56 0) (last (filter is_dynamic ps))).
Proof.
  intros Hby Hps. assert (Forall (λ p, Forall is_byte p) ps) as Hpb.
  { apply mapM_Some_1 in Hps. clear -Hps Hby. induction Hps as [|i p js ps Hp Hps IH]; constructor; [|done].
    by eapply bytes_in_bytes. }
  split; [done|]. destruct (last (filter is_dynamic ps)) as [d|] eqn:Hd; [|by apply Forall_replicate].
  apply last_Some_elem_of, list_elem_of_filter in Hd as [_ Hd]. by apply (proj1 (Forall_forall _ _) Hpb).
Qed.
Lemma from_option_default {A B} (a : A) (f : A → B) b o : f a = b → from_option f b o = f (default a o).
Proof. intros <-. by destruct o. Qed.

Lemma inspect_fd_run fd k c :
  fds k !! fd = Some c → Forall is_byte c → headers_fit c → offsets_fit c →
  inspect_fd fd k = Ret (inspect_file c, k).
Proof.
  intros Hfd Hby Hh Ho. unfold inspect_fd, inspect_file, or_read.
  rewrite (try_res_step _ _ _ (from_option Ok (Err Read) (bytes_in c 0 64)) k).
  2: { erewrite st_bind_run by (apply (pread_exact_run fd 64 0 k c); (done || lia)). by destruct (bytes_in c 0 64). }
  destruct (bytes_in c 0 64) as [h|] eqn:Hbh; [|done]. cbn [from_option].
  assert (zlen h = 64) as Hlen by (apply (bytes_in_zlen c 0); lia || exact Hbh).
  pose proof (bytes_in_bytes _ _ _ _ Hby Hbh) as Hhb.
  rewrite (try_res_step _ _ _ _ k (st_lift_run _ k _ (check_ehdr_run h Hlen Hhb))).
  destruct (negb (bool_decide _)); [done|]. destruct (negb (header_ok h)) eqn:Hok; [done|].
  apply negb_false_iff in Hok. unfold header_ok in Hok. rewrite !andb_true_iff, !Z.leb_le, Z.ltb_lt in Hok.
  destruct Hok as [[[_ He] Hn0] Hn]. cbv iota beta.
  specialize (Hh h Hbh). pose proof (num_bound 8 h 32 Hhb). pose proof (num_bound 2 h 54 Hhb).
  pose proof (phdr_loop_run (Z.to_nat (num 2 h 56)) fd (num 8 h 32) (num 2 h 54) 0 k c (mkPhdrs [] 0 0)) as Hloop.
  rewrite Z2Nat.id in Hloop by lia. fold (phdr_entries c h) in Hloop.
  rewrite (try_res_step _ _ _ (from_option (λ ps, Ok (phdrs_after (mkPhdrs [] 0 0) ps)) (Err Read) (phdr_entries c h)) k).
  2: { erewrite st_bind_run by (apply Hloop; (done || lia || (simpl; lia))). by destruct (phdr_entries c h). }
  destruct (phdr_entries c h) as [ps|] eqn:Hps; [|done]. cbn [from_option]. cbv iota.
  destruct (Ho h ps Hbh Hps) as [Hoff Hseg].
  set (d := default (replicate 56 0) (last (filter is_dynamic ps))) in *. cbv zeta.
  unfold phdrs_after at 1 2 3 4 5. cbn [loads dynamic_offset dynamic_size app].
  rewrite (from_option_default (replicate 56 0) (λ d, num 8 d 8)), (from_option_default (replicate 56 0) (λ d, num 8 d 32)) by done. fold d.
  destruct (phdr_entries_bytes c h ps Hby Hps) as [Hpb Hdb]. fold d in Hdb.
  pose proof (num_bound 8 d 8 Hdb). pose proof (num_bound 8 d 32 Hdb).
  destruct ((num 8 d 8 =? 0) || (num 8 d 32 =? 0)); [done|].
  set (n := Z.min (num 8 d 32 / 16) MAX_DYN).
  assert (0 ≤ n ≤ MAX_DYN) as Hnb by (unfold n, MAX_DYN; pose proof (Z.div_pos (num 8 d 32) 16); lia).
  pose proof (dyn_loop_run (Z.to_nat n) fd (num 8 d 8) 0 k c (mkDyns [] 0 0)) as Hdyn.
  rewrite Z.mul_0_r, Z.add_0_r in Hdyn.
  rewrite (try_res_step _ _ _ (from_option (λ ds, Ok (dyns_after (mkDyns [] 0 0) ds)) (Err Read) (dyns_from c (num 8 d 8) (Z.to_nat n))) k).
  2: { erewrite st_bind_run by (apply Hdyn; (done || lia || (simpl; lia))). by destruct (dyns_from _ _ _). }
  destruct (dyns_from c (num 8 d 8) (Z.to_nat n)) as [ds|] eqn:Hds; [|done]. cbn [from_option]. cbv iota.
  unfold dyns_after. cbn [dyn_needed strtab_vaddr dyn_strsz app].
  destruct ((default 0 (last (values DT_STRTAB ds)) =? 0) || _); [done|].
  pose proof (dyns_from_bound c Hby _ _ _ Hds) as Hva.
  erewrite st_bind_run.
  2: { apply st_lift_run, vaddr_to_offset_run; [exact Hva|]. intros s Hs. apply elem_of_take in Hs as (i & Hs & _).
       apply list_elem_of_lookup_2 in Hs. split; [|by apply Hseg].
       apply list_elem_of_fmap in Hs as (p & -> & Hp). apply list_elem_of_filter in Hp as [_ Hp].
       pose proof (num_bound 8 p 8 (proj1 (Forall_forall _ _) Hpb p Hp)). simpl. lia. }
  by destruct (file_offset _ _).
Qed.
End inspect.
End CliInspect.

(** ** The options as a function of the argument strings *)
Module CliOptions.
Import Machine CStr Cli.

Inductive action :=
  | Help | Version | Diagnostics | Tunables
  | Verify (i : nat) | ListNeeded (i : nat)
  | Missing (i : nat) | Unknown (i : nat)
  | Run (i : nat) (argv0 : option nat).

(** [args] are the arguments from position [i] on. *)
Fixpoint decide_args (args : list (list Z)) (i : nat) (argv0 : option nat) : action :=
  match args with
  | [] => Help
  | a :: rest =>
      if bool_decide (a = b "--help") then Help
      else if bool_decide (a = b "--version") then Version
      else if bool_decide (a = b "--list-diagnostics") then Diagnostics
      else if bool_decide (a = b "--list-tunables") then Tunables
      else if bool_decide (a = b "--verify") then match rest with [] => Missing i | _ :: _ => Verify (i + 1) end
      else if bool_decide (a = b "--list") then match rest with [] => Missing i | _ :: _ => ListNeeded (i + 1) end
      else if bool_decide (a = b "--argv0") then
        match rest with [] => Missing i | _ :: rest => decide_args rest (i + 2) (Some (i + 1)%nat) end
      else if bool_decide (a ∈ value_options) then
        match rest with [] => Missing i | _ :: rest => decide_args rest (i + 2) argv0 end
      else if bool_decide (a = b "--inhibit-cache") then decide_args rest (i + 1) argv0
      else if bool_decide (head a = Some 45) then Unknown i
      else Run i argv0
  end.

Section perform.
Context {K : Type} `{!Files K} `{!Build}.
Context (fuel : nat) (m : mem) (argv : Z) (ptrs : list Z) (strs : list (list Z)).

Let argc : Z := zlen ptrs.
Definition ptr_of (i : nat) : Z := default 0 (ptrs !! i).
Definition str_of (i : nat) : list Z := default [] (strs !! i).

(** Output: the [write] calls appended to those already made. *)
Definition emit (s : cli K) (l : list (Z * list Z)) : cli K := mkCli (c_mem s) (c_writes s ++ l) (c_kernel s).
Definition stdout (l : list (list Z)) : list (Z * list Z) := pair 1 <$> l.
Definition stderr (l : list (list Z)) : list (Z * list Z) := pair 2 <$> l.

Definition exit_with (status : Z) (out : list (Z * list Z)) : st (cli K) (result Z Stack.DirectProgram) :=
  λ s, Ret (Err status, emit s out).
Definition perform (a : action) : st (cli K) (result Z Stack.DirectProgram) :=
  match a with
  | Help => exit_with 0 (stdout (b "Usage: " :: str_of 0 :: help_lines))
  | Version => print_version;; exit 0
  | Diagnostics => print_diagnostics argc;; exit 0
  | Tunables => exit_with 0 (stdout [b "dlopen.rtld.tunables: none" ++ nl])
  | Verify i => ok ← verify fuel (ptr_of i); exit (if ok : bool then 0 else 1)
  | ListNeeded i => ok ← list_needed fuel (ptr_of i); exit (if ok : bool then 0 else 1)
  | Missing i => exit_with 1 (stderr [b "rtld: option requires an argument: "; str_of i; nl])
  | Unknown i =>
      exit_with 1 (stderr [b "rtld: unrecognized option: "; str_of i; nl ++ b "Try '--help' for more information." ++ nl])
  | Run i argv0 => λ s, Ret (Ok (Stack.mkDirect (Z.of_nat i) (from_option ptr_of 0 argv0)), s)
  end.

(** The argument vector in memory. *)
Record args_at : Prop := {
  args_len : zlen ptrs < 2 ^ 63;
  args_words i p : ptrs !! i = Some p → word_at m (Stack.add argv (Z.of_nat i)) p ∧ in_usize p ∧ p ≠ 0;
  args_strs : Forall2 (cstr_at m) ptrs strs;
  args_fuel : Forall (λ s, (length s < fuel)%nat ∧ zlen s < 2 ^ 64) strs }.

Lemma cli_mem_run {A} (f : st mem A) (s : cli K) a :
  c_mem s = m → f m = Ret (a, m) → on_mem f s = Ret (a, s).
Proof. intros Hm Hf. unfold on_mem. rewrite Hm, Hf. simpl. destruct s; simpl in *. by subst. Qed.

Lemma on_kernel_run {A} (f : st K A) mm w k a k' :
  f k = Ret (a, k') → on_kernel f (mkCli mm w k) = Ret (a, mkCli mm w k').
Proof. intros Hf. unfold on_kernel. cbn [c_kernel]. by rewrite Hf. Qed.
Lemma emit_emit s l k : emit (emit s l) k = emit s (l ++ k).
Proof. unfold emit. simpl. by rewrite <-app_assoc. Qed.
Lemma write_fd_run fd x (s : cli K) : write_fd fd x s = Ret (tt, emit s [(fd, x)]).
Proof. done. Qed.
Lemma write_all_run fd l (s : cli K) : write_all fd l s = Ret (tt, emit s (pair fd <$> l)).
Proof.
  revert s. induction l as [|x l IH]; intros s; cbn [write_all].
  - unfold emit. simpl. rewrite app_nil_r. by destruct s.
  - erewrite st_bind_run by apply write_fd_run. by rewrite IH, emit_emit.
Qed.

Lemma write_cstr_run fd p str (s : cli K) :
  c_mem s = m → fd = 1 ∨ fd = 2 → p ≠ 0 → cstr_at m p str → (length str < fuel)%nat → zlen str < 2 ^ 64 →
  write_cstr fuel fd p s = Ret (tt, emit s [(fd, str)]).
Proof.
  intros Hm Hfd Hp Hs Hf Hl. unfold write_cstr. destruct (Z.eqb_spec p 0); [done|].
  erewrite st_bind_run by (apply cli_mem_run; [done|by apply cstr_len_run]).
  erewrite st_bind_run by (apply cli_mem_run; [done|by apply cstr_load]).
  by destruct Hfd as [-> | ->].
Qed.

Lemma chars_b str : forallb (λ c, (0 <? c) && (c <? 256)) (b str) = true → chars (b str).
Proof.
  intros Hall. apply Forall_forall. intros x Hx. rewrite forallb_forall in Hall.
  assert (In x (b str)) as Hin by (by apply list_elem_of_In). specialize (Hall x Hin).
  apply andb_true_iff in Hall. rewrite !Z.ltb_lt in Hall. lia.
Qed.

Context (Hargs : args_at).

Lemma arg_at k a : strs !! k = Some a →
  ∃ p, ptrs !! k = Some p ∧ ptr_of k = p ∧ p ≠ 0 ∧ cstr_at m p a
    ∧ load64 (Stack.add argv (Z.of_nat k)) m = Ret (p, m) ∧ (length a < fuel)%nat ∧ zlen a < 2 ^ 64.
Proof.
  intros Ha. destruct (Forall2_lookup_r _ _ _ _ _ (args_strs Hargs) Ha) as (p & Hp & Hc).
  destruct (args_words Hargs k p Hp) as (Hw & Hu & Hne).
  destruct (proj1 (Forall_lookup _ _) (args_fuel Hargs) k a Ha) as [Hf Hl].
  exists p. split_and!; try done; [unfold ptr_of; by rewrite Hp|by apply load64_run].
Qed.

Lemma args_same_len : length ptrs = length strs.
Proof. by eapply Forall2_length, args_strs. Qed.

Lemma is_run name p a yes no (s : cli K) :
  c_mem s = m → p ≠ 0 → cstr_at m p a → forallb (λ c, (0 <? c) && (c <? 256)) (b name) = true →
  is_ p name yes no s = if bool_decide (a = b name) then yes s else no s.
Proof.
  intros Hm Hp Hc Hn. unfold is_. erewrite st_bind_run by (apply cli_mem_run; [done|apply cstr_eq_run; [done..|by apply chars_b]]).
  by case_bool_decide.
Qed.

Lemma any_eq_run p a names (s : cli K) :
  c_mem s = m → p ≠ 0 → cstr_at m p a → Forall chars names →
  any_eq p names s = Ret (bool_decide (a ∈ names), s).
Proof.
  intros Hm Hp Hc. induction 1 as [|n names Hn Hall IH]; cbn [any_eq].
  - rewrite bool_decide_eq_false_2; [done|]. apply not_elem_of_nil.
  - erewrite st_bind_run by (apply cli_mem_run; [done|by apply cstr_eq_run]).
    destruct (bool_decide_reflect (a = n)) as [->|Hne].
    + rewrite bool_decide_eq_true_2; [done|]. left.
    + rewrite IH. f_equal. f_equal. apply bool_decide_ext. rewrite elem_of_cons. tauto.
Qed.

Lemma value_options_chars : Forall chars value_options.
Proof. repeat (constructor; [by apply chars_b; vm_compute|]). constructor. Qed.

Lemma str_of_eq k a : strs !! k = Some a → str_of k = a.
Proof. unfold str_of. by intros ->. Qed.

(** The two messages that quote an argument. *)
Lemma quote_run status (l1 l2 : list Z) k a p (s : cli K) :
  c_mem s = m → strs !! k = Some a → ptr_of k = p →
  (write_stderr l1;; write_cstr_stderr fuel p;; write_stderr l2;; exit (A := Stack.DirectProgram) status) s
  = exit_with status (stderr [l1; str_of k; l2]) s.
Proof.
  intros Hm Ha Hp. destruct (arg_at k a Ha) as (p' & _ & Hpo & Hne & Hc & _ & Hf & Hl).
  rewrite Hp in Hpo. subst p'. unfold write_stderr, write_cstr_stderr.
  erewrite st_bind_run by apply write_fd_run.
  erewrite st_bind_run by (apply (write_cstr_run 2 p a); (done || by right)).
  erewrite st_bind_run by apply write_fd_run.
  rewrite (str_of_eq k a Ha). rewrite !emit_emit. done.
Qed.

Lemma help_run (s : cli K) a :
  c_mem s = m → strs !! 0%nat = Some a →
  (program ← on_mem (load64 argv); print_help fuel program;; exit (A := Stack.DirectProgram) 0) s = perform Help s.
Proof.
  intros Hm Ha. destruct (arg_at 0 a Ha) as (p & _ & _ & Hne & Hc & Hload & Hf & Hl).
  unfold Stack.add in Hload. rewrite Z.mul_0_r, Z.add_0_r in Hload.
  erewrite st_bind_run by (apply cli_mem_run; [done|exact Hload]).
  unfold print_help, write_stdout, write_cstr_stdout. rewrite st_bind_assoc.
  erewrite st_bind_run by apply write_fd_run. rewrite st_bind_assoc.
  erewrite st_bind_run by (apply (write_cstr_run 1 p a); (done || by left)).
  erewrite st_bind_run by apply write_all_run.
  rewrite !emit_emit. simpl. unfold exit_with. by rewrite (str_of_eq 0 a Ha).
Qed.

Lemma with_value_run k p a (kont : Z → st (cli K) (result Z Stack.DirectProgram)) (s : cli K) :
  c_mem s = m → strs !! k = Some a → ptr_of k = p →
  with_value fuel argc argv (Z.of_nat k) p kont s
  = match drop (S k) strs with [] => perform (Missing k) s | _ :: _ => kont (ptr_of (k + 1)) s end.
Proof.
  intros Hm Ha Hp. unfold with_value, option_value. rewrite st_bind_assoc.
  pose proof (args_len Hargs) as Hlen. pose proof args_same_len as Hsame.
  pose proof (lookup_lt_Some _ _ _ Ha) as Hk. unfold zlen in Hlen.
  erewrite st_bind_run by (apply st_lift_run, uadd_small; lia).
  destruct (drop (S k) strs) as [|c rest] eqn:Hrest.
  - assert (length strs ≤ S k)%nat as Hend.
    { apply (f_equal length) in Hrest. rewrite length_drop in Hrest. simpl in Hrest. lia. }
    unfold argc, zlen. destruct (Z.leb_spec (Z.of_nat (length ptrs)) (Z.of_nat k + 1)); [|lia].
    rewrite st_bind_ret. unfold missing_option_value. by apply (quote_run 1 _ _ k a p).
  - assert (strs !! S k = Some c) as Hc by (rewrite <-(Nat.add_0_r (S k)), <-lookup_drop, Hrest; done).
    pose proof (lookup_lt_Some _ _ _ Hc) as Hk'.
    unfold argc, zlen. destruct (Z.leb_spec (Z.of_nat (length ptrs)) (Z.of_nat k + 1)); [lia|].
    destruct (arg_at (S k) c Hc) as (p' & _ & Hpo & _ & _ & Hload & _).
    rewrite st_bind_assoc. replace (Z.of_nat k + 1) with (Z.of_nat (S k)) by lia.
    erewrite st_bind_run by (apply cli_mem_run; [done|exact Hload]).
    rewrite st_bind_ret. replace (k + 1)%nat with (S k) by lia. by rewrite Hpo.
Qed.

(** The argument at a position and those behind it. *)
Lemma drop_cons k a rest : drop k strs = a :: rest →
  strs !! k = Some a ∧ drop (S k) strs = rest ∧ ∀ x r, rest = x :: r → drop (k + 2) strs = r.
Proof.
  intros Hdrop. assert (drop (S k) strs = rest) as Hrest by (by rewrite <-Nat.add_1_r, <-drop_drop, Hdrop).
  split_and!; [by rewrite <-(Nat.add_0_r k), <-lookup_drop, Hdrop|done|].
  intros x r Hr. replace (k + 2)%nat with (S k + 1)%nat by lia. by rewrite <-drop_drop, Hrest, Hr.
Qed.

Lemma options_loop_run n k v0 (s : cli K) :
  c_mem s = m → (0 < k)%nat → (0 < length strs)%nat → (length (drop k strs) < n)%nat →
  options_loop fuel n argc argv (Z.of_nat k) (from_option ptr_of 0 v0) s
  = perform (decide_args (drop k strs) k v0) s.
Proof.
  intros Hm Hk0 Hl0. revert k v0 s Hm Hk0.
  pose proof (args_len Hargs) as Hlen. pose proof args_same_len as Hsame. unfold zlen in Hlen.
  destruct (lookup_lt_is_Some_2 strs 0) as [a0 Ha0]; [lia|].
  induction n as [n IH] using lt_wf_ind. intros k v0 s Hm Hk0 Hn. destruct n as [|n]; [lia|].
  cbn [options_loop]. unfold argc at 1, zlen. rewrite Hsame.
  destruct (drop k strs) as [|a rest] eqn:Hdrop.
  { apply (f_equal length) in Hdrop. rewrite length_drop in Hdrop. simpl in Hdrop.
    destruct (Z.ltb_spec (Z.of_nat k) (Z.of_nat (length strs))); [lia|]. cbn [negb].
    by apply (help_run s a0). }
  destruct (drop_cons k a rest Hdrop) as (Ha & Hrest & Hrest2).
  pose proof (lookup_lt_Some _ _ _ Ha) as Hk.
  destruct (Z.ltb_spec (Z.of_nat k) (Z.of_nat (length strs))); [|lia]. cbn [negb].
  destruct (arg_at k a Ha) as (p & Hp & Hpo & Hne & Hc & Hload & Hf & Hl).
  erewrite st_bind_run by (apply cli_mem_run; [done|exact Hload]).
  cbn [decide_args].
  rewrite (is_run "--help" p a) by done. case_bool_decide; [by apply (help_run s a0)|].
  rewrite (is_run "--version" p a) by done. case_bool_decide; [done|].
  rewrite (is_run "--list-diagnostics" p a) by done. case_bool_decide; [done|].
  rewrite (is_run "--list-tunables" p a) by done. case_bool_decide; [done|].
  rewrite (is_run "--verify" p a) by done. case_bool_decide.
  { rewrite (with_value_run k p a) by done. rewrite Hrest. by destruct rest. }
  rewrite (is_run "--list" p a) by done. case_bool_decide.
  { rewrite (with_value_run k p a) by done. rewrite Hrest. by destruct rest. }
  simpl in Hn.
  assert (∀ d v0' r, (0 < d ≤ 2)%nat → drop (k + d) strs = r → (length r < n)%nat →
    options_loop fuel n argc argv (wrapping_add (Z.of_nat k) (Z.of_nat d)) (from_option ptr_of 0 v0') s
    = perform (decide_args r (k + d) v0') s) as Hnext.
  { intros d v0' r Hd <- Hr. unfold wrapping_add. rewrite wrap_small by (unfold in_usize; lia).
    rewrite <-Nat2Z.inj_add. apply IH; (done || lia). }
  assert (∀ v0' x r, rest = x :: r → options_loop fuel n argc argv (wrapping_add (Z.of_nat k) 2) (from_option ptr_of 0 v0') s
    = perform (decide_args r (k + 2) v0') s) as Hnext2.
  { intros v0' x r Hr. rewrite Hr in Hn. apply (Hnext 2%nat); [lia|by eapply Hrest2|simpl in Hn; lia]. }
  rewrite (is_run "--argv0" p a) by done. case_bool_decide.
  { rewrite (with_value_run k p a) by done. rewrite Hrest. destruct rest as [|x r]; [done|].
    change (ptr_of (k + 1)) with (from_option ptr_of 0 (Some (k + 1)%nat)). by eapply Hnext2. }
  unfold consumes_value. erewrite st_bind_run by (apply (any_eq_run p a); (done || apply value_options_chars)).
  case_bool_decide.
  { rewrite (with_value_run k p a) by done. rewrite Hrest. destruct rest as [|x r]; [done|]. by eapply Hnext2. }
  rewrite (is_run "--inhibit-cache" p a) by done. case_bool_decide.
  { apply (Hnext 1%nat); [lia|by rewrite Nat.add_1_r|lia]. }
  erewrite st_bind_run by (apply cli_mem_run; [done|by apply (starts_with_dash_run m p a)]).
  case_bool_decide; [|done]. by apply (quote_run 1 _ _ k a p).
Qed.

Lemma handle_run (s : cli K) :
  c_mem s = m → (0 < length strs)%nat →
  handle_direct_invocation fuel argc argv s = perform (decide_args (drop 1 strs) 1 None) s.
Proof.
  intros Hm Hl. unfold handle_direct_invocation, argc at 1. pose proof args_same_len as Hsame. unfold zlen.
  destruct (lookup_lt_is_Some_2 strs 0) as [a0 Ha0]; [lia|].
  destruct (Z.leb_spec (Z.of_nat (length ptrs)) 1).
  - rewrite drop_ge by lia. by apply (help_run s a0).
  - change 0 with (from_option ptr_of 0 None) at 1. apply (options_loop_run _ 1 None); try done; try lia.
    rewrite length_drop. unfold argc, zlen in *. lia.
Qed.

(** Only a program to run is returned, and nothing is done for it. *)
Lemma perform_returns a (s : cli K) d c :
  perform a s = Ret (Ok d, c) →
  c = s ∧ ∃ i argv0, a = Run i argv0 ∧ d = Stack.mkDirect (Z.of_nat i) (from_option ptr_of 0 argv0).
Proof.
  destruct a as [| | | |i|i|i|i|i argv0]; unfold perform, exit_with, exit; try done.
  all: try by intros (? & ? & _ & [=])%st_bind_Ret_inv.
  intros [= <- <-]. split; [done|]. by exists i, argv0.
Qed.
End perform.

(** The program is one of the arguments. *)
Lemma decide_args_run args i v k o : decide_args args i v = Run k o → (i ≤ k < i + length args)%nat.
Proof.
  remember (length args) as n eqn:Hn. revert args i v Hn. induction n as [n IH] using lt_wf_ind. intros [|a args] i v ->; [done|].
  simpl. repeat (case_bool_decide; [try done|]).
  all: try (destruct args as [|x args]; [done|]; try done).
  all: try (intros H'; apply (IH (length args)) in H'; simpl; try done; simpl; lia).
  all: try (intros H'; apply (IH (S (length args))) in H'; simpl; try done; simpl; lia).
  all: intros [= <- <-]; simpl; lia.
Qed.
End CliOptions.

(** ** A concrete kernel: reads return at most three bytes *)
Record ToyKernel := mkToyKernel { t_disk : gmap (list Z) (list Z); t_fds : gmap Z (list Z) }.
#[export] Instance toy_files : Files ToyKernel := {|
  openat path k :=
    match t_disk k !! path with
    | Some c =>
        let fd := fresh (dom (t_fds k)) in
        Ret (Some fd, mkToyKernel (t_disk k) (<[fd := c]> (t_fds k)))
    | None => Ret (None, k)
    end;
  pread64 fd n off k :=
    match t_fds k !! fd with
    | Some c => Ret (Some (take (Z.to_nat (Z.min n 3)) (drop (Z.to_nat off) c)), k)
    | None => Ret (None, k)
    end;
  close_fd fd k := Ret (tt, mkToyKernel (t_disk k) (delete fd (t_fds k))) |}.
#[export] Program Instance toy_files_spec : FilesSpec ToyKernel := {| disk := t_disk; fds := t_fds |}.
Next Obligation.
  intros path k. cbn [openat toy_files]. destruct (t_disk k !! path); [|done].
  eexists _, _. split_and!; [done| |done|done].
  apply not_elem_of_dom. apply is_fresh.
Qed.
Next Obligation.
  intros fd n off k c Hfd Hn Ho. cbn [pread64 toy_files]. rewrite Hfd. eexists. split; [done|].
  pose proof (length_take (drop (Z.to_nat off) c) (Z.to_nat (Z.min n 3))) as Ht. rewrite length_drop in Ht.
  unfold zlen. split_and!.
  - intros Hc. apply nil_length_inv. lia.
  - intros Hc Hnil. rewrite Hnil in Ht. simpl in Ht. lia.
  - rewrite length_take. set (l := drop (Z.to_nat off) c). set (j := Z.to_nat (Z.min n 3)).
    destruct (decide (j ≤ length l)%nat) as [Hj|Hj]; [by rewrite Nat.min_l by lia|].
    rewrite Nat.min_r by lia. by rewrite !take_ge by lia.
  - lia.
Qed.
Next Obligation. intros fd k. eexists. split; [done|]. by split. Qed.

Module CliProps.
Import Machine CStr Cli CliSpec CliInspect CliOptions.

(** ** Decimal output *)
Definition digit (d : Z) : Prop := 48 ≤ d ≤ 57.
Definition decimal (ds : list Z) : Z := foldl (λ a d, 10 * a + (d - 48)) 0 ds.

Lemma decimal_snoc ds d : decimal (ds ++ [d]) = 10 * decimal ds + (d - 48).
Proof. unfold decimal. by rewrite foldl_app. Qed.

Lemma decimal_loop_run `{!Build} j fuel v index digits :
  0 ≤ v < 10 ^ Z.of_nat j → Z.of_nat j ≤ index ≤ 20 → (j < fuel)%nat →
  ∃ p, decimal_loop fuel v index digits = Ret (p ++ digits) ∧ Forall digit p ∧ decimal p = v
    ∧ head p ≠ Some 48 ∧ (v = 0 ↔ p = []) ∧ (length p ≤ j)%nat.
Proof.
  revert fuel v index digits. induction j as [|j IH]; intros fuel v index digits Hv Hi Hf;
    (destruct fuel as [|fuel]; [lia|]); cbn [decimal_loop].
  { assert (v = 0) as -> by (simpl in Hv; lia). exists []. simpl. by split_and!. }
  destruct (Z.eqb_spec v 0) as [->|Hv0]; [exists []; simpl; split_and!; try done; lia|].
  rewrite usub_small by lia. rewrite bind_Ret, decide_True by lia.
  assert (0 ≤ v / 10 < 10 ^ Z.of_nat j) as Hd.
  { split; [apply Z.div_pos; lia|]. apply Z.div_lt_upper_bound; [lia|].
    rewrite Nat2Z.inj_succ, Z.pow_succ_r in Hv by lia. lia. }
  assert (as_u8 (v mod 10) = v mod 10) as Hm.
  { unfold as_u8. apply Z.mod_small. pose proof (Z.mod_pos_bound v 10). lia. }
  rewrite Hm. destruct (IH fuel (v / 10) (index - 1) (48 + v mod 10 :: digits) Hd) as (p & Hp & Hall & Hdec & Hhd & Hnil & Hlen); [lia|lia|].
  pose proof (Z.mod_pos_bound v 10). pose proof (Z.div_mod v 10).
  exists (p ++ [48 + v mod 10]). split_and!.
  - by rewrite <-app_assoc.
  - apply Forall_app. split; [done|]. constructor; [unfold digit; lia|constructor].
  - rewrite decimal_snoc, Hdec. lia.
  - destruct p as [|x p]; [|done]. simpl. assert (v / 10 = 0) by tauto. intros [= Heq]. lia.
  - split; [done|]. intros Hn%(f_equal length). rewrite length_app in Hn. simpl in Hn. lia.
  - rewrite length_app. simpl. lia.
Qed.

(** The decimal output of a machine word is one write of at most twenty
    digits that read back to the number, with no leading zero; the buffer of
    twenty digits is never overrun. *)
Theorem decimal_roundtrip `{!Files K, !Build} v (s : cli K) :
  in_usize v →
  ∃ ds, write_decimal v s = Ret (tt, emit s [(1, ds)])
    ∧ Forall digit ds ∧ decimal ds = v ∧ (length ds ≤ 20)%nat ∧ (head ds = Some 48 → ds = [48]).
Proof.
  intros Hv. unfold write_decimal. destruct (Z.eqb_spec v 0) as [->|Hv0].
  { exists [48]. split_and!; [done| |done|simpl; lia|done]. constructor; [unfold digit; lia|constructor]. }
  destruct (decimal_loop_run 20 22 v 20 []) as (p & Hp & Hall & Hdec & Hhd & _ & Hlen); [|lia|lia|].
  { unfold in_usize in Hv. change (10 ^ Z.of_nat 20) with 100000000000000000000. lia. }
  exists p. rewrite app_nil_r in Hp. split_and!; try done.
  by erewrite st_bind_run by (apply st_lift_run; exact Hp).
Qed.
Definition toy_build : Build := Build_Build true X86_64.
Lemma decimal_roundtrip_witness :
  ∃ ds, write_decimal (K := ToyKernel) (H := toy_build) 1024 (mkCli (λ _, None) [] (mkToyKernel ∅ ∅))
        = Ret (tt, mkCli (λ _, None) [(1, ds)] (mkToyKernel ∅ ∅)) ∧ decimal ds = 1024.
Proof.
  destruct (decimal_roundtrip (H := toy_build) 1024 (mkCli (λ _, None) [] (mkToyKernel ∅ ∅))) as (ds & H1 & _ & H2 & _).
  - apply (bool_decide_unpack _). by vm_compute.
  - exists ds. by split.
Defined.

(** C22. A direct invocation does what its arguments say: the pointer walk over
    the argument vector ends, and equals the decision on the argument strings:
    the first word that is not an option of the loader is the program, with the
    last [--argv0] in force; an option without its value, and an unknown
    option, are reported on the standard error and exit with status 1. *)
Theorem direct_options `{!Files K, !Build} fuel m argv ptrs strs (s : cli K) :
  args_at fuel m argv ptrs strs → c_mem s = m → (0 < length strs)%nat →
  handle_direct_invocation fuel (zlen ptrs) argv s
  = perform fuel ptrs strs (decide_args (drop 1 strs) 1 None) s.
Proof. intros Ha Hm Hl. by eapply handle_run. Qed.

(** argv = ["ld.so", "--argv0", "x", "a"] at 1000, the strings at 2000. *)
Definition w_strs : list (list Z) := [b "ld.so"; b "--argv0"; b "x"; b "a"].
Definition w_ptrs : list Z := [2000; 2006; 2014; 2016].
Definition w_mem : mem :=
  write (of_bytes 1000 (concat (le_encode 8 <$> w_ptrs))) 2000 (concat ((λ s, s ++ [0]) <$> w_strs)).
Lemma bytes_at_check m a l : forallb (λ '(i, x), bool_decide (m (a + Z.of_nat i) = Some x)) (imap pair l) = true → bytes_at m a l.
Proof.
  intros H i x Hi. rewrite forallb_forall in H.
  specialize (H (i, x)). apply bool_decide_eq_true in H; [done|].
  apply list_elem_of_In, list_elem_of_lookup. exists i. by rewrite list_lookup_imap, Hi.
Qed.
Lemma w_args : args_at 10 w_mem 1000 w_ptrs w_strs.
Proof.
  split.
  - by vm_compute.
  - intros i p Hp. assert (i < 4)%nat as Hi by (by apply lookup_lt_Some in Hp).
    assert (Forall (λ '(i, p), w_ptrs !! i = Some p → word_at w_mem (Stack.add 1000 (Z.of_nat i)) p ∧ in_usize p ∧ p ≠ 0)
      (imap pair w_ptrs)) as Hall.
    { repeat (constructor; [intros _; split_and!; [apply bytes_at_check; by vm_compute|by apply (bool_decide_unpack _); vm_compute|done]|]).
      constructor. }
    rewrite Forall_forall in Hall. apply (Hall (i, p)); [|done].
    apply list_elem_of_lookup. exists i. by rewrite list_lookup_imap, Hp.
  - repeat (constructor; [split; [by apply (bool_decide_unpack _); vm_compute|apply bytes_at_check; by vm_compute]|]).
    constructor.
  - apply (bool_decide_unpack _). by vm_compute.
Qed.
Lemma direct_options_witness :
  let s := mkCli w_mem [] (mkToyKernel ∅ ∅) in
  handle_direct_invocation (H := toy_build) 10 4 1000 s = Ret (Ok (Stack.mkDirect 3 2014), s).
Proof.
  intros s. change 4 with (zlen w_ptrs). rewrite (direct_options 10 w_mem 1000 w_ptrs w_strs s w_args eq_refl).
  - by vm_compute.
  - by vm_compute; lia.
Defined.

(** C26. Inspecting a file through short positioned reads is parsing its whole
    contents: the load segments (the first sixteen), the last dynamic segment,
    its entries up to the null entry, the first sixty-four needed names and the
    file offset of the string table; each malformed file gets its own error.
    The descriptor is closed on every path, and a file that cannot be opened is
    reported as such. *)
Theorem inspect_refines `{FS : FilesSpec K, !Build} fuel p path (s : cli K) :
  p ≠ 0 → cstr_at (c_mem s) p path → (length path < fuel)%nat → zlen path < 2 ^ 64 →
  (∀ c, disk (c_kernel s) !! path = Some c → Forall is_byte c ∧ headers_fit c ∧ offsets_fit c) →
  ∃ k', inspect fuel p s
        = Ret (from_option inspect_file (Err Open) (disk (c_kernel s) !! path), mkCli (c_mem s) (c_writes s) k')
    ∧ fds k' = fds (c_kernel s) ∧ disk k' = disk (c_kernel s).
Proof.
  intros Hp Hs Hf Hl Hc. unfold inspect, open. destruct (Z.eqb_spec p 0); [done|].
  destruct s as [mm w k]. cbn [c_mem c_writes c_kernel] in *.
  rewrite st_bind_assoc.
  erewrite st_bind_run by (apply (cli_mem_run mm); [done|by apply to_bytes_run]).
  pose proof (openat_spec path k) as Ho.
  destruct (disk k !! path) as [c|] eqn:Hd; simpl from_option.
  - destruct Ho as (fd & k1 & Ho & Hfresh & Hfds & Hdisk). destruct (Hc c eq_refl) as (Hby & Hh & Hoff).
    erewrite st_bind_run by (apply on_kernel_run; exact Ho). cbv iota.
    erewrite st_bind_run.
    2: { apply on_kernel_run, (inspect_fd_run fd k1 c); [rewrite Hfds; apply lookup_insert_eq|done..]. }
    destruct (close_spec fd k1) as (k2 & Hk2 & Hfds2 & Hdisk2).
    erewrite st_bind_run by (apply on_kernel_run; exact Hk2).
    exists k2. split_and!; [done| |by rewrite Hdisk2].
    rewrite Hfds2, Hfds. by rewrite delete_insert_id.
  - erewrite st_bind_run by (apply on_kernel_run; exact Ho).
    exists k. by split_and!.
Qed.

(** An object with one segment, the dynamic section at 176 and the string
    table at 240; it needs the library whose name is at 7. *)
Definition w_ehdr : list Z :=
  [0x7f; 69; 76; 70; 2; 1; 1; 0] ++ replicate 8 0 ++ le_encode 2 3 ++ le_encode 2 62 ++ le_encode 4 1
  ++ le_encode 8 0 ++ le_encode 8 64 ++ le_encode 8 0 ++ le_encode 4 0 ++ le_encode 2 64 ++ le_encode 2 56
  ++ le_encode 2 2 ++ replicate 6 0.
Definition w_phdr (ty off va sz : Z) : list Z :=
  le_encode 4 ty ++ le_encode 4 0 ++ le_encode 8 off ++ le_encode 8 va ++ le_encode 8 va ++ le_encode 8 sz
  ++ le_encode 8 sz ++ le_encode 8 0.
Definition w_dyn (d : Z * Z) : list Z := le_encode 8 d.1 ++ le_encode 8 d.2.
Definition w_file : list Z :=
  w_ehdr ++ w_phdr PT_LOAD 0 0x1000 260 ++ w_phdr PT_DYNAMIC 176 0x10b0 64
  ++ concat (w_dyn <$> [(DT_NEEDED, 7); (DT_STRTAB, 0x10f0); (DT_STRSZ, 20); (0, 0)]) ++ replicate 20 0.
Lemma inspect_refines_witness :
  let k := mkToyKernel {[b "a" := w_file]} ∅ in
  let s := mkCli (of_bytes 100 (b "a" ++ [0])) [] k in
  ∃ k', inspect (H := toy_build) 5 100 s = Ret (Ok (mkInfo [7] 240 20), mkCli (c_mem s) [] k') ∧ fds k' = ∅.
Proof.
  intros k s. assert (t_disk k !! b "a" = Some w_file) as Hk by apply lookup_insert_eq.
  destruct (inspect_refines (H := toy_build) 5 100 (b "a") s) as (k' & H1 & H2 & _).
  - done.
  - split; [by apply (bool_decide_unpack _); vm_compute|apply bytes_at_check; by vm_compute].
  - by vm_compute; lia.
  - by vm_compute.
  - intros c Hc. change (disk (c_kernel s)) with (t_disk k) in Hc. rewrite Hk in Hc. injection Hc as <-. split_and!.
    + by apply (bool_decide_unpack _); vm_compute.
    + intros h Hh. assert (bytes_in w_file 0 64 = Some w_ehdr) as He by (by vm_compute).
      rewrite He in Hh. injection Hh as <-. by vm_compute.
    + intros h ps Hh Hps. assert (bytes_in w_file 0 64 = Some w_ehdr) as He by (by vm_compute).
      rewrite He in Hh. injection Hh as <-.
      assert (phdr_entries w_file w_ehdr = Some [w_phdr PT_LOAD 0 0x1000 260; w_phdr PT_DYNAMIC 176 0x10b0 64]) as Hp by (by vm_compute).
      rewrite Hp in Hps. injection Hps as <-. split; [by vm_compute|].
      apply Forall_forall. apply (bool_decide_unpack _). by vm_compute.
  - exists k'. split; [|exact H2]. change (disk (c_kernel s)) with (t_disk k) in H1. rewrite Hk in H1. rewrite H1. by vm_compute.
Defined.
End CliProps.
