(* ===== verification/CliReturns.v ===== *)
(** * Every direct invocation returns (rtld/impl/src/cli.rs)

    The options of Cli.v end, whatever the files hold that they name and
    whatever the system calls on them answer: no option panics, faults or loops. *)

From S2P Require Import Prelude Machine CStr LinkMap Stack Cli.

(** Every call on files returns, success or error. *)
Class FilesReturn (K : Type) `{!Files K} : Prop := {
  openat_returns path k : ∃ o k', openat path k = Ret (o, k');
  pread64_returns fd n off k : ∃ o k', pread64 fd n off k = Ret (o, k');
  close_returns fd k : ∃ k', close_fd fd k = Ret (tt, k') }.

Module CliReturns.
Import Machine CStr Cli CliSpec CliInspect CliOptions.

(** From a state with [I] the step returns, to such a state, with a result as [Q] says. *)
Definition returns {S A} (I : S → Prop) (m : st S A) (Q : A → Prop) : Prop :=
  ∀ s, I s → ∃ a s', m s = Ret (a, s') ∧ I s' ∧ Q a.

Section logic.
Context {S : Type} (I : S → Prop).
Lemma returns_ret {A} (a : A) (Q : A → Prop) : Q a → returns I (mret a) Q.
Proof. intros Ha s Hs. by exists a, s. Qed.
Lemma returns_bind {A B} (m : st S A) (k : A → st S B) (Q : A → Prop) (R : B → Prop) :
  returns I m Q → (∀ a, Q a → returns I (k a) R) → returns I (m ≫= k) R.
Proof.
  intros Hm Hk s Hs. destruct (Hm s Hs) as (a & s1 & H1 & Hs1 & Ha).
  erewrite st_bind_run by exact H1. by apply (Hk a Ha s1).
Qed.
Lemma returns_lift {A} (o : outcome A) (Q : A → Prop) : (∃ a, o = Ret a ∧ Q a) → returns I (st_lift o) Q.
Proof. intros (a & -> & Ha) s Hs. by exists a, s. Qed.
Lemma returns_weaken {A} (m : st S A) (Q R : A → Prop) : returns I m Q → (∀ a, Q a → R a) → returns I m R.
Proof. intros Hm HQ s Hs. destruct (Hm s Hs) as (a & s' & ? & ? & ?). exists a, s'. auto. Qed.
Lemma returns_try {E A B} (m : st S (result E A)) (k : A → st S (result E B)) (Q : A → Prop) :
  returns I m (λ r, ∀ a, r = Ok a → Q a) → (∀ a, Q a → returns I (k a) (λ _, True)) → returns I (try_res k m) (λ _, True).
Proof. intros Hm Hk. eapply returns_bind; [exact Hm|]. intros [a|e] Ha; [by apply Hk, Ha|by apply returns_ret]. Qed.
End logic.

Section returns.
Context {K : Type} {FI : Files K} {FR : FilesReturn K} {BU : Build}.
Hypothesis release_build : overflow_checks = false.
Let any : K → Prop := λ _, True.

Lemma u_arith_returns z : ∃ v, u_arith z = Ret v.
Proof. unfold u_arith. rewrite release_build. destruct (decide _); by eexists. Qed.

Lemma pread_loop_returns fuel fd n off buf : 0 ≤ n → (Z.to_nat n < fuel)%nat →
  returns any (pread_loop fuel fd n off buf) (λ o, ∀ l, o = Some l → zlen l = zlen buf + n).
Proof.
  revert n off buf. induction fuel as [|fuel IH]; intros n off buf Hn Hf; [lia|]. cbn [pread_loop].
  destruct (Z.eqb_spec n 0) as [->|Hn0]; [apply returns_ret; intros l [= <-]; lia|].
  unfold try_some. apply (returns_bind _ _ _ (λ _, True)).
  { intros k _. destruct (pread64_returns fd n off k) as (o & k' & H). by exists o, k'. }
  intros [bytes|] _; [|by apply returns_ret]. cbv zeta. pose proof (zlen_nonneg bytes).
  destruct (Z.eqb_spec (zlen bytes) 0); [by apply returns_ret|]. destruct (Z.ltb_spec n (zlen bytes)); [by apply returns_ret|].
  cbn [orb]. eapply returns_weaken; [apply IH; lia|]. intros o Ho l Hl. rewrite (Ho l Hl), zlen_app. lia.
Qed.
Lemma pread_exact_returns fd n off : 0 ≤ n →
  returns any (pread_exact fd n off) (λ o, ∀ l, o = Some l → zlen l = n).
Proof. intros Hn. eapply returns_weaken; [apply pread_loop_returns; lia|]. intros o Ho l Hl. by rewrite (Ho l Hl). Qed.

Lemma scan_phdr_returns p acc : zlen p = 56 → ∃ acc', scan_phdr p acc = Ret acc'.
Proof. intros Hl. rewrite scan_phdr_run by done. by eexists. Qed.
Lemma phdr_loop_returns n fd phoff phentsize i acc : returns any (phdr_loop n fd phoff phentsize i acc) (λ _, True).
Proof.
  revert i acc. induction n as [|n IH]; intros i acc; cbn [phdr_loop]; [by apply returns_ret|].
  apply (returns_bind _ _ _ (λ _, True)); [apply returns_lift; destruct (u_arith_returns (i * phentsize)) as [v Hv]; by exists v|].
  intros step _. apply (returns_bind _ _ _ (λ _, True)); [apply returns_lift; destruct (u_arith_returns (phoff + step)) as [v Hv]; by exists v|].
  intros offset _. unfold try_some. eapply returns_bind; [by apply (pread_exact_returns fd 56 offset)|].
  intros [p|] Hp; [|by apply returns_ret]. apply (returns_bind _ _ _ (λ _, True)); [|intros; apply IH].
  apply returns_lift. destruct (scan_phdr_returns p acc (Hp p eq_refl)) as [acc' H]. by exists acc'.
Qed.

Lemma dyn_loop_returns n fd off i acc : returns any (dyn_loop n fd off i acc) (λ _, True).
Proof.
  revert i acc. induction n as [|n IH]; intros i acc; cbn [dyn_loop]; [by apply returns_ret|].
  apply (returns_bind _ _ _ (λ _, True)); [apply returns_lift; destruct (u_arith_returns (i * 16)) as [v Hv]; by exists v|].
  intros step _. apply (returns_bind _ _ _ (λ _, True)); [apply returns_lift; destruct (u_arith_returns (off + step)) as [v Hv]; by exists v|].
  intros offset _. unfold try_some. eapply returns_bind; [by apply (pread_exact_returns fd 16 offset)|].
  intros [e|] He; [|by apply returns_ret]. specialize (He e eq_refl). unfold read_i64, read_u64. rewrite !read_le_run by lia.
  apply (returns_bind _ _ _ (λ _, True)); [apply returns_lift; by eexists|]. intros tag _.
  apply (returns_bind _ _ _ (λ _, True)); [apply returns_lift; by eexists|]. intros value _.
  destruct (tag =? DT_NULL); [by apply returns_ret|apply IH].
Qed.

Lemma vaddr_to_offset_returns va ls : ∃ o, vaddr_to_offset va ls = Ret o.
Proof.
  induction ls as [|s ls [o IH]]; [by eexists|]. cbn [vaddr_to_offset]. destruct (_ && _); [|by exists o].
  destruct (u_arith_returns (seg_offset s + (va - vaddr s))) as [v Hv]. unfold uadd. rewrite Hv. by eexists.
Qed.

Lemma check_ehdr_returns h : zlen h = 64 → ∃ r, check_ehdr h = Ret r.
Proof.
  intros Hl. unfold check_ehdr. rewrite slice_Ret by lia. rewrite bind_Ret. destruct (negb _); [by eexists|].
  assert (∀ i, 0 ≤ i < 64 → ∃ x, index h i = Ret x) as Hidx.
  { intros i Hi. unfold index. rewrite decide_True by lia.
    destruct (lookup_lt_is_Some_2 h (Z.to_nat i)) as [x Hx]; [unfold zlen in Hl; lia|]. rewrite Hx. by eexists. }
  destruct (Hidx EI_CLASS) as [c Hc]; [by vm_compute|]. destruct (Hidx EI_DATA) as [d Hd]; [by vm_compute|].
  rewrite Hc, Hd, !bind_Ret. destruct (_ || _); [by eexists|].
  unfold read_u16, read_u64. rewrite !read_le_run by lia. rewrite !bind_Ret. destruct (_ || _); [by eexists|].
  destruct (_ || _); by eexists.
Qed.

Lemma or_read_returns {A} (f : st K (option A)) (Q : A → Prop) :
  returns any f (λ o, ∀ a, o = Some a → Q a) → returns any (or_read f) (λ r, ∀ a, r = Ok a → Q a).
Proof. intros Hf. eapply returns_bind; [exact Hf|]. intros o Ho. apply returns_ret. destruct o; intros a' [= <-]. by apply Ho. Qed.

Lemma inspect_fd_returns fd : returns any (inspect_fd fd) (λ _, True).
Proof.
  unfold inspect_fd. eapply returns_try; [apply or_read_returns; by apply pread_exact_returns|]. intros h Hh.
  eapply (returns_try _ _ _ (λ _, True)); [apply returns_lift; destruct (check_ehdr_returns h Hh) as [r Hr]; by exists r|].
  intros [[phoff phentsize] phnum] _. eapply (returns_try _ _ _ (λ _, True)).
  { apply or_read_returns. eapply returns_weaken; [apply phdr_loop_returns|done]. }
  intros ph _. destruct (_ || _); [by apply returns_ret|]. cbv zeta. eapply (returns_try _ _ _ (λ _, True)).
  { apply or_read_returns. eapply returns_weaken; [apply dyn_loop_returns|done]. }
  intros dy _. destruct (_ || _); [by apply returns_ret|]. apply (returns_bind _ _ _ (λ _, True)).
  { apply returns_lift. destruct (vaddr_to_offset_returns (strtab_vaddr dy) (loads ph)) as [o Ho]. by exists o. }
  intros [o|] _; by apply returns_ret.
Qed.

(** ** The options that read a file *)
Context (fuel : nat) (m : mem) (argv : Z) (ptrs : list Z) (strs : list (list Z)).
Context (Hargs : args_at fuel m argv ptrs strs).
Let here : cli K → Prop := λ s, c_mem s = m.

Lemma write_returns fd l : returns here (write_fd fd l) (λ _, True).
Proof. intros s Hs. by eexists _, _. Qed.
Lemma on_kernel_returns {A} (f : st K A) Q : returns any f Q → returns here (on_kernel f) Q.
Proof.
  intros Hf s Hs. destruct (Hf (c_kernel s) I) as (a & k' & H & _ & Ha). unfold on_kernel. rewrite H. by eexists _, _.
Qed.

Section path.
Context (p : Z) (str : list Z) (Hp : p ≠ 0) (Hstr : cstr_at m p str) (Hf : (length str < fuel)%nat) (Hl : zlen str < 2 ^ 64).

Lemma open_returns : returns here (open fuel p) (λ _, True).
Proof.
  unfold open. destruct (p =? 0); [by apply returns_ret|]. apply (returns_bind _ _ _ (λ _, True)).
  - intros s Hs. exists str, s. split; [|done]. apply (cli_mem_run m); [done|by apply to_bytes_run].
  - intros bytes _. apply on_kernel_returns. intros k _. destruct (openat_returns bytes k) as (o & k' & H). by exists o, k'.
Qed.
Lemma close_fd_returns fd : returns here (close fd) (λ _, True).
Proof. apply on_kernel_returns. intros k _. destruct (close_returns fd k) as (k' & H). by exists tt, k'. Qed.

Lemma inspect_returns : returns here (inspect fuel p) (λ _, True).
Proof.
  eapply returns_bind; [apply open_returns|]. intros [fd|] _; [|by apply returns_ret].
  eapply returns_bind; [apply on_kernel_returns, inspect_fd_returns|]. intros r _.
  eapply returns_bind; [apply close_fd_returns|]. intros _ _. by apply returns_ret.
Qed.
Lemma print_error_returns err : returns here (print_inspect_error fuel p err) (λ _, True).
Proof.
  unfold print_inspect_error. eapply returns_bind; [apply write_returns|]. intros _ _. eapply (returns_bind _ _ _ (λ _, True)).
  { intros s Hs. eexists tt, _. split; [apply (write_cstr_run fuel m 2 p str); (done || by right)|]. by split. }
  intros _ _. eapply returns_bind; [apply write_returns|]. intros _ _. apply write_returns.
Qed.
Lemma verify_returns : returns here (verify fuel p) (λ _, True).
Proof.
  eapply returns_bind; [apply inspect_returns|]. intros [i|err] _; [by apply returns_ret|].
  eapply returns_bind; [apply print_error_returns|]. intros _ _. by apply returns_ret.
Qed.

Lemma print_loop_returns n fd cursor : returns here (print_loop n fd cursor) (λ _, True).
Proof.
  revert cursor. induction n as [|n IH]; intros cursor; cbn [print_loop]; [by apply returns_ret|].
  eapply returns_bind; [by apply on_kernel_returns, (pread_exact_returns fd 1)|]. intros [byte|] Hb; [|by apply returns_ret].
  specialize (Hb byte eq_refl). apply (returns_bind _ _ _ (λ _, True)).
  { apply returns_lift. destruct byte as [|c [|]]; [done| |by unfold zlen in Hb; simpl in Hb; lia]. by exists c. }
  intros c _. destruct (c =? 0); [by apply returns_ret|]. eapply returns_bind; [apply write_returns|]. intros _ _. apply IH.
Qed.
Lemma list_loop_returns fd off size l : returns here (list_loop fd off size l) (λ _, True).
Proof.
  induction l as [|x l IH]; cbn [list_loop]; [by apply returns_ret|].
  eapply returns_bind; [apply write_returns|]. intros _ _. apply (returns_bind _ _ _ (λ _, True)).
  { apply returns_lift. destruct (u_arith_returns (off + x)) as [v Hv]. by exists v. }
  intros o _. eapply (returns_bind _ _ _ (λ _, True)).
  { unfold print_string_from_file. apply (returns_bind _ _ _ (λ _, True)); [|intros; apply print_loop_returns].
    apply returns_lift. destruct (u_arith_returns (o + size)) as [v Hv]. by exists v. }
  intros _ _. eapply returns_bind; [apply write_returns|]. intros _ _. exact IH.
Qed.
Lemma list_needed_returns : returns here (list_needed fuel p) (λ _, True).
Proof.
  eapply returns_bind; [apply inspect_returns|]. intros [i|err] _.
  2: { eapply returns_bind; [apply print_error_returns|]. intros _ _. by apply returns_ret. }
  eapply returns_bind; [apply open_returns|]. intros [fd|] _.
  2: { eapply returns_bind; [apply print_error_returns|]. intros _ _. by apply returns_ret. }
  eapply returns_bind; [apply list_loop_returns|]. intros _ _. eapply returns_bind; [apply write_returns|]. intros _ _.
  eapply returns_bind; [apply close_fd_returns|]. intros _ _. by apply returns_ret.
Qed.
End path.

(** The files that the options read are named by arguments. *)
Lemma decide_args_file args i v j : decide_args args i v = Verify j ∨ decide_args args i v = ListNeeded j →
  (i ≤ j < i + length args)%nat.
Proof.
  remember (length args) as n eqn:Hn. revert args i v Hn. induction n as [n IH] using lt_wf_ind. intros [|a args] i v ->; [by intros [?|?]|].
  simpl. repeat (case_bool_decide; [try by intros [?|?]|]).
  all: try (destruct args as [|x args]; [by intros [?|?]|]).
  all: try (intros H'; apply (IH (length args)) in H'; simpl; try done; simpl; lia).
  all: try (intros H'; apply (IH (S (length args))) in H'; simpl; try done; simpl; lia).
  all: try by intros [?|?].
  all: intros [[= <-]|[= <-]]; simpl; lia.
Qed.

(** Every option that ends the process does so, with status 0 or 1. *)
Lemma perform_ends s :
  c_mem s = m → (0 < length strs)%nat → let a := decide_args (drop 1 strs) 1 None in
  (∃ i argv0, a = Run i argv0) ∨ ∃ status c, perform fuel ptrs strs a s = Ret (Err status, c) ∧ (status = 0 ∨ status = 1).
Proof.
  intros Hm Hl a.
  assert (∀ i, (a = Verify i ∨ a = ListNeeded i) → ∃ p str, ptr_of ptrs i = p ∧ p ≠ 0 ∧ cstr_at m p str
    ∧ (length str < fuel)%nat ∧ zlen str < 2 ^ 64) as Hfile.
  { intros i Hi%decide_args_file. rewrite length_drop in Hi. destruct (lookup_lt_is_Some_2 strs i) as [str Hs]; [lia|].
    destruct (arg_at fuel m argv ptrs strs Hargs i str Hs) as (p & _ & Hp & Hne & Hc & _ & Hf & Hz). by exists p, str. }
  destruct a as [| | | |i|i|i|i|i o] eqn:Ha; [right..|left; by eexists _, _].
  - eexists _, _. split; [reflexivity|by left].
  - eexists _, _. split; [reflexivity|by left].
  - pose proof (args_len _ _ _ _ _ Hargs). pose proof (zlen_nonneg ptrs).
    destruct (CliProps.decimal_loop_run 20 22 (zlen ptrs) 20 []) as (ds & Hds & _); [lia|lia|lia|].
    unfold perform, print_diagnostics, write_decimal. rewrite Hds.
    destruct (zlen ptrs =? 0); (eexists _, _; split; [reflexivity|by left]).
  - eexists _, _. split; [reflexivity|by left].
  - destruct (Hfile i) as (p & str & <- & Hp & Hc & Hf & Hz); [by left|].
    destruct (verify_returns _ str Hp Hc Hf Hz s Hm) as (ok & c & H & _). exists (if ok then 0 else 1), c.
    cbn [perform]. erewrite st_bind_run by exact H. split; [reflexivity|]. destruct ok; auto.
  - destruct (Hfile i) as (p & str & <- & Hp & Hc & Hf & Hz); [by right|].
    destruct (list_needed_returns _ str Hp Hc Hf Hz s Hm) as (ok & c & H & _). exists (if ok then 0 else 1), c.
    cbn [perform]. erewrite st_bind_run by exact H. split; [reflexivity|]. destruct ok; auto.
  - eexists _, _. split; [reflexivity|by right].
  - eexists _, _. split; [reflexivity|by right].
Qed.
End returns.

#[export] Instance toy_files_return : FilesReturn ToyKernel.
Proof.
  split; cbn [openat pread64 close_fd toy_files].
  - intros path k. destruct (t_disk k !! path); by eexists _, _.
  - intros fd n off k. destruct (t_fds k !! fd); by eexists _, _.
  - intros fd k. by eexists.
Qed.
End CliReturns.
