(* ===== verification/Symbols.v ===== *)
(** * Symbols for libc (rtld/impl/src/symbols/)

    The functions that libc calls in the runtime linker: the hook table of
    <dlfcn.h> with [dlinfo] and its cache of origins (dlfcn.rs), the default
    search paths (serinfo.rs), the tunables (tunables.rs), the error hooks
    (error.rs) and the forwarding entries (find.rs, cpu.rs, audit.rs,
    debug.rs). *)

From S2P Require Import Prelude Machine Layout CStr LinkMap.

Module Symbols.
Import Machine Layout CStr.

(** [rposition] of a byte. *)
Fixpoint rposition_from (i : nat) (byte : Z) (l : list Z) : option nat :=
  match l with
  | [] => None
  | x :: l =>
      match rposition_from (S i) byte l with
      | Some j => Some j
      | None => if x =? byte then Some i else None
      end
  end.
Definition rposition (byte : Z) (l : list Z) : option nat := rposition_from 0 byte l.

Definition origin_from_name (name : list Z) : list Z :=
  match rposition 47 name with
  | Some O => take 1 name
  | Some i => take i name
  | None => if bool_decide (name = []) then [] else [46]
  end.

(** An entry of the cache; the origin is a [CString] at [origin_ptr]. *)
Record OriginCacheEntry := mkEntry { link_map_key : Z; name_key : Z; origin_ptr : Z }.

(** Memory, the link maps, [ORIGIN_CACHE], and what the rest of the crate
    keeps (the registry, the TLS modules). *)
Record Sym (R : Type) := mkSym {
  mem_of : mem; maps_of : gmap Z LinkMap; cache_of : list OriginCacheEntry; rest_of : R }.
Arguments mkSym {R} _ _ _ _.
Arguments mem_of {R} _.
Arguments maps_of {R} _.
Arguments cache_of {R} _.
Arguments rest_of {R} _.
End Symbols.

(** What this component asks of the others: the C API of the crate, the link
    map of a handle, TLS lookup, and the allocation of a C string. *)
Class DlApiCalls (R : Type) := {
  api_dlopen_with_caller : Z → Z → Z → st (Symbols.Sym R) Z;
  api_dlclose : Z → st (Symbols.Sym R) Z;
  api_dlsym_with_caller : Z → Z → Z → st (Symbols.Sym R) Z;
  api_dlerror : st (Symbols.Sym R) Z;
  api_dladdr : Z → Z → st (Symbols.Sym R) Z;
  api_dl_find_dso_for_object : Z → st (Symbols.Sym R) Z;
  api_dl_find_object : Z → Z → st (Symbols.Sym R) Z;
  api_handle_link_map : Z → st (Symbols.Sym R) Z;
  api_tls_get_addr_soft : Z → st (Symbols.Sym R) Z;
  api_cstring_new : list Z → st Machine.mem Z }.

Module Dlfcn.
Import Machine Layout CStr Symbols.

Section dlfcn.
Context {BU : Build}.
Context {R : Type} `{!DlApiCalls R}.
Context (fuel : nat).

Definition on_mem {A} (f : st mem A) : st (Sym R) A := λ s,
  '(a, m) ← f (mem_of s); Ret (a, mkSym m (maps_of s) (cache_of s) (rest_of s)).
Definition get_cache : st (Sym R) (list OriginCacheEntry) := λ s, Ret (cache_of s, s).
Definition push_cache (e : OriginCacheEntry) : st (Sym R) unit := λ s,
  Ret (tt, mkSym (mem_of s) (maps_of s) (cache_of s ++ [e]) (rest_of s)).
(** [*link_map] *)
Definition link_map_at (p : Z) : st (Sym R) LinkMap := λ s,
  match maps_of s !! p with Some m => Ret (m, s) | None => Fault end.

Definition null : Z := 0.

Definition RTLD_DI_LMID : Z := 1.
Definition RTLD_DI_LINKMAP : Z := 2.
Definition RTLD_DI_SERINFO : Z := 4.
Definition RTLD_DI_SERINFOSIZE : Z := 5.
Definition RTLD_DI_ORIGIN : Z := 6.
Definition RTLD_DI_TLS_MODID : Z := 9.
Definition RTLD_DI_TLS_DATA : Z := 10.
Definition RTLD_DI_PHDR : Z := 11.
Definition RTLD_DI_ORIGIN_PATH : Z := 12.

(** ** serinfo.rs *)
Definition DlSerinfo : fields := [("dls_size", mkType 8 8); ("dls_cnt", mkType 4 4)].
Definition DlSerpath : fields := [("dls_name", mkType 8 8); ("dls_flags", mkType 4 4)].
Definition default_library_paths : list (list Z) :=
  (λ s, bytes_of_string s ++ [0]) <$>
  match target_arch with
  | X86_64 => ["/lib/x86_64-linux-gnu"; "/usr/lib/x86_64-linux-gnu"; "/lib"; "/usr/lib"; "/lib64"; "/usr/lib64"]
  | Aarch64 => ["/lib/aarch64-linux-gnu"; "/usr/lib/aarch64-linux-gnu"; "/lib"; "/usr/lib"; "/lib64"; "/usr/lib64"]
  | Riscv64 => ["/lib/riscv64-linux-gnu"; "/usr/lib/riscv64-linux-gnu"; "/lib"; "/usr/lib"; "/lib64"; "/usr/lib64"]
  end%string.
Definition sum_len (paths : list (list Z)) : Z := foldr Z.add 0 (zlen <$> paths).

(** The loop over the paths: [index] and [name] advance together. *)
Fixpoint fill_paths (serpath index name : Z) (paths : list (list Z)) : st mem unit :=
  match paths with
  | [] => mret tt
  | path :: paths =>
      store_bytes name path;;
      write_fields DlSerpath (serpath + index * struct_size DlSerpath) [("dls_name", name); ("dls_flags", 0)];;
      fill_paths serpath (index + 1) (name + zlen path) paths
  end.
Definition _dl_rtld_di_serinfo (serinfo : Z) (counting : bool) : st mem unit :=
  if serinfo =? 0 then mret tt
  else
    let paths := default_library_paths in
    let path_count := zlen paths in
    let strings_size := sum_len paths in
    let total_size := struct_size DlSerinfo + path_count * struct_size DlSerpath + strings_size in
    write_fields DlSerinfo serinfo [("dls_size", total_size); ("dls_cnt", as_u32 path_count)];;
    if counting then mret tt
    else
      let serpath := serinfo + struct_size DlSerinfo in
      let name := serpath + path_count * struct_size DlSerpath in
      fill_paths serpath 0 name paths.

(** ** Origins *)
Definition write_origin (link_map dst : Z) : st (Sym R) Z :=
  if dst =? 0 then mret (-1)
  else
    m ← link_map_at link_map;
    if l_name m =? 0 then on_mem (store8 dst 0);; mret 0
    else
      name ← on_mem (to_bytes fuel (l_name m));
      let origin := origin_from_name name in
      on_mem (store_bytes dst origin);;
      on_mem (store8 (dst + zlen origin) 0);;
      mret 0.

(** [CString::new(origin).expect(..)]: panics on an interior NUL. *)
Definition new_cstring (bytes : list Z) : st (Sym R) Z :=
  if bool_decide (0 ∈ bytes) then st_fail Panic else on_mem (api_cstring_new bytes).

Definition origin_path_ptr (link_map name : Z) : st (Sym R) Z :=
  if name =? 0 then mret null
  else
    cache ← get_cache;
    match snd <$> list_find (λ e, link_map_key e = link_map ∧ name_key e = name) cache with
    | Some entry => mret (origin_ptr entry)
    | None =>
        bytes ← on_mem (to_bytes fuel name);
        ptr ← new_cstring (origin_from_name bytes);
        push_cache (mkEntry link_map name ptr);;
        mret ptr
    end.
Definition write_origin_path (link_map dst : Z) : st (Sym R) Z :=
  if dst =? 0 then mret (-1)
  else
    m ← link_map_at link_map;
    origin ← origin_path_ptr link_map (l_name m);
    on_mem (store64 dst origin);;
    mret 0.

(** ** dlinfo *)
Definition dl_tls_get_addr_soft (link_map : Z) : st (Sym R) Z :=
  if link_map =? 0 then mret null
  else m ← link_map_at link_map; api_tls_get_addr_soft (l_tls_modid m).

Definition dlinfo_link_map (link_map request arg : Z) : st (Sym R) Z :=
  if request =? RTLD_DI_LMID then
    m ← link_map_at link_map; on_mem (store64 arg (l_ns m));; mret 0
  else if request =? RTLD_DI_LINKMAP then on_mem (store64 arg link_map);; mret 0
  else if request =? RTLD_DI_ORIGIN then write_origin link_map arg
  else if request =? RTLD_DI_ORIGIN_PATH then write_origin_path link_map arg
  else if request =? RTLD_DI_TLS_MODID then
    m ← link_map_at link_map; on_mem (store64 arg (l_tls_modid m));; mret 0
  else if request =? RTLD_DI_TLS_DATA then
    m ← link_map_at link_map;
    data ← (if l_tls_modid m =? 0 then mret null else dl_tls_get_addr_soft link_map);
    on_mem (store64 arg data);; mret 0
  else if request =? RTLD_DI_PHDR then
    m ← link_map_at link_map; on_mem (store64 arg (l_phdr m));; mret (l_phnum m)
  else mret (-1).

Definition dlfcn_dlinfo (handle request arg : Z) : st (Sym R) Z :=
  if arg =? 0 then mret (-1)
  else if request =? RTLD_DI_SERINFO then on_mem (_dl_rtld_di_serinfo arg false);; mret 0
  else if request =? RTLD_DI_SERINFOSIZE then on_mem (_dl_rtld_di_serinfo arg true);; mret 0
  else
    link_map ← api_handle_link_map handle;
    if link_map =? 0 then mret (-1) else dlinfo_link_map link_map request arg.

(** ** The hook table *)
Definition dlfcn_dlopen (filename flags caller : Z) : st (Sym R) Z := api_dlopen_with_caller filename flags caller.
Definition dlfcn_dlclose (handle : Z) : st (Sym R) Z := api_dlclose handle.
Definition dlfcn_dlsym (handle name caller : Z) : st (Sym R) Z := api_dlsym_with_caller handle name caller.
Definition dlfcn_dlvsym (handle name _version caller : Z) : st (Sym R) Z := dlfcn_dlsym handle name caller.
Definition dlfcn_dlerror : st (Sym R) Z := api_dlerror.
Definition dlfcn_dladdr (addr info : Z) : st (Sym R) Z := api_dladdr addr info.
Definition dlfcn_dladdr1 (addr info extra_info _flags : Z) : st (Sym R) Z :=
  (if negb (extra_info =? 0) then on_mem (store64 extra_info null) else mret tt);;
  dlfcn_dladdr addr info.
Definition dlfcn_dlmopen (_nsid filename flags caller : Z) : st (Sym R) Z := dlfcn_dlopen filename flags caller.
Definition libc_dlopen_mode (filename flags : Z) : st (Sym R) Z := dlfcn_dlopen filename flags null.
Definition libc_dlsym (handle name : Z) : st (Sym R) Z := dlfcn_dlsym handle name null.
Definition libc_dlvsym (handle name version : Z) : st (Sym R) Z := dlfcn_dlvsym handle name version null.
Definition libc_dlclose (handle : Z) : st (Sym R) Z := dlfcn_dlclose handle.

Record DlfcnHook := mkHook {
  h_dlopen : Z → Z → Z → st (Sym R) Z;
  h_dlclose : Z → st (Sym R) Z;
  h_dlsym : Z → Z → Z → st (Sym R) Z;
  h_dlvsym : Z → Z → Z → Z → st (Sym R) Z;
  h_dlerror : st (Sym R) Z;
  h_dladdr : Z → Z → st (Sym R) Z;
  h_dladdr1 : Z → Z → Z → Z → st (Sym R) Z;
  h_dlinfo : Z → Z → Z → st (Sym R) Z;
  h_dlmopen : Z → Z → Z → Z → st (Sym R) Z;
  h_libc_dlopen_mode : Z → Z → st (Sym R) Z;
  h_libc_dlsym : Z → Z → st (Sym R) Z;
  h_libc_dlvsym : Z → Z → Z → st (Sym R) Z;
  h_libc_dlclose : Z → st (Sym R) Z }.
Definition DLFCN_HOOK : DlfcnHook :=
  mkHook dlfcn_dlopen dlfcn_dlclose dlfcn_dlsym dlfcn_dlvsym dlfcn_dlerror dlfcn_dladdr dlfcn_dladdr1
    dlfcn_dlinfo dlfcn_dlmopen libc_dlopen_mode libc_dlsym libc_dlvsym libc_dlclose.

(** ** find.rs *)
Definition _dl_find_dso_for_object (addr : Z) : st (Sym R) Z := api_dl_find_dso_for_object addr.
Definition _dl_find_object (pc dlfo : Z) : st (Sym R) Z := api_dl_find_object pc dlfo.

(** ** error.rs

    [Err status] is the exit of the process. *)
Definition RTLD_FATAL_EXIT_STATUS : Z := 127.
Definition _dl_signal_error : st (Sym R) (result Z unit) := mret (Err RTLD_FATAL_EXIT_STATUS).
Definition _dl_signal_exception : st (Sym R) (result Z unit) := mret (Err RTLD_FATAL_EXIT_STATUS).
Definition _dl_fatal_printf : st (Sym R) (result Z unit) := mret (Err RTLD_FATAL_EXIT_STATUS).

(** [if !p.is_null() { p.write(v) }] for a value of [n] bytes. *)
Definition write_if (p : Z) (n : nat) (v : Z) : st (Sym R) unit :=
  if negb (p =? 0) then on_mem (store_bytes p (le_encode n v)) else mret tt.
Definition call_operate (operate : option (Z → st (Sym R) unit)) (args : Z) : st (Sym R) unit :=
  match operate with Some f => f args | None => mret tt end.
Definition dl_catch_error (objname errstring mallocedp : Z) (operate : option (Z → st (Sym R) unit)) (args : Z) : st (Sym R) Z :=
  call_operate operate args;;
  write_if objname 8 0;;
  write_if errstring 8 0;;
  write_if mallocedp 1 0;;
  mret 0.
Definition _dl_catch_exception (_exception : Z) (operate : option (Z → st (Sym R) unit)) (args : Z) : st (Sym R) Z :=
  call_operate operate args;; mret 0.

Definition DlException : fields :=
  [("objname", mkType 8 8); ("errstring", mkType 8 8); ("message_buffer", mkType 8 8)].
Definition _dl_exception_free (exception : Z) : st (Sym R) unit :=
  if negb (exception =? 0)
  then on_mem (write_fields DlException exception [("objname", 0); ("errstring", 0); ("message_buffer", 0)])
  else mret tt.
Definition _dl_exception_create (exception objname errstring : Z) : st (Sym R) unit :=
  if negb (exception =? 0)
  then on_mem (write_fields DlException exception [("objname", objname); ("errstring", errstring); ("message_buffer", 0)])
  else mret tt.
Definition _dl_exception_create_format (exception objname fmt : Z) : st (Sym R) unit :=
  _dl_exception_create exception objname fmt.

End dlfcn.
End Dlfcn.

(** ** tunables.rs *)
Module Tunables.
Import Machine.

Inductive TunableDefault := I32 (v : Z) | Usize (v : Z) | TString (p : Z).

Section tunables.
(** The address of the static [EMPTY_TUNABLE_STRING]. *)
Context (EMPTY_TUNABLE_STRING : Z).
Definition zero_string : TunableDefault := TString EMPTY_TUNABLE_STRING.
Definition TUNABLE_DEFAULTS : list TunableDefault :=
  [zero_string; I32 0; I32 0; Usize 0; zero_string; Usize 0; Usize 0; Usize 0; Usize 2048; Usize 0; zero_string;
   I32 0; I32 1048576; I32 50; Usize 0; Usize 0; I32 0; Usize 0; I32 0; Usize 0; Usize 0; I32 0; Usize 0; Usize 0;
   Usize 131072; Usize 0; I32 0; I32 100; I32 1; Usize 41943040; I32 1; I32 2; I32 0; I32 1; Usize 4; Usize 512].
Definition __tunable_is_initialized (_id : Z) : bool := false.
Definition write_default (value : Z) (d : TunableDefault) : st mem unit :=
  match d with
  | I32 v => store32 value v
  | Usize v => store64 value v
  | TString p => store64 value p
  end.
Definition __tunable_get_val (id value : Z) : st mem unit :=
  if value =? 0 then mret tt
  else
    match (if id <? zlen TUNABLE_DEFAULTS then TUNABLE_DEFAULTS !! Z.to_nat id else None) with
    | None => mret tt
    | Some d => write_default value d
    end.
End tunables.
End Tunables.

Module SymbolsProps.
Import Machine Layout CStr Symbols Dlfcn.

(** ** Origins *)
Lemma rposition_from_None i byte l : rposition_from i byte l = None ↔ byte ∉ l.
Proof.
  revert i. induction l as [|x l IH]; intros i; simpl; [split; [intros _; apply not_elem_of_nil|done]|].
  rewrite not_elem_of_cons, <-(IH (S i)). destruct (rposition_from (S i) byte l).
  - split; [done|]. by intros [_ ?].
  - destruct (Z.eqb_spec x byte); naive_solver.
Qed.
Lemma rposition_from_app i byte l k :
  byte ∉ k → rposition_from i byte (l ++ byte :: k) = Some (i + length l)%nat.
Proof.
  intros Hk. revert i. induction l as [|x l IH]; intros i; simpl.
  - rewrite (proj2 (rposition_from_None (S i) byte k)) by done. rewrite Z.eqb_refl. f_equal. lia.
  - rewrite IH. f_equal. lia.
Qed.

(** The directory part: everything before the last slash, the root itself for
    a name in the root, the current directory for a name without a slash. *)
Lemma origin_from_name_run dir base :
  47 ∉ base →
  origin_from_name (dir ++ 47 :: base) = (if bool_decide (dir = []) then [47] else dir)
  ∧ origin_from_name base = (if bool_decide (base = []) then [] else [46]).
Proof.
  intros Hb. unfold origin_from_name, rposition. rewrite rposition_from_app by done.
  rewrite (proj2 (rposition_from_None 0 47 base)) by done. split; [|done].
  destruct dir as [|x dir]; [done|]. cbn [length Nat.add]. rewrite bool_decide_eq_false_2 by done.
  change (S (length dir)) with (length (x :: dir)). by rewrite take_app_length.
Qed.

(** An origin is a C string when the name is one. *)
Lemma origin_chars name : chars name → chars (origin_from_name name).
Proof.
  intros Hc. unfold origin_from_name. destruct (rposition 47 name) as [[|i]|].
  - by apply Forall_take.
  - by apply Forall_take.
  - case_bool_decide; [constructor|]. constructor; [lia|constructor].
Qed.

(** ** Search paths *)
Definition serpath_entry (m : mem) (serpath : Z) (i : nat) (path : list Z) (lo hi : Z) : Prop :=
  ∃ name, struct_rep m (serpath + Z.of_nat i * 16) DlSerpath {["dls_name" := name; "dls_flags" := 0]}
    ∧ bytes_at m name path ∧ lo ≤ name ∧ name + zlen path ≤ hi.

Lemma serpath_ok : fields_ok DlSerpath.
Proof. apply (bool_decide_unpack _). vm_compute. exact I. Qed.
Lemma serinfo_ok : fields_ok DlSerinfo.
Proof. apply (bool_decide_unpack _). vm_compute. exact I. Qed.

Lemma sum_len_nonneg paths : 0 ≤ sum_len paths.
Proof.
  induction paths as [|p paths IH]; [done|]. change (sum_len (p :: paths)) with (zlen p + sum_len paths).
  pose proof (zlen_nonneg p). lia.
Qed.
Lemma sum_len_cons p paths : sum_len (p :: paths) = zlen p + sum_len paths.
Proof. done. Qed.

Lemma fill_paths_run m serpath k name paths :
  mapped m (serpath + Z.of_nat k * 16) (zlen paths * 16) → mapped m name (sum_len paths) →
  serpath + (Z.of_nat k + zlen paths) * 16 ≤ name →
  ∃ m', fill_paths serpath (Z.of_nat k) name paths m = Ret (tt, m')
    ∧ (∀ i path, paths !! i = Some path → serpath_entry m' serpath (k + i) path name (name + sum_len paths))
    ∧ (∀ x, x < serpath + Z.of_nat k * 16 ∨ serpath + (Z.of_nat k + zlen paths) * 16 ≤ x < name
            ∨ name + sum_len paths ≤ x → m' x = m x).
Proof.
  revert m k name. induction paths as [|p paths IH]; intros m k name Hm1 Hm2 Hle; cbn [fill_paths].
  { exists m. split_and!; [done|intros i path Hi; by rewrite lookup_nil in Hi|done]. }
  rewrite sum_len_cons in *. rewrite zlen_cons in *. pose proof (zlen_nonneg p). pose proof (sum_len_nonneg paths).
  pose proof (zlen_nonneg paths).
  erewrite st_bind_run by (apply store_bytes_run; eapply mapped_le; [exact Hm2|lia|lia]).
  set (m1 := write m name p). change (struct_size DlSerpath) with 16.
  destruct (write_fields_run m1 (serpath + Z.of_nat k * 16) DlSerpath ∅ [("dls_name", name); ("dls_flags", 0)])
    as (m2 & Hw & R2 & M2 & O2).
  { exact serpath_ok. }
  { repeat constructor; by eexists; vm_compute. }
  { apply write_mapped. eapply mapped_le; [exact Hm1|lia|]. change (struct_size DlSerpath) with 16. lia. }
  { apply struct_rep_empty. }
  erewrite st_bind_run by exact Hw. change (struct_size DlSerpath) with 16 in O2.
  replace (Z.of_nat k + 1) with (Z.of_nat (S k)) by lia.
  assert (∀ x, mapped m x 1 → mapped m2 x 1) as M12 by (intros x Hx; apply M2; by apply write_mapped).
  destruct (IH m2 (S k) (name + zlen p)) as (m3 & H3 & E3 & O3).
  { eapply mapped_mono; [exact M12|]. eapply mapped_le; [exact Hm1|lia|lia]. }
  { eapply mapped_mono; [exact M12|]. eapply mapped_le; [exact Hm2|lia|lia]. }
  { lia. }
  exists m3. split_and!; [exact H3| |].
  - intros [|i] path Hi; simpl in Hi.
    + injection Hi as <-. exists name. rewrite Nat.add_0_r. split_and!; [| |lia|lia].
      * rewrite updates_union in R2 by (apply (bool_decide_unpack _); vm_compute; exact I).
        rewrite (right_id_L ∅ (∪)) in R2. apply (struct_rep_outside m2); [exact serpath_ok|exact R2|].
        intros x Hx. change (struct_size DlSerpath) with 16 in Hx. apply O3. lia.
      * intros j x Hj. pose proof (lookup_lt_Some _ _ _ Hj). rewrite O3 by (unfold zlen in *; lia).
        rewrite O2 by (unfold zlen in *; lia). by apply write_inside.
    + destruct (E3 i path Hi) as (nm & Hs & Hb & Hlo & Hhi). exists nm.
      replace (k + S i)%nat with (S k + i)%nat by lia. split_and!; [done|done|lia|lia].
  - intros x Hx. rewrite O3 by lia. rewrite O2 by lia. apply write_outside. lia.
Qed.

Section serinfo.
Context {BU : Build}.
Lemma default_paths_len : zlen default_library_paths = 6.
Proof. unfold default_library_paths. by destruct target_arch. Qed.

Definition serinfo_total : Z := 16 + 6 * 16 + sum_len default_library_paths.
Definition serinfo_header : gmap string Z := {["dls_size" := serinfo_total; "dls_cnt" := 6]}.

(** C39. The two-call protocol of RTLD_DI_SERINFOSIZE and RTLD_DI_SERINFO: the
    first call reports a size and a count and touches the header only; in a
    buffer of that size the second call gives the count, and each of the six
    entries points to the null-terminated path inside the buffer; no byte
    outside the buffer changes. *)
Theorem serinfo_roundtrip m p :
  p ≠ 0 →
  (mapped m p 16 →
   ∃ m1, _dl_rtld_di_serinfo p true m = Ret (tt, m1) ∧ struct_rep m1 p DlSerinfo serinfo_header
     ∧ ∀ x, x < p ∨ p + 16 ≤ x → m1 x = m x)
  ∧ (mapped m p serinfo_total →
     ∃ m2, _dl_rtld_di_serinfo p false m = Ret (tt, m2) ∧ struct_rep m2 p DlSerinfo serinfo_header
       ∧ (∀ i path, default_library_paths !! i = Some path →
            serpath_entry m2 (p + 16) i path (p + 16 + 96) (p + serinfo_total))
       ∧ ∀ x, x < p ∨ p + serinfo_total ≤ x → m2 x = m x).
Proof.
  intros Hp. pose proof (sum_len_nonneg default_library_paths) as Hsum.
  unfold _dl_rtld_di_serinfo. destruct (Z.eqb_spec p 0); [done|]. cbv zeta.
  change (struct_size DlSerinfo) with 16. change (struct_size DlSerpath) with 16.
  rewrite default_paths_len. change (as_u32 6) with 6. fold serinfo_total.
  assert (∀ m, mapped m p 16 → ∃ m1, write_fields DlSerinfo p [("dls_size", serinfo_total); ("dls_cnt", 6)] m = Ret (tt, m1)
    ∧ struct_rep m1 p DlSerinfo serinfo_header ∧ (∀ x, mapped m x 1 → mapped m1 x 1)
    ∧ ∀ x, x < p ∨ p + 16 ≤ x → m1 x = m x) as Hhead.
  { intros m' Hm'. destruct (write_fields_run m' p DlSerinfo ∅ [("dls_size", serinfo_total); ("dls_cnt", 6)])
      as (m1 & H1 & R1 & M1 & O1); [exact serinfo_ok|repeat constructor; by eexists; vm_compute|exact Hm'|apply struct_rep_empty|].
    exists m1. split_and!; [exact H1| |exact M1|exact O1].
    rewrite updates_union in R1 by (apply (bool_decide_unpack _); vm_compute; exact I).
    by rewrite (right_id_L ∅ (∪)) in R1. }
  split.
  - intros Hm. destruct (Hhead m Hm) as (m1 & H1 & R1 & _ & O1). exists m1.
    erewrite st_bind_run by exact H1. by split_and!.
  - intros Hm. unfold serinfo_total in Hm at 1.
    destruct (Hhead m) as (m1 & H1 & R1 & M1 & O1); [eapply mapped_le; [exact Hm|lia|lia]|].
    erewrite st_bind_run by exact H1.
    destruct (fill_paths_run m1 (p + 16) 0 (p + 16 + 6 * 16) default_library_paths) as (m2 & H2 & E2 & O2).
    { rewrite default_paths_len. eapply mapped_mono; [exact M1|]. eapply mapped_le; [exact Hm|lia|lia]. }
    { eapply mapped_mono; [exact M1|]. eapply mapped_le; [exact Hm|lia|lia]. }
    { rewrite default_paths_len. lia. }
    exists m2. split_and!; [exact H2| | |].
    + apply (struct_rep_outside m1); [exact serinfo_ok|exact R1|]. intros x Hx.
      change (struct_size DlSerinfo) with 16 in Hx. apply O2. lia.
    + intros i path Hi. replace (p + serinfo_total) with (p + 16 + 6 * 16 + sum_len default_library_paths)
        by (unfold serinfo_total; lia). by apply (E2 i).
    + intros x Hx. unfold serinfo_total in Hx. rewrite O2; [apply O1; lia|].
      rewrite default_paths_len. lia.
Qed.
End serinfo.
Lemma serinfo_roundtrip_witness :
  let BU := Build_Build true X86_64 in
  let m := of_bytes 64 (replicate 200 7) in
  ∃ m2, _dl_rtld_di_serinfo 64 false m = Ret (tt, m2)
    ∧ serpath_entry m2 80 2 (bytes_of_string "/lib" ++ [0]) 176 (64 + serinfo_total).
Proof.
  intros BU m. destruct (serinfo_roundtrip m 64) as [_ H2]; [done|].
  destruct H2 as (m2 & H2 & _ & E2 & _).
  - intros x Hx. unfold m, of_bytes, write. change (zlen (replicate 200 7)) with 200.
    change serinfo_total with 192 in Hx. rewrite decide_True by lia. apply lookup_lt_is_Some.
    rewrite length_replicate. lia.
  - exists m2. split; [exact H2|]. by apply (E2 2%nat).
Defined.

(** ** The cache of origins *)
Section cache.
Context `{DA : DlApiCalls R}.

(** The global allocator, when it succeeds, gives memory that was not in use. *)
Class CStringAlloc : Prop := cstring_alloc bytes m p m' :
  api_cstring_new bytes m = Ret (p, m') →
  p ≠ 0 ∧ bytes_at m' p (bytes ++ [0])
    ∧ (∀ x, p ≤ x ≤ p + zlen bytes → m x = None) ∧ (∀ x, is_Some (m x) → m' x = m x).
Context `{CA : !CStringAlloc}.

Definition cached (s : Sym R) (lm name p : Z) : Prop :=
  snd <$> list_find (λ e, link_map_key e = lm ∧ name_key e = name) (cache_of s) = Some (mkEntry lm name p).

Lemma cached_hit fuel s lm name p :
  name ≠ 0 → cached s lm name p → origin_path_ptr fuel lm name s = Ret (p, s).
Proof.
  intros Hn Hc. unfold origin_path_ptr. destruct (Z.eqb_spec name 0); [done|].
  erewrite st_bind_run by reflexivity. unfold cached in Hc. by rewrite Hc.
Qed.

Lemma cached_miss fuel s lm name bytes :
  name ≠ 0 → snd <$> list_find (λ e, link_map_key e = lm ∧ name_key e = name) (cache_of s) = None →
  cstr_at (mem_of s) name bytes → zlen bytes < 2 ^ 64 → (length bytes < fuel)%nat →
  is_Some (outcome_value (api_cstring_new (origin_from_name bytes) (mem_of s))) →
  ∃ p s', origin_path_ptr fuel lm name s = Ret (p, s') ∧ p ≠ 0 ∧ cstr_at (mem_of s') p (origin_from_name bytes)
    ∧ (∀ x, p ≤ x ≤ p + zlen (origin_from_name bytes) → mem_of s x = None)
    ∧ cached s' lm name p ∧ maps_of s' = maps_of s ∧ (∀ x, is_Some (mem_of s x) → mem_of s' x = mem_of s x).
Proof.
  intros Hn Hc Hs Hl Hf [[p m'] Ha]. unfold origin_path_ptr. destruct (Z.eqb_spec name 0); [done|].
  destruct (api_cstring_new _ _) as [r| | |] eqn:Hnew in Ha; [injection Ha as ->|done..]. rename Hnew into Ha.
  erewrite st_bind_run by reflexivity. rewrite Hc.
  erewrite st_bind_run by (unfold on_mem; rewrite (to_bytes_run _ _ _ _ Hs) by done; reflexivity).
  pose proof (origin_chars bytes (proj1 Hs)) as Ho.
  destruct (cstring_alloc _ _ _ _ Ha) as (Hp & Hb & Hfree & Hm).
  erewrite st_bind_run.
  2: { unfold new_cstring. rewrite bool_decide_eq_false_2.
       - unfold on_mem. cbn [mem_of]. rewrite Ha. reflexivity.
       - intros H0. apply (proj1 (Forall_forall _ _) Ho) in H0. lia. }
  erewrite st_bind_run by reflexivity.
  eexists p, _. split_and!; [done|done|by split|done| |done|done].
  unfold cached. cbn [cache_of]. apply fmap_None, list_find_None in Hc.
  rewrite list_find_app_r by (by apply list_find_None). cbn [list_find].
  rewrite decide_True by done. done.
Qed.

(** The pointer that RTLD_DI_ORIGIN_PATH stores: on the first request for
    an object it is a fresh C string that holds the directory of its name, and
    every later request for the same object stores the same pointer. *)
Theorem origin_path_stable fuel s lm m bytes dst dst' :
  maps_of s !! lm = Some m → l_name m ≠ 0 →
  snd <$> list_find (λ e, link_map_key e = lm ∧ name_key e = l_name m) (cache_of s) = None →
  cstr_at (mem_of s) (l_name m) bytes → zlen bytes < 2 ^ 64 → (length bytes < fuel)%nat →
  is_Some (outcome_value (api_cstring_new (origin_from_name bytes) (mem_of s))) →
  dst ≠ 0 → dst' ≠ 0 → mapped (mem_of s) dst 8 → mapped (mem_of s) dst' 8 →
  ∃ p s1 s2, write_origin_path fuel lm dst s = Ret (0, s1) ∧ write_origin_path fuel lm dst' s1 = Ret (0, s2)
    ∧ word_at (mem_of s1) dst p ∧ word_at (mem_of s2) dst' p ∧ p ≠ 0
    ∧ cstr_at (mem_of s1) p (origin_from_name bytes) ∧ cstr_at (mem_of s2) p (origin_from_name bytes).
Proof.
  intros Hm Hn Hc Hs Hl Hf Ha Hd Hd' Hmd Hmd'. unfold write_origin_path.
  destruct (Z.eqb_spec dst 0); [done|]. destruct (Z.eqb_spec dst' 0); [done|].
  destruct (cached_miss fuel s lm (l_name m) bytes Hn Hc Hs Hl Hf Ha) as (p & s0 & H0 & Hp & Hcs & Hfree & Hcd & Hmaps & Hmem).
  assert (∀ a, mapped (mem_of s) a 8 → mapped (mem_of s0) a 8) as Hmap0
    by (intros a Hma x Hx; rewrite Hmem by (by apply Hma); by apply Hma).
  set (s1 := mkSym (write (mem_of s0) dst (le_encode 8 p)) (maps_of s0) (cache_of s0) (rest_of s0)).
  set (s2 := mkSym (write (mem_of s1) dst' (le_encode 8 p)) (maps_of s0) (cache_of s0) (rest_of s0)).
  assert (∀ a, mapped (mem_of s) a 8 → ∀ x, p ≤ x ≤ p + zlen (origin_from_name bytes) → x < a ∨ a + 8 ≤ x) as Hapart.
  { intros a Hma x Hx. destruct (decide (a ≤ x < a + 8)) as [Hin|]; [|lia].
    destruct (Hma x Hin) as [v Hv]. by rewrite (Hfree x Hx) in Hv. }
  assert (cstr_at (mem_of s1) p (origin_from_name bytes)) as Hcs1.
  { apply (cstr_at_frame (mem_of s0)); [done|]. intros x Hx. apply write_outside. rewrite zlen_le_encode. by apply Hapart. }
  exists p, s1, s2. split_and!; [| |apply word_at_write|apply word_at_write|done|done|].
  - erewrite st_bind_run by (unfold link_map_at; rewrite Hm; reflexivity).
    erewrite st_bind_run by exact H0.
    erewrite st_bind_run by (unfold on_mem; rewrite store64_run by auto; reflexivity). done.
  - assert (maps_of s1 !! lm = Some m) as Hm1 by (unfold s1; cbn [maps_of]; by rewrite Hmaps).
    erewrite st_bind_run by (unfold link_map_at; rewrite Hm1; reflexivity).
    erewrite st_bind_run by (apply (cached_hit fuel s1 lm (l_name m) p); done).
    erewrite st_bind_run by (unfold on_mem; rewrite store64_run by (apply write_mapped; auto); reflexivity). done.
  - apply (cstr_at_frame (mem_of s1)); [done|]. intros x Hx. apply write_outside. rewrite zlen_le_encode. by apply Hapart.
Qed.

(** The cache is keyed by addresses and is never cleared: when another
    object has since been loaded with its link map and its name at the
    addresses of one that was closed, RTLD_DI_ORIGIN_PATH stores the origin of
    the closed object, whatever the new name is. *)
Theorem origin_cache_stale fuel s lm m old new p dst :
  maps_of s !! lm = Some m → l_name m ≠ 0 → cstr_at (mem_of s) (l_name m) new →
  cached s lm (l_name m) p → cstr_at (mem_of s) p (origin_from_name old) →
  origin_from_name new ≠ origin_from_name old → dst ≠ 0 → mapped (mem_of s) dst 8 →
  ∃ s', write_origin_path fuel lm dst s = Ret (0, s') ∧ word_at (mem_of s') dst p
    ∧ ¬ cstr_at (mem_of s) p (origin_from_name new).
Proof.
  intros Hm Hn Hnew Hc Hold Hne Hd Hmd. unfold write_origin_path. destruct (Z.eqb_spec dst 0); [done|].
  exists (mkSym (write (mem_of s) dst (le_encode 8 p)) (maps_of s) (cache_of s) (rest_of s)). split_and!.
  - erewrite st_bind_run by (unfold link_map_at; rewrite Hm; reflexivity).
    erewrite st_bind_run by (by apply cached_hit).
    erewrite st_bind_run by (unfold on_mem; rewrite store64_run by done; reflexivity). done.
  - apply word_at_write.
  - intros Hbad. apply Hne. by eapply cstr_at_inj.
Qed.
End cache.

(** An allocator with one free block at 4096. *)
#[export] Instance toy_calls : DlApiCalls unit := {|
  api_dlopen_with_caller _ _ _ := mret 0; api_dlclose _ := mret 0; api_dlsym_with_caller _ _ _ := mret 0;
  api_dlerror := mret 0; api_dladdr _ _ := mret 0; api_dl_find_dso_for_object _ := mret 0;
  api_dl_find_object _ _ := mret 0; api_handle_link_map h := mret h; api_tls_get_addr_soft _ := mret 0;
  api_cstring_new bytes m :=
    if forallb (λ i, bool_decide (m (4096 + Z.of_nat i) = None)) (seq 0 (S (length bytes)))
    then Ret (4096, write m 4096 (bytes ++ [0])) else Panic |}.
#[export] Instance toy_alloc : CStringAlloc (R := unit).
Proof.
  intros bytes m p m'. cbn [api_cstring_new toy_calls]. destruct (forallb _ _) eqn:Hf; [|done]. intros [= <- <-].
  assert (∀ x, 4096 ≤ x ≤ 4096 + zlen bytes → m x = None) as Hfree.
  { intros x Hx. rewrite forallb_forall in Hf. specialize (Hf (Z.to_nat (x - 4096))).
    apply bool_decide_eq_true in Hf; [rewrite <-Hf; f_equal; lia|]. apply in_seq. unfold zlen in Hx. lia. }
  split_and!; [done|apply write_bytes_at|done|]. intros x [v Hv]. apply write_outside.
  rewrite zlen_app. change (zlen [0]) with 1.
  destruct (decide (4096 ≤ x ≤ 4096 + zlen bytes)) as [Hin|]; [|lia]. by rewrite (Hfree x Hin) in Hv.
Qed.

(** A link map at 64 whose name at 128 is "/a/x"; room for answers at 256. *)
Definition toy_map : LinkMap := LinkMap_new 0 128 0 0 0 0.
Definition toy_mem (name : list Z) : mem := write (of_bytes 256 (replicate 16 0)) 128 (name ++ [0]).
Lemma toy_name name : chars name → cstr_at (toy_mem name) 128 name.
Proof. intros Hc. split; [done|apply write_bytes_at]. Qed.
Lemma toy_room name a : zlen name < 100 → 256 ≤ a ≤ 264 → mapped (toy_mem name) a 8.
Proof.
  intros Hl Ha. apply write_mapped. intros x Hx. unfold of_bytes, write. change (zlen (replicate 16 0)) with 16.
  rewrite decide_True by lia. apply lookup_lt_is_Some. rewrite length_replicate. lia.
Qed.
Lemma origin_path_stable_witness :
  let s := mkSym (toy_mem (bytes_of_string "/a/x")) {[64 := toy_map]} [] tt in
  ∃ p s1 s2, write_origin_path 10 64 256 s = Ret (0, s1) ∧ write_origin_path 10 64 264 s1 = Ret (0, s2)
    ∧ word_at (mem_of s2) 264 p ∧ cstr_at (mem_of s2) p (bytes_of_string "/a").
Proof.
  intros s. destruct (origin_path_stable 10 s 64 toy_map (bytes_of_string "/a/x") 256 264)
    as (p & s1 & s2 & H1 & H2 & _ & H3 & _ & _ & H4).
  - apply lookup_insert_eq.
  - done.
  - done.
  - apply toy_name. apply (bool_decide_unpack _). by vm_compute.
  - by vm_compute.
  - vm_compute. lia.
  - eexists. vm_compute. reflexivity.
  - done.
  - done.
  - apply toy_room; [by vm_compute|lia].
  - apply toy_room; [by vm_compute|lia].
  - exists p, s1, s2. split_and!; [exact H1|exact H2|exact H3|exact H4].
Defined.
(** The cached entry is that of "/a/x"; the object now there is "/b/y". *)
Lemma origin_cache_stale_witness :
  let s := mkSym (write (toy_mem (bytes_of_string "/b/y")) 4096 (bytes_of_string "/a" ++ [0]))
             {[64 := toy_map]} [mkEntry 64 128 4096] tt in
  ∃ s', write_origin_path 10 64 256 s = Ret (0, s') ∧ word_at (mem_of s') 256 4096.
Proof.
  intros s. destruct (origin_cache_stale 10 s 64 toy_map (bytes_of_string "/a/x") (bytes_of_string "/b/y") 4096 256)
    as (s' & H1 & H2 & _).
  - apply lookup_insert_eq.
  - done.
  - split; [by apply (bool_decide_unpack _); vm_compute|].
    apply bytes_at_write_other; [apply write_bytes_at|left; by vm_compute].
  - done.
  - split; [by apply (bool_decide_unpack _); vm_compute|apply write_bytes_at].
  - by vm_compute.
  - done.
  - apply write_mapped, toy_room; [by vm_compute|lia].
  - exists s'. by split.
Defined.
End SymbolsProps.
