(* ===== verification/Rtld.v ===== *)
(** * Startup through the registry (src/runtime/rtld.rs)

    What the runtime linker's bootstrap asks of the crate: linking the mapped
    root, the list of link maps that libc and the debugger get, the lookup of a
    startup symbol, and the finalizers at exit.  The registry is that of
    Manager.v behind the cell of Open.v; the loader crate's operations on
    modules are parameters. *)

From S2P Require Import Prelude Errors LinkMap Manager Open.

(** What the code relies on for names and aliases of the link context: a
    committed module has a key and takes any alias, and neither an alias nor a
    promotion changes the modules, their groups or the leases. *)
Class AliasLaws {Ctx Id Lease Mod : Type} `{ED : EqDecision Id, LC : !LinkCtx Ctx Id Lease Mod}
    (LL : LinkCtxLaws Ctx Id Lease Mod) : Prop := {
  law_key c i : is_Some (ctx_meta (Lease := Lease) (Mod := Mod) c i) →
    is_Some (ctx_module_key (Lease := Lease) (Mod := Mod) c i);
  law_alias c i a : is_Some (ctx_meta (Lease := Lease) (Mod := Mod) c i) →
    ∃ c', ctx_add_alias (Lease := Lease) (Mod := Mod) c i a = Some c'
      ∧ (∀ j, ctx_meta (Lease := Lease) (Mod := Mod) c' j = ctx_meta (Lease := Lease) (Mod := Mod) c j)
      ∧ (∀ j, ctx_load_group (Lease := Lease) (Mod := Mod) c' j = ctx_load_group (Lease := Lease) (Mod := Mod) c j)
      ∧ ctx_global_scope (Id := Id) (Lease := Lease) (Mod := Mod) c' = ctx_global_scope (Id := Id) (Lease := Lease) c
      ∧ outstanding (LinkCtxLaws := LL) c' = outstanding (LinkCtxLaws := LL) c }.

Module Rtld.
Import Open.

Section rtld.
Context {Ctx Id Lease Mod Ext LErr : Type} `{ED : EqDecision Id, LC : !LinkCtx Ctx Id Lease Mod, MA : !ModuleApi Mod}.
Context {BU : Build}.
Context {LK : Linker (World Ctx Lease Mod Ext) Ctx Id Lease LErr}.
Local Abbreviation Mgr := (Manager.Manager (Ctx := Ctx) (Lease := Lease) (Mod := Mod)).
Local Abbreviation Opened := (Manager.OpenedLibrary (Lease := Lease) (Mod := Mod)).
Local Abbreviation W := (World Ctx Lease Mod Ext).

(** The error of a context operation, the raw object's link map ([None]
    without user data), and the loaded module made from it ([from_core] of a
    clone). *)
Context (link_error : LErr).
Context (raw_link_map : Raw → option Z) (from_core : Raw → Mod) (scope_free : Raw → bool).

(** The world, the static [STARTUP_ROOT], and the process arguments. *)
Record rt := mkRt { world : W; STARTUP_ROOT : option Id; ARGC : Z; ARGV : Z; ENVP : Z }.
Definition in_world {A} (m : st W A) : st rt A := λ s,
  '(a, w) ← m (world s); Ret (a, mkRt w (STARTUP_ROOT s) (ARGC s) (ARGV s) (ENVP s)).
Definition set_startup_root (r : option Id) : st rt unit := λ s,
  Ret (tt, mkRt (world s) r (ARGC s) (ARGV s) (ENVP s)).

Definition set_initial_process_state (argc argv envp : Z) : st rt unit := λ s,
  Ret (tt, mkRt (world s) (STARTUP_ROOT s) argc argv envp).

(** ** Registering an object that is already mapped *)
Definition register_loaded (raw : Raw) (flags : OpenFlags.t) : st W (result (Error LErr) Z) :=
  match raw_link_map raw with
  | None => mret (Err (find_lib_error "loaded object is missing link map"))
  | Some link_map =>
      borrow_mut (Manager.register_loaded (scope_free raw) (from_core raw) flags);;
      mret (Ok link_map)
  end.

Definition handle_link_map (handle : Z) : st W Z :=
  o ← borrow_mut (Manager.handle_link_map handle); mret (default 0 o).

(** ** The state that startup publishes *)
Record StartupState := mkStartup { main : Z; maps : list Z; libc_map : Z }.

(** The load address a link map has. *)
Definition l_addr_of (link_maps : gmap Z LinkMap) (map : Z) : outcome Z :=
  match link_maps !! map with Some m => Ret (l_addr m) | None => Fault end.
Definition is_rtld (link_maps : gmap Z LinkMap) (rtld link_map : Z) : outcome bool :=
  if link_map =? rtld then Ret true
  else if rtld =? 0 then Ret false
  else a ← l_addr_of link_maps link_map; b ← l_addr_of link_maps rtld; Ret (a =? b).

(** The loop over the load group. *)
Fixpoint collect (link_maps : gmap Z LinkMap) (rtld : Z) (scope : list Mod) (maps : list Z) (libc_map : Z)
    : outcome (list Z * Z) :=
  match scope with
  | [] => Ret (maps, libc_map)
  | dep :: scope =>
      if negb (is_elf dep) then collect link_maps rtld scope maps libc_map
      else
        let link_map := mod_link_map dep in
        let libc_map := if bool_decide (mod_name dep = bytes_of_string "libc.so.6") then link_map else libc_map in
        skip ← is_rtld link_maps rtld link_map;
        collect link_maps rtld scope (if skip : bool then maps else maps ++ [link_map]) libc_map
  end.

Definition insert_rtld (rtld : Z) (maps : list Z) : list Z :=
  if rtld =? 0 then maps
  else let insert_at := match maps with [] => 0%nat | _ => 1%nat end in
       take insert_at maps ++ rtld :: drop insert_at maps.

(** [promote_global(root)?], [load_group(root)?] *)
Definition startup_state (link_maps : gmap Z LinkMap) (root : Id) (rtld : Z) : st Mgr (result (Error LErr) StartupState) :=
  c ← Manager.ctx;
  match ctx_promote_global c root with
  | None => mret (Err (LoaderError link_error))
  | Some c =>
      Manager.set_ctx c;;
      Manager.register_initial_aliases;;
      c ← Manager.ctx;
      match ctx_load_group c root with
      | None => mret (Err (LoaderError link_error))
      | Some scope =>
          match (m ← head scope; if is_elf m then Some (mod_link_map m) else None) with
          | None => mret (Err (find_lib_error "startup root is missing link map"))
          | Some main =>
              r ← st_lift (collect link_maps rtld scope [] 0);
              mret (Ok (mkStartup main (insert_rtld rtld r.1) r.2))
          end
      end
  end.

(** The last part of the name, after any slash or backslash. *)
Fixpoint after_last_separator (acc name : list Z) : list Z :=
  match name with
  | [] => acc
  | b :: name =>
      if (b =? 47) || (b =? 92) then after_last_separator [] name else after_last_separator (acc ++ [b]) name
  end.
Definition root_key (name : list Z) : list Z :=
  match name with [] => bytes_of_string "main" | _ => after_last_separator [] name end.

(** [open_mapped] that also returns the root its closure was called with. *)
Definition commit_root (flags : OpenFlags.t) (before_init : Id → st W (result (Error LErr) unit))
    (prepared : Prepared) : st W (option Id * result (Error LErr) Opened) :=
  r ← convert_err (relocate (on_relocation flags) prepared);
  match r with
  | Err e => mret (None, Err e)
  | Ok relocated =>
      r ← convert_err (borrow_mut (on_context (publish relocated)));
      match r with
      | Err e => mret (None, Err e)
      | Ok published =>
          let root := root_of published in
          b ← before_init root;
          match b with
          | Err error =>
              r ← borrow_mut (on_context (rollback published));
              mret (Some root, Err (match r with Err e => LoaderError e | Ok _ => error end))
          | Ok _ =>
              i ← initialize published;
              match i with
              | Ok load =>
                  o ← borrow_mut (Manager.open_load (into_parts load).1 (into_parts load).2 flags);
                  mret (Some root, Ok o)
              | Err failed =>
                  e ← borrow_mut (on_context (failed_rollback failed));
                  mret (Some root, Err (LoaderError e))
              end
          end
      end
  end.
Definition open_mapped_root (envp : option (list (list Z))) (request key : list Z) (raw : Raw) (flags : OpenFlags.t)
    (before_init : Id → st W (result (Error LErr) unit)) : st W (option Id * result (Error LErr) Opened) :=
  let flags := env_flags envp flags in
  paths ← force_search_paths envp;
  prepared ← borrow_mut (prepare request flags paths None (Mapped key raw));
  match prepared with
  | Err e => mret (None, Err e)
  | Ok (inl lib) => mret (None, Ok lib)
  | Ok (inr prepared) => commit_root flags before_init prepared
  end.

(** The closure of [link_mapped_root]; the link maps are those of the moment. *)
Context (link_maps_of : Ext → gmap Z LinkMap).
Definition before_root (rtld : Z) (before_init : StartupState → st W (result (Error LErr) unit)) (root : Id)
    : st W (result (Error LErr) unit) :=
  w ← st_get;
  state ←! borrow_mut (startup_state (link_maps_of (rest w)) root rtld); before_init state.

(** [Drop for ModuleLease]: the unload group is dropped after the borrow, and
    dropping it runs finalizers. *)
Context (drop_group : list Id → st W unit).
Definition drop_opened (o : Opened) : st W unit :=
  unloaded ← borrow_mut (Manager.release (Manager.into_lease o)); drop_group unloaded.

Definition link_mapped_root (envp : option (list (list Z))) (root_request name : list Z) (raw : Raw) (flags : OpenFlags.t) (rtld : Z)
    (before_init : StartupState → st W (result (Error LErr) unit)) : st rt (result (Error LErr) unit) :=
  opened ← in_world (open_mapped_root envp root_request (root_key name) raw flags
    (before_root rtld before_init));
  match opened.2 with
  | Err e => mret (Err e)
  | Ok o => set_startup_root opened.1;; in_world (drop_opened o);; mret (Ok tt)
  end.

(** ** Constructors (the init hook of dlopen/observer.rs)

    Every constructor of an object is called with the process arguments. *)
Context (call_init : Z → Z → Z → Z → st W unit).
Fixpoint init_hook (func_addrs : list Z) : st rt unit :=
  match func_addrs with
  | [] => mret tt
  | init :: func_addrs =>
      s ← st_get;
      in_world (call_init init (as_i32 (ARGC s)) (ARGV s) (ENVP s));;
      init_hook func_addrs
  end.

(** ** Exit

    The finalizers of a module are code of the program, which may open libraries
    or exit again; the state of the module decides whether they run. *)
Context (state_finalize : Mod → st rt unit → st rt unit) (finalize : Mod → st rt unit).
Fixpoint finalize_all (scope : list Mod) : st rt unit :=
  match scope with [] => mret tt | m :: scope => state_finalize m (finalize m);; finalize_all scope end.
Definition finalize_startup : st rt unit :=
  s ← st_get;
  match STARTUP_ROOT s with
  | None => mret tt
  | Some root =>
      set_startup_root None;;
      scope ← in_world (borrow_mut (c ← Manager.ctx; mret (ctx_load_group c root)));
      match scope with
      | None => mret tt
      | Some scope => finalize_all scope
      end
  end.

Definition find_loaded_symbol (nm : list Z) : st W (option Z) :=
  borrow_mut (values ← Manager.all_values; mret (head (omap (λ lib, get_symbol lib nm) values))).

End rtld.
End Rtld.

Module RtldProps.
Import Open Rtld.

Section props.
Context {Ctx Id Lease Mod Ext LErr : Type} `{ED : EqDecision Id, LC : !LinkCtx Ctx Id Lease Mod, MA : !ModuleApi Mod}.
Context {BU : Build}.
Context {LK : Linker (World Ctx Lease Mod Ext) Ctx Id Lease LErr}.
Local Abbreviation Mgr := (Manager.Manager (Ctx := Ctx) (Lease := Lease) (Mod := Mod)).
Local Abbreviation Opened := (Manager.OpenedLibrary (Lease := Lease) (Mod := Mod)).
Local Abbreviation W := (World Ctx Lease Mod Ext).
Context {LL : LinkCtxLaws Ctx Id Lease Mod} {AL : AliasLaws LL}.
Context (link_error : LErr).

(** ** The initial aliases *)

(** Only names change: the modules, their groups, the global scope and the
    leases stay. *)
Definition same_modules (c c' : Ctx) : Prop :=
  (∀ j, ctx_meta (Lease := Lease) (Mod := Mod) c' j = ctx_meta (Lease := Lease) (Mod := Mod) c j)
  ∧ (∀ j, ctx_load_group (Lease := Lease) (Mod := Mod) c' j = ctx_load_group (Lease := Lease) (Mod := Mod) c j)
  ∧ ctx_global_scope (Id := Id) (Lease := Lease) (Mod := Mod) c' = ctx_global_scope (Id := Id) (Lease := Lease) c
  ∧ outstanding (LinkCtxLaws := LL) c' = outstanding (LinkCtxLaws := LL) c.
#[local] Instance same_modules_refl : Reflexive same_modules.
Proof. by intros c. Qed.
#[local] Instance same_modules_trans : Transitive same_modules.
Proof.
  intros c1 c2 c3 (H1&H2&H3&H4) (H5&H6&H7&H8). split_and!.
  - intros j. by rewrite H5. - intros j. by rewrite H6. - by rewrite H7. - by rewrite H8.
Qed.

(** A step that returns and only changes names. *)
Definition only_names (m : st Mgr unit) (s : Mgr) : Prop :=
  ∃ c', m s = Ret (tt, Manager.mkManager c' (Manager.handles s) (Manager.adds s) (Manager.subs s))
    ∧ same_modules (Manager.link_ctx s) c'.

Lemma only_names_ret s : only_names (mret tt) s.
Proof. exists (Manager.link_ctx s). split; [by destruct s|reflexivity]. Qed.

Lemma only_names_seq m1 m2 s :
  only_names m1 s →
  (∀ c', same_modules (Manager.link_ctx s) c' →
     only_names m2 (Manager.mkManager c' (Manager.handles s) (Manager.adds s) (Manager.subs s))) →
  only_names (m1;; m2) s.
Proof.
  intros (c1 & H1 & Hs1) Hk. destruct (Hk c1 Hs1) as (c2 & H2 & Hs2). exists c2.
  erewrite st_bind_run by exact H1. split; [exact H2|]. by etrans.
Qed.

Lemma add_alias_run id a s :
  is_Some (ctx_meta (Lease := Lease) (Mod := Mod) (Manager.link_ctx s) id) → only_names (Manager.add_alias id a) s.
Proof.
  intros Hm. unfold only_names, Manager.add_alias, Manager.ctx. erewrite st_bind_run by reflexivity.
  destruct (law_key _ id Hm) as [key Hk]. rewrite Hk. erewrite st_bind_run by reflexivity.
  destruct (_ || _); [apply only_names_ret|].
  destruct (law_alias _ id a Hm) as (c' & Ha & Hs). exists c'.
  unfold Manager.expect_ctx, Manager.ctx. erewrite st_bind_run by reflexivity. rewrite Ha. by split.
Qed.

Lemma add_aliases_run id l s :
  is_Some (ctx_meta (Lease := Lease) (Mod := Mod) (Manager.link_ctx s) id) → only_names (Manager.add_aliases id l) s.
Proof.
  revert s. induction l as [|a l IH]; intros s Hm; [apply only_names_ret|].
  apply only_names_seq; [by apply add_alias_run|]. intros c' (Hc & _). apply IH. simpl. by rewrite Hc.
Qed.

Lemma register_aliases_run names s : only_names (Manager.register_aliases_of (Id := Id) names) s.
Proof.
  revert s. induction names as [|nm names IH]; intros s; [apply only_names_ret|].
  unfold only_names. cbn [Manager.register_aliases_of]. unfold Manager.ctx at 1. erewrite st_bind_run by reflexivity.
  apply only_names_seq; [|intros; apply IH].
  destruct (ctx_module_id _ nm) as [id|] eqn:E; [|apply only_names_ret].
  apply add_aliases_run. by eapply law_module_id.
Qed.

(** ** What startup publishes *)

(** The map stands for the runtime linker: it is its map or has its address. *)
Definition same_object (link_maps : gmap Z LinkMap) (rtld map : Z) : Prop :=
  map = rtld ∨ (rtld ≠ 0 ∧ l_addr <$> link_maps !! map = l_addr <$> link_maps !! rtld).
#[local] Instance same_object_dec link_maps rtld map : Decision (same_object link_maps rtld map).
Proof. unfold same_object. apply _. Defined.

(** The link maps that are read are there. *)
Definition maps_readable (link_maps : gmap Z LinkMap) (rtld : Z) (scope : list Mod) : Prop :=
  rtld ≠ 0 → is_Some (link_maps !! rtld)
    ∧ Forall (λ m, is_elf m = true → is_Some (link_maps !! mod_link_map m)) scope.

Definition elf_maps (link_maps : gmap Z LinkMap) (rtld : Z) (scope : list Mod) : list Z :=
  filter (λ m, ¬ same_object link_maps rtld m) (mod_link_map <$> filter (λ m, is_elf m = true) scope).
Definition libc_maps (scope : list Mod) : list Z :=
  mod_link_map <$> filter (λ m, is_elf m = true ∧ mod_name m = bytes_of_string "libc.so.6") scope.

(** The runtime linker's map goes behind the first one. *)
Definition with_rtld (rtld : Z) (maps : list Z) : list Z :=
  if decide (rtld = 0) then maps else take 1 maps ++ rtld :: drop 1 maps.

Lemma is_rtld_run link_maps rtld map :
  (rtld ≠ 0 → is_Some (link_maps !! rtld) ∧ is_Some (link_maps !! map)) →
  is_rtld link_maps rtld map = Ret (bool_decide (same_object link_maps rtld map)).
Proof.
  intros H. unfold is_rtld, l_addr_of. destruct (Z.eqb_spec map rtld) as [->|Hm].
  { rewrite bool_decide_true; [done|]. by left. }
  destruct (Z.eqb_spec rtld 0) as [->|Hr].
  { rewrite bool_decide_false; [done|]. unfold same_object. naive_solver. }
  destruct (H Hr) as [[r Hrm] [m Hmm]].
  assert (same_object link_maps rtld map ↔ l_addr m = l_addr r) as Hiff.
  { unfold same_object. rewrite Hrm, Hmm. simpl. split.
    - intros [?|[_ [=]]]; congruence.
    - intros ->. by right. }
  rewrite Hrm, Hmm. simpl. f_equal. rewrite (bool_decide_ext _ _ Hiff).
  destruct (Z.eqb_spec (l_addr m) (l_addr r)); symmetry; [by apply bool_decide_true|by apply bool_decide_false].
Qed.

Lemma collect_run link_maps rtld scope maps libc :
  maps_readable link_maps rtld scope →
  collect link_maps rtld scope maps libc
    = Ret (maps ++ elf_maps link_maps rtld scope, default libc (last (libc_maps scope))).
Proof.
  unfold elf_maps, libc_maps. revert maps libc. induction scope as [|m scope IH]; intros maps libc Hr.
  { simpl. by rewrite app_nil_r. }
  assert (maps_readable link_maps rtld scope) as Hr'.
  { intros Hne. destruct (Hr Hne) as [? [_ ?]%Forall_cons]. done. }
  cbn [collect]. destruct (is_elf m) eqn:Helf; cbn [negb].
  - rewrite is_rtld_run by (intros Hne; destruct (Hr Hne) as [? [? _]%Forall_cons]; auto). rewrite bind_Ret.
    rewrite IH by done. rewrite !filter_cons, Helf. rewrite (decide_True (P := true = true)) by done.
    rewrite fmap_cons, filter_cons. f_equal. f_equal.
    + case_bool_decide; case_decide; try tauto. by rewrite <-app_assoc.
    + case_bool_decide; case_decide; try tauto. rewrite fmap_cons, last_cons.
      by destruct (last _).
  - rewrite IH by done. rewrite !filter_cons, Helf. repeat case_decide; try done; naive_solver.
Qed.

(** The startup state of a committed root: only names and the global scope of
    the context change. *)
Lemma startup_state_run link_maps (root : Id) rtld m g s :
  ctx_load_group (Lease := Lease) (Manager.link_ctx s) root = Some (m :: g) →
  is_Some (ctx_meta (Lease := Lease) (Mod := Mod) (Manager.link_ctx s) root) →
  is_elf m = true → maps_readable link_maps rtld (m :: g) →
  ∃ c', startup_state (LErr := LErr) link_error link_maps root rtld s =
      Ret (Ok (mkStartup (mod_link_map m)
                 (with_rtld rtld (elf_maps link_maps rtld (m :: g)))
                 (default 0 (last (libc_maps (m :: g))))),
           Manager.mkManager c' (Manager.handles s) (Manager.adds s) (Manager.subs s))
    ∧ (∀ x, x ∈ m :: g → x ∈ ctx_global_scope (Id := Id) (Lease := Lease) c')
    ∧ (∀ j, ctx_meta (Lease := Lease) (Mod := Mod) c' j = ctx_meta (Lease := Lease) (Mod := Mod) (Manager.link_ctx s) j)
    ∧ (∀ j, ctx_load_group (Lease := Lease) (Mod := Mod) c' j = ctx_load_group (Lease := Lease) (Mod := Mod) (Manager.link_ctx s) j)
    ∧ outstanding (LinkCtxLaws := LL) c' = outstanding (LinkCtxLaws := LL) (Manager.link_ctx s).
Proof.
  intros Hg Hm Helf Hr. unfold startup_state, Manager.ctx at 1. erewrite st_bind_run by reflexivity.
  destruct (law_promote _ root Hm) as (c1 & Hp & Hm1 & Ho1 & _ & Hg1 & Hin). rewrite Hp.
  erewrite st_bind_run by reflexivity.
  destruct (register_aliases_run (bytes_of_string <$> ["libc.so.6"; "ld-linux-x86-64.so.2"]%string)
    (Manager.mkManager c1 (Manager.handles s) (Manager.adds s) (Manager.subs s))) as (c2 & Hal & Hm2 & Hg2 & Hs2 & Ho2).
  erewrite st_bind_run by exact Hal. erewrite st_bind_run by reflexivity.
  cbn [Manager.link_ctx Manager.handles Manager.adds Manager.subs] in *.
  rewrite Hg2, Hg1, Hg. cbn [head mbind option_bind]. rewrite Helf.
  erewrite st_bind_run by (apply st_lift_run, collect_run, Hr). exists c2. split_and!.
  - unfold mret, st_ret, insert_rtld, with_rtld. cbn [fst snd app]. do 4 f_equal.
    destruct (Z.eqb_spec rtld 0); case_decide; try done. by destruct (elf_maps _ _ _).
  - intros x Hx. rewrite Hs2. eapply Hin; [exact Hg|done].
  - intros j. by rewrite Hm2.
  - intros j. by rewrite Hg2.
  - by rewrite Ho2.
Qed.

(** The runtime linker's own map is listed once. *)
Lemma with_rtld_once link_maps rtld scope :
  rtld ≠ 0 → filter (same_object link_maps rtld) (with_rtld rtld (elf_maps link_maps rtld scope)) = [rtld].
Proof.
  intros Hne. unfold with_rtld. rewrite (decide_False _ _ Hne), filter_app, filter_cons, decide_True by by left.
  assert (∀ l, Forall (λ x, ¬ same_object link_maps rtld x) l → filter (same_object link_maps rtld) l = []) as Hnil.
  { induction 1 as [|x l Hx Hl IH]; [done|]. by rewrite filter_cons_False. }
  assert (Forall (λ x, ¬ same_object link_maps rtld x) (elf_maps link_maps rtld scope)) as Hall.
  { apply Forall_forall. intros x [? _]%list_elem_of_filter. done. }
  by rewrite !Hnil by (by apply Forall_take || by apply Forall_drop).
Qed.

(** C16. Startup hands libc and the debugger the link maps of the program: the
    map of the root as main, then the maps of the ELF modules of its load group
    in breadth-first order with the runtime linker's own map, once, behind the
    first, whatever the registry also knows it by, and the map of libc.so.6;
    the group is global, and nothing but names changes besides. *)
Theorem startup_maps link_maps (root : Id) rtld m g s :
  ctx_load_group (Lease := Lease) (Manager.link_ctx s) root = Some (m :: g) →
  is_Some (ctx_meta (Lease := Lease) (Mod := Mod) (Manager.link_ctx s) root) →
  is_elf m = true → maps_readable link_maps rtld (m :: g) →
  ∃ c', startup_state (LErr := LErr) link_error link_maps root rtld s =
      Ret (Ok (mkStartup (mod_link_map m)
                 (with_rtld rtld (elf_maps link_maps rtld (m :: g)))
                 (default 0 (last (libc_maps (m :: g))))),
           Manager.mkManager c' (Manager.handles s) (Manager.adds s) (Manager.subs s))
    ∧ (rtld ≠ 0 → filter (same_object link_maps rtld) (with_rtld rtld (elf_maps link_maps rtld (m :: g))) = [rtld])
    ∧ (∀ x, x ∈ m :: g → x ∈ ctx_global_scope (Id := Id) (Lease := Lease) c')
    ∧ (∀ j, ctx_meta (Lease := Lease) (Mod := Mod) c' j = ctx_meta (Lease := Lease) (Mod := Mod) (Manager.link_ctx s) j)
    ∧ outstanding (LinkCtxLaws := LL) c' = outstanding (LinkCtxLaws := LL) (Manager.link_ctx s).
Proof.
  intros Hg Hm Helf Hr. destruct (startup_state_run link_maps root rtld m g s Hg Hm Helf Hr) as (c' & Hrun & Hin & Hmeta & _ & Ho).
  exists c'. split_and!; [exact Hrun|by apply with_rtld_once|done|done|done].
Qed.

(** ** The root of the process *)

(** The closure's root is only reported: linking is [open_mapped]. *)
Lemma commit_root_open flags before_init prepared (w : W) :
  commit flags before_init prepared w = (r ← commit_root flags before_init prepared; mret r.2) w.
Proof.
  unfold commit, commit_root, try_res. rewrite !st_bind_assoc. apply st_bind_ext. intros [rel|e] w1 _; [|done].
  rewrite !st_bind_assoc. apply st_bind_ext. intros [pub|e] w2 _; [|done].
  rewrite !st_bind_assoc. apply st_bind_ext. intros [[]|e] w3 _; rewrite !st_bind_assoc; apply st_bind_ext; [|done].
  intros [ld|fl] w4 _; rewrite !st_bind_assoc; by apply st_bind_ext.
Qed.

Lemma open_mapped_root_open envp request key raw flags before_init (w : W) :
  open_mapped envp request key raw flags before_init w
    = (r ← open_mapped_root envp request key raw flags before_init; mret r.2) w.
Proof.
  unfold open_mapped, open_with, open_mapped_root. cbn [is_file_or_binary is_binary map_root].
  rewrite andb_false_r. rewrite st_bind_ret. rewrite (try_res_ok _ _ _ (Mapped key raw) w) by done.
  rewrite st_bind_assoc. apply st_bind_ext. intros paths w1 _. unfold try_res. rewrite st_bind_assoc.
  apply st_bind_ext. intros [[lib|p]|e] w2 _; [done| |done]. apply commit_root_open.
Qed.

Lemma commit_root_Some flags before_init prepared (w : W) o r w' :
  commit_root flags before_init prepared w = Ret ((r, Ok o), w') → is_Some r.
Proof.
  unfold commit_root. intros (rel & w1 & _ & H)%st_bind_Ret_inv. destruct rel; [|done].
  apply st_bind_Ret_inv in H as (pub & w2 & _ & H). destruct pub as [pub|]; [|done].
  apply st_bind_Ret_inv in H as (b & w3 & _ & H). destruct b.
  - apply st_bind_Ret_inv in H as (i & w4 & _ & H). destruct i as [ld|fl];
      apply st_bind_Ret_inv in H as (x & w5 & _ & H); [|done]. injection H as <- _ _. by eexists.
  - by apply st_bind_Ret_inv in H as (x & w5 & _ & H).
Qed.

Context {LLK : LinkerLaws LL LK}.

Lemma drop_opened_run drop_group o (w : W) :
  overflow_checks = false →
  (∀ u (w : W), borrowed w = false → ∃ w', drop_group u w = Ret (tt, w') ∧ borrowed w' = false) →
  borrowed w = false → Manager.lease o ∈ outstanding (LinkCtxLaws := LL) (Manager.link_ctx (manager w)) →
  ∃ w', drop_opened drop_group o w = Ret (tt, w') ∧ borrowed w' = false.
Proof.
  intros HBU Hdrop Hb Hl. unfold drop_opened.
  destruct (Manager.release_run HBU (Manager.lease o) (manager w) Hl) as (u & c' & v & Hr & _).
  erewrite st_bind_run by (apply OpenProps.borrow_run; [done|exact Hr]). by apply Hdrop.
Qed.

(** C24. Linking the main program returns with the registry cell free, whatever
    fails on the way: its result is that of [open_mapped] with the startup
    state handed to the caller before any constructor runs; on success the
    process has a startup root, and on an error the startup root stays as it
    was, so that nothing is finalized at exit. *)
Theorem link_mapped_root_result envp link_maps_of drop_group request nm raw flags rtld before_init s :
  (∀ i (w : W), borrowed w = false → ∃ r w',
     before_root (LErr := LErr) link_error link_maps_of rtld before_init i w = Ret (r, w') ∧ borrowed w' = false) →
  overflow_checks = false →
  (∀ u (w : W), borrowed w = false → ∃ w', drop_group u w = Ret (tt, w') ∧ borrowed w' = false) →
  borrowed (world s) = false →
  ∃ r s', link_mapped_root link_error link_maps_of drop_group envp request nm raw flags rtld before_init s = Ret (r, s')
    ∧ borrowed (world s') = false
    ∧ (∃ o w', open_mapped envp request (root_key nm) raw flags
         (before_root link_error link_maps_of rtld before_init) (world s) = Ret (o, w')
       ∧ match o, r with
         | Ok o, Ok _ => drop_opened drop_group o w' = Ret (tt, world s') ∧ is_Some (STARTUP_ROOT s')
         | Err e, Err e' => e = e' ∧ world s' = w' ∧ STARTUP_ROOT s' = STARTUP_ROOT s
         | _, _ => False
         end).
Proof.
  intros Hbef HBU Hdrop Hb. set (before := before_root link_error link_maps_of rtld before_init) in *.
  destruct (OpenProps.open_with_run envp request flags (Mapped (root_key nm) raw) None before (world s) Hbef Hb)
    as (o & w1 & Ho & Hb1 & Hlive). fold (open_mapped envp request (root_key nm) raw flags before) in Ho.
  pose proof Ho as Ho'. rewrite open_mapped_root_open in Ho'.
  apply st_bind_Ret_inv in Ho' as ([root o'] & w2 & Hrun & [= -> ->]).
  assert (in_world (open_mapped_root envp request (root_key nm) raw flags before) s
    = Ret ((root, o), mkRt w1 (STARTUP_ROOT s) (ARGC s) (ARGV s) (ENVP s))) as Hin
    by (unfold in_world; by rewrite Hrun).
  unfold link_mapped_root. erewrite st_bind_run by exact Hin. cbn [fst snd].
  destruct o as [o|e].
  - destruct (drop_opened_run drop_group o w1 HBU Hdrop Hb1) as (w2 & Hd & Hb2); [by apply Hlive|]. eexists _, _. split.
    { erewrite st_bind_run by reflexivity. erewrite st_bind_run by (unfold in_world; cbn [world]; rewrite Hd; reflexivity).
      reflexivity. }
    split; [done|]. exists (Ok o), w1. split; [done|]. split; [done|]. simpl.
    unfold open_mapped_root in Hrun. apply st_bind_Ret_inv in Hrun as (paths & w3 & _ & Hrun).
    apply st_bind_Ret_inv in Hrun as (p & w4 & Hp & Hrun). destruct p as [[lib|p]|e]; [| |done].
    + exfalso. unfold borrow_mut in Hp. apply st_bind_Ret_inv in Hp as (? & w5 & _ & Hp).
      apply st_bind_Ret_inv in Hp as (? & w6 & Hp & Hp2). apply st_bind_Ret_inv in Hp2 as (? & w7 & _ & [= -> _]).
      unfold with_manager in Hp. apply bind_Ret_inv in Hp as ([y s2] & H & [= -> _]).
      unfold prepare, Manager.ctx in H. erewrite st_bind_run in H by reflexivity.
      apply try_res_inv in H as [(? & _ & [=])|(? & ? & _ & [=])].
    + by eapply commit_root_Some.
  - eexists _, _. split; [reflexivity|]. split; [done|]. exists (Err e), w1. by split_and!.
Qed.

(** ** Exit *)
Local Abbreviation rt := (Rtld.rt (Ctx := Ctx) (Id := Id) (Lease := Lease) (Mod := Mod) (Ext := Ext)).
Context (state_finalize : Mod → st rt unit → st rt unit) (finalize : Mod → st rt unit).

(** The modules were finalized one after the other, each with the registry cell
    free and in a state where another exit does nothing. *)
Inductive finalized : list Mod → rt → rt → Prop :=
  | finalized_nil s : finalized [] s s
  | finalized_cons m ms s s1 s2 : borrowed (world s) = false →
      (∀ state_fin fin, finalize_startup state_fin fin s = Ret (tt, s)) →
      state_finalize m (finalize m) s = Ret (tt, s1) → finalized ms s1 s2 → finalized (m :: ms) s s2.

Lemma finalize_forgotten state_fin fin (s : rt) : STARTUP_ROOT s = None → finalize_startup state_fin fin s = Ret (tt, s).
Proof. intros Hr. unfold finalize_startup. by rewrite st_bind_get, Hr. Qed.

Lemma finalize_all_run scope (s : rt) :
  (∀ m (s : rt), borrowed (world s) = false → STARTUP_ROOT s = None →
     ∃ s', state_finalize m (finalize m) s = Ret (tt, s') ∧ borrowed (world s') = false ∧ STARTUP_ROOT s' = None) →
  borrowed (world s) = false → STARTUP_ROOT s = None →
  ∃ s', finalize_all state_finalize finalize scope s = Ret (tt, s') ∧ finalized scope s s'
    ∧ borrowed (world s') = false ∧ STARTUP_ROOT s' = None.
Proof.
  intros Hf. revert s. induction scope as [|m scope IH]; intros s Hb Hr.
  { exists s. split_and!; [done|constructor|done|done]. }
  destruct (Hf m s Hb Hr) as (s1 & H1 & Hb1 & Hr1). destruct (IH s1 Hb1 Hr1) as (s2 & H2 & Hfin & Hb2 & Hr2).
  exists s2. cbn [finalize_all]. erewrite st_bind_run by exact H1. split_and!; [done| |done|done].
  econstructor; [done|intros; by apply finalize_forgotten|done|done].
Qed.

(** C17. At exit the finalizers of the startup group run once: in the order of
    the group, each with the registry cell free, so that it can open and close
    libraries or look up symbols.  The root is forgotten before the first of
    them: in every state in which a finalizer starts, and at the end, another exit
    does nothing, so the finalizers may exit again (what is asked of them is
    asked of such states only). *)
Theorem finalize_startup_once (s : rt) root scope :
  (∀ m (s : rt), borrowed (world s) = false → STARTUP_ROOT s = None →
     ∃ s', state_finalize m (finalize m) s = Ret (tt, s') ∧ borrowed (world s') = false ∧ STARTUP_ROOT s' = None) →
  borrowed (world s) = false → STARTUP_ROOT s = Some root →
  ctx_load_group (Lease := Lease) (Manager.link_ctx (manager (world s))) root = Some scope →
  ∃ s', finalize_startup state_finalize finalize s = Ret (tt, s')
    ∧ finalized scope (mkRt (world s) None (ARGC s) (ARGV s) (ENVP s)) s'
    ∧ borrowed (world s') = false
    ∧ ∀ state_fin fin, finalize_startup state_fin fin s' = Ret (tt, s').
Proof.
  intros Hf Hb Hr Hg. unfold finalize_startup at 1. rewrite st_bind_get, Hr. erewrite st_bind_run by reflexivity.
  assert (borrow_mut (c ← Manager.ctx; mret (ctx_load_group c root)) (world s) = Ret (Some scope, world s)) as Hrun.
  { erewrite OpenProps.borrow_run; [|done|unfold Manager.ctx; erewrite st_bind_run by reflexivity; by rewrite Hg].
    destruct s as [[mgr b cell ext] ? ? ? ?]. simpl in *. by subst. }
  erewrite st_bind_run by (unfold in_world; cbn [world]; rewrite Hrun; reflexivity).
  destruct (finalize_all_run scope (mkRt (world s) None (ARGC s) (ARGV s) (ENVP s)) Hf Hb eq_refl)
    as (s' & Hall & Hfin & Hb' & Hr'). exists s'.
  split_and!; [exact Hall|done|done|]. intros state_fin fin. by apply finalize_forgotten.
Qed.

(** The first module in load order that defines the name gives the symbol. *)
Lemma find_loaded_symbol_run nm (w : W) :
  borrowed w = false →
  find_loaded_symbol (Ctx := Ctx) (Lease := Lease) (Mod := Mod) nm w =
    Ret (Manager.find_symbol (omap (ctx_module (Manager.link_ctx (manager w))) (ctx_load_order (Manager.link_ctx (manager w)))) nm, w).
Proof.
  intros Hb. unfold find_loaded_symbol. erewrite OpenProps.borrow_run; [|done|reflexivity].
  destruct w as [[] b cell ext]. simpl in *. by subst.
Qed.
End props.

(** ** Instances *)
Import Toy OpenProps.
Local Abbreviation tworld := (World toy (nat * nat) nat unit).

#[export] Instance toy_alias_laws : AliasLaws toy_laws.
Proof.
  split.
  - intros c i _. by eexists.
  - intros c i a _. exists c. by split_and!.
Qed.

Lemma startup_maps_witness :
  let m1 := set_l_real 7 LinkMap_zero in
  ∃ c', startup_state (LErr := Z) 9 {[ 8192 := m1; 12288 := LinkMap_new 4096 0 0 0 0 0 ]} 1%nat 12288 (toy_manager 3)
    = Ret (Ok (mkStartup 8192 [8192; 12288] 0), Manager.mkManager c' ∅ 0 0)
    ∧ 1%nat ∈ t_glob c'.
Proof.
  intros m1.
  destruct (startup_maps (LErr := Z) 9 {[ 8192 := m1; 12288 := LinkMap_new 4096 0 0 0 0 0 ]} 1%nat 12288 1%nat []
    (toy_manager 3)) as (c' & H1 & _ & H2 & _).
  - reflexivity.
  - by eexists.
  - reflexivity.
  - intros _. split; [eexists; vm_compute; reflexivity|]. constructor; [intros _; eexists; vm_compute; reflexivity|constructor].
  - exists c'. split; [exact H1|]. exact (H2 1%nat (list_elem_of_here _ _)).
Defined.

Lemma toy_before_root_run before_init i (w : tworld) :
  (∀ s (w : tworld), borrowed w = false → ∃ r w', before_init s w = Ret (r, w') ∧ borrowed w' = false) →
  borrowed w = false →
  ∃ r w', before_root (LErr := Z) 9 (λ _, ∅) 0 before_init i w = Ret (r, w') ∧ borrowed w' = false.
Proof.
  intros Hbef Hb. unfold before_root. rewrite st_bind_get.
  assert (∃ r s', startup_state (LErr := Z) 9 ∅ i 0 (manager w) = Ret (r, s')) as (r & s' & Hs).
  { unfold startup_state, Manager.ctx. erewrite st_bind_run by reflexivity. cbn [ctx_promote_global toy_ctx].
    erewrite st_bind_run by reflexivity.
    destruct (register_aliases_run (Id := nat) (bytes_of_string <$> ["libc.so.6"; "ld-linux-x86-64.so.2"]%string)
      (Manager.mkManager (mkToy (t_metas (Manager.link_ctx (manager w))) (t_out (Manager.link_ctx (manager w)))
        (t_next (Manager.link_ctx (manager w))) (t_pins (Manager.link_ctx (manager w)))
        (t_glob (Manager.link_ctx (manager w)) ++ [i])) (Manager.handles (manager w)) (Manager.adds (manager w))
        (Manager.subs (manager w)))) as (c2 & Hal & _).
    erewrite st_bind_run by exact Hal. erewrite st_bind_run by reflexivity.
    cbn [ctx_load_group toy_ctx Manager.link_ctx]. destruct (t_metas c2 !! i); [|by eexists _, _].
    cbn [mbind option_bind head is_elf toy_mod]. erewrite st_bind_run by (apply st_lift_run, collect_run; done).
    by eexists _, _. }
  erewrite try_res_step by (apply OpenProps.borrow_run; [done|exact Hs]).
  destruct r; [by apply Hbef|by eexists _, _].
Qed.

(** The group has no finalizers. *)
Definition keep_root : st tworld unit := mret tt.

Lemma link_mapped_root_result_witness :
  let BU : Build := Build_Build false X86_64 in
  ∃ r s', link_mapped_root (LErr := Z) (LK := toy_linker) 9 (λ _, ∅) (λ _, keep_root) None [47; 109] [47; 120; 47; 109] tt 2 0
      (λ _, mret (Ok tt)) (mkRt (OpenProps.toy_world 2) None 1 0 0) = Ret (r, s')
    ∧ borrowed (world s') = false.
Proof.
  intros BU.
  destruct (link_mapped_root_result (LErr := Z) (LK := toy_linker) 9 None (λ _, ∅) (λ _, keep_root) [47; 109] [47; 120; 47; 109] tt 2 0
      (λ _, mret (Ok tt)) (mkRt (OpenProps.toy_world 2) None 1 0 0)) as (r & s' & H1 & H2 & _).
  - intros i w Hb. apply toy_before_root_run; [|exact Hb]. intros s w' Hb'. by eexists _, _.
  - reflexivity.
  - intros u w Hb. by eexists.
  - reflexivity.
  - exists r, s'. split; [exact H1|exact H2].
Defined.

(** The example ends with a startup root whose module is global. *)
Example link_mapped_root_runs :
  let BU : Build := Build_Build true X86_64 in
  ∃ s', link_mapped_root (LErr := Z) (LK := toy_linker) 9 (λ _, ∅) (λ _, keep_root) None [47; 109] [47; 120; 47; 109] tt 2 0
      (λ _, mret (Ok tt)) (mkRt (OpenProps.toy_world 2) None 1 0 0) = Ret (Ok tt, s')
    ∧ STARTUP_ROOT s' = Some 2%nat ∧ t_glob (Manager.link_ctx (manager (world s'))) = [2%nat].
Proof. eexists. by vm_compute. Qed.

(** Finalizers that exit again, [n] levels deep: each module is noted in the
    count of closed libraries and the program exits from it. *)
Local Abbreviation trt := (rt (Ctx := toy) (Id := nat) (Lease := nat * nat) (Mod := nat) (Ext := unit)).
Definition note (m : nat) : st trt unit :=
  in_world (with_manager (λ g, Ret (tt, Manager.mkManager (Manager.link_ctx g) (Manager.handles g) (Manager.adds g)
    (Manager.subs g + Z.of_nat m)))).
Fixpoint exits (n : nat) (m : nat) : st trt unit :=
  match n with
  | O => st_fail OutOfFuel
  | S n => note m;; finalize_startup (λ _ f, f) (exits n)
  end.

Lemma exits_again n m s : borrowed (world s) = false → STARTUP_ROOT s = None →
  ∃ s', exits (S n) m s = Ret (tt, s') ∧ borrowed (world s') = false ∧ STARTUP_ROOT s' = None.
Proof.
  intros Hb Hr. destruct s as [[g b cell ext] r c v e]. simpl in Hb, Hr. subst. eexists.
  cbn [exits]. erewrite st_bind_run by reflexivity. split; [by apply finalize_forgotten|]. by split.
Qed.

Lemma finalize_startup_once_witness :
  ∃ s', finalize_startup (λ _ f, f) (exits 1) (mkRt (OpenProps.toy_world 2) (Some 1%nat) 1 0 0) = Ret (tt, s')
    ∧ finalized (λ _ f, f) (exits 1) [1%nat] (mkRt (OpenProps.toy_world 2) None 1 0 0) s'.
Proof.
  destruct (finalize_startup_once (λ _ f, f) (exits 1) (mkRt (OpenProps.toy_world 2) (Some 1%nat) 1 0 0) 1%nat [1%nat])
    as (s' & H1 & H2 & _).
  - intros m s. apply exits_again.
  - reflexivity.
  - reflexivity.
  - reflexivity.
  - exists s'. split; [exact H1|exact H2].
Defined.
End RtldProps.
