(* ===== verification/Startup.v ===== *)
(** * The startup of a process (rtld/impl/src/bootstrap/startup.rs, publish.rs, mod.rs, globals.rs)

    The runtime linker from the first instruction in Rust to the entry point of
    the program: it relocates itself, reads the initial stack, parses the
    options of a direct invocation, registers itself, has the program linked by
    the crate, and publishes to libc and the debugger what they read, before any
    constructor runs.  It composes the models of those parts: the registry is
    the world of Open.v, whose rest is the state of the process here. *)

From stdpp Require Import gmap.
From S2P Require Import Prelude Utf8 Errors LinkMap DebugList Machine CStr Layout Tls Resolver Manager Open Stack.
From S2P Require Import SelfReloc Glibc Cli Rtld.

(** The two calls on file descriptors: [fcntl(fd, F_GETFD)], and [openat] of a
    path below the current directory. *)
Class StdFds (K : Type) := {
  fcntl_getfd : Z → st K bool;
  open_flags : list Z → Z → st K (option Z) }.

(** [RawExec] of the loader crate. *)
Inductive RawExec (Raw Static : Type) :=
  | ExecDynamic (dynamic : Raw)
  | ExecStatic (static_exec : Static).
Arguments ExecDynamic {Raw Static} dynamic.
Arguments ExecStatic {Raw Static} static_exec.

(** The loader crate's operations on objects that are not linked yet; the
    first two run with an observer of these flags. *)
Class RawLoader (W Raw LErr : Type) := {
  StaticImage : Type;
  load_mapped_dynamic : OpenFlags.t → list Z → Z → list ElfPhdr → Z → st W (result LErr Raw);
  loader_load_exec : OpenFlags.t → list Z → st W (result LErr (RawExec Raw StaticImage));
  exec_phdrs : RawExec Raw StaticImage → option (Z * Z);   (* pointer and length *)
  exec_entry : RawExec Raw StaticImage → Z;
  raw_entry : Raw → Z;
  raw_name : Raw → list Z }.

Module Startup.
Import Machine CStr Stack Tls Open.

Definition RTLD_FATAL_EXIT_STATUS : Z := 127.
Definition RTLD_NAME : string := "ld-linux-x86-64.so.2".
Definition O_RDONLY : Z := 0.
Definition O_WRONLY : Z := 1.
Definition O_NOFOLLOW : Z := 131072.

(** [Err status] ends the process. *)
Definition exit {S A} (status : Z) : st S (result Z A) := mret (Err status).

(** ** StartupInput *)
Record StartupInput := mkInput {
  initial : InitialStack;
  main_load_bias : Z;
  main_dynamic : Z;
  rtld_load_bias : Z;
  direct : bool }.

Section input.
(** The loader crate's relocation of the linker itself. *)
Context (relocate_relative : Z → list SelfReloc.ElfRel → st mem bool) (relocate_relr : Z → list Z → st mem bool).

Definition new (fuel : nat) (stack rtld_ehdr rtld_dynamic : Z) : st mem (result Z StartupInput) :=
  let rtld_load_bias := rtld_ehdr in
  ok ← SelfReloc.relocate relocate_relative relocate_relr rtld_dynamic rtld_load_bias;
  if negb ok then exit RTLD_FATAL_EXIT_STATUS
  else
    initial ← parse fuel stack;
    main_load_bias ← load_bias (aux initial);
    main_dynamic ← dynamic (aux initial) main_load_bias;
    let direct := (base (aux initial) =? 0) || (main_dynamic =? rtld_dynamic) in
    mret (Ok (mkInput initial main_load_bias main_dynamic rtld_load_bias direct)).

Definition pass_through_entry (self : StartupInput) : st mem (option Z) :=
  if direct self then mret None
  else if entry (aux (initial self)) =? 0 then mret None
  else
    tls ← has_tls (aux (initial self));
    if (tls : bool) then mret None
    else
      can ← SelfReloc.can_pass_through (main_dynamic self);
      mret (if can : bool then Some (entry (aux (initial self))) else None).
End input.

(** ** Standard file descriptors *)
Section fds.
Context {K : Type} `{!StdFds K}.
Definition check_standard_fd (fd : Z) (path : list Z) (flags : Z) : st K (result Z unit) :=
  is_open ← fcntl_getfd fd;
  if (is_open : bool) then mret (Ok tt)
  else
    opened ← open_flags path flags;
    match opened with
    | None => exit RTLD_FATAL_EXIT_STATUS
    | Some opened => if negb (opened =? fd) then exit RTLD_FATAL_EXIT_STATUS else mret (Ok tt)
    end.
Definition check_standard_fds_if_secure (secure : Z) : st K (result Z unit) :=
  if secure =? 0 then mret (Ok tt)
  else
    _ ←! check_standard_fd 0 (bytes_of_string "/dev/full") (Z.lor O_WRONLY O_NOFOLLOW);
    _ ←! check_standard_fd 1 (bytes_of_string "/dev/null") (Z.lor O_RDONLY O_NOFOLLOW);
    check_standard_fd 2 (bytes_of_string "/dev/null") (Z.lor O_RDONLY O_NOFOLLOW).
End fds.

(** ** The state of the process outside the registry *)
Record globals := mkGlobals {
  _dl_argv : Z;
  __libc_stack_end : Z;
  _r_debug : RDebug;
  __libc_enable_secure : Z;
  __rseq_offset : Z }.

(** The memory with the output and the files, the link maps, the TLS module
    with the resolver, and the exported variables. *)
Record process (K Source : Type) := mkProc {
  p_cli : Cli.cli K;
  p_maps : DebugList.dstate;
  p_tls : Resolver.rstate (tls_state Source) Source;
  p_globals : globals }.
Arguments mkProc {K Source} _ _ _ _.
Arguments p_cli {K Source} _.
Arguments p_maps {K Source} _.
Arguments p_tls {K Source} _.
Arguments p_globals {K Source} _.

(** The addresses that the linker gave to statics and functions. *)
Record Symbols := mkSymbols {
  a_rtld_global : Z;
  a_rtld_global_ro : Z;
  a_functions : Glibc.Functions;
  a_dl_debug_state : Z;
  a_tls_get_addr : Z }.

Record BootstrapObject := mkObject { load_bias : Z; o_phdr : Z; o_phnum : Z; o_entry : Z }.
Record BootstrapState := mkState { process_stack : ProcessStack; main : BootstrapObject; rtld : BootstrapObject }.

Definition rtld_object (load_bias : Z) : st mem BootstrapObject :=
  if load_bias =? 0 then mret (mkObject load_bias 0 0 0)
  else
    h ← read_ehdr load_bias;
    let '(e_entry, e_phoff, e_phentsize, e_phnum) := h in
    if (e_phentsize <? size_of_phdr) then mret (mkObject load_bias 0 0 0)
    else mret (mkObject load_bias (wrapping_add load_bias e_phoff) e_phnum (wrapping_add load_bias e_entry)).

Section startup.
Context {K Source : Type} {FI : Files K} {SF : StdFds K}.
Context {Ctx Id Lease Mod LErr : Type} `{ED : EqDecision Id, LC : !LinkCtx Ctx Id Lease Mod, MA : !ModuleApi Mod}.
Context {BU : Build} {IS : ImageSource Source} {KE : Heap.Kernel}.
Local Abbreviation P := (process K Source).
Local Abbreviation W := (World Ctx Lease Mod P).
Local Abbreviation boot := (Rtld.rt (Ctx := Ctx) (Id := Id) (Lease := Lease) (Mod := Mod) (Ext := P)).
Context {LK : Linker W Ctx Id Lease LErr} {RL : RawLoader W Raw LErr}.
Local Abbreviation E := (Error LErr).

(** ** Parts of the process *)
Definition on_process {A} (m : st P A) : st W A := λ w,
  '(a, p) ← m (rest w); Ret (a, mkWorld (manager w) (borrowed w) (search_path_cell w) p).
Definition on_cli {A} (m : st (Cli.cli K) A) : st P A := λ p,
  '(a, c) ← m (p_cli p); Ret (a, mkProc c (p_maps p) (p_tls p) (p_globals p)).
Definition on_memory {A} (m : st mem A) : st P A := on_cli (Cli.on_mem m).
Definition on_maps {A} (m : st DebugList.dstate A) : st P A := λ p,
  '(a, d) ← m (p_maps p); Ret (a, mkProc (p_cli p) d (p_tls p) (p_globals p)).
Definition on_resolver {A} (m : st (Resolver.rstate (tls_state Source) Source) A) : st P A := λ p,
  '(a, t) ← m (p_tls p); Ret (a, mkProc (p_cli p) (p_maps p) t (p_globals p)).
Definition on_globals (f : globals → globals) : st P unit := λ p,
  Ret (tt, mkProc (p_cli p) (p_maps p) (p_tls p) (f (p_globals p))).
Definition set_dl_argv (v : Z) (g : globals) :=
  mkGlobals v (__libc_stack_end g) (_r_debug g) (__libc_enable_secure g) (__rseq_offset g).
Definition set_libc_stack_end (v : Z) (g : globals) :=
  mkGlobals (_dl_argv g) v (_r_debug g) (__libc_enable_secure g) (__rseq_offset g).
Definition set_r_debug (v : RDebug) (g : globals) :=
  mkGlobals (_dl_argv g) (__libc_stack_end g) v (__libc_enable_secure g) (__rseq_offset g).
Definition set_enable_secure (v : Z) (g : globals) :=
  mkGlobals (_dl_argv g) (__libc_stack_end g) (_r_debug g) v (__rseq_offset g).
Definition set_rseq_offset (v : Z) (g : globals) :=
  mkGlobals (_dl_argv g) (__libc_stack_end g) (_r_debug g) (__libc_enable_secure g) v.

Context (fuel : nat) (sy : Symbols).

(** ** Publication *)
Definition publish_bootstrap_state (process : ProcessStack) (aux : AuxValues) (main_load_bias rtld_load_bias : Z)
    : st P BootstrapState :=
  on_memory (Glibc.publish_aux fuel (a_functions sy) (a_rtld_global_ro sy)
    (Glibc.mkRoAux (auxv process) (platform aux) (pagesize aux) (minsigstacksize aux) (clktck aux) (fpucw aux)
       (hwcap aux) (hwcap2 aux) (hwcap3 aux) (hwcap4 aux) (sysinfo_ehdr aux)));;
  on_globals (set_enable_secure (if secure aux =? 0 then 0 else 1));;
  rtld ← on_memory (rtld_object rtld_load_bias);
  mret (mkState process (mkObject main_load_bias (phdr aux) (phnum aux) (entry aux)) rtld).

(** [searchlist] is the address of the leaked box of maps. *)
Definition publish_loaded_globals (state : BootstrapState) (searchlist : Z) (startup : Rtld.StartupState) : st P unit :=
  let main := Rtld.main startup in
  let r_debug := mkRDebug 1 main (Some (a_dl_debug_state sy)) RT_CONSISTENT (load_bias (rtld state)) in
  let libc_map := Rtld.libc_map startup in
  on_maps (DebugList.link_loaded_objects (Rtld.maps startup));;
  on_globals (set_r_debug r_debug);;
  on_memory (Glibc.publish_rtld_link_maps (a_rtld_global sy) (a_rtld_global_ro sy) main searchlist
    (zlen (Rtld.maps startup)) libc_map).

Definition publish_tls_layout : st P unit :=
  i ← on_resolver (Resolver.on_tls static_info);
  on_memory (Glibc.publish_tls_static_info (a_rtld_global_ro sy) i.1 i.2);;
  o ← on_resolver (Resolver.on_tls rseq_offset);
  on_globals (set_rseq_offset o).

(** ** Linking *)
Definition load_exec (path : list Z) : st W (result LErr (RawExec Raw StaticImage)) :=
  loader_load_exec OpenFlags.empty path.
Definition load_mapped (path : list Z) (load_bias : Z) (phdrs : list ElfPhdr) (entry : Z) : st W (result LErr Raw) :=
  load_mapped_dynamic OpenFlags.empty path load_bias phdrs entry.

(** [convert_err] is the [?] on an error of the loader crate. *)
Definition load_bootstrap_object (name : list Z) (object : BootstrapObject) : st W (result E Raw) :=
  if (o_phdr object =? 0) || (o_phnum object =? 0) then
    mret (Err (find_lib_error "bootstrap object is missing program headers"))
  else
    phdrs ← on_process (on_memory (read_phdrs (Z.to_nat (o_phnum object)) (o_phdr object)));
    convert_err (load_mapped name (load_bias object) phdrs (o_entry object)).

(** The crate's startup functions, with what they take of the loader crate;
    the box of maps is put at [leak]; [init] is [__libc_early_init(true)]. *)
Context (link_error : LErr) (raw_link_map : Raw → option Z) (from_core : Raw → Mod) (scope_free : Raw → bool).
Context (drop_group : list Id → st W unit).
Context (leak : list Z → st P Z) (init : Z → st W unit).

Definition startup_flags : OpenFlags.t :=
  OpenFlags.union (OpenFlags.union OpenFlags.RTLD_GLOBAL OpenFlags.RTLD_NOW) OpenFlags.RTLD_NODELETE.

Definition before_constructors (state : BootstrapState) (startup : Rtld.StartupState) : st W (result E unit) :=
  searchlist ← on_process (leak (Rtld.maps startup));
  on_process (publish_loaded_globals state searchlist startup);;
  on_process publish_tls_layout;;
  f ← Rtld.find_loaded_symbol (bytes_of_string "__libc_early_init");
  (match f with Some f => init f | None => mret tt end);;
  mret (Ok tt).

(** [envp] is what [ENVP] points to. *)
Definition link_startup_root (envp : option (list (list Z))) (root_request : list Z) (root : Raw)
    (state : BootstrapState) (rtld_link_map : Z) : st boot (result E unit) :=
  Rtld.in_world (on_process (on_maps (
    DebugList.modify_map rtld_link_map (set_l_next 0);;
    DebugList.modify_map rtld_link_map (set_l_prev 0);;
    DebugList.modify_map rtld_link_map (set_l_real rtld_link_map))));;
  Rtld.link_mapped_root link_error (λ p, DebugList.maps (p_maps p)) drop_group envp root_request (raw_name root) root
    startup_flags rtld_link_map (before_constructors state).

Definition prepare_kernel_mapped_main (envp : option (list (list Z))) (state : BootstrapState) (rtld_link_map : Z)
    : st boot (result E Z) :=
  main ←! Rtld.in_world (load_bootstrap_object [] (main state));
  let entry := raw_entry main in
  _ ←! link_startup_root envp [] main state rtld_link_map;
  mret (Ok entry).

Definition prepare_direct_exec (envp : option (list (list Z))) (state : BootstrapState) (rtld_link_map : Z)
    : st boot (result E Z) :=
  bytes ← Rtld.in_world (on_process (on_memory (to_bytes fuel (exec_path (process_stack state)))));
  match from_utf8 bytes with
  | None => mret (Err (find_lib_error "executable path is not valid UTF-8"))
  | Some exec_path_str =>
      exec ←! Rtld.in_world (convert_err (load_exec exec_path_str));
      let '(phdr, phnum) := default (0, 0) (exec_phdrs exec) in
      let entry := exec_entry exec in
      Rtld.in_world (on_process (on_memory (patch_auxv fuel (auxv (process_stack state)) phdr phnum
        (load_bias (rtld state)) entry (exec_path (process_stack state)))));;
      match exec with
      | ExecDynamic dynamic =>
          _ ←! link_startup_root envp exec_path_str dynamic state rtld_link_map;
          mret (Ok entry)
      | ExecStatic static_exec =>
          Rtld.in_world (on_process publish_tls_layout);;
          mret (Ok entry)
      end
  end.

(** The outer result is the exit of the process. *)
Definition run (envp : option (list (list Z))) (input : StartupInput) : st boot (result Z (result E Z)) :=
  let at_process {A} (m : st P A) := Rtld.in_world (Id := Id) (on_process m) in
  at_process (on_resolver (Resolver.install_resolver_ops (a_tls_get_addr sy)));;
  at_process (on_globals (set_libc_stack_end (raw (initial input))));;
  state ←! (if direct input then
      let process := Stack.process (initial input) in
      direct ←! at_process (on_cli (Cli.handle_direct_invocation fuel (argc process) (argv process)));
      process ← at_process (on_memory (rewrite_for_program fuel (initial input) direct));
      state ← at_process (publish_bootstrap_state process (aux (initial input)) 0 (rtld_load_bias input));
      mret (Ok state)
    else
      state ← at_process (publish_bootstrap_state (Stack.process (initial input)) (aux (initial input))
        (main_load_bias input) (rtld_load_bias input));
      mret (Ok state));
  at_process (on_globals (set_dl_argv (argv (process_stack state))));;
  Rtld.set_initial_process_state (argc (process_stack state)) (argv (process_stack state)) (Stack.envp (process_stack state));;
  _ ←! at_process (on_cli (Cli.on_kernel (check_standard_fds_if_secure (secure (aux (initial input))))));
  r ← (rtld_object ←! Rtld.in_world (load_bootstrap_object (bytes_of_string RTLD_NAME) (rtld state));
       rtld_link_map ←! Rtld.in_world (Rtld.register_loaded raw_link_map from_core scope_free rtld_object
         (OpenFlags.union OpenFlags.RTLD_GLOBAL OpenFlags.RTLD_NODELETE));
       if direct input then prepare_direct_exec envp state rtld_link_map
       else prepare_kernel_mapped_main envp state rtld_link_map);
  mret (Ok r).

(** ** The entry points that the assembly calls *)
Context (relocate_relative : Z → list SelfReloc.ElfRel → st mem bool) (relocate_relr : Z → list Z → st mem bool).
Context (fmt_loader : LErr → string).

(** [Err status] is the exit of the process; the message is written piece by
    piece, here in one. *)
Definition rtld_bootstrap (envp : option (list (list Z))) (stack rtld_ehdr rtld_dynamic : Z) : st boot (result Z Z) :=
  let at_process {A} (m : st P A) := Rtld.in_world (Id := Id) (on_process m) in
  input ←! at_process (on_memory (new relocate_relative relocate_relr fuel stack rtld_ehdr rtld_dynamic));
  e ← at_process (on_memory (pass_through_entry input));
  match e with
  | Some entry => mret (Ok entry)
  | None =>
      r ←! run envp input;
      match r with
      | Ok entry => mret (Ok entry)
      | Err error =>
          let prefix := if direct input then "rtld: direct exec failed: "%string else "rtld: startup failed: "%string in
          at_process (on_cli (Cli.write_stderr (bytes_of_string prefix)));;
          at_process (on_cli (Cli.write_stderr (bytes_of_string (Error_fmt fmt_loader error))));;
          at_process (on_cli (Cli.write_stderr [10]));;
          exit RTLD_FATAL_EXIT_STATUS
      end
  end.

Definition rtld_fini (state_finalize : Mod → st boot unit → st boot unit) (finalize : Mod → st boot unit) : st boot unit :=
  Rtld.finalize_startup state_finalize finalize.
End startup.
End Startup.

(** ** What the kernel documents about descriptors

    [F_GETFD] succeeds on open descriptors; [openat] fails or takes the lowest
    free one. *)
Class StdFdsSpec (K : Type) `{!StdFds K} := {
  open_fds : K → gset Z;
  fcntl_getfd_spec fd k : fcntl_getfd fd k = Ret (bool_decide (fd ∈ open_fds k), k);
  open_flags_spec path flags k : ∃ r k', open_flags path flags k = Ret (r, k')
    ∧ match r with
      | Some fd => 0 ≤ fd ∧ (fd ∉ open_fds k) ∧ (∀ n, 0 ≤ n < fd → n ∈ open_fds k) ∧ open_fds k' = {[fd]} ∪ open_fds k
      | None => open_fds k' = open_fds k
      end }.

Module StartupProps.
Import Machine CStr Layout Stack Tls Open Startup.

(** ** Standard descriptors *)
Section fds.
Context `{SS : StdFdsSpec K}.

(** [fd] is checked when the descriptors below it are open. *)
Lemma check_standard_fd_run fd path flags k :
  0 ≤ fd → (∀ n, 0 ≤ n < fd → n ∈ open_fds k) →
  ∃ r k', check_standard_fd fd path flags k = Ret (r, k')
    ∧ open_fds k ⊆ open_fds k' ∧ open_fds k' ⊆ {[fd]} ∪ open_fds k
    ∧ match r with Ok _ => fd ∈ open_fds k' | Err s => s = 127 ∧ ∃ k0 k1, open_flags path flags k0 = Ret (None, k1) end.
Proof.
  intros Hfd Hlow. unfold check_standard_fd. erewrite st_bind_run by apply fcntl_getfd_spec.
  case_bool_decide as Ho; [exists (Ok tt), k; split_and!; [done|done|set_solver|done]|].
  destruct (open_flags_spec path flags k) as (r & k' & Hr & Hspec). erewrite st_bind_run by exact Hr.
  destruct r as [o|].
  - destruct Hspec as (Ho0 & Hfree & Hall & Hset).
    assert (o = fd) as ->.
    { destruct (Z.lt_trichotomy o fd) as [?|[?|?]]; [|done|].
      - destruct Hfree. by apply Hlow.
      - destruct Ho. by apply Hall. }
    rewrite Z.eqb_refl. exists (Ok tt), k'. rewrite Hset. split_and!; [done|set_solver|set_solver|set_solver].
  - exists (Err 127), k'. rewrite Hspec. split_and!; [done|done|set_solver|done|]. by exists k, k'.
Qed.

Lemma three_sets (A B C D : gset Z) a b c :
  B ⊆ {[a]} ∪ A → C ⊆ {[b]} ∪ B → D ⊆ {[c]} ∪ C → D ⊆ {[a; b; c]} ∪ A.
Proof.
  intros H1 H2 H3 x Hx%H3. apply elem_of_union in Hx as [Hx|Hx%H2]; [set_solver +Hx|].
  apply elem_of_union in Hx as [Hx|Hx%H1]; set_solver +Hx.
Qed.

(** C40. In secure mode the program never runs with a standard descriptor
    closed: descriptors 0, 1 and 2 are open afterwards, the ones that were
    open are left alone and nothing else is opened; the process exits with
    status 127 only if the null device could not be opened.  Otherwise nothing
    is done. *)
Theorem standard_fds_open secure k :
  ∃ r k', check_standard_fds_if_secure secure k = Ret (r, k')
    ∧ open_fds k ⊆ open_fds k' ∧ open_fds k' ⊆ {[0; 1; 2]} ∪ open_fds k
    ∧ match r with
      | Ok _ => if decide (secure = 0) then k' = k else {[0; 1; 2]} ⊆ open_fds k'
      | Err s => s = 127 ∧ ∃ path flags k0 k1, open_flags path flags k0 = Ret (None, k1)
      end.
Proof.
  unfold check_standard_fds_if_secure. destruct (Z.eqb_spec secure 0) as [->|Hs].
  { exists (Ok tt), k. split_and!; [done|done|set_solver|done]. }
  destruct (check_standard_fd_run 0 (bytes_of_string "/dev/full") (Z.lor O_WRONLY O_NOFOLLOW) k)
    as (r0 & k0 & H0 & A0 & B0 & C0); [done|lia|].
  erewrite try_res_step by exact H0. destruct r0 as [[]|s];
    [|destruct C0 as [-> (? & ? & ?)]; exists (Err 127), k0; split_and!; [done|set_solver|set_solver|done|by do 4 eexists]].
  destruct (check_standard_fd_run 1 (bytes_of_string "/dev/null") (Z.lor O_RDONLY O_NOFOLLOW) k0)
    as (r1 & k1 & H1 & A1 & B1 & C1); [done|intros n Hn; by replace n with 0 by lia|].
  erewrite try_res_step by exact H1. destruct r1 as [[]|s];
    [|destruct C1 as [-> (? & ? & ?)]; exists (Err 127), k1; split_and!; [done|set_solver|set_solver|done|by do 4 eexists]].
  destruct (check_standard_fd_run 2 (bytes_of_string "/dev/null") (Z.lor O_RDONLY O_NOFOLLOW) k1)
    as (r2 & k2 & H2 & A2 & B2 & C2); [done|intros n Hn; assert (n = 0 ∨ n = 1) as [-> | ->] by lia; set_solver|].
  destruct r2 as [[]|s].
  - exists (Ok tt), k2. rewrite decide_False by done. split_and!; [done|by etrans; [exact A0|etrans; [exact A1|exact A2]]| |].
    + by eapply three_sets.
    + intros x. rewrite !elem_of_union, !elem_of_singleton. intros [[-> | ->]| ->]; [by apply A2, A1|by apply A2|done].
  - destruct C2 as [-> (? & ? & ?)]. exists (Err 127), k2. split_and!; [done|by etrans; [exact A0|etrans; [exact A1|exact A2]]| |done|by do 4 eexists].
    by eapply three_sets.
Qed.
End fds.

(** ** What libc and the debugger see when the first constructor runs *)
Section publish.
Context {K Source : Type} {FI : Files K} {SF : StdFds K}.
Context {Ctx Id Lease Mod LErr : Type} `{ED : EqDecision Id, LC : !LinkCtx Ctx Id Lease Mod, MA : !ModuleApi Mod}.
Context {BU : Build} {IS : ImageSource Source} {KE : Heap.Kernel}.
Local Abbreviation P := (process K Source).
Local Abbreviation W := (World Ctx Lease Mod P).
Implicit Types (p : P) (w : W).

Definition memory_of p : mem := Cli.c_mem (p_cli p).
Definition with_memory (m : mem) p : P :=
  mkProc (Cli.mkCli m (Cli.c_writes (p_cli p)) (Cli.c_kernel (p_cli p))) (p_maps p) (p_tls p) (p_globals p).

Lemma on_memory_run {A} (f : st mem A) p a m' :
  f (memory_of p) = Ret (a, m') → on_memory f p = Ret (a, with_memory m' p).
Proof. intros Hf. unfold on_memory, on_cli, Cli.on_mem. fold (memory_of p). by rewrite Hf. Qed.
Lemma on_process_run {A} (f : st P A) w a p' :
  f (rest w) = Ret (a, p') →
  on_process f w = Ret (a, mkWorld (manager w) (borrowed w) (search_path_cell w) p').
Proof. intros Hf. unfold on_process. by rewrite Hf. Qed.

(** The box of maps is put somewhere in memory. *)
Definition leaks (leak : list Z → st P Z) (l : list Z) (a : Z) p m : Prop :=
  leak l p = Ret (a, with_memory m p) ∧ words_at m a l ∧ (∀ x, mapped (memory_of p) x 1 → mapped m x 1).

(** What is published. *)
Record published (sy : Symbols) p (main : Z) (l : list Z) (libc searchlist ldbase size align off : Z) : Prop := {
  pub_list : DebugList.dseg (DebugList.maps (p_maps p)) 0 l 0;
  pub_debug : _r_debug (p_globals p) = mkRDebug 1 main (Some (a_dl_debug_state sy)) RT_CONSISTENT ldbase;
  pub_global : struct_rep (memory_of p) (a_rtld_global sy) Glibc.RtldGlobal
    (list_to_map [("dl_nns", 1); ("dl_load_adds", as_u32 (zlen l))]);
  pub_namespace : struct_rep (memory_of p) (a_rtld_global sy) Glibc.RtldLinkNamespace
    (list_to_map [("loaded", main); ("nloaded", as_u32 (zlen l));
                  ("main_searchlist", a_rtld_global_ro sy + 48); ("libc_map", libc)]);
  pub_scope : struct_rep (memory_of p) (a_rtld_global_ro sy + 48) Glibc.RtldScopeElem
    (list_to_map [("list", searchlist); ("nlist", as_u32 (zlen l)); ("_padding", 0)]);
  pub_maps : words_at (memory_of p) searchlist l;
  pub_tls : struct_rep (memory_of p) (a_rtld_global_ro sy) Glibc.RtldGlobalRo
    (list_to_map [("dl_tls_static_size", size); ("dl_tls_static_align", Z.max align 1)]);
  pub_rseq : __rseq_offset (p_globals p) = off }.

(** The TLS sizes leave the search list alone. *)
Lemma tls_info_run m ro size align scope :
  mapped m ro Glibc.RTLD_GLOBAL_RO_SIZE → struct_rep m (ro + 48) Glibc.RtldScopeElem scope →
  ∃ m', Glibc.publish_tls_static_info ro size align m = Ret (tt, m')
    ∧ struct_rep m' (ro + 48) Glibc.RtldScopeElem scope
    ∧ struct_rep m' ro Glibc.RtldGlobalRo
        (list_to_map [("dl_tls_static_size", size); ("dl_tls_static_align", Z.max align 1)])
    ∧ (∀ x, x < ro ∨ ro + Glibc.RTLD_GLOBAL_RO_SIZE ≤ x → m' x = m x).
Proof.
  intros Hm Hs.
  destruct (Glibc.fields_run m ro Glibc.RtldGlobalRo ∅ [("dl_tls_static_size", size); ("dl_tls_static_align", Z.max align 1)]
    Glibc.global_ro_ok (struct_rep_empty _ _ _) Hm eq_refl) as (m' & H1 & H2 & _ & _ & H4).
  exists m'. split_and!; [exact H1| | |exact H4].
  - apply (struct_rep_outside m); [exact Glibc.scope_elem_ok|exact Hs|]. intros x Hx.
    assert (field Glibc.RtldGlobalRo "dl_initial_searchlist" = Some (48, struct Glibc.RtldScopeElem)) as Hf
      by (vm_compute; reflexivity).
    eapply (write_fields_apart m ro Glibc.RtldGlobalRo); [exact Glibc.global_ro_ok|exact Hf| |exact H1|exact Hx].
    apply (bool_decide_unpack _). vm_compute. exact I.
  - rewrite updates_union in H2; [by rewrite (right_id_L ∅ (∪)) in H2|]. apply (bool_decide_unpack _). vm_compute. exact I.
Qed.

Context (sy : Symbols) (leak : list Z → st P Z) (init : Z → st W unit).

(** When the constructors of the program start, everything that libc and
    the debugger read is in place: the link maps form one doubly linked list in
    search order, [_r_debug] is consistent and starts at the program, namespace
    0 of [_rtld_global] and the initial search list of [_rtld_global_ro] name
    the same maps in memory and their number, and the static TLS size and the
    rseq offset are those of the TLS module.  Then, and only then,
    [__libc_early_init] runs if some module defines it, with the registry free. *)
Theorem published_before_constructors state startup w a m size align off :
  borrowed w = false →
  NoDup (Rtld.maps startup) →
  Forall (λ x, is_Some (DebugList.maps (p_maps (rest w)) !! x)) (Rtld.maps startup) →
  let ga := a_rtld_global sy in let ro := a_rtld_global_ro sy in
  mapped (memory_of (rest w)) ga Glibc.RTLD_GLOBAL_SIZE → mapped (memory_of (rest w)) ro Glibc.RTLD_GLOBAL_RO_SIZE →
  ga + Glibc.RTLD_GLOBAL_SIZE ≤ ro ∨ ro + Glibc.RTLD_GLOBAL_RO_SIZE ≤ ga →
  leaks leak (Rtld.maps startup) a (rest w) m →
  Forall (λ s, a + 8 * zlen (Rtld.maps startup) ≤ s.1 ∨ s.1 + s.2 ≤ a)
    [(ga, Glibc.RTLD_GLOBAL_SIZE); (ro, Glibc.RTLD_GLOBAL_RO_SIZE)] →
  static_info (Resolver.tls (p_tls (rest w))) = Ret ((size, align), Resolver.tls (p_tls (rest w))) →
  rseq_offset (Resolver.tls (p_tls (rest w))) = Ret (off, Resolver.tls (p_tls (rest w))) →
  ∃ p', before_constructors (LErr := LErr) sy leak init state startup w =
      (match Manager.find_symbol (omap (ctx_module (Manager.link_ctx (manager w))) (ctx_load_order (Manager.link_ctx (manager w))))
               (bytes_of_string "__libc_early_init") with
       | Some f => init f
       | None => mret tt
       end;; mret (Ok tt)) (mkWorld (manager w) false (search_path_cell w) p')
    ∧ published sy p' (Rtld.main startup) (Rtld.maps startup) (Rtld.libc_map startup) a (load_bias (rtld state))
        size align off.
Proof.
  intros Hb Hnd Hmaps ga ro Hmg Hmr Hd (Hleak & Hwords & Hkeep) Hfar Hsi Hro.
  apply Forall_cons in Hfar as [Hf1 [Hf2 _]%Forall_cons]. cbn [fst snd] in Hf1, Hf2.
  destruct (DebugListProps.link_loaded_run (p_maps (rest w)) (Rtld.maps startup) Hnd Hmaps) as (ms & Hl & Hseg & _).
  destruct (GlibcProps.link_maps_run m ga ro (Rtld.main startup) a (zlen (Rtld.maps startup)) (Rtld.libc_map startup) ∅ ∅ ∅)
    as (m1 & H1 & G1 & N1 & S1 & _ & _ & M1 & O1); [by eapply mapped_mono|by eapply mapped_mono|done|..];
    [apply struct_rep_empty|by repeat constructor|apply struct_rep_empty|apply struct_rep_empty|by repeat constructor|].
  rewrite (right_id_L ∅ (∪)) in G1, N1.
  edestruct (tls_info_run m1 ro size align) as (m2 & H2 & S2 & T2 & O2);
    [eapply mapped_mono; [exact M1|by eapply mapped_mono]|exact S1|].
  unfold before_constructors. erewrite st_bind_run by (apply on_process_run, Hleak).
  erewrite st_bind_run.
  2:{ apply on_process_run. cbn [rest]. unfold publish_loaded_globals. erewrite st_bind_run by (unfold on_maps; cbn [p_maps with_memory]; rewrite Hl; reflexivity).
      erewrite st_bind_run by reflexivity. apply on_memory_run. exact H1. }
  erewrite st_bind_run.
  2:{ apply on_process_run. cbn [rest]. unfold publish_tls_layout.
      erewrite st_bind_run by (unfold on_resolver, Resolver.on_tls; cbn [p_tls with_memory]; rewrite Hsi; reflexivity).
      erewrite st_bind_run by (apply on_memory_run; exact H2).
      erewrite st_bind_run by (unfold on_resolver, Resolver.on_tls; cbn [p_tls with_memory Resolver.tls]; rewrite Hro; reflexivity).
      reflexivity. }
  erewrite st_bind_run by (apply RtldProps.find_loaded_symbol_run; exact Hb).
  eexists. split; [cbn [manager borrowed search_path_cell]; rewrite Hb; reflexivity|].
  split; cbn [memory_of with_memory p_cli Cli.c_mem p_maps p_globals _r_debug __rseq_offset set_rseq_offset set_r_debug].
  - exact Hseg.
  - reflexivity.
  - apply (struct_rep_outside m1); [exact Glibc.global_ok|exact G1|]. intros x Hx. apply O2.
    change (struct_size Glibc.RtldGlobal) with Glibc.RTLD_GLOBAL_SIZE in Hx. fold ro. fold ga in Hx. lia.
  - apply (struct_rep_outside m1); [exact Glibc.namespace_ok|exact N1|]. intros x Hx. apply O2.
    change (struct_size Glibc.RtldLinkNamespace) with 112 in Hx. fold ro. fold ga in Hx.
    unfold Glibc.RTLD_GLOBAL_SIZE in *. lia.
  - exact S2.
  - apply (words_at_bytes m); [|exact Hwords]. intros x Hx. unfold add in Hx. fold ga ro in Hf1, Hf2.
    rewrite O2, O1 by (fold ga ro; lia). reflexivity.
  - exact T2.
  - reflexivity.
Qed.

(** ** Programs that need nothing *)

(** The program headers of the auxiliary vector. *)
Definition headers_at m (aux : AuxValues) (phdrs : list ElfPhdr) : Prop :=
  phdr aux ≠ 0 ∧ size_of_phdr ≤ phent aux ∧ phnum aux = zlen phdrs ∧ 0 ≤ phdr aux
  ∧ phdr aux + zlen phdrs * phent aux < 2 ^ 64
  ∧ ∀ i h, phdrs !! i = Some h → read_phdr (phdr aux + Z.of_nat i * phent aux) m = Ret (h, m).

Lemma find_phdr_from_run m aux pre phdrs ty :
  headers_at m aux (pre ++ phdrs) →
  find_phdr_from (length phdrs) aux (zlen pre) ty m = Ret (LinkMap.find_phdr ty phdrs, m).
Proof.
  revert pre. induction phdrs as [|h phdrs IH]; intros pre H; [done|].
  pose proof H as (Hn0 & Hent & Hnum & Hpos & Hlen & Hread). cbn [length find_phdr_from].
  unfold size_of_phdr in Hent. rewrite zlen_app, zlen_cons in Hlen. pose proof (zlen_nonneg pre). pose proof (zlen_nonneg phdrs).
  assert (phdr_at aux (zlen pre) m = Ret (Some h, m)) as Hp.
  { unfold phdr_at. destruct (Z.eqb_spec (phdr aux) 0); [done|].
    destruct (Z.ltb_spec (phent aux) size_of_phdr); [unfold size_of_phdr in *; lia|]. cbn [orb].
    unfold checked_mul. rewrite decide_True by nia. unfold wrapping_add.
    rewrite wrap_small by (unfold in_usize; nia).
    erewrite st_bind_run; [reflexivity|].
    specialize (Hread (length pre) h). unfold zlen. apply Hread. rewrite lookup_app_r, Nat.sub_diag by lia. done. }
  erewrite st_bind_run by exact Hp. unfold LinkMap.find_phdr. cbn [list_find].
  destruct (Z.eqb_spec (p_type h) ty) as [He|He]; [by rewrite decide_True by done|].
  rewrite decide_False by done. replace (zlen pre + 1) with (zlen (pre ++ [h])) by (rewrite zlen_app; done).
  rewrite IH by (by rewrite <-app_assoc). unfold LinkMap.find_phdr. by destruct (list_find _ phdrs) as [[]|].
Qed.

Lemma find_phdr_run m aux phdrs ty :
  headers_at m aux phdrs → Stack.find_phdr aux ty m = Ret (LinkMap.find_phdr ty phdrs, m).
Proof.
  intros H. unfold Stack.find_phdr. pose proof H as (_ & _ & -> & _). unfold zlen. rewrite Nat2Z.id.
  exact (find_phdr_from_run m aux [] phdrs ty H).
Qed.

(** The load bias and the dynamic section of the program. *)
Definition bias_of (aux : AuxValues) (phdrs : list ElfPhdr) : Z :=
  from_option (λ h, wrapping_sub (phdr aux) (p_vaddr h)) 0 (LinkMap.find_phdr PT_PHDR phdrs).
Definition dynamic_of (aux : AuxValues) (phdrs : list ElfPhdr) : Z :=
  from_option (λ h, wrapping_add (bias_of aux phdrs) (p_vaddr h)) 0 (LinkMap.find_phdr PT_DYNAMIC phdrs).

Lemma new_run relr rel fuel stack ehdr dyn m m1 args envs pairs phdrs :
  SelfReloc.relocate rel relr dyn ehdr m = Ret (true, m1) →
  good args envs pairs → words_at m1 stack (stack_words args envs pairs) →
  StackProps.enough fuel args envs pairs →
  headers_at m1 (aux_of pairs) phdrs →
  ∃ ini, new rel relr fuel stack ehdr dyn m = Ret (Ok (mkInput ini (bias_of (aux_of pairs) phdrs) (dynamic_of (aux_of pairs) phdrs)
      ehdr ((base (aux_of pairs) =? 0) || (dynamic_of (aux_of pairs) phdrs =? dyn))), m1)
    ∧ ini = mkInitial stack (mkProcess (zlen args) (add stack 1) (add stack (zlen args + 2))
        (add stack (zlen args + zlen envs + 3)) 0) (aux_of pairs).
Proof.
  intros Hrel Hg Hw Hf Hh. unfold new. erewrite st_bind_run by exact Hrel. cbn [negb].
  pose proof (StackProps.parse_run fuel m1 stack args envs pairs Hw Hg Hf) as Hp.
  eexists. split; [|shelve]. erewrite st_bind_run by exact Hp. cbn [aux].
  unfold Stack.load_bias, dynamic. rewrite st_bind_assoc. erewrite st_bind_run by (apply find_phdr_run, Hh).
  rewrite st_bind_ret. rewrite st_bind_assoc. erewrite st_bind_run by (apply find_phdr_run, Hh).
  rewrite st_bind_ret. reflexivity.
  Unshelve. done.
Qed.
End publish.

Section bootstrap.
Context {K Source : Type} {FI : Files K} {SF : StdFds K}.
Context {Ctx Id Lease Mod LErr : Type} `{ED : EqDecision Id, LC : !LinkCtx Ctx Id Lease Mod, MA : !ModuleApi Mod}.
Context {BU : Build} {IS : ImageSource Source} {KE : Heap.Kernel}.
Local Abbreviation P := (process K Source).
Local Abbreviation W := (World Ctx Lease Mod P).
Local Abbreviation boot := (Rtld.rt (Ctx := Ctx) (Id := Id) (Lease := Lease) (Mod := Mod) (Ext := P)).
Context {LK : Linker W Ctx Id Lease LErr} {RL : RawLoader W Raw LErr}.
Context (sy : Symbols) (link_error : LErr) (raw_link_map : Raw → option Z) (from_core : Raw → Mod) (scope_free : Raw → bool).
Context (drop_group : list Id → st W unit) (leak : list Z → st P Z) (init : Z → st W unit) (fmt_loader : LErr → string).
Context (relocate_relative : Z → list SelfReloc.ElfRel → st mem bool) (relocate_relr : Z → list Z → st mem bool).
Implicit Types s : boot.

(** The state in which only memory is different. *)
Definition after_relocation (m : mem) s : boot :=
  Rtld.mkRt (mkWorld (manager (Rtld.world s)) (borrowed (Rtld.world s)) (search_path_cell (Rtld.world s))
      (with_memory m (rest (Rtld.world s)))) (Rtld.STARTUP_ROOT s) (Rtld.ARGC s) (Rtld.ARGV s) (Rtld.ENVP s).

(** A program that needs nothing of the linker. *)
Definition needs_nothing (phdrs : list ElfPhdr) (ds : list (Z * Z)) : Prop :=
  LinkMap.find_phdr PT_TLS phdrs = None
  ∧ (∀ d, d ∈ ds → d.1 ≠ SelfReloc.DT_NEEDED)
  ∧ (∀ d, d ∈ ds → d.2 ≠ 0 → d.1 ∉ SelfReloc.DT_JMPREL :: SelfReloc.DT_PLTRELSZ :: SelfReloc.lifecycle_tags)
  ∧ SelfRelocProps.last_value SelfReloc.NATIVE_RELOCATION_SIZE_TAG 0 ds = 0
  ∧ SelfRelocProps.last_value SelfReloc.DT_RELRSZ 0 ds = 0.

Lemma at_memory_run {A} (f : st mem A) s a m' :
  f (memory_of (rest (Rtld.world s))) = Ret (a, m') →
  Rtld.in_world (Id := Id) (on_process (on_memory f)) s = Ret (a, after_relocation m' s).
Proof. intros Hf. unfold Rtld.in_world. by erewrite on_process_run by apply on_memory_run, Hf. Qed.

(** A program that the kernel mapped with this linker as its interpreter is
    entered at its own entry point without being linked exactly when it needs
    nothing: no thread-local storage, no libraries, no relocations, no
    initialisers or finalisers.  In that case the linker has done nothing but
    relocate itself; otherwise startup goes on with the relocated linker. *)
Theorem pass_through_untouched fuel envp stack ehdr dyn s m1 args envs pairs phdrs ds :
  SelfReloc.relocate relocate_relative relocate_relr dyn ehdr (memory_of (rest (Rtld.world s))) = Ret (true, m1) →
  good args envs pairs → words_at m1 stack (stack_words args envs pairs) → StackProps.enough fuel args envs pairs →
  headers_at m1 (aux_of pairs) phdrs →
  base (aux_of pairs) ≠ 0 → entry (aux_of pairs) ≠ 0 → dynamic_of (aux_of pairs) phdrs ≠ dyn →
  0 < dynamic_of (aux_of pairs) phdrs → SelfRelocProps.dynamic_at m1 (dynamic_of (aux_of pairs) phdrs) ds → zlen ds < 4096 →
  ∃ b input, (b = true ↔ needs_nothing phdrs ds) ∧ aux (initial input) = aux_of pairs ∧ direct input = false
    ∧ rtld_load_bias input = ehdr ∧ main_load_bias input = bias_of (aux_of pairs) phdrs
    ∧ rtld_bootstrap fuel sy link_error raw_link_map from_core scope_free drop_group leak init
        relocate_relative relocate_relr fmt_loader envp stack ehdr dyn s =
      if b then Ret (Ok (entry (aux_of pairs)), after_relocation m1 s)
      else (r ←! run fuel sy link_error raw_link_map from_core scope_free drop_group leak init envp input;
            match r with
            | Ok entry => mret (Ok entry)
            | Err error =>
                Rtld.in_world (on_process (on_cli (Cli.write_stderr (bytes_of_string "rtld: startup failed: "))));;
                Rtld.in_world (on_process (on_cli (Cli.write_stderr (bytes_of_string (Error_fmt fmt_loader error)))));;
                Rtld.in_world (on_process (on_cli (Cli.write_stderr [10])));;
                exit 127
            end) (after_relocation m1 s).
Proof.
  intros Hrel Hg Hw Hf Hh Hbase Hentry Hdyn Hpos Hds Hlen.
  destruct (new_run _ _ fuel stack ehdr dyn _ m1 args envs pairs phdrs Hrel Hg Hw Hf Hh) as (ini & Hnew & Hini).
  assert (aux ini = aux_of pairs) as Haux by (by rewrite Hini).
  rewrite (proj2 (Z.eqb_neq _ _) Hbase), (proj2 (Z.eqb_neq _ _) Hdyn) in Hnew. cbn [orb] in Hnew.
  set (input := mkInput ini _ _ _ _) in *.
  destruct (SelfRelocProps.pass_through_iff m1 _ ds Hpos Hds Hlen) as (c & Hc & Hiff).
  set (b := negb (bool_decide (is_Some (LinkMap.find_phdr PT_TLS phdrs))) && c).
  assert (pass_through_entry input m1 = Ret (if b then Some (entry (aux_of pairs)) else None, m1)) as Hp.
  { unfold pass_through_entry. cbn [direct initial input]. rewrite Haux, (proj2 (Z.eqb_neq _ _) Hentry).
    unfold has_tls. rewrite st_bind_assoc. erewrite st_bind_run by (apply (find_phdr_run), Hh). rewrite st_bind_ret.
    unfold b. destruct (LinkMap.find_phdr PT_TLS phdrs); [rewrite bool_decide_true by done; reflexivity|].
    rewrite bool_decide_false by (by intros [? [=]]). cbn [negb andb main_dynamic input].
    erewrite st_bind_run by exact Hc. by destruct c. }
  exists b, input. split_and!; [|exact Haux|done|done|done|].
  - unfold b, needs_nothing. rewrite andb_true_iff, negb_true_iff, bool_decide_eq_false, Hiff, eq_None_not_Some. tauto.
  - unfold rtld_bootstrap. erewrite try_res_ok by (apply at_memory_run, Hnew).
    erewrite st_bind_run by (apply at_memory_run; exact Hp).
    assert (after_relocation m1 (after_relocation m1 s) = after_relocation m1 s) as -> by done.
    by destruct b.
Qed.
End bootstrap.

(** ** Instances *)

(** A descriptor table without holes. *)
Record Table := mkTable { used : nat }.
#[local] Instance table_fds : StdFds Table := {|
  fcntl_getfd fd k := Ret (bool_decide (fd ∈ seqZ 0 (Z.of_nat (used k))), k);
  open_flags _ _ k := Ret (Some (Z.of_nat (used k)), mkTable (S (used k))) |}.
#[local] Program Instance table_spec : StdFdsSpec Table := {| open_fds k := list_to_set (seqZ 0 (Z.of_nat (used k))) |}.
Next Obligation.
  intros fd k. cbn [fcntl_getfd table_fds]. do 2 f_equal. apply bool_decide_ext. by rewrite elem_of_list_to_set.
Qed.
Next Obligation.
  intros path flags k. eexists _, _. split; [reflexivity|]. cbn [used]. split_and!.
  - lia.
  - rewrite elem_of_list_to_set, elem_of_seqZ. lia.
  - intros n Hn. rewrite elem_of_list_to_set, elem_of_seqZ. lia.
  - apply set_eq. intros x. rewrite elem_of_union, elem_of_singleton, !elem_of_list_to_set, !elem_of_seqZ. lia.
Qed.

Lemma standard_fds_open_witness :
  ∃ k', check_standard_fds_if_secure 1 (mkTable 1) = Ret (Ok tt, k') ∧ used k' = 3%nat
    ∧ {[0; 1; 2]} ⊆ open_fds k'.
Proof.
  destruct (standard_fds_open (K := Table) 1 (mkTable 1)) as (r & k' & H1 & _ & _ & H2).
  change (check_standard_fds_if_secure 1 (mkTable 1)) with (Ret (Ok tt : result Z unit, mkTable 3)) in H1.
  injection H1 as <- <-. exists (mkTable 3). split; [reflexivity|]. split; [reflexivity|exact H2].
Defined.

Import Toy.
#[local] Instance w_source : ImageSource (list Z) := λ l, Some l.
#[local] Instance w_build : Build := Build_Build false X86_64.
#[local] Instance w_kernel : Heap.Kernel := {| Heap.mmap_at _ _ := None; Heap.arch_prctl _ _ := 0 |}.
#[local] Instance w_fds : StdFds ToyKernel := {|
  fcntl_getfd _ k := Ret (true, k);
  open_flags _ _ k := Ret (None, k) |}.
Local Abbreviation wprocess := (process ToyKernel (list Z)).
Local Abbreviation wworld := (World Toy.toy (nat * nat) nat wprocess).

Definition w_process (m : mem) (ms : gmap Z LinkMap) : wprocess :=
  mkProc (Cli.mkCli m [] (mkToyKernel ∅ ∅)) (DebugList.mk 1 0 ∅ ms [])
    (Resolver.mkR None [] (Tls.initial (λ _, None) 0)) (mkGlobals 0 0 RDebug_zero 0 0).
Definition w_world (m : mem) (ms : gmap Z LinkMap) : wworld :=
  mkWorld (Toy.toy_manager 2) false None (w_process m ms).
Definition w_symbols : Symbols := mkSymbols 0x4000 0x1000 (Glibc.mkFunctions 1 2 3 4) 5 6.
Definition w_leak (l : list Z) (p : wprocess) : outcome (Z * wprocess) :=
  Ret (0x100000, with_memory (write (memory_of p) 0x100000 (l ≫= le_encode 8)) p).
Definition w_init (f : Z) (w : wworld) : outcome (unit * wworld) := Ret (tt, w).
Definition both_images : mem := write GlibcProps.ro_image 0x4000 (image Glibc.RtldGlobal_new).

Lemma published_before_constructors_witness :
  let w := w_world both_images {[16 := LinkMap_zero; 32 := LinkMap_zero]} in
  ∃ p', before_constructors (Id := nat) (LErr := Z) w_symbols w_leak w_init
      (mkState (mkProcess 0 0 0 0 0) (mkObject 0 0 0 0) (mkObject 0x7000 0 0 0)) (Rtld.mkStartup 16 [16; 32] 32) w
      = Ret (Ok tt, mkWorld (Toy.toy_manager 2) false None p')
    ∧ published w_symbols p' 16 [16; 32] 32 0x100000 0x7000 2432 64 (-32).
Proof.
  intros w.
  destruct (published_before_constructors (Id := nat) (LErr := Z) w_symbols w_leak w_init
    (mkState (mkProcess 0 0 0 0 0) (mkObject 0 0 0 0) (mkObject 0x7000 0 0 0)) (Rtld.mkStartup 16 [16; 32] 32) w 0x100000
    (write both_images 0x100000 ([16; 32] ≫= le_encode 8)) 2432 64 (-32)) as (p' & H1 & H2).
  - reflexivity.
  - apply (bool_decide_unpack _). vm_compute. exact I.
  - repeat constructor; eexists; vm_compute; reflexivity.
  - intros x Hx. change (memory_of (rest w)) with both_images. unfold both_images, write. change (zlen (image Glibc.RtldGlobal_new)) with 2120.
    change (a_rtld_global w_symbols) with 0x4000 in Hx. unfold Glibc.RTLD_GLOBAL_SIZE in Hx.
    rewrite decide_True by lia. apply lookup_lt_is_Some.
    change (length (image Glibc.RtldGlobal_new)) with 2120%nat. lia.
  - change (memory_of (rest w)) with both_images. apply write_mapped. unfold GlibcProps.ro_image, of_bytes. intros x Hx. unfold write.
    change (zlen (image Glibc.RtldGlobalRo_new)) with 928. unfold Glibc.RTLD_GLOBAL_RO_SIZE in Hx.
    change (a_rtld_global_ro w_symbols) with 0x1000 in Hx.
    rewrite decide_True by lia. apply lookup_lt_is_Some.
    change (length (image Glibc.RtldGlobalRo_new)) with 928%nat. lia.
  - right. vm_compute. discriminate.
  - split; [reflexivity|]. split; [apply StackProps.words_at_of_words, write_bytes_at|].
    intros x Hx. by apply write_mapped.
  - apply Forall_cons_2; [right; vm_compute; discriminate|]. apply Forall_cons_2; [right; vm_compute; discriminate|].
    constructor.
  - vm_compute. reflexivity.
  - vm_compute. reflexivity.
  - exists p'. split; [exact H1|exact H2].
Defined.

(** A program with an empty dynamic section that starts at 77. *)
Definition w_pairs : list (Z * Z) := [(AT_PHDR, 4096); (AT_PHENT, 56); (AT_PHNUM, 1); (AT_BASE, 1); (AT_ENTRY, 77)].
Definition w_header : ElfPhdr := mkPhdr PT_DYNAMIC 0 0 8192 0 0 0 0.
Definition w_header_bytes : list Z :=
  le_encode 4 PT_DYNAMIC ++ le_encode 4 0 ++ ([0; 8192; 0; 0; 0; 0] ≫= le_encode 8).
Definition w_stack_bytes : list Z := stack_words [9000] [9050] w_pairs ≫= le_encode 8.
Definition w_dynamic_bytes : list Z := (aux_words [(5, 8); (8, 0)] ++ [0; 0]) ≫= le_encode 8.
Definition w_memory : mem :=
  write (write (write (of_bytes 65536 w_stack_bytes) 4096 w_header_bytes) 8192 w_dynamic_bytes) 12288 (le_encode 8 0 ++ le_encode 8 0).

#[local] Instance w_linker : Linker wworld toy nat (nat * nat) Z := {|
  Raw := unit; Prepared := unit; Relocated := unit; Published := unit; Load := unit; Failed := unit;
  load_dylib _ bytes := Err 1;
  resolve_committed _ _ c p := (Ok (ctx_module_id c p), c);
  prepare_load _ _ c p := (Err 2, c);
  prepare_mapped _ _ c key _ := (Err 2, c);
  relocate _ p := λ w, Ret (Err 3, w);
  publish p c := (Err 4, c);
  root_of _ := O;
  rollback _ c := (Ok tt, c);
  initialize l := λ w, Ret (Err tt, w);
  failed_rollback _ c := (5, c);
  into_parts l := ((O, O), []) |}.
#[local] Instance w_loader : RawLoader wworld unit Z := {|
  StaticImage := unit;
  load_mapped_dynamic _ _ _ _ _ := λ w, Ret (Err 6, w);
  loader_load_exec _ _ := λ w, Ret (Err 7, w);
  exec_phdrs _ := None;
  exec_entry _ := 0;
  raw_entry _ := 0;
  raw_name _ := [] |}.

Definition w_boot (m : mem) : Rtld.rt (Ctx := toy) (Id := nat) (Lease := nat * nat) (Mod := nat) (Ext := wprocess) :=
  Rtld.mkRt (w_world m ∅) None 0 0 0.

Lemma pass_through_untouched_witness :
  ∃ s', rtld_bootstrap (LK := w_linker) (RL := w_loader) 9 w_symbols 8 (λ _, None) (λ _, 0%nat) (λ _, true) (λ _ w, Ret (tt, w)) w_leak w_init
      (λ _ _ m, Ret (false, m)) (λ _ _ m, Ret (false, m)) (λ _, "loader"%string) None 65536 1000 12288 (w_boot w_memory)
      = Ret (Ok 77, s')
    ∧ s' = after_relocation w_memory (w_boot w_memory).
Proof.
  destruct (pass_through_untouched (LK := w_linker) (RL := w_loader) w_symbols 8 (λ _, None) (λ _, 0%nat) (λ _, true)
    (λ _ w, Ret (tt, w)) w_leak w_init (λ _, "loader"%string) (λ _ _ m, Ret (false, m)) (λ _ _ m, Ret (false, m))
    9 None 65536 1000 12288 (w_boot w_memory) w_memory [9000] [9050] w_pairs [w_header] [(5, 8); (8, 0)])
    as (b & input & Hb & _ & _ & _ & _ & H).
  - reflexivity.
  - split; apply (bool_decide_unpack _); vm_compute; exact I.
  - apply StackProps.words_at_of_words. unfold w_memory.
    do 3 (apply bytes_at_write_other; [|right; vm_compute; discriminate]). apply write_bytes_at.
  - unfold StackProps.enough. vm_compute. lia.
  - split_and!; [vm_compute; discriminate|vm_compute; discriminate|reflexivity|vm_compute; discriminate|vm_compute; reflexivity|].
    intros [|i] h Hi; [injection Hi as <-; reflexivity|destruct i; discriminate Hi].
  - vm_compute. discriminate.
  - vm_compute. discriminate.
  - vm_compute. discriminate.
  - vm_compute. reflexivity.
  - split; [apply StackProps.words_at_of_words|split; apply (bool_decide_unpack _); vm_compute; exact I].
    unfold w_memory. apply bytes_at_write_other; [|left; vm_compute; discriminate]. apply write_bytes_at.
  - vm_compute. reflexivity.
  - assert (b = true) as ->.
    { apply Hb. split_and!; [reflexivity| | |reflexivity|reflexivity]; intros d Hd;
        apply elem_of_cons in Hd as [-> |Hd%list_elem_of_singleton]; [discriminate|subst; discriminate| |subst; intros Hn; by destruct Hn].
      intros _. apply (bool_decide_unpack _). vm_compute. exact I. }
    eexists. split; [exact H|reflexivity].
Defined.
End StartupProps.
