(* ===== verification/Boot.v ===== *)
(** * One run of startup (bootstrap/startup.rs over src/runtime/rtld.rs)

    The run of the linker from its first function to the jump, for a program that
    the kernel mapped and for a direct invocation, composed of the theorems about
    its stages.  What it asks of the loader crate is a contract here, and under
    it the run always ends, with everything published before the first
    constructor. *)

From stdpp Require Import gmap.
From S2P Require Import Prelude Errors LinkMap DebugList Machine CStr Layout Tls Resolver Manager Open Stack SelfReloc Glibc.
From S2P Require Import Cli CliReturns Rtld Startup.

Module BootProps.
Import Machine CStr Layout Stack Tls Open Startup StartupProps.

Section contract.
Context {K Source : Type}.
Context {Ctx Id Lease Mod LErr : Type} `{ED : EqDecision Id, LC : !LinkCtx Ctx Id Lease Mod, MA : !ModuleApi Mod}.
Context {BU : Build} {IS : ImageSource Source}.
Local Abbreviation P := (process K Source).
Local Abbreviation W := (World Ctx Lease Mod P).
Context {LK : Linker W Ctx Id Lease LErr} {RL : RawLoader W Raw LErr}.

(** The addresses of the link maps in the process. *)
Definition listed (w : W) : gset Z := dom (DebugList.maps (p_maps (rest w))).

(** The TLS module can tell its sizes. *)
Definition tls_ready (t : Resolver.rstate (tls_state Source) Source) : Prop :=
  ∃ size align off, static_info (Resolver.tls t) = Ret ((size, align), Resolver.tls t)
    ∧ rseq_offset (Resolver.tls t) = Ret (off, Resolver.tls t).

(** Nothing that is mapped changes. *)
Definition keeps (w w' : W) : Prop := ∀ x b, memory_of (rest w) x = Some b → memory_of (rest w') x = Some b.

(** What the loader crate keeps about the modules of a context: [linked c X]
    says that the link maps of the committed modules are in [X].  A group begins
    with an ELF module, and its maps are different; insertion into an empty
    context succeeds. *)
Class Linked (LL : LinkCtxLaws Ctx Id Lease Mod) := {
  linked : Ctx → gset Z → Prop;
  linked_group c X (j : Id) g : linked c X → ctx_load_group (Lease := Lease) c j = Some g →
    (∃ m g', g = m :: g' ∧ is_elf m = true)
    ∧ NoDup (mod_link_map <$> filter (λ m, is_elf m = true) g)
    ∧ Forall (λ m, is_elf m = true → mod_link_map m ∈ X) g;
  linked_ext c c' X : linked c X →
    (∀ j : Id, ctx_load_group (Lease := Lease) (Mod := Mod) c' j = ctx_load_group (Lease := Lease) (Mod := Mod) c j) →
    linked c' X;
  linked_insert c nm m fl deps X : linked c X → ctx_load_order (Id := Id) (Lease := Lease) (Mod := Mod) c = [] →
    is_elf m = true → mod_link_map m ∈ X →
    ∃ l c', ctx_insert c nm m fl deps = Some (l, c') ∧ l ∈ outstanding (LinkCtxLaws := LL) c'
      ∧ is_Some (ctx_meta (Id := Id) (Lease := Lease) (Mod := Mod) c' (lease_id l)) ∧ linked c' X }.

Context {LL : LinkCtxLaws Ctx Id Lease Mod} {LI : Linked LL}.

(** The process between two steps of startup: the cell is free, the areas [rs]
    are mapped, the maps [X] exist, and the context and the TLS module are in
    order. *)
Record ready (rs : list (Z * Z)) (X : gset Z) (w : W) : Prop := {
  ready_free : borrowed w = false;
  ready_mapped : Forall (λ r, mapped (memory_of (rest w)) r.1 r.2) rs;
  ready_tls : tls_ready (p_tls (rest w));
  ready_listed : X ⊆ listed w;
  ready_linked : linked (Manager.link_ctx (manager w)) (listed w) }.

(** The contract of the loader crate at startup: what is mapped stays mapped,
    and stays as it is until the relocation; link maps stay, a mapped object has
    its map listed, and a relocated load can be published: the observer has
    listed the maps of its objects by then. *)
Class BootLaws (raw_link_map : Raw → option Z) (from_core : Raw → Mod) (scope_free : Raw → bool) := {
  publishable : Relocated → W → Prop;
  boot_map fl nm bias phdrs e rs X w : ready rs X w →
    ∃ r w', load_mapped_dynamic fl nm bias phdrs e w = Ret (r, w') ∧ ready rs X w' ∧ manager w' = manager w ∧ keeps w w'
      ∧ ∀ raw, r = Ok raw → scope_free raw = true ∧ is_elf (from_core raw) = true
          ∧ ∀ lm, raw_link_map raw = Some lm → lm ≠ 0 ∧ lm ∈ listed w' ∧ mod_link_map (from_core raw) = lm;
  boot_exec fl path rs X w : ready rs X w →
    ∃ r w', loader_load_exec fl path w = Ret (r, w') ∧ ready rs X w' ∧ keeps w w';
  boot_prepare paths id c key raw X : linked c X → linked (prepare_mapped (LErr := LErr) paths id c key raw).2 X;
  boot_relocate plan p rs X w r w' : ready rs X w → relocate plan p w = Ret (r, w') →
    ready rs X w' ∧ ∀ rel, r = Ok rel → publishable rel w';
  boot_publish rel w pub c' : ready [] ∅ w → publishable rel w →
    publish rel (Manager.link_ctx (manager w)) = (Ok pub, c') →
    linked c' (listed w) ∧ is_Some (ctx_meta (Lease := Lease) (Mod := Mod) c' (root_of pub)) }.

(** Less is needed than is there. *)
Lemma ready_weaken rs rs' X X' w : ready rs X w → rs' ⊆ rs → X' ⊆ X → ready rs' X' w.
Proof.
  intros [H1 H2 H3 H4 H5] Hrs HX. split; [done| |done|by etrans|done].
  apply Forall_forall. intros r Hr. by apply (proj1 (Forall_forall _ _) H2), Hrs.
Qed.

(** Another process state around the same registry. *)
Definition with_process (p : P) (w : W) : W := mkWorld (manager w) (borrowed w) (search_path_cell w) p.
(** Memory stays mapped, the maps and the TLS module stay. *)
Definition steady (p p' : P) : Prop :=
  (∀ x, mapped (memory_of p) x 1 → mapped (memory_of p') x 1)
  ∧ dom (DebugList.maps (p_maps p')) = dom (DebugList.maps (p_maps p))
  ∧ Resolver.tls (p_tls p') = Resolver.tls (p_tls p).
#[export] Instance steady_refl : Reflexive steady.
Proof. by intros p. Qed.
#[export] Instance steady_trans : Transitive steady.
Proof. intros p q r (H1 & H2 & H3) (H4 & H5 & H6). split_and!; [auto|by rewrite H5|by rewrite H6]. Qed.

Lemma ready_steady rs X w p : ready rs X w → steady (rest w) p → ready rs X (with_process p w).
Proof.
  intros [H1 H2 H3 H4 H5] (Hm & Hd & Ht). split; unfold listed, with_process in *; cbn [borrowed rest manager] in *.
  - done.
  - eapply Forall_impl; [exact H2|]. intros r Hr. by eapply Layout.mapped_mono.
  - unfold tls_ready in *. by rewrite Ht.
  - by rewrite Hd.
  - by rewrite Hd.
Qed.
Lemma ready_region rs X w a n : ready rs X w → (a, n) ∈ rs → mapped (memory_of (rest w)) a n.
Proof. intros Hr Hin. exact (proj1 (Forall_forall _ _) (ready_mapped _ _ _ Hr) _ Hin). Qed.
(** The registry may change as long as the groups stay linked. *)
Lemma ready_registry rs X w s b cell :
  ready rs X w → linked (Manager.link_ctx s) (listed w) → b = false → ready rs X (mkWorld s b cell (rest w)).
Proof. intros [H1 H2 H3 H4 H5] Hl ->. by split. Qed.
End contract.

(** ** Reading headers *)
Section headers.
Lemma load_bytes_total m a n : mapped m a (Z.of_nat n) → ∃ l, load_bytes n a m = Ret (l, m).
Proof.
  intros H. destruct (mapped_bytes m a _ H) as (l & Hl & Hlen). exists l. apply load_bytes_run; [done|].
  unfold zlen in Hlen. lia.
Qed.
Lemma load_num_total m a n : mapped m a (Z.of_nat n) → ∃ v, (l ← load_bytes n a; mret (le_decode l)) m = Ret (v, m).
Proof. intros H. destruct (load_bytes_total m a n H) as (l & Hl). eexists. by erewrite st_bind_run by exact Hl. Qed.

Lemma read_phdr_total m p : mapped m p size_of_phdr → ∃ h, read_phdr p m = Ret (h, m).
Proof.
  intros H. unfold size_of_phdr in H.
  assert (∀ o n, 0 ≤ o → o + Z.of_nat n ≤ 56 → ∃ v, (l ← load_bytes n (p + o); mret (le_decode l)) m = Ret (v, m)) as Hload.
  { intros o n Ho Hn. apply load_num_total. intros x Hx. apply H. lia. }
  unfold read_phdr, load32, load64.
  destruct (load_num_total m p 4%nat) as (v0 & H0); [intros x Hx; apply H; lia|]. erewrite st_bind_run by exact H0.
  edestruct (Hload 4 4%nat) as (v1 & H1); [lia..|]. erewrite st_bind_run by exact H1.
  edestruct (Hload 8 8%nat) as (v2 & H2); [lia..|]. erewrite st_bind_run by exact H2.
  edestruct (Hload 16 8%nat) as (v3 & H3); [lia..|]. erewrite st_bind_run by exact H3.
  edestruct (Hload 24 8%nat) as (v4 & H4); [lia..|]. erewrite st_bind_run by exact H4.
  edestruct (Hload 32 8%nat) as (v5 & H5); [lia..|]. erewrite st_bind_run by exact H5.
  edestruct (Hload 40 8%nat) as (v6 & H6); [lia..|]. erewrite st_bind_run by exact H6.
  edestruct (Hload 48 8%nat) as (v7 & H7); [lia..|]. erewrite st_bind_run by exact H7. by eexists.
Qed.

Lemma read_phdrs_total n m p : mapped m p (Z.of_nat n * size_of_phdr) → ∃ l, read_phdrs n p m = Ret (l, m).
Proof.
  revert p. induction n as [|n IH]; intros p H; [by eexists|]. cbn [read_phdrs]. unfold size_of_phdr in *.
  destruct (read_phdr_total m p) as (h & Hh); [intros x Hx; apply H; unfold size_of_phdr in Hx; lia|].
  destruct (IH (p + 56)) as (l & Hl); [intros x Hx; apply H; lia|].
  erewrite st_bind_run by exact Hh. erewrite st_bind_run by exact Hl. by eexists.
Qed.

(** The header of the linker, as far as it is read. *)
Record ehdr_at (m : mem) (p off sz num : Z) : Prop := {
  ehdr_bytes : ∃ h, bytes_at m p h ∧ length h = 64%nat
    ∧ off = le_decode (take 8 (drop 32 h)) ∧ sz = le_decode (take 2 (drop 54 h)) ∧ num = le_decode (take 2 (drop 56 h)) }.

Lemma rtld_object_total m p off sz num :
  ehdr_at m p off sz num →
  ∃ o, rtld_object p m = Ret (o, m) ∧ load_bias o = p
    ∧ (o_phdr o = 0 ∨ o_phdr o = wrapping_add p off ∧ o_phnum o = num).
Proof.
  intros [(h & Hb & Hlen & -> & -> & ->)]. unfold rtld_object.
  destruct (p =? 0); [eexists; split_and!; [reflexivity|done|by left]|].
  unfold read_ehdr. rewrite st_bind_assoc. erewrite st_bind_run by (apply load_bytes_run; [exact Hb|done]).
  rewrite st_bind_ret. destruct (_ <? size_of_phdr); eexists; (split_and!; [reflexivity|done|]); [by left|by right].
Qed.

Lemma ehdr_at_frame m m' p off sz num :
  ehdr_at m p off sz num → (∀ x, p ≤ x < p + 64 → m' x = m x) → ehdr_at m' p off sz num.
Proof.
  intros [(h & Hb & Hlen & H)] Hf. split. exists h. split; [|done]. intros i b Hi.
  pose proof (lookup_lt_Some _ _ _ Hi). rewrite Hf by lia. by apply Hb.
Qed.
End headers.

(** ** The stages *)
Section stages.
Context {K Source : Type} {FI : Files K} {SF : StdFds K}.
Context {Ctx Id Lease Mod LErr : Type} `{ED : EqDecision Id, LC : !LinkCtx Ctx Id Lease Mod, MA : !ModuleApi Mod}.
Context {BU : Build} {IS : ImageSource Source} {KE : Heap.Kernel}.
Local Abbreviation P := (process K Source).
Local Abbreviation W := (World Ctx Lease Mod P).
Local Abbreviation boot := (Rtld.rt (Ctx := Ctx) (Id := Id) (Lease := Lease) (Mod := Mod) (Ext := P)).
Context {LK : Linker W Ctx Id Lease LErr} {RL : RawLoader W Raw LErr}.
Context {LL : LinkCtxLaws Ctx Id Lease Mod} {AL : AliasLaws LL} {LLK : LinkerLaws LL LK} {LI : Linked LL}.
Context (sy : Symbols) (link_error : LErr) (raw_link_map : Raw → option Z) (from_core : Raw → Mod) (scope_free : Raw → bool).
Context {BL : BootLaws (LI := LI) (LK := LK) (RL := RL) raw_link_map from_core scope_free}.
Context (drop_group : list Id → st W unit) (leak : list Z → st P Z) (init : Z → st W unit).
Hypothesis release_build : overflow_checks = false.
Hypothesis drop_group_runs : ∀ u w, borrowed w = false → ∃ w', drop_group u w = Ret (tt, w') ∧ borrowed w' = false.
(** [__libc_early_init] returns, and leaves the cell free. *)
Hypothesis init_runs : ∀ f w, borrowed w = false → ∃ w', init f w = Ret (tt, w') ∧ borrowed w' = false.
(** The two structures that libc reads by offset. *)
Definition rtld_areas : list (Z * Z) :=
  [(a_rtld_global sy, Glibc.RTLD_GLOBAL_SIZE); (a_rtld_global_ro sy, Glibc.RTLD_GLOBAL_RO_SIZE)].
Definition areas_apart : Prop :=
  a_rtld_global sy + Glibc.RTLD_GLOBAL_SIZE ≤ a_rtld_global_ro sy
  ∨ a_rtld_global_ro sy + Glibc.RTLD_GLOBAL_RO_SIZE ≤ a_rtld_global sy.
(** A leaked box is not in the statics of the linker. *)
Hypothesis leak_apart : ∀ l p, ∃ a m, leaks leak l a p m ∧ Forall (λ r, a + 8 * zlen l ≤ r.1 ∨ r.1 + r.2 ≤ a) rtld_areas.
Implicit Types (w : W) (p : P) (s : boot).

(** An object that the loader has mapped. *)
Definition mapped_raw (raw : Raw) w : Prop :=
  scope_free raw = true ∧ is_elf (from_core raw) = true
  ∧ ∀ lm, raw_link_map raw = Some lm → lm ≠ 0 ∧ lm ∈ listed w ∧ mod_link_map (from_core raw) = lm.

(** The areas that hold the headers of an object. *)
Definition header_areas (o : BootstrapObject) : list (Z * Z) :=
  if o_phdr o =? 0 then [] else [(o_phdr o, Z.max 0 (o_phnum o) * size_of_phdr)].

Lemma load_object_run nm o rs X w :
  ready rs X w → header_areas o ⊆ rs →
  ∃ r w', load_bootstrap_object nm o w = Ret (r, w') ∧ ready rs X w' ∧ manager w' = manager w
    ∧ ∀ raw, r = Ok raw → mapped_raw raw w'
        ∧ keeps w w' ∧ ∃ phdrs w0, load_mapped (Id := Id) nm (load_bias o) phdrs (o_entry o) w0 = Ret (Ok raw, w').
Proof.
  intros Hr Hh. unfold load_bootstrap_object, header_areas in *.
  destruct (o_phdr o =? 0) eqn:Hp; [eexists _, w; by split_and!|]. cbn [orb].
  destruct (o_phnum o =? 0); [eexists _, w; by split_and!|].
  destruct (read_phdrs_total (Z.to_nat (o_phnum o)) (memory_of (rest w)) (o_phdr o)) as (phdrs & Hread).
  { replace (Z.of_nat (Z.to_nat (o_phnum o))) with (Z.max 0 (o_phnum o)) by lia.
    eapply ready_region; [exact Hr|]. apply Hh. left. }
  erewrite st_bind_run by (apply on_process_run, on_memory_run, Hread).
  match goal with |- context [convert_err _ ?x] => set (w1 := x) end.
  assert (ready rs X w1) as Hr1.
  { apply (ready_steady rs X w (with_memory (memory_of (rest w)) (rest w)) Hr). by split_and!. }
  destruct (boot_map OpenFlags.empty nm (load_bias o) phdrs (o_entry o) rs X w1 Hr1) as (r & w2 & H2 & Hr2 & Hm & Hkeep & Hraw).
  unfold convert_err. erewrite st_bind_run by exact H2. eexists _, w2.
  split; [reflexivity|]. split; [done|]. split; [exact Hm|]. intros raw Hok. destruct r as [raw'|]; [|done].
  injection Hok as ->. split; [by apply Hraw|]. split; [exact Hkeep|]. by exists phdrs, w1.
Qed.

Lemma manager_register_run m fl X (mg : Manager.Manager (Ctx := Ctx) (Lease := Lease) (Mod := Mod)) :
  linked (Manager.link_ctx mg) X → ctx_load_order (Id := Id) (Lease := Lease) (Mod := Mod) (Manager.link_ctx mg) = [] →
  is_elf m = true → mod_link_map m ∈ X →
  ∃ mg', Manager.register_loaded (Id := Id) true m fl mg = Ret (tt, mg') ∧ linked (Manager.link_ctx mg') X.
Proof.
  intros Hl He Helf Hin. unfold Manager.register_loaded. cbn [negb]. rewrite Helf. cbn [negb].
  unfold Manager.ctx at 1. erewrite st_bind_run by reflexivity.
  set (nm := default _ _). set (deps := instance_id <$> _).
  destruct (linked_insert _ nm m fl deps X Hl He Helf Hin) as (l & c1 & H1 & Ho1 & Hm1 & Hl1).
  assert (Manager.expect_lease (λ c, ctx_insert c nm m fl deps) mg
    = Ret (l, Manager.mkManager c1 (Manager.handles mg) (Manager.adds mg) (Manager.subs mg))) as Hins.
  { unfold Manager.expect_lease, Manager.ctx. erewrite st_bind_run by reflexivity. by rewrite H1. }
  erewrite st_bind_run by exact Hins.
  assert (∃ a, Manager.add_adds 1 (Manager.mkManager c1 (Manager.handles mg) (Manager.adds mg) (Manager.subs mg))
    = Ret (tt, Manager.mkManager c1 (Manager.handles mg) a (Manager.subs mg))) as (a & Ha).
  { unfold Manager.add_adds, uadd, u_arith. rewrite release_build. destruct (decide _); by eexists. }
  erewrite st_bind_run by exact Ha. set (s1 := Manager.mkManager c1 _ a _).
  destruct (RtldProps.add_alias_run (lease_id l) (mod_file_name m) s1 Hm1) as (c2 & H2 & Hm2 & Hg2 & _ & Ho2).
  erewrite st_bind_run by exact H2. cbn [Manager.link_ctx s1] in Hm2, Hg2, Ho2.
  assert (linked c2 X) as Hl2 by (by eapply linked_ext).
  assert (is_Some (ctx_meta (Lease := Lease) (Mod := Mod) c2 (lease_id l))) as Hs2 by (by rewrite Hm2).
  assert (∃ c3, (if OpenFlags.is_global fl || bool_decide (nm = [])
      then Manager.expect_ctx (λ c, ctx_promote_global c (lease_id l)) else mret tt)
      (Manager.mkManager c2 (Manager.handles s1) (Manager.adds s1) (Manager.subs s1))
    = Ret (tt, Manager.mkManager c3 (Manager.handles s1) (Manager.adds s1) (Manager.subs s1))
    ∧ linked c3 X ∧ outstanding (LinkCtxLaws := LL) c3 = outstanding (LinkCtxLaws := LL) c2) as (c3 & H3 & Hl3 & Ho3).
  { destruct (_ || _); [|by exists c2].
    destruct (law_promote c2 (lease_id l) Hs2) as (c3 & Hp & _ & Ho3 & _ & Hg3 & _). exists c3.
    unfold Manager.expect_ctx, Manager.ctx. erewrite st_bind_run by reflexivity. cbn [Manager.link_ctx]. rewrite Hp.
    split_and!; [reflexivity|by eapply linked_ext|done]. }
  erewrite st_bind_run by exact H3.
  destruct (law_pin c3 l) as (c4 & Hp & _ & _ & _ & Hg4 & _); [by rewrite Ho3, Ho2|].
  unfold Manager.expect_ctx, Manager.ctx. erewrite st_bind_run by reflexivity.
  cbn [Manager.link_ctx]. rewrite Hp. eexists. split; [reflexivity|]. by eapply linked_ext.
Qed.

Lemma register_run raw fl rs X w :
  ready rs X w → mapped_raw raw w → ctx_load_order (Id := Id) (Lease := Lease) (Mod := Mod) (Manager.link_ctx (manager w)) = [] →
  ∃ r w', Rtld.register_loaded (LErr := LErr) raw_link_map from_core scope_free raw fl w = Ret (r, w')
    ∧ borrowed w' = false ∧ ∀ lm, r = Ok lm → lm ≠ 0 ∧ ready rs ({[lm]} ∪ X) w' ∧ rest w' = rest w.
Proof.
  intros Hr (Hsf & Helf & Hlm) He. unfold Rtld.register_loaded.
  destruct (raw_link_map raw) as [lm|]; [|eexists _, w; split; [reflexivity|]; split; [apply Hr|done]].
  destruct (Hlm lm eq_refl) as (Hne & Hin & Heq). rewrite Hsf.
  destruct (manager_register_run (from_core raw) fl (listed w) (manager w)) as (mg & Hrun & Hl);
    [apply Hr|done|done|by rewrite Heq|].
  erewrite st_bind_run by (apply OpenProps.borrow_run; [apply Hr|exact Hrun]).
  eexists _, _. split; [reflexivity|]. split; [done|]. intros lm' [= <-]. split; [done|].
  assert (ready rs ({[lm]} ∪ X) w) as Hr'.
  { destruct Hr as [H1 H2 H3 H4 H5]. split; try done. set_solver. }
  split; [by apply ready_registry|done].
Qed.

(** ** Before the constructors *)

(** The maps that startup publishes. *)
Definition startup_list (link_maps : gmap Z LinkMap) (rtld : Z) (g : list Mod) : list Z :=
  RtldProps.with_rtld rtld (RtldProps.elf_maps link_maps rtld g).

Lemma startup_list_ok link_maps rtld g :
  rtld ≠ 0 → rtld ∈ dom link_maps → NoDup (mod_link_map <$> filter (λ m, is_elf m = true) g) →
  Forall (λ m, is_elf m = true → mod_link_map m ∈ dom link_maps) g →
  NoDup (startup_list link_maps rtld g) ∧ Forall (λ x, is_Some (link_maps !! x)) (startup_list link_maps rtld g)
  ∧ rtld ∈ startup_list link_maps rtld g.
Proof.
  intros Hne Hin Hnd Hall. unfold startup_list, RtldProps.with_rtld. rewrite decide_False by done.
  set (l := RtldProps.elf_maps link_maps rtld g).
  assert (take 1 l ++ rtld :: drop 1 l ≡ₚ rtld :: l) as Hperm by (by rewrite <-Permutation_middle, take_drop).
  assert (Forall (λ x, x ∈ dom link_maps) l) as Hl.
  { apply Forall_forall. intros x (_ & (m & -> & [Helf Hm]%list_elem_of_filter)%list_elem_of_fmap)%list_elem_of_filter.
    exact (proj1 (Forall_forall _ _) Hall m Hm Helf). }
  rewrite Hperm. split_and!.
  - constructor; [|by apply NoDup_filter]. intros [Hs _]%list_elem_of_filter. apply Hs. by left.
  - constructor; [by apply elem_of_dom|]. eapply Forall_impl; [exact Hl|]. intros x Hx. by apply elem_of_dom.
  - left.
Qed.

(** [__libc_early_init], if a loaded module defines it. *)
Definition early_init : st W unit := λ w,
  match Manager.find_symbol (omap (ctx_module (Id := Id) (Lease := Lease) (Manager.link_ctx (manager w)))
          (ctx_load_order (Lease := Lease) (Mod := Mod) (Manager.link_ctx (manager w)))) (bytes_of_string "__libc_early_init") with
  | Some f => init f w
  | None => Ret (tt, w)
  end.

(** Everything is published, for the load group of the root, when
    [__libc_early_init] starts, and [w'] is the world in which it ends. *)
Definition handed_over (ldbase rtld : Z) (root : Id) (w' : W) : Prop :=
  ∃ wp link_maps m g a size align off,
    ctx_load_group (Lease := Lease) (Manager.link_ctx (manager wp)) root = Some (m :: g)
    ∧ (∀ x, x ∈ m :: g → x ∈ ctx_global_scope (Id := Id) (Lease := Lease) (Manager.link_ctx (manager wp)))
    ∧ rtld ∈ startup_list link_maps rtld (m :: g)
    ∧ published sy (rest wp) (mod_link_map m) (startup_list link_maps rtld (m :: g))
        (default 0 (last (RtldProps.libc_maps (m :: g)))) a ldbase size align off
    ∧ borrowed wp = false ∧ early_init wp = Ret (tt, w').

Lemma before_root_run state rs X root rtld w :
  areas_apart → ready rs X w → rtld_areas ⊆ rs → rtld ∈ X → rtld ≠ 0 →
  is_Some (ctx_meta (Lease := Lease) (Mod := Mod) (Manager.link_ctx (manager w)) root) →
  ∃ w', Rtld.before_root (LErr := LErr) link_error (λ p, DebugList.maps (p_maps p)) rtld
      (before_constructors sy leak init state) root w = Ret (Ok tt, w')
    ∧ borrowed w' = false ∧ handed_over (load_bias (Startup.rtld state)) rtld root w'.
Proof.
  intros Hap Hr Hrs Hin Hne Hm. unfold Rtld.before_root. rewrite st_bind_get.
  set (ms := DebugList.maps (p_maps (rest w))).
  destruct (law_load_group _ root Hm) as (m & g & Hg).
  destruct (linked_group _ _ _ _ (ready_linked _ _ _ Hr) Hg) as ((m' & g' & [= <- <-] & Helf) & Hnd & Hall).
  assert (rtld ∈ dom ms) as Hrtld by (by apply (ready_listed _ _ _ Hr)).
  destruct (RtldProps.startup_state_run (LErr := LErr) link_error ms root rtld m g (manager w) Hg Hm Helf)
    as (c' & Hrun & Hglob & _ & Hgrp & _).
  { intros _. split; [by apply elem_of_dom|]. eapply Forall_impl; [exact Hall|]. intros x Hx He. by apply elem_of_dom, Hx. }
  erewrite try_res_step by (apply OpenProps.borrow_run; [apply Hr|exact Hrun]).
  destruct (startup_list_ok ms rtld (m :: g) Hne Hrtld Hnd Hall) as (Hnd' & Hsome & Hmem).
  fold (startup_list ms rtld (m :: g)). set (l := startup_list ms rtld (m :: g)) in *.
  set (w1 := mkWorld _ false _ _).
  destruct (leak_apart l (rest w)) as (a & mm & Hleak & Hfar).
  destruct (ready_tls _ _ _ Hr) as (size & align & off & Hsi & Hro).
  assert (∀ r, r ∈ rtld_areas → mapped (memory_of (rest w)) r.1 r.2) as Hmap.
  { intros r Hrin. exact (proj1 (Forall_forall _ _) (ready_mapped _ _ _ Hr) r (Hrs _ Hrin)). }
  destruct (published_before_constructors (LErr := LErr) sy leak init state
    (Rtld.mkStartup (mod_link_map m) l (default 0 (last (RtldProps.libc_maps (m :: g))))) w1 a mm size align off)
    as (p' & Hbc & Hpub); try done.
  - apply (Hmap (_, _)). left.
  - apply (Hmap (_, _)). right. left.
  - rewrite Hbc. cbn [manager w1 search_path_cell]. set (wp := mkWorld _ false _ p').
    assert (∃ w', early_init wp = Ret (tt, w') ∧ borrowed w' = false) as (w' & Hi & Hb').
    { unfold early_init. destruct (Manager.find_symbol _ _); [by apply init_runs|by exists wp]. }
    exists w'. split_and!; [|done|].
    + unfold early_init in Hi. cbn [manager wp] in Hi. destruct (Manager.find_symbol _ _); by erewrite st_bind_run by exact Hi.
    + exists wp, ms, m, g, a, size, align, off. split_and!; try done. by rewrite <-Hg, <-Hgrp.
Qed.

(** ** Linking the root *)

(** The constructors of the load ran after the hand-over. *)
Definition constructed (ldbase rtld : Z) (root : Id) : Prop :=
  ∃ pub w1 load w2, root_of pub = root ∧ handed_over ldbase rtld root w1 ∧ initialize pub w1 = Ret (Ok load, w2).

(** The outcome of opening the root: the cell is free, and a success is a live
    lease of a root whose constructors ran. *)
Definition root_opened (ldbase rtld : Z) (r : option Id * result (Error LErr) (Manager.OpenedLibrary (Lease := Lease) (Mod := Mod))) w : Prop :=
  borrowed w = false
  ∧ ∀ o, r.2 = Ok o → Manager.lease o ∈ outstanding (LinkCtxLaws := LL) (Manager.link_ctx (manager w))
      ∧ ∃ root, r.1 = Some root ∧ constructed ldbase rtld root.

Lemma root_failed ldbase rtld root e w : borrowed w = false → root_opened ldbase rtld (root, Err e) w.
Proof. by intros Hb. Qed.

Lemma commit_root_run flags state rs X rtld prepared w :
  areas_apart → ready rs X w → rtld_areas ⊆ rs → rtld ∈ X → rtld ≠ 0 →
  ∃ r w', Rtld.commit_root flags (Rtld.before_root (LErr := LErr) link_error (λ p, DebugList.maps (p_maps p)) rtld
      (before_constructors sy leak init state)) prepared w = Ret (r, w')
    ∧ root_opened (load_bias (Startup.rtld state)) rtld r w'.
Proof.
  intros Hap Hr Hrs Hin Hne. unfold Rtld.commit_root, convert_err.
  destruct (law_relocate (on_relocation flags) prepared w (ready_free _ _ _ Hr)) as (r1 & w1 & H1 & Hb1).
  destruct (boot_relocate _ _ rs X w r1 w1 Hr H1) as (Hr1 & Hpublish).
  rewrite st_bind_assoc. erewrite st_bind_run by exact H1. rewrite st_bind_ret.
  destruct r1 as [rel|e]; cbn [loader_err]; [|eexists _, _; split; [reflexivity|by apply root_failed]].
  destruct (publish rel (Manager.link_ctx (manager w1))) as [rp c'] eqn:Hp.
  rewrite st_bind_assoc. erewrite st_bind_run by (apply OpenProps.borrow_run; [done|apply OpenProps.on_context_run]).
  rewrite st_bind_ret, Hp. cbn [fst snd]. set (w2 := mkWorld _ false _ _).
  destruct rp as [pub|e]; cbn [loader_err]; [|eexists _, _; split; [reflexivity|by apply root_failed]].
  destruct (boot_publish rel w1 pub c') as (Hl & Hm);
    [eapply ready_weaken; [exact Hr1|set_solver|set_solver]|by apply Hpublish|exact Hp|].
  assert (ready rs X w2) as Hr2 by (by apply ready_registry).
  destruct (before_root_run state rs X (root_of pub) rtld w2 Hap Hr2 Hrs Hin Hne Hm) as (w3 & H3 & Hb3 & Hhand).
  erewrite st_bind_run by exact H3.
  destruct (law_initialize pub w3 Hb3) as (r4 & w4 & H4 & Hb4 & Hld). erewrite st_bind_run by exact H4.
  destruct r4 as [ld|fl].
  - specialize (Hld ld eq_refl). simpl in Hld. destruct (into_parts ld) as [l ids] eqn:Hparts; simpl.
    destruct Hld as (Hl4 & Hroot & Hall & Hnd & Ha1 & Ha2).
    destruct (ManagerProps.open_load_run l ids flags (manager w4) Hall Hnd Hroot Ha1 Ha2)
      as (sc & c4 & Hrun & _ & _ & _ & Ho & _).
    erewrite st_bind_run by (apply OpenProps.borrow_run; [done|exact Hrun]). eexists _, _. split; [reflexivity|].
    split; [done|]. intros o [= <-]. split; [cbn [Manager.lease manager Manager.link_ctx]; by rewrite Ho|].
    exists (root_of pub). split; [done|]. by exists pub, w3, ld, w4.
  - destruct (OpenProps.borrow_context_run (failed_rollback fl) w4 Hb4) as (e & w5 & H5 & Hb5).
    erewrite st_bind_run by exact H5. eexists _, _. split; [reflexivity|by apply root_failed].
Qed.

Lemma open_root_run envp request key raw flags state rs X rtld w :
  areas_apart → ready rs X w → rtld_areas ⊆ rs → rtld ∈ X → rtld ≠ 0 →
  ∃ r w', Rtld.open_mapped_root envp request key raw flags (Rtld.before_root (LErr := LErr) link_error
      (λ p, DebugList.maps (p_maps p)) rtld (before_constructors sy leak init state)) w = Ret (r, w')
    ∧ root_opened (load_bias (Startup.rtld state)) rtld r w'.
Proof.
  intros Hap Hr Hrs Hin Hne. unfold Rtld.open_mapped_root.
  destruct (OpenProps.paths_run envp w) as (paths & Hp). erewrite st_bind_run by exact Hp.
  set (w1 := mkWorld _ _ _ _).
  assert (ready rs X w1) as Hr1 by (apply ready_registry; [done|apply Hr|apply Hr]).
  set (c := Manager.link_ctx (manager w1)).
  destruct (prepare_mapped (LErr := LErr) paths None c key raw) as [rp c'] eqn:Hprep.
  pose proof (boot_prepare paths None c key raw (listed w1) (ready_linked _ _ _ Hr1)) as Hl. rewrite Hprep in Hl.
  assert (prepare request (env_flags envp flags) paths None (Mapped key raw) (manager w1)
    = Ret (match rp with Ok p => Ok (inr p) | Err e => Err (LoaderError e) end,
           Manager.mkManager c' (Manager.handles (manager w1)) (Manager.adds (manager w1)) (Manager.subs (manager w1)))) as Hrun.
  { unfold prepare, Manager.ctx. erewrite st_bind_run by reflexivity. unfold convert_err, try_res. rewrite st_bind_assoc.
    erewrite st_bind_run by apply OpenProps.on_context_run. rewrite st_bind_ret. cbn [mbind option_bind]. fold c.
    rewrite Hprep. by destruct rp. }
  erewrite st_bind_run by (apply OpenProps.borrow_run; [apply Hr1|exact Hrun]).
  destruct rp as [p|e]; [|eexists _, _; split; [reflexivity|by apply root_failed]].
  apply (commit_root_run _ state rs X); try done. by apply ready_registry.
Qed.

Lemma relink_run (lm : Z) (d : DebugList.dstate) :
  lm ∈ dom (DebugList.maps d) →
  ∃ d', (DebugList.modify_map lm (set_l_next 0);; DebugList.modify_map lm (set_l_prev 0);;
         DebugList.modify_map lm (set_l_real lm)) d = Ret (tt, d')
    ∧ dom (DebugList.maps d') = dom (DebugList.maps d).
Proof.
  intros [m Hm]%elem_of_dom.
  assert (∀ f (d : DebugList.dstate), lm ∈ dom (DebugList.maps d) → ∃ d', DebugList.modify_map lm f d = Ret (tt, d')
    ∧ dom (DebugList.maps d') = dom (DebugList.maps d)) as Hstep.
  { intros f d0 [m0 Hm0]%elem_of_dom. eexists. split; [by apply DebugList.modify_map_run|].
    cbn [DebugList.maps DebugList.with_maps]. rewrite dom_insert_L. apply elem_of_dom_2 in Hm0. set_solver. }
  apply elem_of_dom_2 in Hm.
  destruct (Hstep (set_l_next 0) d Hm) as (d1 & H1 & D1). erewrite st_bind_run by exact H1.
  destruct (Hstep (set_l_prev 0) d1) as (d2 & H2 & D2); [by rewrite D1|]. erewrite st_bind_run by exact H2.
  destruct (Hstep (set_l_real lm) d2) as (d3 & H3 & D3); [by rewrite D2, D1|]. exists d3.
  split; [exact H3|]. by rewrite D3, D2, D1.
Qed.

(** A step of the process inside the run. *)
Lemma process_step_run {A} (f : st P A) s a p :
  f (rest (Rtld.world s)) = Ret (a, p) →
  Rtld.in_world (Id := Id) (on_process f) s
    = Ret (a, Rtld.mkRt (with_process p (Rtld.world s)) (Rtld.STARTUP_ROOT s) (Rtld.ARGC s) (Rtld.ARGV s) (Rtld.ENVP s)).
Proof. intros Hf. unfold Rtld.in_world. by erewrite on_process_run by exact Hf. Qed.

(** The end of a run: the cell is free, and a success has a startup root whose
    constructors ran. *)
Definition linked_root (ldbase rtld : Z) {A} (r : result (Error LErr) A) s : Prop :=
  borrowed (Rtld.world s) = false
  ∧ ∀ a, r = Ok a → ∃ root, Rtld.STARTUP_ROOT s = Some root ∧ constructed ldbase rtld root.

Lemma link_root_run envp request root state rs X rtld s :
  areas_apart → ready rs X (Rtld.world s) → rtld_areas ⊆ rs → rtld ∈ X → rtld ≠ 0 →
  ∃ r s', link_startup_root sy link_error drop_group leak init envp request root state rtld s = Ret (r, s')
    ∧ linked_root (load_bias (Startup.rtld state)) rtld r s'.
Proof.
  intros Hap Hr Hrs Hin Hne. unfold link_startup_root.
  destruct (relink_run rtld (p_maps (rest (Rtld.world s)))) as (d & Hd & Hdom); [by apply (ready_listed _ _ _ Hr)|].
  erewrite st_bind_run by (apply process_step_run; unfold on_maps; rewrite Hd; reflexivity).
  match goal with |- context [Rtld.link_mapped_root _ _ _ _ _ _ _ _ _ _ ?x] => set (s1 := x) end.
  assert (ready rs X (Rtld.world s1)) as Hr1 by (apply (ready_steady rs X (Rtld.world s)); [done|by split_and!]).
  unfold Rtld.link_mapped_root.
  destruct (open_root_run envp request (Rtld.root_key (raw_name root)) root startup_flags state rs X rtld (Rtld.world s1)
    Hap Hr1 Hrs Hin Hne) as ([i r] & w2 & Hrun & Hb2 & Hok).
  erewrite st_bind_run by (unfold Rtld.in_world; rewrite Hrun; reflexivity). cbn [fst snd].
  destruct r as [o|e]; [|by eexists _, _].
  destruct (Hok o eq_refl) as (Hl & j & Hi & Hc). cbn [fst] in Hi. subst i.
  erewrite st_bind_run by reflexivity.
  destruct (RtldProps.drop_opened_run drop_group o w2 release_build drop_group_runs Hb2 Hl) as (w3 & H3 & Hb3).
  erewrite st_bind_run by (unfold Rtld.in_world; cbn [Rtld.world]; rewrite H3; reflexivity).
  eexists _, _. split; [reflexivity|]. split; [exact Hb3|]. intros a _. by exists j.
Qed.

(** ** The run of a program that the kernel mapped *)

(** The program was mapped at its entry [e], and linked. *)
Definition entered (state : BootstrapState) (e : Z) s : Prop :=
  ∃ raw phdrs w0 w1 root rtld,
    load_mapped (Id := Id) [] (load_bias (main state)) phdrs (o_entry (main state)) w0 = Ret (Ok raw, w1)
    ∧ e = raw_entry raw ∧ Rtld.STARTUP_ROOT s = Some root
    ∧ constructed (load_bias (Startup.rtld state)) rtld root.

Lemma boot_world_run {A} (f : st W A) s a w :
  f (Rtld.world s) = Ret (a, w) →
  Rtld.in_world (Id := Id) f s = Ret (a, Rtld.mkRt w (Rtld.STARTUP_ROOT s) (Rtld.ARGC s) (Rtld.ARGV s) (Rtld.ENVP s)).
Proof. intros Hf. unfold Rtld.in_world. by rewrite Hf. Qed.

Lemma link_main_run envp state rs X rtld s :
  areas_apart → ready rs X (Rtld.world s) → rtld_areas ⊆ rs → header_areas (main state) ⊆ rs → rtld ∈ X → rtld ≠ 0 →
  ∃ r s', prepare_kernel_mapped_main sy link_error drop_group leak init envp state rtld s = Ret (r, s')
    ∧ borrowed (Rtld.world s') = false ∧ ∀ e, r = Ok e → entered state e s'.
Proof.
  intros Hap Hr Hrs Hh Hin Hne. unfold prepare_kernel_mapped_main.
  destruct (load_object_run [] (main state) rs X (Rtld.world s) Hr Hh) as (r & w1 & H1 & Hr1 & _ & Hraw).
  erewrite try_res_step by (apply boot_world_run; exact H1).
  destruct r as [raw|e]; [|eexists _, _; split; [reflexivity|]; split; [apply Hr1|done]].
  destruct (Hraw raw eq_refl) as (_ & _ & phdrs & w0 & Hload).
  match goal with |- context [try_res _ _ ?x] => set (s1 := x) end.
  destruct (link_root_run envp [] raw state rs X rtld s1 Hap Hr1 Hrs Hin Hne) as (r & s2 & H2 & Hb2 & Hok).
  erewrite try_res_step by exact H2. destruct r as [u|e]; [|by eexists _, _].
  eexists _, _. split; [reflexivity|]. split; [done|]. intros e [= <-].
  destruct (Hok u eq_refl) as (root & Hroot & Hc). by exists raw, phdrs, w0, w1, root, rtld.
Qed.

(** The linker registers itself; what follows, [k], finds its map and memory as it was. *)
Lemma link_objects_run (k : Z → st boot (result (Error LErr) Z)) (Q : Z → boot → Prop) state rs s :
  ready rs ∅ (Rtld.world s) → header_areas (Startup.rtld state) ⊆ rs →
  ctx_load_order (Id := Id) (Lease := Lease) (Mod := Mod) (Manager.link_ctx (manager (Rtld.world s))) = [] →
  (∀ lm s1, lm ≠ 0 → ready rs {[lm]} (Rtld.world s1) → keeps (Rtld.world s) (Rtld.world s1) →
     ∃ r s', k lm s1 = Ret (r, s') ∧ borrowed (Rtld.world s') = false ∧ ∀ e, r = Ok e → Q e s') →
  ∃ r s', (rtld_object ←! Rtld.in_world (load_bootstrap_object (bytes_of_string RTLD_NAME) (Startup.rtld state));
           rtld_link_map ←! Rtld.in_world (Rtld.register_loaded raw_link_map from_core scope_free rtld_object
             (OpenFlags.union OpenFlags.RTLD_GLOBAL OpenFlags.RTLD_NODELETE));
           k rtld_link_map) s = Ret (r, s')
    ∧ borrowed (Rtld.world s') = false ∧ ∀ e, r = Ok e → Q e s'.
Proof.
  intros Hr Hh He Hk.
  destruct (load_object_run (bytes_of_string RTLD_NAME) (Startup.rtld state) rs ∅ (Rtld.world s) Hr Hh)
    as (r & w1 & H1 & Hr1 & Hm & Hraw).
  erewrite try_res_step by (apply boot_world_run; exact H1).
  destruct r as [raw|e]; [|eexists _, _; split; [reflexivity|]; split; [apply Hr1|done]].
  destruct (Hraw raw eq_refl) as (Hmr & Hkeep & _).
  destruct (register_run raw (OpenFlags.union OpenFlags.RTLD_GLOBAL OpenFlags.RTLD_NODELETE) rs ∅ w1 Hr1 Hmr)
    as (r & w2 & H2 & Hb2 & Hlm); [by rewrite Hm|].
  erewrite try_res_step by (apply boot_world_run; exact H2).
  destruct r as [lm|e]; [|eexists _, _; by split].
  destruct (Hlm lm eq_refl) as (Hne & Hr2 & Hrest). rewrite (right_id_L ∅ (∪)) in Hr2.
  apply Hk; [done|done|]. unfold keeps. cbn [Rtld.world]. by rewrite Hrest.
Qed.

Lemma check_fd_total `{SS : !StdFdsSpec K} fd path flags k :
  ∃ r k', check_standard_fd fd path flags k = Ret (r, k') ∧ ∀ e, r = Err e → e = RTLD_FATAL_EXIT_STATUS.
Proof.
  unfold check_standard_fd. erewrite st_bind_run by apply fcntl_getfd_spec. case_bool_decide; [by eexists _, _|].
  destruct (open_flags_spec path flags k) as (r & k' & Hr & _). erewrite st_bind_run by exact Hr.
  destruct r as [o|]; [destruct (negb _)|]; eexists _, _; (split; [reflexivity|by intros e [= <-]]).
Qed.
Lemma check_fds_total `{SS : !StdFdsSpec K} secure k :
  ∃ r k', check_standard_fds_if_secure secure k = Ret (r, k') ∧ ∀ e, r = Err e → e = RTLD_FATAL_EXIT_STATUS.
Proof.
  unfold check_standard_fds_if_secure. destruct (secure =? 0); [by eexists _, _|].
  destruct (check_fd_total 0 (bytes_of_string "/dev/full") (Z.lor O_WRONLY O_NOFOLLOW) k) as (r0 & k0 & H0 & E0).
  erewrite try_res_step by exact H0. destruct r0; [|by eexists _, _; split; [|apply E0]].
  destruct (check_fd_total 1 (bytes_of_string "/dev/null") (Z.lor O_RDONLY O_NOFOLLOW) k0) as (r1 & k1 & H1 & E1).
  erewrite try_res_step by exact H1. destruct r1; [|by eexists _, _; split; [|apply E1]].
  apply check_fd_total.
Qed.

(** What the kernel and the static linker have put in memory: the two structures
    of libc, the platform string and the headers of the program and of the
    linker, which do not overlap what startup writes before it reads them. *)
Record boot_memory (fuel : nat) (m : mem) (aux : AuxValues) (ehdr : Z) : Prop := {
  bm_areas : Forall (λ r, mapped m r.1 r.2) rtld_areas;
  bm_platform : ∃ str, zlen str < 2 ^ 64 ∧ (length str < fuel)%nat
    ∧ (platform aux = 0 ∧ str = [] ∨ platform aux ≠ 0 ∧ cstr_at m (platform aux) str
       ∧ (platform aux + zlen str < a_rtld_global_ro sy ∨ a_rtld_global_ro sy + Glibc.RTLD_GLOBAL_RO_SIZE ≤ platform aux));
  bm_program : mapped m (phdr aux) (Z.max 0 (phnum aux) * size_of_phdr);
  bm_linker : ∃ off sz num, ehdr_at m ehdr off sz num
    ∧ (ehdr + 64 ≤ a_rtld_global_ro sy ∨ a_rtld_global_ro sy + Glibc.RTLD_GLOBAL_RO_SIZE ≤ ehdr)
    ∧ mapped m (wrapping_add ehdr off) (Z.max 0 num * size_of_phdr) }.

Lemma on_process_memory {A} (f : st mem A) p a m' :
  f (memory_of p) = Ret (a, m') → (∀ x, mapped (memory_of p) x 1 → mapped m' x 1) →
  on_memory f p = Ret (a, with_memory m' p) ∧ steady p (with_memory m' p).
Proof. intros Hf Hm. split; [by apply on_memory_run|by split_and!]. Qed.

Lemma publish_state_run fuel ps aux bias ehdr p :
  boot_memory fuel (memory_of p) aux ehdr →
  ∃ st p', publish_bootstrap_state fuel sy ps aux bias ehdr p = Ret (st, p') ∧ steady p p'
    ∧ process_stack st = ps ∧ main st = mkObject bias (phdr aux) (phnum aux) (entry aux)
    ∧ load_bias (Startup.rtld st) = ehdr
    ∧ Forall (λ r, mapped (memory_of p) r.1 r.2) (header_areas (Startup.rtld st))
    ∧ ∀ x, x < a_rtld_global_ro sy ∨ a_rtld_global_ro sy + Glibc.RTLD_GLOBAL_RO_SIZE ≤ x → memory_of p' x = memory_of p x.
Proof.
  intros [Ha (str & Hlen & Hfuel & Hplat) _ (off & sz & num & He & Hap & Hph)]. unfold publish_bootstrap_state.
  match goal with |- context [Glibc.publish_aux _ _ _ ?x] => set (ro := x) end.
  destruct (Glibc.publish_aux_run (memory_of p) (a_rtld_global_ro sy) (a_functions sy) ro ∅ fuel str)
    as (m1 & H1 & _ & _ & K1 & O1); try done.
  { apply (Forall_inv (Forall_inv_tail Ha)). }
  { by repeat constructor. }
  destruct (on_process_memory _ p tt m1 H1 K1) as (R1 & S1). erewrite st_bind_run by exact R1.
  erewrite st_bind_run by reflexivity.
  destruct (rtld_object_total m1 ehdr off sz num) as (o & Ho & Hbias & Hhdr).
  { apply (ehdr_at_frame (memory_of p)); [done|]. intros x Hx. apply O1. lia. }
  erewrite st_bind_run by (apply on_memory_run; exact Ho).
  eexists _, _. split; [reflexivity|]. split; [etrans; [exact S1|by split_and!]|]. split_and!; try done.
  cbn [Startup.rtld]. unfold header_areas. destruct Hhdr as [->|[-> ->]]; [constructor|].
  destruct (_ =? 0); by repeat constructor.
Qed.

(** The registry before the first object. *)
Record fresh_registry (w : W) : Prop := {
  fr_free : borrowed w = false;
  fr_tls : tls_ready (p_tls (rest w));
  fr_linked : linked (Manager.link_ctx (manager w)) (listed w);
  fr_empty : ctx_load_order (Id := Id) (Lease := Lease) (Mod := Mod) (Manager.link_ctx (manager w)) = [] }.

(** The outcome of a run: [Q] holds of the entry point and the state in which
    the program is entered. *)
Definition run_outcome (Q : Z → boot → Prop) (r : result Z (result (Error LErr) Z)) s : Prop :=
  match r with
  | Err status => status = RTLD_FATAL_EXIT_STATUS
  | Ok (Err _) => True
  | Ok (Ok e) => Q e s
  end.
(** The program of [input] was entered, with the objects of the program and of the linker. *)
Definition entered_input (input : StartupInput) (e : Z) s : Prop :=
  ∃ state, load_bias (main state) = main_load_bias input
    ∧ o_entry (main state) = entry (aux (initial input))
    ∧ load_bias (Startup.rtld state) = rtld_load_bias input ∧ entered state e s.

Lemma fresh_ready rs w p :
  fresh_registry w → steady (rest w) p → Forall (λ r, mapped (memory_of (rest w)) r.1 r.2) rs →
  ready rs ∅ (with_process p w).
Proof. intros [H1 H2 H3 _] Hs Hm. eapply ready_steady; [|exact Hs]. by split. Qed.

(** The checks of the descriptors, once the state is published, and what follows. *)
Lemma checked_link_run `{SS : !StdFdsSpec K} k (Q : Z → boot → Prop) secure state rs s :
  ready rs ∅ (Rtld.world s) → header_areas (Startup.rtld state) ⊆ rs →
  ctx_load_order (Id := Id) (Lease := Lease) (Mod := Mod) (Manager.link_ctx (manager (Rtld.world s))) = [] →
  (∀ lm s1, lm ≠ 0 → ready rs {[lm]} (Rtld.world s1) → keeps (Rtld.world s) (Rtld.world s1) →
     ∃ r s', k lm s1 = Ret (r, s') ∧ borrowed (Rtld.world s') = false ∧ ∀ e, r = Ok e → Q e s') →
  ∃ r s', (_ ←! Rtld.in_world (on_process (on_cli (Cli.on_kernel (check_standard_fds_if_secure secure))));
           r ← (rtld_object ←! Rtld.in_world (load_bootstrap_object (bytes_of_string RTLD_NAME) (Startup.rtld state));
                rtld_link_map ←! Rtld.in_world (Rtld.register_loaded raw_link_map from_core scope_free rtld_object
                  (OpenFlags.union OpenFlags.RTLD_GLOBAL OpenFlags.RTLD_NODELETE));
                k rtld_link_map);
           mret (Ok r)) s = Ret (r, s')
    ∧ borrowed (Rtld.world s') = false ∧ run_outcome Q r s'.
Proof.
  intros Hr Hh He Hk. set (p := rest (Rtld.world s)).
  destruct (check_fds_total secure (Cli.c_kernel (p_cli p))) as (c & k' & Hc & Hbad).
  erewrite try_res_step by (apply process_step_run; unfold on_cli, Cli.on_kernel; fold p; rewrite Hc; reflexivity).
  match goal with |- context [try_res _ _ ?x] => set (s1 := x) | |- context [Rtld.mkRt ?a ?b ?c ?d ?e] => set (s1 := Rtld.mkRt a b c d e) end.
  assert (ready rs ∅ (Rtld.world s1)) as Hr1 by (apply (ready_steady rs ∅ (Rtld.world s)); [done|by split_and!]).
  destruct c as [u|e]; [|eexists _, _; split; [reflexivity|]; split; [apply Hr1|by apply Hbad]].
  destruct (link_objects_run k Q state rs s1 Hr1 Hh He Hk) as (r & s2 & H2 & Hb & Hok).
  erewrite st_bind_run by exact H2. eexists _, _. split; [reflexivity|]. split; [done|].
  destruct r as [e|]; [|done]. by apply Hok.
Qed.

(** The first steps leave all but the resolver and the globals. *)
Lemma install_run p :
  ∃ p1, on_resolver (Resolver.install_resolver_ops (a_tls_get_addr sy)) p = Ret (tt, p1) ∧ steady p p1 ∧ p_cli p1 = p_cli p.
Proof. eexists. split; [reflexivity|]. split; [|done]. split_and!; [done|done|]. cbn [p_tls]. by destruct (Resolver.RTLD_TLS_OPS _). Qed.

Lemma run_returns `{SS : !StdFdsSpec K} fuel envp input s :
  areas_apart → direct input = false → fresh_registry (Rtld.world s) →
  boot_memory fuel (memory_of (rest (Rtld.world s))) (aux (initial input)) (rtld_load_bias input) →
  ∃ r s', run fuel sy link_error raw_link_map from_core scope_free drop_group leak init envp input s = Ret (r, s')
    ∧ borrowed (Rtld.world s') = false ∧ run_outcome (entered_input input) r s'.
Proof.
  intros Hap Hd [Hfree Htls Hlink Hempty] Hbm. unfold run. rewrite Hd. cbv zeta.
  set (p := rest (Rtld.world s)) in *.
  destruct (install_run p) as (p1 & H1 & S1 & M1).
  erewrite st_bind_run by (apply process_step_run; exact H1). erewrite st_bind_run by (apply process_step_run; reflexivity).
  match goal with |- context [Rtld.mkRt (with_process ?q _)] => set (p2 := q) end.
  destruct (publish_state_run fuel (Stack.process (initial input)) (aux (initial input)) (main_load_bias input)
    (rtld_load_bias input) p2) as (st & p3 & H3 & S3 & Hps & Hmain & Hrt & Hh & _); [by replace (memory_of p2) with (memory_of p) by (unfold memory_of; by rewrite <-M1)|].
  match goal with |- context [try_res _ _ ?x] => set (s2 := x) end.
  erewrite (try_res_ok _ _ s2) by (erewrite st_bind_run by (apply process_step_run; exact H3); reflexivity).
  erewrite st_bind_run by (apply process_step_run; reflexivity). erewrite st_bind_run by reflexivity.
  match goal with |- context [try_res _ _ ?x] => set (s4 := x) end.
  assert (steady p (rest (Rtld.world s4))) as S4 by (etrans; [exact S1|]; etrans; [|etrans; [exact S3|]]; by split_and!).
  assert (Rtld.world s4 = with_process (rest (Rtld.world s4)) (Rtld.world s)) as Hw by done.
  set (rs := rtld_areas ++ header_areas (Startup.rtld st) ++ header_areas (main st)).
  apply (checked_link_run (prepare_kernel_mapped_main sy link_error drop_group leak init envp st) (entered_input input)
    (secure (aux (initial input))) st rs s4); [| |done|].
  - rewrite Hw. apply fresh_ready; [by split|exact S4|]. destruct Hbm as [Ha _ Hprog _].
    apply Forall_app_2; [exact Ha|]. fold p. apply Forall_app_2; [unfold memory_of; rewrite <-M1; exact Hh|].
    rewrite Hmain. unfold header_areas. cbn [o_phdr o_phnum]. destruct (_ =? 0); by repeat constructor.
  - unfold rs. set_solver.
  - intros lm s5 Hne Hr5 _.
    destruct (link_main_run envp st rs {[lm]} lm s5) as (r & s6 & H6 & Hb6 & Hok); try done; [unfold rs; set_solver..|].
    exists r, s6. split_and!; [done|done|]. intros e He. exists st. rewrite Hmain. split_and!; try done. by apply Hok.
Qed.

(** ** What linking leaves alone

    Memory at the addresses [R], from one world to another. *)
Definition still (R : Z → Prop) w w' : Prop := ∀ x, R x → memory_of (rest w') x = memory_of (rest w) x.
#[local] Instance still_refl R : Reflexive (still R).
Proof. by intros w x Hx. Qed.
#[local] Instance still_trans R : Transitive (still R).
Proof. intros w1 w2 w3 H1 H2 x Hx. by rewrite H2, H1. Qed.

(** A step leaves the addresses alone, if it returns; [v] is the world in its state. *)
Definition frames {S A} (R : Z → Prop) (v : S → W) (m : st S A) : Prop :=
  ∀ (t : S) a t', m t = Ret (a, t') → still R (v t) (v t').
Definition mframes {A} (R : Z → Prop) (f : st mem A) : Prop := ∀ m a m', f m = Ret (a, m') → ∀ x, R x → m' x = m x.

(** The addresses are not those of the two structures, and neither the loader
    crate, nor the constructors, nor [__libc_early_init] write there, nor is the
    box of maps put there. *)
Record left_alone (R : Z → Prop) : Prop := {
  la_global x : R x → x < a_rtld_global sy ∨ a_rtld_global sy + Glibc.RTLD_GLOBAL_SIZE ≤ x;
  la_global_ro x : R x → x < a_rtld_global_ro sy ∨ a_rtld_global_ro sy + Glibc.RTLD_GLOBAL_RO_SIZE ≤ x;
  la_leak l : frames R id (on_process (leak l) : st W Z);
  la_relocate plan pr : frames R id (relocate (W := W) (LErr := LErr) plan pr);
  la_initialize pub : frames R id (initialize (W := W) (LErr := LErr) pub);
  la_init f : frames R id (init f);
  la_drop u : frames R id (drop_group u) }.

Lemma left_alone_sub R R' : left_alone R → (∀ x, R' x → R x) → left_alone R'.
Proof.
  intros Ha Hs.
  assert (∀ S A (v : S → W) (m : st S A), frames R v m → frames R' v m) as Hsub
    by (intros S A v m Hm t1 a t2 H x Hx; by apply (Hm _ _ _ H), Hs).
  split; [intros x Hx; by apply Ha, Hs..| | | | |]; intros; apply Hsub, Ha.
Qed.

Section frames.
Context (R : Z → Prop).

Lemma frames_ret {S A} (v : S → W) (a : A) : frames R v (mret a).
Proof. by intros t b t' [= _ <-]. Qed.
Lemma frames_bind {S A B} (v : S → W) (m : st S A) (k : A → st S B) :
  frames R v m → (∀ a, frames R v (k a)) → frames R v (m ≫= k).
Proof. intros Hm Hk t b t' (a & t1 & H1 & H2)%st_bind_Ret_inv. etrans; [by eapply Hm|by eapply Hk]. Qed.
Lemma frames_try {S E A B} (v : S → W) (m : st S (result E A)) (k : A → st S (result E B)) :
  frames R v m → (∀ a, frames R v (k a)) → frames R v (try_res k m).
Proof. intros Hm Hk. apply frames_bind; [done|]. intros [a|e]; [apply Hk|apply frames_ret]. Qed.
Lemma frames_borrow {A} (m : st (Manager.Manager (Ctx := Ctx) (Lease := Lease) (Mod := Mod)) A) : frames R id (borrow_mut m : st W A).
Proof.
  intros w a w' H. unfold borrow_mut in H. apply st_bind_Ret_inv in H as ([] & w1 & H1 & H).
  unfold acquire in H1. destruct (borrowed w); [done|]. injection H1 as <-.
  apply st_bind_Ret_inv in H as (y & w2 & H2 & H). unfold with_manager in H2.
  apply bind_Ret_inv in H2 as ([z g] & _ & [= _ <-]). by injection H as _ <-.
Qed.
Lemma frames_world {A} (m : st W A) : frames R id m → frames R (Rtld.world (Id := Id)) (Rtld.in_world m).
Proof.
  intros Hm s a s' H. unfold Rtld.in_world in H. apply bind_Ret_inv in H as ([b w] & H1 & [= _ <-]). by apply (Hm _ b).
Qed.
Lemma frames_memory {A} (f : st mem A) : mframes R f → frames R id (on_process (on_memory f) : st W A).
Proof.
  intros Hf w a w' H. unfold on_process in H. apply bind_Ret_inv in H as ([b p] & H & [= _ <-]).
  unfold on_memory, on_cli, Cli.on_mem in H. apply bind_Ret_inv in H as ([c q] & H & [= _ <-]).
  apply bind_Ret_inv in H as ([d m'] & H & [= _ <-]). intros x Hx. by apply (Hf _ d).
Qed.
(** A step of the process that does not touch memory. *)
Lemma frames_process {A} (f : st P A) :
  (∀ p a p', f p = Ret (a, p') → p_cli p' = p_cli p) → frames R id (on_process f : st W A).
Proof.
  intros Hf w a w' H. unfold on_process in H. apply bind_Ret_inv in H as ([b p] & H & [= _ <-]).
  intros x _. unfold memory_of. cbn [id rest]. by rewrite (Hf _ _ _ H).
Qed.
Lemma frames_maps {A} (f : st DebugList.dstate A) : frames R id (on_process (on_maps f) : st W A).
Proof. apply frames_process. intros p a p' H. unfold on_maps in H. by apply bind_Ret_inv in H as ([] & _ & [= _ <-]). Qed.
Lemma frames_resolver {A} f : frames R id (on_process (on_resolver f) : st W A).
Proof. apply frames_process. intros p a p' H. unfold on_resolver in H. by apply bind_Ret_inv in H as ([] & _ & [= _ <-]). Qed.
Lemma frames_globals f : frames R id (on_process (on_globals f) : st W unit).
Proof. apply frames_process. by intros p a p' [= _ <-]. Qed.
Lemma on_process_bind {A B} (m : st P A) (k : A → st P B) (w : W) :
  on_process (m ≫= k) w = (on_process m ≫= λ a, on_process (k a)) w.
Proof. unfold on_process, mbind, st_bind. by destruct (m (rest w)) as [[]| | |]. Qed.
Lemma frames_process_bind {A B} (m : st P A) (k : A → st P B) :
  frames R id (on_process m : st W A) → (∀ a, frames R id (on_process (k a) : st W B)) →
  frames R id (on_process (m ≫= k) : st W B).
Proof. intros Hm Hk w b w' H. rewrite on_process_bind in H. exact (frames_bind id _ _ Hm Hk _ _ _ H). Qed.

Lemma mframes_bind {A B} (m : st mem A) (k : A → st mem B) : mframes R m → (∀ a, mframes R (k a)) → mframes R (m ≫= k).
Proof. intros Hm Hk m1 b m3 (a & m2 & H1 & H2)%st_bind_Ret_inv x Hx. by rewrite (Hk _ _ _ _ H2 x Hx), (Hm _ _ _ H1 x Hx). Qed.
(** Fields of a structure that is somewhere else. *)
Lemma mframes_fields fs a l :
  fields_ok fs → (∀ x, R x → x < a ∨ a + struct_size fs ≤ x) → mframes R (write_fields fs a l).
Proof.
  intros Hok Hout. induction l as [|[n v] l IH]; [by intros m b m' [= _ <-]|]. cbn [write_fields].
  apply mframes_bind; [|intros; exact IH]. intros m [] m' H x Hx. unfold write_field in H.
  destruct (field fs n) as [[o t]|] eqn:Hf; [|done]. apply (store_bytes_outside _ _ _ _ H). rewrite zlen_le_encode.
  pose proof (field_bounds fs n o t Hok Hf) as (H1 & H2 & _ & _ & Hs). specialize (Hout x Hx). lia.
Qed.

Hypothesis alone : left_alone R.

Lemma publish_maps_frames main maps n libc :
  mframes R (Glibc.publish_rtld_link_maps (a_rtld_global sy) (a_rtld_global_ro sy) main maps n libc).
Proof.
  assert (∀ fs a lo hi l, fields_ok fs → lo ≤ a → a + struct_size fs ≤ hi →
    (∀ x, R x → x < lo ∨ hi ≤ x) → mframes R (write_fields fs a l)) as Hin.
  { intros fs a lo hi l Hok Hlo Hhi Hout. apply mframes_fields; [done|]. intros x Hx. specialize (Hout x Hx). lia. }
  unfold Glibc.publish_rtld_link_maps, Glibc.publish, Glibc.publish_initial_searchlist, Glibc.init_list,
    Glibc.initial_searchlist, Glibc.sub_addr. cbv zeta.
  repeat (simple apply mframes_bind; [|intros _]).
  all: first [ eapply Hin; [exact Glibc.scope_elem_ok| | |exact (la_global_ro R alone)]
             | eapply Hin; [exact Glibc.global_ok || exact Glibc.namespace_ok || exact Glibc.list_ok| | |exact (la_global R alone)] ].
  all: repeat match goal with
    | |- context [default 0 (offset_of ?f ?n)] => let v := eval vm_compute in (default 0 (offset_of f n)) in change (default 0 (offset_of f n)) with v
    | |- context [struct_size ?f] => let v := eval vm_compute in (struct_size f) in change (struct_size f) with v
    end; unfold Glibc.RTLD_GLOBAL_SIZE, Glibc.RTLD_GLOBAL_RO_SIZE; lia.
Qed.

Lemma publish_globals_frames state searchlist startup :
  frames R id (on_process (publish_loaded_globals sy state searchlist startup) : st W unit).
Proof.
  unfold publish_loaded_globals. cbv zeta. apply frames_process_bind; [apply frames_maps|]. intros _.
  apply frames_process_bind; [apply frames_globals|]. intros _. apply frames_memory, publish_maps_frames.
Qed.
Lemma publish_tls_frames : frames R id (on_process (publish_tls_layout sy) : st W unit).
Proof.
  unfold publish_tls_layout. apply frames_process_bind; [apply frames_resolver|]. intros i.
  apply frames_process_bind; [|intros _; apply frames_process_bind; [apply frames_resolver|intros; apply frames_globals]].
  apply frames_memory, mframes_fields; [exact Glibc.global_ro_ok|]. exact (la_global_ro R alone).
Qed.

Lemma before_constructors_frames state startup :
  frames R id (before_constructors (Id := Id) (LErr := LErr) sy leak init state startup).
Proof.
  unfold before_constructors. apply frames_bind; [apply alone|]. intros a.
  apply frames_bind; [apply publish_globals_frames|]. intros _. apply frames_bind; [apply publish_tls_frames|]. intros _.
  apply frames_bind; [apply frames_borrow|]. intros f.
  apply frames_bind; [destruct f; [apply alone|apply frames_ret]|intros; apply frames_ret].
Qed.

Lemma commit_root_frames flags state rtld prepared :
  frames R id (Rtld.commit_root flags (Rtld.before_root (LErr := LErr) link_error (λ p, DebugList.maps (p_maps p)) rtld
    (before_constructors sy leak init state)) prepared).
Proof.
  unfold Rtld.commit_root, convert_err. apply frames_bind.
  { apply frames_bind; [apply alone|intros; apply frames_ret]. }
  intros [rel|e]; [|apply frames_ret]. apply frames_bind; [apply frames_bind; [apply frames_borrow|intros; apply frames_ret]|].
  intros [pub|e]; [|apply frames_ret]. apply frames_bind.
  { unfold Rtld.before_root. intros w r w' H. rewrite st_bind_get in H. revert w r w' H.
    intros w r w' H. eapply (frames_try id); [apply frames_borrow|intros; apply before_constructors_frames|exact H]. }
  intros [[]|e]; [|apply frames_bind; [apply frames_borrow|intros; apply frames_ret]].
  apply frames_bind; [apply alone|]. intros [ld|fl]; (apply frames_bind; [apply frames_borrow|intros; apply frames_ret]).
Qed.

Lemma link_root_frames envp request root state rtld :
  frames R (Rtld.world (Id := Id)) (link_startup_root sy link_error drop_group leak init envp request root state rtld).
Proof.
  unfold link_startup_root. apply frames_bind; [apply frames_world, frames_maps|]. intros _.
  unfold Rtld.link_mapped_root. apply frames_bind.
  - apply frames_world. unfold Rtld.open_mapped_root. apply frames_bind.
    { intros w a w' H. unfold force_search_paths in H. by destruct (search_path_cell w); injection H as _ <-. }
    intros paths. apply frames_bind; [apply frames_borrow|]. intros [[lib|prepared]|e]; [apply frames_ret| |apply frames_ret].
    apply commit_root_frames.
  - intros [i [o|e]]; [|apply frames_ret]. cbn [fst snd].
    apply frames_bind; [by intros s a s' [= _ <-]|]. intros _. apply frames_bind; [|intros; apply frames_ret].
    apply frames_world. unfold Rtld.drop_opened. apply frames_bind; [apply frames_borrow|]. intros u. apply alone.
Qed.
End frames.

(** ** A direct invocation *)

(** [startup.rs] after the stack was read: the program [path] is mapped, the
    auxiliary vector describes it, and it is linked, or it needs no linking.  The
    stack is [words] when linking begins, and in the state in which the program is
    entered it still is, unless the program's own constructors write on it. *)
Definition entered_direct envp state (sp : Z) (args envs : list Z) (pairs : list (Z * Z)) (path : list Z) (e : Z) s : Prop :=
  ∃ str exec w0 w1 s1, Utf8.from_utf8 path = Some str
    ∧ load_exec (Id := Id) str w0 = Ret (Ok exec, w1) ∧ e = exec_entry exec
    ∧ (let words := stack_words args envs
         (StackProps.patch_pair (default (0, 0) (exec_phdrs exec)).1 (default (0, 0) (exec_phdrs exec)).2
           (load_bias (Startup.rtld state)) e (exec_path (process_stack state)) <$> pairs) in
       words_at (memory_of (rest (Rtld.world s1))) sp words
       ∧ (left_alone (λ x, sp ≤ x < add sp (zlen words)) → words_at (memory_of (rest (Rtld.world s))) sp words))
    ∧ match exec with
      | ExecDynamic raw => ∃ root rtld,
          link_startup_root sy link_error drop_group leak init envp str raw state rtld s1 = Ret (Ok tt, s)
          ∧ Rtld.STARTUP_ROOT s = Some root ∧ constructed (load_bias (Startup.rtld state)) rtld root
      | ExecStatic _ => Rtld.in_world (on_process (publish_tls_layout sy)) s1 = Ret (tt, s)
      end.

Lemma bytes_keeps (m m' : mem) a l : (∀ x b, m x = Some b → m' x = Some b) → bytes_at m a l → bytes_at m' a l.
Proof. intros Hk Hb i b Hi. by apply Hk, Hb. Qed.
Lemma words_keeps (m m' : mem) a ws : (∀ x b, m x = Some b → m' x = Some b) → words_at m a ws → words_at m' a ws.
Proof. intros Hk Hw i v Hi. eapply bytes_keeps; [exact Hk|by apply (Hw i v)]. Qed.

Lemma publish_tls_run p rs X w :
  ready rs X w → rtld_areas ⊆ rs → rest w = p → ∃ p', publish_tls_layout sy p = Ret (tt, p').
Proof.
  intros Hr Hrs <-. destruct (ready_tls _ _ _ Hr) as (size & align & off & Hsi & Hro). unfold publish_tls_layout.
  erewrite st_bind_run by (unfold on_resolver, Resolver.on_tls; rewrite Hsi; reflexivity).
  edestruct (tls_info_run (memory_of (rest w)) (a_rtld_global_ro sy) size align ∅) as (m' & H1 & _).
  { apply (ready_region _ _ _ _ _ Hr), Hrs. right. left. }
  { apply struct_rep_empty. }
  erewrite st_bind_run by (apply on_memory_run; exact H1).
  erewrite st_bind_run by (unfold on_resolver, Resolver.on_tls; cbn [p_tls with_memory Resolver.tls]; rewrite Hro; reflexivity).
  by eexists.
Qed.

(** Patching leaves the arguments and the environment, and what is mapped stays mapped. *)
Lemma patch_run fuel m sp args envs pairs phdr phnum base entry path :
  0 < sp → words_at m sp (stack_words args envs pairs) → Forall (λ q, q.1 ≠ 0) pairs → Forall in_usize (aux_words pairs) →
  (length pairs < fuel)%nat →
  ∃ m', patch_auxv fuel (add sp (zlen args + zlen envs + 3)) phdr phnum base entry path m = Ret (tt, m')
    ∧ words_at m' sp (stack_words args envs (StackProps.patch_pair phdr phnum base entry path <$> pairs))
    ∧ ∀ x, mapped m x 1 → mapped m' x 1.
Proof.
  intros Hsp Hw Hnz Hu Hf. pose proof (zlen_nonneg args). pose proof (zlen_nonneg envs). pose proof (zlen_nonneg pairs).
  apply StackProps.stack_parts in Hw as (Hn & Ha & He & Hp).
  destruct (StackProps.patch_loop_run phdr phnum base entry path fuel m _ pairs Hp Hnz Hu Hf) as (m' & Hrun & Hwords & Ho).
  exists m'. unfold patch_auxv. rewrite (proj2 (Z.eqb_neq _ 0)) by (unfold add; lia). split; [exact Hrun|]. split.
  - apply StackProps.stack_parts. split_and!; [| | |exact Hwords].
    + intros j b Hj. rewrite Ho; [by apply Hn|]. apply lookup_lt_Some in Hj. rewrite length_le_encode in Hj. unfold add. lia.
    + eapply Stack.words_at_bytes; [|exact Ha]. intros x Hx. apply Ho.
      rewrite zlen_app in Hx. change (zlen [0]) with 1 in Hx. unfold add in *. lia.
    + eapply Stack.words_at_bytes; [|exact He]. intros x Hx. apply Ho.
      rewrite zlen_app in Hx. change (zlen [0]) with 1 in Hx. unfold add in *. lia.
  - intros x Hx y Hy. assert (y = x) as -> by lia.
    destruct (decide (add sp (zlen args + zlen envs + 3) ≤ x < add (add sp (zlen args + zlen envs + 3)) (2 * zlen pairs))) as [Hin|Hout].
    + apply (Stack.words_at_mapped _ _ _ Hwords). rewrite zlen_app. change (zlen [AT_NULL; 0]) with 2.
      unfold zlen in *. rewrite StackProps.aux_words_length, length_fmap. unfold add in *. lia.
    + rewrite Ho by lia. apply Hx. lia.
Qed.

(** The stack and the path of the program, in memory. *)
Record direct_memory (m : mem) (ps : ProcessStack) (sp : Z) (args envs : list Z) (pairs : list (Z * Z)) (path : list Z) : Prop := {
  dm_words : words_at m sp (stack_words args envs pairs);
  dm_auxv : auxv ps = add sp (zlen args + zlen envs + 3);
  dm_path : cstr_at m (exec_path ps) path }.

Lemma direct_memory_keeps m m' ps sp args envs pairs path :
  (∀ x b, m x = Some b → m' x = Some b) → direct_memory m ps sp args envs pairs path →
  direct_memory m' ps sp args envs pairs path.
Proof.
  intros Hk [Hw Ha [Hc Hb]]. split; [by eapply words_keeps|done|]. split; [done|by eapply bytes_keeps].
Qed.

Lemma prepare_direct_run fuel envp state rs X rtld s sp args envs pairs path :
  areas_apart → ready rs X (Rtld.world s) → rtld_areas ⊆ rs → rtld ∈ X → rtld ≠ 0 →
  direct_memory (memory_of (rest (Rtld.world s))) (process_stack state) sp args envs pairs path →
  0 < sp → Forall (λ q, q.1 ≠ 0) pairs → Forall in_usize (aux_words pairs) → (length pairs < fuel)%nat →
  (length path < fuel)%nat → zlen path < 2 ^ 64 →
  ∃ r s', prepare_direct_exec fuel sy link_error drop_group leak init envp state rtld s = Ret (r, s')
    ∧ borrowed (Rtld.world s') = false ∧ ∀ e, r = Ok e → entered_direct envp state sp args envs pairs path e s'.
Proof.
  intros Hap Hr Hrs Hin Hne Hdm Hsp Hnz Hu Hf Hpf Hpl. unfold prepare_direct_exec.
  erewrite st_bind_run by (apply process_step_run, on_memory_run, to_bytes_run; [apply Hdm|done|done]).
  match goal with |- context [Rtld.mkRt ?a ?b ?c ?d ?e] => set (s1 := Rtld.mkRt a b c d e) end.
  assert (ready rs X (Rtld.world s1)) as Hr1 by (apply (ready_steady rs X (Rtld.world s)); [done|by split_and!]).
  destruct (Utf8.from_utf8 path) as [str|] eqn:Hutf; [|eexists _, _; split; [reflexivity|]; split; [apply Hr1|done]].
  destruct (boot_exec OpenFlags.empty str rs X (Rtld.world s1) Hr1) as (r & w2 & H2 & Hr2 & Hk2).
  erewrite try_res_step.
  2:{ apply boot_world_run. unfold convert_err, load_exec. erewrite st_bind_run by exact H2. reflexivity. }
  destruct r as [exec|e]; cbn [loader_err]; [|eexists _, _; split; [reflexivity|]; split; [apply Hr2|done]].
  assert (direct_memory (memory_of (rest w2)) (process_stack state) sp args envs pairs path) as Hdm2
    by (eapply direct_memory_keeps; [exact Hk2|exact Hdm]).
  destruct (default (0, 0) (exec_phdrs exec)) as [ph pn] eqn:Hph.
  destruct (patch_run fuel _ sp args envs pairs ph pn (load_bias (Startup.rtld state)) (exec_entry exec)
    (exec_path (process_stack state)) Hsp (dm_words _ _ _ _ _ _ _ Hdm2) Hnz Hu Hf) as (m3 & H3 & Hw3 & Hm3).
  rewrite <-(dm_auxv _ _ _ _ _ _ _ Hdm2) in H3.
  erewrite st_bind_run by (apply process_step_run, on_memory_run; exact H3).
  match goal with |- context [Rtld.mkRt ?a ?b ?c ?d ?e] => set (s3 := Rtld.mkRt a b c d e) end.
  assert (ready rs X (Rtld.world s3)) as Hr3 by (apply (ready_steady rs X w2); [done|by split_and!]).
  destruct exec as [raw|st].
  - destruct (link_root_run envp str raw state rs X rtld s3 Hap Hr3 Hrs Hin Hne) as (r & s4 & H4 & Hb4 & Hok).
    erewrite try_res_step by exact H4. destruct r as [[]|e]; [|by eexists _, _].
    eexists _, _. split; [reflexivity|]. split; [done|]. intros e [= <-].
    exists str, (ExecDynamic raw), (Rtld.world s1), w2, s3. rewrite Hph. split_and!; try done.
    { split; [exact Hw3|]. intros Ha. eapply Stack.words_at_bytes; [|exact Hw3]. by apply (link_root_frames _ Ha _ _ _ _ _ _ _ _ H4). }
    destruct (Hok tt eq_refl) as (root & Hroot & Hc). by exists root, rtld.
  - destruct (publish_tls_run _ rs X _ Hr3 Hrs eq_refl) as (p4 & H4).
    erewrite st_bind_run by (apply process_step_run; exact H4).
    eexists _, _. split; [reflexivity|]. split; [apply Hr3|]. intros e [= <-].
    exists str, (ExecStatic st), (Rtld.world s1), w2, s3. rewrite Hph.
    assert (Rtld.in_world (on_process (publish_tls_layout sy)) s3
      = Ret (tt, Rtld.mkRt (with_process p4 (Rtld.world s3)) (Rtld.STARTUP_ROOT s3) (Rtld.ARGC s3) (Rtld.ARGV s3) (Rtld.ENVP s3)))
      as H5 by (by apply process_step_run).
    split_and!; try done. split; [exact Hw3|]. intros Ha. eapply Stack.words_at_bytes; [|exact Hw3].
    by apply (frames_world _ _ (publish_tls_frames _ Ha) _ _ _ H5).
Qed.

(** What the kernel has put in memory for a direct invocation: the stack with
    its strings, none of which lies where startup writes before it reads it. *)
Record direct_start (fuel : nat) (m : mem) (stack : Z) (args envs : list Z) (pairs : list (Z * Z))
    (strs : list (list Z)) (ehdr : Z) : Prop := {
  ds_good : good args envs pairs;
  ds_words : words_at m stack (stack_words args envs pairs);
  ds_enough : StackProps.enough fuel args envs pairs;
  ds_args : CliOptions.args_at fuel m (add stack 1) args strs;
  ds_pos : 0 < stack;
  ds_some : (0 < length strs)%nat;
  ds_memory m' : (∀ x, x < stack ∨ stack + 8 * zlen (stack_words args envs pairs) ≤ x → m' x = m x) →
    boot_memory fuel m' (aux_of pairs) ehdr;
  ds_apart : stack + 8 * zlen (stack_words args envs pairs) ≤ a_rtld_global_ro sy
    ∨ a_rtld_global_ro sy + Glibc.RTLD_GLOBAL_RO_SIZE ≤ stack;
  ds_strs i q str : args !! i = Some q → strs !! i = Some str →
    (q + zlen str < stack ∨ stack + 8 * zlen (stack_words args envs pairs) ≤ q)
    ∧ (q + zlen str < a_rtld_global_ro sy ∨ a_rtld_global_ro sy + Glibc.RTLD_GLOBAL_RO_SIZE ≤ q) }.

(** The stack after it was rewritten for the program. *)
Lemma rewrite_direct fuel m stack args envs pairs strs ehdr k argv0 prog path :
  direct_start fuel m stack args envs pairs strs ehdr → args !! k = Some prog → strs !! k = Some path → in_usize argv0 →
  let ini := mkInitial stack (mkProcess (zlen args) (add stack 1) (add stack (zlen args + 2))
               (add stack (zlen args + zlen envs + 3)) 0) (aux_of pairs) in
  ∃ ps m', rewrite_for_program fuel ini (mkDirect (Z.of_nat k) argv0) m = Ret (ps, m')
    ∧ exec_path ps = prog
    ∧ boot_memory fuel m' (aux_of pairs) ehdr
    ∧ ∀ m3, (∀ x, x < a_rtld_global_ro sy ∨ a_rtld_global_ro sy + Glibc.RTLD_GLOBAL_RO_SIZE ≤ x → m3 x = m' x) →
        direct_memory m3 ps stack (StackProps.program_args args k argv0) envs pairs path.
Proof.
  intros Hd Hk Hpath Ha ini.
  destruct (StackProps.rewrite_run fuel m stack args envs pairs k prog argv0 ini (ds_words _ _ _ _ _ _ _ _ Hd)
    (ds_good _ _ _ _ _ _ _ _ Hd) (ds_enough _ _ _ _ _ _ _ _ Hd) Hk Ha eq_refl eq_refl eq_refl) as (m' & H1 & Hw & Ho).
  pose proof (StackProps.program_args_zlen args k prog argv0 Hk) as Hlen.
  eexists _, m'. split; [exact H1|]. split; [done|]. split; [by apply (ds_memory _ _ _ _ _ _ _ _ Hd)|].
  intros m3 H3. pose proof (StackProps.stack_words_length args envs pairs) as L1.
  pose proof (StackProps.stack_words_length (StackProps.program_args args k argv0) envs pairs) as L2.
  pose proof (ds_apart _ _ _ _ _ _ _ _ Hd) as Hap.
  split; cbn [auxv exec_path].
  - eapply Stack.words_at_bytes; [|exact Hw]. intros x Hx. apply H3. unfold add in Hx. lia.
  - f_equal. lia.
  - destruct (ds_strs _ _ _ _ _ _ _ _ Hd k prog path Hk Hpath) as [Hs1 Hs2].
    apply (cstr_at_frame m).
    + exact (Forall2_lookup_lr _ _ _ k prog path (CliOptions.args_strs _ _ _ _ _ (ds_args _ _ _ _ _ _ _ _ Hd)) Hk Hpath).
    + intros x Hx. rewrite H3, Ho by lia. done.
Qed.

(** The program was entered, at [e], with the stack of a kernel that had run it itself. *)
Definition entered_program envp ehdr stack (args envs : list Z) pairs (strs : list (list Z)) (program : DirectProgram) (e : Z) s : Prop :=
  ∃ state path, let k := Z.to_nat (argv_index program) in
    load_bias (Startup.rtld state) = ehdr ∧ args !! k = Some (exec_path (process_stack state)) ∧ strs !! k = Some path
    ∧ entered_direct envp state stack (StackProps.program_args args k (argv0 program)) envs pairs path e s.

(** The outcome of the options, and then of the run. *)
Definition direct_outcome envp ehdr stack (args envs : list Z) pairs (strs : list (list Z)) (d : result Z DirectProgram) c r s : Prop :=
  match d with
  | Err status => r = Err status ∧ p_cli (rest (Rtld.world s)) = c
  | Ok program => run_outcome (entered_program envp ehdr stack args envs pairs strs program) r s
  end.

(** The program is an argument, with its string. *)
Lemma direct_program fuel m stack args envs pairs strs ehdr i :
  direct_start fuel m stack args envs pairs strs ehdr → (i < length strs)%nat →
  ∃ prog path, args !! i = Some prog ∧ strs !! i = Some path ∧ (length path < fuel)%nat ∧ zlen path < 2 ^ 64.
Proof.
  intros Hd Hi. pose proof (Forall2_length _ _ _ (CliOptions.args_strs _ _ _ _ _ (ds_args _ _ _ _ _ _ _ _ Hd))) as Hlen.
  destruct (lookup_lt_is_Some_2 args i) as [prog Hprog]; [lia|].
  destruct (lookup_lt_is_Some_2 strs i) as [path Hpath]; [lia|]. exists prog, path. split; [done|]. split; [done|].
  exact (proj1 (Forall_lookup _ _) (CliOptions.args_fuel _ _ _ _ _ (ds_args _ _ _ _ _ _ _ _ Hd)) i path Hpath).
Qed.
Lemma direct_argv0 fuel m stack args envs pairs strs ehdr o :
  direct_start fuel m stack args envs pairs strs ehdr → in_usize (from_option (CliOptions.ptr_of args) 0 o).
Proof.
  intros Hd. destruct o as [j|]; [|done]. simpl. unfold CliOptions.ptr_of. destruct (args !! j) as [q|] eqn:Hq; [|done].
  by apply (CliOptions.args_words _ _ _ _ _ (ds_args _ _ _ _ _ _ _ _ Hd) j q Hq).
Qed.

(** The registry does not look at the rest of the process. *)
Lemma fresh_process w p :
  fresh_registry w → dom (DebugList.maps (p_maps p)) = listed w →
  Resolver.tls (p_tls p) = Resolver.tls (p_tls (rest w)) → fresh_registry (with_process p w).
Proof.
  intros [H1 H2 H3 H4] Hd Ht. split; unfold listed, tls_ready in *; cbn [rest with_process manager borrowed]; try done.
  - by rewrite Ht.
  - by rewrite Hd.
Qed.

(** The state of a direct invocation of a program: the options are read, the
    stack is rewritten, and the state is published. *)
Lemma direct_state_run fuel ini stack args envs pairs strs ehdr program c s :
  fresh_registry (Rtld.world s) →
  ini = mkInitial stack (mkProcess (zlen args) (add stack 1) (add stack (zlen args + 2))
    (add stack (zlen args + zlen envs + 3)) 0) (aux_of pairs) →
  direct_start fuel (memory_of (rest (Rtld.world s))) stack args envs pairs strs ehdr →
  CliOptions.perform fuel args strs (CliOptions.decide_args (drop 1 strs) 1 None) (p_cli (rest (Rtld.world s))) = Ret (Ok program, c) →
  ∃ st p path, let k := Z.to_nat (argv_index program) in
    (direct ←! Rtld.in_world (Id := Id) (on_process (on_cli (Cli.handle_direct_invocation fuel (argc (Stack.process ini)) (argv (Stack.process ini)))));
     process ← Rtld.in_world (on_process (on_memory (rewrite_for_program fuel ini direct)));
     state ← Rtld.in_world (on_process (publish_bootstrap_state fuel sy process (aux ini) 0 ehdr));
     mret (Ok state)) s
    = Ret (Ok st, Rtld.mkRt (with_process p (Rtld.world s)) (Rtld.STARTUP_ROOT s) (Rtld.ARGC s) (Rtld.ARGV s) (Rtld.ENVP s))
    ∧ load_bias (Startup.rtld st) = ehdr ∧ args !! k = Some (exec_path (process_stack st)) ∧ strs !! k = Some path
    ∧ (length path < fuel)%nat ∧ zlen path < 2 ^ 64
    ∧ ready (rtld_areas ++ header_areas (Startup.rtld st)) ∅ (with_process p (Rtld.world s))
    ∧ direct_memory (memory_of p) (process_stack st) stack (StackProps.program_args args k (argv0 program)) envs pairs path.
Proof.
  intros Hreg -> Hds Hperf. set (p := rest (Rtld.world s)) in *.
  pose proof (CliOptions.handle_run fuel (memory_of p) _ _ _ (ds_args _ _ _ _ _ _ _ _ Hds) (p_cli p) eq_refl (ds_some _ _ _ _ _ _ _ _ Hds)) as Hcli.
  rewrite Hperf in Hcli. apply CliOptions.perform_returns in Hperf as (-> & i & o & Hrun & ->).
  apply CliOptions.decide_args_run in Hrun. rewrite length_drop in Hrun. set (a0 := from_option _ 0 o) in *.
  destruct (direct_program _ _ _ _ _ _ _ _ i Hds) as (prog & path & Hprog & Hpath & Hpf & Hpl); [lia|].
  destruct (rewrite_direct _ _ _ _ _ _ _ _ i a0 prog path Hds Hprog Hpath) as (ps & m4 & H4 & Hps & Hbm & Hdm); [by eapply direct_argv0|].
  cbv zeta in H4. set (p4 := with_memory m4 (mkProc (p_cli p) (p_maps p) (p_tls p) (p_globals p))).
  destruct (publish_state_run fuel ps (aux_of pairs) 0 ehdr p4 Hbm) as (st & p5 & H5 & S5 & Hst & _ & Hrt & Hh & Hframe).
  exists st, p5, path. cbn [argv_index Stack.argv0]. cbv zeta. rewrite Nat2Z.id, Hst, Hps. split_and!; try done.
  - cbn [Stack.process argc argv aux].
    erewrite try_res_step by (apply process_step_run; unfold on_cli; fold p; rewrite Hcli; reflexivity).
    cbv beta iota. erewrite st_bind_run by (apply process_step_run, on_memory_run; exact H4).
    erewrite st_bind_run by (apply process_step_run; exact H5). reflexivity.
  - apply (fresh_ready _ (with_process p4 (Rtld.world s)) p5); [by apply fresh_process|exact S5|].
    apply Forall_app_2; [apply Hbm|exact Hh].
  - by apply Hdm.
Qed.

Lemma prepare_entered_run fuel envp st rs lm m path stack args envs pairs strs program s :
  areas_apart → ready rs {[lm]} (Rtld.world s) → rtld_areas ⊆ rs → lm ≠ 0 →
  let k := Z.to_nat (argv_index program) in
  direct_start fuel m stack args envs pairs strs (load_bias (Startup.rtld st)) →
  args !! k = Some (exec_path (process_stack st)) → strs !! k = Some path → (length path < fuel)%nat → zlen path < 2 ^ 64 →
  direct_memory (memory_of (rest (Rtld.world s))) (process_stack st) stack
    (StackProps.program_args args k (argv0 program)) envs pairs path →
  ∃ r s', prepare_direct_exec fuel sy link_error drop_group leak init envp st lm s = Ret (r, s')
    ∧ borrowed (Rtld.world s') = false
    ∧ ∀ e, r = Ok e → entered_program envp (load_bias (Startup.rtld st)) stack args envs pairs strs program e s'.
Proof.
  intros Hap Hr Hrs Hne k Hds Hprog Hpath Hpf Hpl Hdm.
  destruct (StackProps.good_parts _ _ _ (ds_good _ _ _ _ _ _ _ _ Hds)) as (_ & _ & Hpu & _).
  destruct (prepare_direct_run fuel envp st rs {[lm]} lm s stack (StackProps.program_args args k (argv0 program)) envs pairs path)
    as (r & s' & H & Hb & Hok); try done.
  - set_solver.
  - apply Hds.
  - apply (good_pairs _ _ _ (ds_good _ _ _ _ _ _ _ _ Hds)).
  - apply (ds_enough _ _ _ _ _ _ _ _ Hds).
  - exists r, s'. split_and!; [done|done|]. intros e He. exists st, path. split_and!; try done. by apply Hok.
Qed.

Lemma run_direct `{SS : !StdFdsSpec K} fuel envp input stack args envs pairs strs d c s :
  areas_apart → direct input = true → fresh_registry (Rtld.world s) →
  initial input = mkInitial stack (mkProcess (zlen args) (add stack 1) (add stack (zlen args + 2))
    (add stack (zlen args + zlen envs + 3)) 0) (aux_of pairs) →
  direct_start fuel (memory_of (rest (Rtld.world s))) stack args envs pairs strs (rtld_load_bias input) →
  CliOptions.perform fuel args strs (CliOptions.decide_args (drop 1 strs) 1 None) (p_cli (rest (Rtld.world s))) = Ret (d, c) →
  ∃ r s', run fuel sy link_error raw_link_map from_core scope_free drop_group leak init envp input s = Ret (r, s')
    ∧ borrowed (Rtld.world s') = false
    ∧ direct_outcome envp (rtld_load_bias input) stack args envs pairs strs d c r s'.
Proof.
  intros Hap Hd Hreg Hini Hds Hperf. unfold run. rewrite Hd. cbv zeta.
  set (p := rest (Rtld.world s)) in *. destruct (install_run p) as (p1 & H1 & S1 & M1).
  erewrite st_bind_run by (apply process_step_run; exact H1). erewrite st_bind_run by (apply process_step_run; reflexivity).
  match goal with |- context [try_res _ _ ?x] => set (s2 := x) end.
  assert (fresh_registry (Rtld.world s2)) as Hreg2 by (destruct S1 as (_ & S1 & S2); by apply (fresh_process (Rtld.world s))).
  assert (p_cli (rest (Rtld.world s2)) = p_cli p) as M2 by exact M1. rewrite <-M2 in Hperf.
  assert (direct_start fuel (memory_of (rest (Rtld.world s2))) stack args envs pairs strs (rtld_load_bias input)) as Hds2
    by (unfold memory_of; by rewrite M2).
  destruct d as [program|status].
  2:{ erewrite try_res_err.
      2:{ apply try_res_err, process_step_run. unfold on_cli.
          assert (Cli.handle_direct_invocation fuel (argc (Stack.process (initial input))) (argv (Stack.process (initial input)))
            (p_cli (rest (Rtld.world s2))) = Ret (Err status, c)) as ->; [|reflexivity].
          rewrite Hini, <-Hperf. apply (CliOptions.handle_run fuel (memory_of (rest (Rtld.world s2)))); [apply Hds2|done|apply Hds2]. }
      eexists _, _. split; [reflexivity|]. split; [apply Hreg|by split]. }
  destruct (direct_state_run fuel (initial input) stack args envs pairs strs (rtld_load_bias input) program c s2)
    as (st & p3 & path & H3 & Hrt & Hprog & Hpath & Hpf & Hpl & Hr3 & Hdm); [done..|].
  erewrite try_res_ok by exact H3.
  erewrite st_bind_run by (apply process_step_run; reflexivity). erewrite st_bind_run by reflexivity.
  match goal with |- context [try_res _ _ ?x] => set (s4 := x) end. set (rs := rtld_areas ++ header_areas (Startup.rtld st)) in *.
  assert (ready rs ∅ (Rtld.world s4)) as Hr4
    by (apply (ready_steady rs ∅ (with_process p3 (Rtld.world s2))); [done|by split_and!]).
  apply (checked_link_run (prepare_direct_exec fuel sy link_error drop_group leak init envp st)
    (entered_program envp (rtld_load_bias input) stack args envs pairs strs program) _ st rs s4 Hr4).
  - unfold rs. set_solver.
  - apply Hreg.
  - intros lm s5 Hne Hr5 Hk5. rewrite <-Hrt in *. apply (prepare_entered_run fuel envp st rs lm (memory_of (rest (Rtld.world s2))) path); try done.
    + unfold rs. set_solver.
    + eapply direct_memory_keeps; [exact Hk5|exact Hdm].
Qed.

Context (relocate_relative : Z → list SelfReloc.ElfRel → st mem bool) (relocate_relr : Z → list Z → st mem bool).
Context (fmt_loader : LErr → string).

(** C1. The linker always answers.  For a program that the kernel mapped, and a
    loader crate that keeps its contract, the run ends: it never panics, never
    touches memory that is not mapped and never loops.  It returns the entry
    point of the program, or the process exits with status 127.  A program
    that needs nothing is entered as it is.  Any other program is entered
    after it was linked: its root is remembered for the exit, and its
    constructors ran only after everything that libc and the debugger read was
    published for its load group, the linker included, and after
    [__libc_early_init]. *)
Theorem startup_returns `{SS : !StdFdsSpec K} fuel envp stack ehdr dyn s m1 args envs pairs phdrs ds :
  SelfReloc.relocate relocate_relative relocate_relr dyn ehdr (memory_of (rest (Rtld.world s))) = Ret (true, m1) →
  good args envs pairs → words_at m1 stack (stack_words args envs pairs) → StackProps.enough fuel args envs pairs →
  headers_at m1 (aux_of pairs) phdrs →
  base (aux_of pairs) ≠ 0 → entry (aux_of pairs) ≠ 0 → dynamic_of (aux_of pairs) phdrs ≠ dyn →
  0 < dynamic_of (aux_of pairs) phdrs → SelfRelocProps.dynamic_at m1 (dynamic_of (aux_of pairs) phdrs) ds → zlen ds < 4096 →
  areas_apart → boot_memory fuel m1 (aux_of pairs) ehdr → fresh_registry (Rtld.world s) →
  ∃ r s', rtld_bootstrap fuel sy link_error raw_link_map from_core scope_free drop_group leak init
      relocate_relative relocate_relr fmt_loader envp stack ehdr dyn s = Ret (r, s')
    ∧ borrowed (Rtld.world s') = false
    ∧ match r with
      | Err status => status = 127 ∧ ¬ needs_nothing phdrs ds
      | Ok e =>
          needs_nothing phdrs ds ∧ e = entry (aux_of pairs) ∧ s' = after_relocation m1 s
          ∨ ¬ needs_nothing phdrs ds ∧ ∃ state, load_bias (main state) = bias_of (aux_of pairs) phdrs
              ∧ o_entry (main state) = entry (aux_of pairs) ∧ load_bias (Startup.rtld state) = ehdr
              ∧ entered state e s'
      end.
Proof.
  intros Hrel Hg Hw Hf Hh Hbase Hentry Hdyn Hpos Hds Hlen Hap Hbm Hreg.
  destruct (pass_through_untouched sy link_error raw_link_map from_core scope_free drop_group leak init fmt_loader
    relocate_relative relocate_relr fuel envp stack ehdr dyn s m1 args envs pairs phdrs ds Hrel Hg Hw Hf Hh Hbase Hentry Hdyn Hpos Hds Hlen)
    as (b & input & Hb & Haux & Hdirect & Hbias & Hmain & Hrun).
  rewrite Hrun. destruct b.
  { eexists _, _. split; [reflexivity|]. split; [apply Hreg|]. left. split; [by apply Hb|done]. }
  assert (¬ needs_nothing phdrs ds) as Hneed by (by intros H%Hb).
  set (s1 := after_relocation m1 s).
  destruct (run_returns fuel envp input s1 Hap Hdirect) as (r & s2 & H2 & Hb2 & Hok).
  { destruct Hreg. by split. }
  { by rewrite Haux, Hbias. }
  erewrite try_res_step by exact H2. destruct r as [[e|err]|status].
  - eexists _, _. split; [reflexivity|]. split; [done|]. right. split; [done|].
    destruct Hok as (state & H1 & H3 & H4 & H5). exists state. by rewrite <-Hmain, <-Haux, <-Hbias.
  - eexists _, _. split; [reflexivity|]. split; [exact Hb2|done].
  - eexists _, _. split; [reflexivity|]. split; [exact Hb2|]. by split.
Qed.

(** The run after the options gave [d]. *)
Lemma direct_run `{SS : !StdFdsSpec K} fuel envp stack ehdr dyn s m1 args envs pairs phdrs strs d c :
  SelfReloc.relocate relocate_relative relocate_relr dyn ehdr (memory_of (rest (Rtld.world s))) = Ret (true, m1) →
  headers_at m1 (aux_of pairs) phdrs →
  base (aux_of pairs) = 0 ∨ dynamic_of (aux_of pairs) phdrs = dyn →
  areas_apart → direct_start fuel m1 stack args envs pairs strs ehdr → fresh_registry (Rtld.world s) →
  CliOptions.perform fuel args strs (CliOptions.decide_args (drop 1 strs) 1 None)
    (p_cli (with_memory m1 (rest (Rtld.world s)))) = Ret (d, c) →
  ∃ r s', rtld_bootstrap fuel sy link_error raw_link_map from_core scope_free drop_group leak init
      relocate_relative relocate_relr fmt_loader envp stack ehdr dyn s = Ret (r, s')
    ∧ borrowed (Rtld.world s') = false
    ∧ match d, r with
      | Err status, _ => r = Err status ∧ p_cli (rest (Rtld.world s')) = c
      | Ok program, Err status => status = 127
      | Ok program, Ok e => entered_program envp ehdr stack args envs pairs strs program e s'
      end.
Proof.
  intros Hrel Hh Hdirect Hap Hds Hreg Hperf. pose proof Hds as [Hg Hw Hf _ _ _ _ _ _].
  destruct (new_run _ _ fuel stack ehdr dyn _ m1 args envs pairs phdrs Hrel Hg Hw Hf Hh) as (ini & Hnew & Hini).
  assert ((base (aux_of pairs) =? 0) || (dynamic_of (aux_of pairs) phdrs =? dyn) = true) as Hd
    by (rewrite orb_true_iff, !Z.eqb_eq; exact Hdirect).
  rewrite Hd in Hnew. set (input := mkInput ini _ _ _ _) in *.
  unfold rtld_bootstrap. erewrite try_res_ok by (apply at_memory_run, Hnew).
  set (s1 := after_relocation m1 s).
  erewrite st_bind_run by (apply (at_memory_run _ s1); unfold pass_through_entry; cbn [direct input]; reflexivity).
  assert (after_relocation (memory_of (rest (Rtld.world s1))) s1 = s1) as -> by done. cbv iota.
  destruct (run_direct fuel envp input stack args envs pairs strs d c s1 Hap eq_refl) as (r & s2 & H2 & Hb2 & Hout); try done.
  { destruct Hreg. by split. }
  erewrite try_res_step by exact H2. destruct d as [program|status].
  - destruct r as [[e|err]|status].
    + eexists _, _. by split_and!.
    + eexists _, _. split; [reflexivity|]. by split.
    + eexists _, _. split; [reflexivity|]. by split.
  - destruct Hout as [-> Hc]. eexists _, _. split; [reflexivity|]. by split.
Qed.

(** C2. A direct invocation always ends, too.  What it does is decided by the
    strings of its arguments.  An option that ends the process ends this run with
    status 0 or 1, with the output of that option and nothing else done, whatever
    the files hold that it reads.  When the arguments name a program, the process
    exits with status 127, or the program is entered at its entry point: its
    stack is then the one that the kernel would have built, with the auxiliary
    vector that describes the mapped program, both when the linking begins and in
    the state in which the program is entered (if its constructors do not write
    there), and it was linked as above unless it is static. *)
Theorem direct_returns `{SS : !StdFdsSpec K, FR : !FilesReturn K} fuel envp stack ehdr dyn s m1 args envs pairs phdrs strs :
  SelfReloc.relocate relocate_relative relocate_relr dyn ehdr (memory_of (rest (Rtld.world s))) = Ret (true, m1) →
  headers_at m1 (aux_of pairs) phdrs →
  base (aux_of pairs) = 0 ∨ dynamic_of (aux_of pairs) phdrs = dyn →
  areas_apart → direct_start fuel m1 stack args envs pairs strs ehdr → fresh_registry (Rtld.world s) →
  ∃ r s', rtld_bootstrap fuel sy link_error raw_link_map from_core scope_free drop_group leak init
      relocate_relative relocate_relr fmt_loader envp stack ehdr dyn s = Ret (r, s')
    ∧ borrowed (Rtld.world s') = false
    ∧ match CliOptions.decide_args (drop 1 strs) 1 None with
      | CliOptions.Run i o =>
          match r with
          | Err status => status = 127
          | Ok e => entered_program envp ehdr stack args envs pairs strs
              (mkDirect (Z.of_nat i) (from_option (CliOptions.ptr_of args) 0 o)) e s'
          end
      | a => ∃ status c, CliOptions.perform fuel args strs a (p_cli (with_memory m1 (rest (Rtld.world s)))) = Ret (Err status, c)
          ∧ (status = 0 ∨ status = 1) ∧ r = Err status ∧ p_cli (rest (Rtld.world s')) = c
      end.
Proof.
  intros Hrel Hh Hdirect Hap Hds Hreg. set (c0 := p_cli (with_memory m1 (rest (Rtld.world s)))).
  destruct (CliReturns.perform_ends release_build fuel m1 _ args strs (ds_args _ _ _ _ _ _ _ _ Hds) c0 eq_refl
    (ds_some _ _ _ _ _ _ _ _ Hds)) as [(i & o & Ha)|(status & c & Hperf & Hst)].
  - destruct (direct_run fuel envp stack ehdr dyn s m1 args envs pairs phdrs strs
      (Ok (mkDirect (Z.of_nat i) (from_option (CliOptions.ptr_of args) 0 o))) c0) as (r & s' & H1 & H2 & H3); [done..|by rewrite Ha|].
    exists r, s'. rewrite Ha. split; [done|]. split; [done|]. by destruct r.
  - destruct (direct_run fuel envp stack ehdr dyn s m1 args envs pairs phdrs strs (Err status) c)
      as (r & s' & H1 & H2 & H3 & H4); [done..|]. exists r, s'. split; [done|]. split; [done|].
    destruct (CliOptions.decide_args _ _ _); try by exists status, c. by injection Hperf.
Qed.
End stages.

(** ** An instance

    A machine whose loader lists a link map for each object it maps. *)
Import Toy.
#[local] Existing Instances w_source w_build w_kernel RtldProps.toy_alias_laws.
#[local] Instance boot_fds : StdFds ToyKernel := {|
  fcntl_getfd fd k := Ret (bool_decide (fd ∈ ({[0; 1; 2]} : gset Z)), k);
  open_flags _ _ k := Ret (None, k) |}.
#[local] Program Instance boot_fds_spec : StdFdsSpec ToyKernel := {| open_fds k := {[0; 1; 2]} |}.
Next Obligation. done. Qed.
Next Obligation. intros path flags k. by eexists _, _. Qed.

Local Abbreviation bprocess := (process ToyKernel (list Z)).
Local Abbreviation bworld := (World toy (nat * nat) nat bprocess).
Definition good_boot (l : nat * nat) (w : bworld) : Prop :=
  let c := Manager.link_ctx (manager w) in
  l ∈ t_out c ∧ is_Some (t_metas c !! l.2) ∧ 0 ≤ Manager.adds (manager w) ∧ Manager.adds (manager w) + 1 < 2 ^ 64.
#[local] Instance good_boot_dec l w : Decision (good_boot l w).
Proof. unfold good_boot. cbv zeta. apply _. Defined.

(** The link map that the next committed module has. *)
Definition next_map (w : bworld) : Z := 4096 * (Z.of_nat (length (t_metas (Manager.link_ctx (manager w)))) + 1).
Definition list_map (a : Z) (p : bprocess) : bprocess :=
  let d := p_maps p in
  mkProc (p_cli p) (DebugList.with_maps d (<[a := LinkMap_zero]> (DebugList.maps d))) (p_tls p) (p_globals p).
Definition list_maps (raw : Z) (w : bworld) : bworld := with_process (list_map raw (list_map 4096 (rest w))) w.

#[local] Instance boot_linker : Linker bworld toy nat (nat * nat) Z := {|
  Raw := Z; Prepared := list Z; Relocated := list Z; Published := nat * nat; Load := nat * nat; Failed := nat * nat;
  load_dylib _ _ := Err 1;
  resolve_committed _ _ c p := (Ok (ctx_module_id c p), c);
  prepare_load _ _ c p := (Err 2, c);
  prepare_mapped _ _ c key _ := (Ok key, c);
  relocate _ p := λ w, Ret (if bool_decide (next_map w ∈ listed w) then Ok p else Err 3, w);
  publish p c := match ctx_insert c p 0%nat 0 [] with Some (l, c') => (Ok l, c') | None => (Err 4, c) end;
  root_of := snd;
  rollback l c := (Ok tt, give_back l c);
  initialize l := λ w, Ret (if bool_decide (good_boot l w) then Ok l else Err l, w);
  failed_rollback l c := (5, give_back l c);
  into_parts l := (l, [l.2]) |}.
(** The linker is the first module; the program, whose name is empty, the second. *)
#[local] Instance boot_loader : RawLoader bworld Z Z := {|
  StaticImage := unit;
  load_mapped_dynamic _ nm _ _ _ := λ w,
    let raw := match nm with [] => 8192 | _ => 4096 end in Ret (Ok raw, list_maps raw w);
  loader_load_exec _ _ := λ w, Ret (Ok (ExecDynamic 8192), list_maps 8192 w);
  exec_phdrs _ := Some (0x10000, 1);
  exec_entry _ := 77;
  raw_entry _ := 77;
  raw_name _ := [] |}.
Definition boot_module (raw : Z) : nat := Z.to_nat (raw / 4096 - 1).

#[local] Program Instance boot_linker_laws : LinkerLaws toy_laws boot_linker.
Next Obligation.
  intros paths caller c path. eexists _, _. split; [reflexivity|]. split_and!; try done.
  intros i Hi. refine (law_module_id c path i _). congruence.
Qed.
Next Obligation. intros plan p w Hb. eexists _, _. by split. Qed.
Next Obligation.
  intros l w Hb. eexists _, _. split; [reflexivity|]. split; [done|]. intros ld.
  case_bool_decide as Hg; [|done]. intros [= <-]. destruct Hg as (H1 & H2 & H3 & H4). cbn [into_parts boot_linker].
  split; [done|]. split; [done|]. split; [by apply Forall_singleton|]. split; [apply NoDup_singleton|by split].
Qed.

(** The maps of the committed modules are listed; the first of them is the linker. *)
Definition toy_linked (c : toy) (X : gset Z) : Prop :=
  (∀ i, (i < length (t_metas c))%nat → 4096 * (Z.of_nat i + 1) ∈ X) ∧ (X = ∅ ∨ 4096 ∈ X).
#[local] Program Instance boot_linked : Linked toy_laws := {| linked := toy_linked |}.
Next Obligation.
  intros c X j g [Hl _] Hg. cbn [ctx_load_group toy_ctx] in Hg.
  apply bind_Some in Hg as (f & Hf & [= <-]). apply lookup_lt_Some in Hf. split_and!.
  - by exists j, [].
  - apply NoDup_singleton.
  - apply Forall_singleton. intros _. cbn [mod_link_map toy_mod]. by apply Hl.
Qed.
Next Obligation.
  intros c c' X [Hl Hz] Hg. split; [|done]. intros i Hi. apply Hl. specialize (Hg i). cbn [ctx_load_group toy_ctx] in Hg.
  apply lookup_lt_is_Some in Hi as [f Hf]. rewrite Hf in Hg. cbn [mbind option_bind] in Hg.
  apply lookup_lt_is_Some. destruct (t_metas c !! i); [by eexists|done].
Qed.
Next Obligation.
  intros c nm m fl deps X [Hl Hz] He _ Hin. cbn [ctx_load_order toy_ctx] in He.
  destruct (t_metas c) as [|x l] eqn:Hm; [|done]. eexists _, _. split; [reflexivity|].
  cbn [outstanding toy_laws t_out ctx_meta toy_ctx t_metas lease_id snd]. rewrite Hm. split; [left|].
  split; [by eexists|]. split; [|done]. intros [|i] Hi; [|simpl in Hi; lia].
  destruct Hz as [-> |Hz]; [by apply elem_of_empty in Hin|done].
Qed.
Lemma listed_list_maps raw w : listed (list_maps raw w) = {[raw; 4096]} ∪ listed w.
Proof.
  unfold listed, list_maps, list_map. cbn [rest with_process p_maps DebugList.with_maps DebugList.maps].
  rewrite !dom_insert_L. set_solver.
Qed.
Lemma toy_linked_mono c X X' : toy_linked c X → X ⊆ X' → 4096 ∈ X' → toy_linked c X'.
Proof. intros [H1 H2] Hs Hz. split; [|by right]. intros i Hi. by apply Hs, H1. Qed.

(** Mapping an object. *)
Lemma list_maps_ready raw rs X w : ready rs X w → ready rs X (list_maps raw w).
Proof.
  intros [H1 H2 H3 H4 H5]. assert (listed w ⊆ listed (list_maps raw w)) as Hs by (rewrite listed_list_maps; set_solver).
  split; [done|exact H2|exact H3|by etrans|]. eapply toy_linked_mono; [exact H5|done|]. rewrite listed_list_maps. set_solver.
Qed.

#[local] Program Instance boot_laws :
  BootLaws (LI := boot_linked) (LK := boot_linker) (RL := boot_loader) Some boot_module (λ _, true) := {|
    publishable _ w := next_map w ∈ listed w |}.
Next Obligation.
  intros fl nm bias phdrs e rs X w Hr. cbn [load_mapped_dynamic boot_loader].
  set (raw := match nm with [] => 8192 | _ => 4096 end).
  eexists _, _. split; [reflexivity|]. split_and!; [by apply list_maps_ready|done|by intros x b|].
  intros r [= <-]. split; [done|]. split; [done|]. intros lm [= <-]. rewrite listed_list_maps.
  split; [by unfold raw; destruct nm|]. split; [set_solver|]. by unfold raw; destruct nm.
Qed.
Next Obligation.
  intros fl path rs X w Hr. eexists _, _. split; [reflexivity|]. split; [by apply list_maps_ready|by intros x b].
Qed.
Next Obligation. done. Qed.
Next Obligation.
  intros plan p rs X w r w' Hr [= <- <-]. split; [done|]. intros rel. by case_bool_decide.
Qed.
Next Obligation.
  intros rel w pub c' Hr Hp. cbn [publish boot_linker ctx_insert toy_ctx]. intros [= <- <-].
  destruct (ready_linked _ _ _ Hr) as [Hl Hz]. cbn [ctx_meta toy_ctx t_metas root_of boot_linker snd]. split.
  - split; [|done]. intros i Hi. cbn [t_metas] in Hi. rewrite length_app in Hi. simpl in Hi.
    destruct (decide (i < length (t_metas (Manager.link_ctx (manager w))))%nat) as [Hlt|Hge]; [by apply Hl|].
    replace i with (length (t_metas (Manager.link_ctx (manager w)))) by lia. exact Hp.
  - rewrite lookup_app_r, Nat.sub_diag by lia. by eexists.
Qed.

(** A program of one header that needs a library; the linker has one header. *)
Definition boot_header : ElfPhdr := mkPhdr PT_DYNAMIC 0 0 0x11000 0 0 0 0.
Definition boot_ehdr : list Z :=
  replicate 32 0 ++ le_encode 8 64 ++ replicate 14 0 ++ le_encode 2 56 ++ le_encode 2 1 ++ replicate 6 0.
Definition boot_dynamic : list Z := (aux_words [(SelfReloc.DT_NEEDED, 8)] ++ [SelfReloc.DT_NULL; 0]) ≫= le_encode 8.
Definition boot_header_bytes : list Z :=
  le_encode 4 PT_DYNAMIC ++ le_encode 4 0 ++ ([0; 0x11000; 0; 0; 0; 0] ≫= le_encode 8).
Definition boot_objects : mem :=
  write (write (write (write both_images 0x10000 boot_header_bytes) 0x11000 boot_dynamic) 0x12000 (replicate 16 0))
    0x13000 (boot_ehdr ++ boot_header_bytes).
Definition boot_state (m : mem) : Rtld.rt (Ctx := toy) (Id := nat) (Lease := nat * nat) (Mod := nat) (Ext := bprocess) :=
  Rtld.mkRt (mkWorld (toy_manager 0) false None (w_process m ∅)) None 0 0 0.
Definition boot_run (m : mem) :=
  rtld_bootstrap (LK := boot_linker) (RL := boot_loader) 9 w_symbols 8 Some boot_module (λ _, true) (λ _ w, Ret (tt, w))
    w_leak w_init (λ _ _ m, Ret (false, m)) (λ _ _ m, Ret (false, m)) (λ _, "loader"%string) None 0x20000 0x13000 0x12000
    (boot_state m).

(** The stack of a program that the kernel mapped, and of a direct invocation
    [ld.so --argv0 x a]. *)
Definition boot_pairs : list (Z * Z) :=
  [(AT_PHDR, 0x10000); (AT_PHENT, 56); (AT_PHNUM, 1); (AT_BASE, 0x13000); (AT_ENTRY, 77)].
Definition boot_mem : mem := write boot_objects 0x20000 (stack_words [9000] [9050] boot_pairs ≫= le_encode 8).
Definition direct_pairs : list (Z * Z) := [(AT_PHDR, 0x13040); (AT_PHENT, 56); (AT_PHNUM, 1); (AT_ENTRY, 78)].
Definition direct_args : list Z := [0x30000; 0x30006; 0x3000e; 0x30010].
Definition direct_mem : mem :=
  write (write boot_objects 0x20000 (stack_words direct_args [9050] direct_pairs ≫= le_encode 8))
    0x30000 (CliProps.w_strs ≫= λ s, s ++ [0]).

(** The whole run: the linker and the program are pinned, the program is the
    root, and it is entered at its entry point. *)
Example boot_runs :
  match boot_run boot_mem with
  | Ret (r, s) => r = Ok 77 ∧ Rtld.STARTUP_ROOT s = Some 1%nat
      ∧ t_pins (Manager.link_ctx (manager (Rtld.world s))) = [1; 0]%nat
      ∧ Cli.c_writes (p_cli (rest (Rtld.world s))) = []
  | _ => False
  end.
Proof. vm_compute. by split_and!. Qed.

Lemma boot_leak_apart l (p : bprocess) :
  ∃ a m, leaks w_leak l a p m ∧ Forall (λ r, a + 8 * zlen l ≤ r.1 ∨ r.1 + r.2 ≤ a) (rtld_areas w_symbols).
Proof.
  exists 0x100000, (write (memory_of p) 0x100000 (l ≫= le_encode 8)). split.
  - split; [reflexivity|]. split; [apply StackProps.words_at_of_words, write_bytes_at|].
    intros x Hx. by apply write_mapped.
  - constructor; [right; vm_compute; discriminate|]. constructor; [right; vm_compute; discriminate|constructor].
Qed.
Lemma image_mapped (m : mem) a (l : list Z) : mapped (write m a l) a (zlen l).
Proof. intros x Hx. unfold write. rewrite decide_True by lia. apply lookup_lt_is_Some. unfold zlen in Hx. lia. Qed.

Lemma below_mapped (m m' : mem) a n : (∀ x, x < 0x20000 → m' x = m x) → mapped m a n → a + n ≤ 0x20000 → mapped m' a n.
Proof. intros Hm H Hn x Hx. rewrite Hm by lia. by apply H. Qed.
Lemma objects_areas : Forall (λ r, mapped boot_objects r.1 r.2) (rtld_areas w_symbols).
Proof.
  unfold boot_objects. do 4 (eapply Forall_impl; [|intros r; apply write_mapped]). unfold both_images.
  constructor; [|constructor; [|constructor]].
  - exact (image_mapped GlibcProps.ro_image 0x4000 (image Glibc.RtldGlobal_new)).
  - apply write_mapped. exact (image_mapped (λ _, None) 0x1000 (image Glibc.RtldGlobalRo_new)).
Qed.
Lemma linker_header : mapped boot_objects 0x13040 56.
Proof.
  intros x Hx. apply (image_mapped _ 0x13000 (boot_ehdr ++ boot_header_bytes)).
  change (zlen (boot_ehdr ++ boot_header_bytes)) with 120. lia.
Qed.
Lemma program_header : mapped boot_objects 0x10000 56.
Proof. do 3 apply write_mapped. exact (image_mapped _ 0x10000 boot_header_bytes). Qed.

Lemma boot_memory_ok m pairs :
  (∀ x, x < 0x20000 → m x = boot_objects x) → platform (aux_of pairs) = 0 → phnum (aux_of pairs) = 1 →
  mapped boot_objects (phdr (aux_of pairs)) 56 → phdr (aux_of pairs) + 56 ≤ 0x20000 →
  boot_memory w_symbols 9 m (aux_of pairs) 0x13000.
Proof.
  intros Hm Hplat Hnum Hmap Hle. split.
  - pose proof objects_areas as Ha. apply Forall_cons in Ha as [H1 Ha]. apply Forall_inv in Ha.
    constructor; [|constructor; [|constructor]]; (eapply below_mapped; [exact Hm|done|vm_compute; discriminate]).
  - exists []. split; [done|]. split; [simpl; lia|]. by left.
  - rewrite Hnum. by apply (below_mapped boot_objects).
  - exists 64, 56, 1. split; [|split].
    + apply (ehdr_at_frame boot_objects); [|intros x Hx; apply Hm; lia].
      split. exists boot_ehdr. split; [|by vm_compute]. pose proof write_bytes_at as Hw.
      eapply (proj1 (bytes_at_app _ _ _ _)), Hw.
    + right. vm_compute. discriminate.
    + apply (below_mapped boot_objects); [exact Hm|exact linker_header|vm_compute; discriminate].
Qed.

Lemma boot_fresh m : fresh_registry (LI := boot_linked) (Rtld.world (boot_state m)).
Proof.
  split.
  - reflexivity.
  - exists 2432, 64, (-32). split; vm_compute; reflexivity.
  - split; [|by left]. intros i Hi. simpl in Hi. lia.
  - reflexivity.
Qed.

Lemma startup_returns_witness :
  ¬ needs_nothing [boot_header] [(SelfReloc.DT_NEEDED, 8)]
  ∧ ∃ r s', boot_run boot_mem = Ret (r, s') ∧ borrowed (Rtld.world s') = false.
Proof.
  split.
  { intros (_ & H & _). apply (H (SelfReloc.DT_NEEDED, 8)); [left|done]. }
  destruct (startup_returns (BU := w_build) (LI := boot_linked) (LK := boot_linker) (RL := boot_loader) w_symbols 8 Some boot_module (λ _, true)
    (λ _ w, Ret (tt, w)) w_leak w_init eq_refl
    (λ u w Hb, ex_intro _ w (conj eq_refl Hb)) (λ f w Hb, ex_intro _ w (conj eq_refl Hb)) boot_leak_apart
    (λ _ _ m, Ret (false, m)) (λ _ _ m, Ret (false, m)) (λ _, "loader"%string)
    9 None 0x20000 0x13000 0x12000 (boot_state boot_mem) boot_mem [9000] [9050] boot_pairs [boot_header] [(SelfReloc.DT_NEEDED, 8)])
    as (r & s' & H1 & H2 & _).
  - reflexivity.
  - split; apply (bool_decide_unpack _); vm_compute; exact I.
  - apply StackProps.words_at_of_words, write_bytes_at.
  - unfold StackProps.enough. vm_compute. lia.
  - split_and!; [vm_compute; discriminate|vm_compute; discriminate|reflexivity|vm_compute; discriminate|vm_compute; reflexivity|].
    intros [|i] h Hi; [injection Hi as <-; reflexivity|destruct i; discriminate Hi].
  - vm_compute. discriminate.
  - vm_compute. discriminate.
  - vm_compute. discriminate.
  - vm_compute. reflexivity.
  - split; [apply StackProps.words_at_of_words|split; apply (bool_decide_unpack _); vm_compute; exact I].
    unfold boot_mem, boot_objects. do 3 (apply bytes_at_write_other; [|left; vm_compute; discriminate]). apply write_bytes_at.
  - vm_compute. reflexivity.
  - right. vm_compute. discriminate.
  - apply boot_memory_ok; [|reflexivity|reflexivity|exact program_header|vm_compute; discriminate].
    intros x Hx. unfold boot_mem. by rewrite write_outside by lia.
  - apply boot_fresh.
  - exists r, s'. split; [exact H1|exact H2].
Defined.

(** The direct invocation: the stack at the entry of the program is that of
    a program without arguments, named as asked. *)
Example direct_runs :
  match boot_run direct_mem with
  | Ret (r, s) => r = Ok 77 ∧ Rtld.STARTUP_ROOT s = Some 1%nat
      ∧ match load_bytes 24 0x20000 (memory_of (rest (Rtld.world s))) with
        | Ret (l, _) => l = concat (le_encode 8 <$> [1; 0x3000e; 0])
        | _ => False
        end
  | _ => False
  end.
Proof. vm_compute. by split_and!. Qed.

Lemma direct_args_ok : CliOptions.args_at 9 direct_mem (add 0x20000 1) direct_args CliProps.w_strs.
Proof.
  split.
  - by vm_compute.
  - intros i q Hq. assert (words_at direct_mem (add 0x20000 1) direct_args) as Hw.
    { assert (bytes_at direct_mem 0x20000 (stack_words direct_args [9050] direct_pairs ≫= le_encode 8)) as H%StackProps.words_at_of_words.
      { apply bytes_at_write_other; [apply write_bytes_at|left; vm_compute; discriminate]. }
      by apply StackProps.stack_parts in H as (_ & [H _]%Stack.words_at_app & _). }
    split; [by apply Hw|]. assert (Forall (λ v, in_usize v ∧ v ≠ 0) direct_args) as Hall
      by (apply (bool_decide_unpack _); vm_compute; exact I).
    exact (proj1 (Forall_lookup _ _) Hall i q Hq).
  - repeat (constructor; [split; [by apply (bool_decide_unpack _); vm_compute|apply CliProps.bytes_at_check; by vm_compute]|]).
    constructor.
  - apply (bool_decide_unpack _). by vm_compute.
Qed.

Lemma direct_start_ok : direct_start w_symbols 9 direct_mem 0x20000 direct_args [9050] direct_pairs CliProps.w_strs 0x13000.
Proof.
  split.
  - split; apply (bool_decide_unpack _); vm_compute; exact I.
  - apply StackProps.words_at_of_words, bytes_at_write_other; [apply write_bytes_at|left; vm_compute; discriminate].
  - unfold StackProps.enough. vm_compute. lia.
  - exact direct_args_ok.
  - lia.
  - simpl. lia.
  - intros m' Hm. apply boot_memory_ok; [|reflexivity|reflexivity|exact linker_header|vm_compute; discriminate].
    intros x Hx. rewrite Hm by (left; exact Hx). unfold direct_mem. by rewrite !write_outside by lia.
  - right. vm_compute. discriminate.
  - intros i q str Hq Hs.
    assert (Forall (λ x, 0x30000 ≤ x.1) (zip direct_args CliProps.w_strs)) as Hall
      by (apply (bool_decide_unpack _); vm_compute; exact I).
    assert (0x30000 ≤ q) as Hle.
    { apply (proj1 (Forall_lookup _ _) Hall i (q, str)). apply lookup_zip_Some. by split. }
    change (zlen (stack_words direct_args [9050] direct_pairs)) with 18.
    change (a_rtld_global_ro w_symbols) with 0x1000. unfold Glibc.RTLD_GLOBAL_RO_SIZE. split; right; lia.
Qed.

Lemma boot_left_alone :
  left_alone (LK := boot_linker) w_symbols (λ _ w, Ret (tt, w)) w_leak w_init (λ x, 0x20000 ≤ x < 0x30000).
Proof.
  split.
  - change (a_rtld_global w_symbols) with 0x4000. unfold Glibc.RTLD_GLOBAL_SIZE. lia.
  - change (a_rtld_global_ro w_symbols) with 0x1000. unfold Glibc.RTLD_GLOBAL_RO_SIZE. lia.
  - intros l w a w' H. apply bind_Ret_inv in H as ([b p] & H & [= _ <-]). injection H as _ <-.
    intros x Hx. apply write_outside. lia.
  - by intros plan p w a w' [= _ <-].
  - by intros l w a w' [= _ <-].
  - by intros f w a w' [= _ <-].
  - by intros u w a w' [= _ <-].
Qed.

(** The state in which the program is entered has the stack of a program called
    by the string at 0x3000e, without arguments. *)
Lemma direct_returns_witness :
  ∃ r s', boot_run direct_mem = Ret (r, s') ∧ borrowed (Rtld.world s') = false
    ∧ ∀ e, r = Ok e → entered_program (LK := boot_linker) w_symbols 8 (λ _ w, Ret (tt, w)) w_leak w_init
        None 0x13000 0x20000 direct_args [9050] direct_pairs CliProps.w_strs (mkDirect 3 0x3000e) e s'
      ∧ ∃ auxv, words_at (memory_of (rest (Rtld.world s'))) 0x20000 (stack_words [0x3000e] [9050] auxv).
Proof.
  destruct (direct_returns (FR := CliReturns.toy_files_return) (BU := w_build) (LI := boot_linked) (LK := boot_linker) (RL := boot_loader) w_symbols 8 Some boot_module (λ _, true)
    (λ _ w, Ret (tt, w)) w_leak w_init eq_refl
    (λ u w Hb, ex_intro _ w (conj eq_refl Hb)) (λ f w Hb, ex_intro _ w (conj eq_refl Hb)) boot_leak_apart
    (λ _ _ m, Ret (false, m)) (λ _ _ m, Ret (false, m)) (λ _, "loader"%string)
    9 None 0x20000 0x13000 0x12000 (boot_state direct_mem) direct_mem direct_args [9050] direct_pairs [boot_header] CliProps.w_strs)
    as (r & s' & H1 & H2 & H3).
  - reflexivity.
  - split_and!; [vm_compute; discriminate|vm_compute; discriminate|reflexivity|vm_compute; discriminate|vm_compute; reflexivity|].
    intros [|i] h Hi; [injection Hi as <-; reflexivity|destruct i; discriminate Hi].
  - left. reflexivity.
  - right. vm_compute. discriminate.
  - exact direct_start_ok.
  - apply boot_fresh.
  - exists r, s'. split; [exact H1|]. split; [exact H2|]. intros e ->. split; [exact H3|].
    destruct H3 as (state & path & _ & _ & _ & str & exec & w0 & w1 & s1 & _ & _ & _ & (_ & Hfinal) & _).
    eexists. apply Hfinal, (left_alone_sub _ _ _ _ _ _ boot_left_alone). intros x Hx.
    rewrite StackProps.stack_words_length in Hx. unfold add, zlen in Hx. rewrite length_fmap in Hx.
    change (length direct_pairs) with 4%nat in Hx. change (length [9050]) with 1%nat in Hx.
    change (length (StackProps.program_args direct_args _ _)) with 1%nat in Hx. lia.
Defined.
End BootProps.
