(* ===== verification/Handover.v ===== *)
(** * From startup to the threads of the program (Boot.v with Sessions.v)

    The accounts of the registry over one run of startup: whatever the run
    does, no handle is left over and every lease that it took is pinned or was
    given back.  So the world that startup hands over satisfies the invariant
    under which the calls of any number of threads are safe. *)

From stdpp Require Import gmap relations.
From S2P Require Import Prelude Utf8 Errors LinkMap DebugList LoaderLock DlError Machine CStr Layout Tls Resolver Manager Open.
From S2P Require Import DlApi Threads Concurrent Sessions Stack SelfReloc Glibc Cli Rtld Startup Boot.

Module HandoverProps.
Import Machine Stack Tls Open Startup StartupProps BootProps Threads Concurrent Sessions SessionsProps.

Section handover.
Context {K Source : Type} {FI : Files K} {SF : StdFds K}.
Context {Ctx Id Lease Mod LErr : Type} `{ED : EqDecision Id, LC : !LinkCtx Ctx Id Lease Mod, MA : !ModuleApi Mod}.
Context {BU : Build} {IS : ImageSource Source} {KE : Heap.Kernel}.
Local Abbreviation P := (process K Source).
Local Abbreviation W := (World Ctx Lease Mod P).
Local Abbreviation Mgr := (Manager.Manager (Ctx := Ctx) (Lease := Lease) (Mod := Mod)).
Local Abbreviation boot := (Rtld.rt (Ctx := Ctx) (Id := Id) (Lease := Lease) (Mod := Mod) (Ext := P)).
Local Abbreviation Handles := (gmap Z (Manager.HandleState (Lease := Lease) (Mod := Mod))).
Context {LK : Linker W Ctx Id Lease LErr} {RL : RawLoader W Raw LErr}.
Context {LL : LinkCtxLaws Ctx Id Lease Mod} {AL : AliasLaws LL} {LLe : LinkerLeases LL LK}.

(** What startup relies on in the loader crate about leases, besides
    [LinkerLeases]: mapping takes none, an insertion takes the one it returns,
    and the root of a published load is committed. *)
Class StartupLeases := {
  lease_load_mapped fl nm bias phdrs e w hs ls r w' :
    holds (LL := LL) w hs ls → load_mapped_dynamic fl nm bias phdrs e w = Ret (r, w') → holds (LL := LL) w' hs ls;
  lease_load_exec fl path w hs ls r w' :
    holds (LL := LL) w hs ls → loader_load_exec fl path w = Ret (r, w') → holds (LL := LL) w' hs ls;
  lease_insert c nm m fl deps l c' :
    ctx_insert (Id := Id) (Lease := Lease) (Mod := Mod) c nm m fl deps = Some (l, c') →
    outstanding (LinkCtxLaws := LL) c' ≡ₚ l :: outstanding (LinkCtxLaws := LL) c
    ∧ is_Some (ctx_meta (Id := Id) (Lease := Lease) (Mod := Mod) c' (lease_id l));
  lease_root p c pub c' : publish p c = (Ok pub, c') →
    is_Some (ctx_meta (Lease := Lease) (Mod := Mod) c' (root_of pub)) }.
Context {SL : StartupLeases}.
Context (sy : Symbols) (link_error : LErr) (raw_link_map : Raw → option Z) (from_core : Raw → Mod) (scope_free : Raw → bool).
Context (drop_group : list Id → st W unit) (leak : list Z → st P Z) (init : Z → st W unit).
Hypothesis release_build : overflow_checks = false.

(** ** Steps that leave the accounts as they are *)
Definition leaves {S A} (v : S → W) (m : st S A) : Prop :=
  ∀ s hs ls a s', holds (LL := LL) (v s) hs ls → m s = Ret (a, s') → holds (LL := LL) (v s') hs ls.
Definition mleaves {A} (m : st Mgr A) : Prop :=
  ∀ s hs ls a s', mholds (LL := LL) s hs ls → m s = Ret (a, s') → mholds (LL := LL) s' hs ls.

Lemma leaves_ret {S A} (v : S → W) (a : A) : leaves v (mret a).
Proof. by intros s hs ls b s' Hh [= _ <-]. Qed.
Lemma leaves_bind {S A B} (v : S → W) (m : st S A) (k : A → st S B) :
  leaves v m → (∀ a, leaves v (k a)) → leaves v (m ≫= k).
Proof.
  intros Hm Hk s hs ls b s' Hh (a & s1 & H1 & H2)%st_bind_Ret_inv. eapply Hk; [|exact H2]. by eapply Hm.
Qed.
Lemma leaves_try {S E A B} (v : S → W) (m : st S (result E A)) (k : A → st S (result E B)) :
  leaves v m → (∀ a, leaves v (k a)) → leaves v (try_res k m).
Proof. intros Hm Hk. apply leaves_bind; [done|]. intros [a|e]; [apply Hk|apply leaves_ret]. Qed.

(** A borrow that runs to its end. *)
Lemma borrow_inv {A} (m : st Mgr A) (w : W) a w' :
  borrowed w = false → borrow_mut m w = Ret (a, w') →
  ∃ s', m (manager w) = Ret (a, s') ∧ w' = mkWorld s' false (search_path_cell w) (rest w).
Proof.
  intros Hb H. destruct (m (manager w)) as [[a' s']| | |] eqn:Hm;
    [|by unfold borrow_mut, acquire, with_manager, mbind, st_bind in H; rewrite Hb in H; simpl in H; rewrite Hm in H..].
  rewrite (OpenProps.borrow_run m w a' s' Hb Hm) in H. injection H as <- <-. by exists s'.
Qed.
Lemma leaves_borrow {A} (m : st Mgr A) : mleaves m → leaves id (borrow_mut m).
Proof.
  intros Hm w hs ls a w' (Hb & Hh & Ho) (s' & Hr & ->)%borrow_inv; [|done].
  destruct (Hm _ hs ls _ _ (conj Hh Ho) Hr) as [Hh' Ho']. by split_and!.
Qed.
Lemma leaves_world {A} (m : st W A) : leaves id m → leaves (Rtld.world (Id := Id)) (Rtld.in_world m).
Proof.
  intros Hm s hs ls a s' Hh H. unfold Rtld.in_world in H. apply bind_Ret_inv in H as ([b w] & H1 & [= -> <-]).
  by eapply Hm.
Qed.
Lemma leaves_process {A} (m : st P A) : leaves id (on_process m : st W A).
Proof. intros w hs ls a w' Hh H. unfold on_process in H. by apply bind_Ret_inv in H as ([b p] & _ & [= _ <-]). Qed.
Lemma leaves_at {A} (m : st P A) : leaves (Rtld.world (Id := Id)) (Rtld.in_world (on_process m)).
Proof. apply leaves_world, leaves_process. Qed.
Lemma leaves_convert {A} (m : st W (result LErr A)) : leaves id m → leaves id (convert_err m).
Proof. intros Hm. apply leaves_bind; [done|]. intros r. apply leaves_ret. Qed.

(** ** The registry *)
Lemma expect_ctx_inv (f : Ctx → option Ctx) (s : Mgr) a s' :
  Manager.expect_ctx f s = Ret (a, s') →
  ∃ c', f (Manager.link_ctx s) = Some c'
    ∧ s' = Manager.mkManager c' (Manager.handles s) (Manager.adds s) (Manager.subs s).
Proof.
  unfold Manager.expect_ctx, Manager.ctx. erewrite st_bind_run by reflexivity. unfold Manager.expect.
  destruct (f _) as [c'|]; [|done]. erewrite st_bind_run by reflexivity. intros [= _ <-]. by exists c'.
Qed.

Lemma register_leaves raw fl : leaves id (Rtld.register_loaded (LErr := LErr) raw_link_map from_core scope_free raw fl).
Proof.
  unfold Rtld.register_loaded. destruct (raw_link_map raw); [|apply leaves_ret].
  apply leaves_bind; [|intros; apply leaves_ret]. apply leaves_borrow. intros s hs ls [] s' [Hh Ho] H.
  unfold Manager.register_loaded in H. destruct (negb (scope_free raw)); [done|]. destruct (negb (is_elf _)); [done|].
  unfold Manager.ctx at 1 in H. erewrite st_bind_run in H by reflexivity.
  set (nm := default _ _) in H. set (deps := instance_id <$> _) in H.
  apply st_bind_Ret_inv in H as (l & s1 & H1 & H).
  unfold Manager.expect_lease, Manager.ctx in H1. erewrite st_bind_run in H1 by reflexivity. unfold Manager.expect in H1.
  destruct (ctx_insert _ _ _ _ _) as [[l1 c1]|] eqn:Hi; [|done]. erewrite !st_bind_run in H1 by reflexivity.
  injection H1 as -> <-. destruct (lease_insert _ _ _ _ _ _ _ Hi) as [Ho1 Hm1].
  unfold Manager.add_adds, uadd, u_arith in H. rewrite release_build in H.
  apply st_bind_Ret_inv in H as ([] & s2 & H2 & H).
  apply bind_Ret_inv in H2 as (v & _ & [= <-]). cbn [Manager.link_ctx Manager.handles Manager.subs] in H.
  set (s2 := Manager.mkManager c1 _ v _) in H.
  destruct (RtldProps.add_alias_run (lease_id l) (mod_file_name (from_core raw)) s2 Hm1) as (c2 & H3 & Hm2 & _ & _ & Ho2).
  erewrite st_bind_run in H by exact H3. apply st_bind_Ret_inv in H as ([] & s3 & H4 & H).
  apply expect_ctx_inv in H as (c4 & Hpin & ->).
  assert (Manager.handles s3 = Manager.handles s
    ∧ outstanding (LinkCtxLaws := LL) (Manager.link_ctx s3) = outstanding (LinkCtxLaws := LL) c2) as [Hh3 Ho3].
  { destruct (_ || _); [|by injection H4 as <-]. apply expect_ctx_inv in H4 as (c3 & Hp & ->). split; [done|].
    destruct (law_promote c2 (lease_id l)) as (c3' & Hp' & _ & Ho3 & _); [by rewrite Hm2|].
    cbn [Manager.link_ctx] in *. rewrite Hp in Hp'. by injection Hp' as <-. }
  assert (outstanding (LinkCtxLaws := LL) (Manager.link_ctx s3) ≡ₚ l :: ls) as Hls
    by (rewrite Ho3, Ho2; cbn [Manager.link_ctx s2]; rewrite Ho1; by f_equiv).
  destruct (law_pin (Manager.link_ctx s3) l) as (c4' & Hpin' & Ho4 & _); [rewrite Hls; left|].
  rewrite Hpin in Hpin'. injection Hpin' as <-. split; cbn [Manager.handles Manager.link_ctx]; [by rewrite Hh3|].
  apply (Permutation_cons_inv (a := l)). by rewrite Ho4, Hls.
Qed.

(** The state that startup publishes only costs names. *)
Lemma startup_state_leaves link_maps root rtld s hs ls r s' :
  is_Some (ctx_meta (Lease := Lease) (Mod := Mod) (Manager.link_ctx s) root) → mholds (LL := LL) s hs ls →
  Rtld.startup_state (LErr := LErr) link_error link_maps root rtld s = Ret (r, s') → mholds (LL := LL) s' hs ls.
Proof.
  intros Hm [Hh Ho]. unfold Rtld.startup_state. unfold Manager.ctx at 1. erewrite st_bind_run by reflexivity.
  destruct (law_promote _ root Hm) as (c1 & Hp & _ & Ho1 & _). rewrite Hp.
  erewrite st_bind_run by reflexivity. set (s1 := Manager.mkManager _ _ _ _).
  destruct (RtldProps.register_aliases_run (bytes_of_string <$> ["libc.so.6"; "ld-linux-x86-64.so.2"]%string) s1)
    as (c2 & Hal & _ & _ & _ & Ho2).
  erewrite st_bind_run by exact Hal. erewrite st_bind_run by reflexivity.
  set (s2 := Manager.mkManager c2 _ _ _).
  assert (mholds (LL := LL) s2 hs ls) as Hs2 by (split; [done|]; cbn [Manager.link_ctx s2]; by rewrite Ho2; cbn [Manager.link_ctx s1]; rewrite Ho1).
  destruct (ctx_load_group _ _) as [scope|]; [|by intros [= _ <-]].
  destruct (head scope ≫= _) as [mn|]; [|by intros [= _ <-]].
  intros (x & s3 & [_ ->]%st_lift_inv & [= _ <-])%st_bind_Ret_inv. exact Hs2.
Qed.

(** ** Linking the root *)
Hypothesis elf_groups : ManagerProps.elf_groups (Ctx := Ctx) (Id := Id) (Lease := Lease) (Mod := Mod).
(** [__libc_early_init] and the finalizers of a dropped group close what they open. *)
Hypothesis init_leaves : ∀ f, leaves id (init f).
Hypothesis drop_group_leaves : ∀ u, leaves id (drop_group u).

Lemma before_constructors_leaves state startup :
  leaves id (before_constructors (Id := Id) (LErr := LErr) sy leak init state startup).
Proof.
  unfold before_constructors. apply leaves_bind; [apply leaves_process|]. intros a.
  apply leaves_bind; [apply leaves_process|]. intros _. apply leaves_bind; [apply leaves_process|]. intros _.
  apply leaves_bind; [|intros [f|]; (apply leaves_bind; [apply init_leaves || apply leaves_ret|intros; apply leaves_ret])].
  intros w hs ls f w' Hh H. rewrite RtldProps.find_loaded_symbol_run in H by apply Hh. by injection H as _ <-.
Qed.

Lemma before_root_leaves state rtld root w hs ls r w' :
  is_Some (ctx_meta (Lease := Lease) (Mod := Mod) (Manager.link_ctx (manager w)) root) → holds (LL := LL) w hs ls →
  Rtld.before_root (LErr := LErr) link_error (λ p, DebugList.maps (p_maps p)) rtld (before_constructors sy leak init state) root w
    = Ret (r, w') → holds (LL := LL) w' hs ls.
Proof.
  intros Hm (Hb & Hh & Ho) H. unfold Rtld.before_root in H. rewrite st_bind_get in H.
  apply try_res_inv in H as [(e & H & _)|(st & w1 & H & Hk)].
  - apply borrow_inv in H as (s1 & H & ->); [|done].
    destruct (startup_state_leaves _ _ _ _ _ _ _ _ Hm (conj Hh Ho) H). by split_and!.
  - apply borrow_inv in H as (s1 & H & ->); [|done].
    destruct (startup_state_leaves _ _ _ _ _ _ _ _ Hm (conj Hh Ho) H). eapply before_constructors_leaves; [|exact Hk]. by split_and!.
Qed.

(** The outcome of a run. *)
Lemma commit_root_leaves flags state rtld prepared w hs ls x w' :
  holds (LL := LL) w hs ls →
  Rtld.commit_root flags (Rtld.before_root (LErr := LErr) link_error (λ p, DebugList.maps (p_maps p)) rtld
    (before_constructors sy leak init state)) prepared w = Ret (x, w') → opens x.2 w' hs ls.
Proof.
  intros Hh H. unfold Rtld.commit_root, convert_err in H.
  destruct (lease_relocate (on_relocation flags) prepared w hs ls Hh) as (r1 & w1 & H1 & Hh1).
  rewrite st_bind_assoc in H. erewrite st_bind_run in H by exact H1. rewrite st_bind_ret in H.
  destruct r1 as [rel|e]; cbn [loader_err] in H; [|by injection H as <- <-].
  destruct (lease_publish rel (Manager.link_ctx (manager w1))) as (r2 & c2 & H2 & Hout).
  rewrite st_bind_assoc in H.
  erewrite st_bind_run in H by (apply OpenProps.borrow_run; [apply Hh1|apply OpenProps.on_context_run]).
  rewrite st_bind_ret, H2 in H. cbn [fst snd] in H. set (w2 := mkWorld _ false _ _) in H.
  assert (holds (LL := LL) w2 hs ((match r2 with Ok p => published_leases p | Err _ => [] end) ++ ls)) as Hh2.
  { split; [done|]. split; [apply Hh1|]. simpl. rewrite Hout. by f_equiv; apply Hh1. }
  destruct r2 as [pub|e]; cbn [loader_err] in H; [|by injection H as <- <-].
  apply st_bind_Ret_inv in H as (r3 & w3 & H3 & H).
  assert (holds (LL := LL) w3 hs (published_leases pub ++ ls)) as Hh3
    by (eapply before_root_leaves; [|exact Hh2|exact H3]; by eapply lease_root).
  destruct r3 as [[]|e].
  - destruct (initialized_leases elf_groups flags pub w3 hs ls Hh3) as (r4 & w4 & H4 & Ho4).
    apply st_bind_Ret_inv in H as (i & w5 & Hi & H). erewrite st_bind_run in H4 by exact Hi.
    destruct i as [ld|fl]; apply st_bind_Ret_inv in H as (o & w6 & H6 & [= <- <-]);
      erewrite st_bind_run in H4 by exact H6; by injection H4 as <- <-.
  - destruct (holds_context (rollback pub) w3 hs _ ls Hh3) as (e' & w4 & H4 & Hh4); [intros c; apply lease_rollback|].
    erewrite st_bind_run in H by exact H4. by injection H as <- <-.
Qed.

Lemma open_root_leaves envp request key raw flags state rtld w hs ls x w' :
  holds (LL := LL) w hs ls →
  Rtld.open_mapped_root envp request key raw flags (Rtld.before_root (LErr := LErr) link_error
    (λ p, DebugList.maps (p_maps p)) rtld (before_constructors sy leak init state)) w = Ret (x, w') → opens x.2 w' hs ls.
Proof.
  intros Hh H. unfold Rtld.open_mapped_root in H.
  destruct (OpenProps.paths_run envp w) as (paths & Hp). erewrite st_bind_run in H by exact Hp.
  set (w1 := mkWorld _ _ _ _) in H. assert (holds (LL := LL) w1 hs ls) as Hh1 by exact Hh.
  destruct (prepare_leases elf_groups request (env_flags envp flags) paths None (Mapped key raw) (manager w1) hs ls)
    as (r & s2 & H2 & Hr); [done|split; apply Hh1|].
  erewrite st_bind_run in H by (apply OpenProps.borrow_run; [apply Hh1|exact H2]).
  destruct r as [[lib|prepared]|e].
  - injection H as <- <-. destruct Hr as (l & Hl & Hh2 & Ho2). exists l. split; [done|]. by split_and!.
  - destruct Hr as [Hh2 Ho2]. eapply commit_root_leaves; [|exact H]. by split_and!.
  - injection H as <- <-. destruct Hr as [Hh2 Ho2]. by split_and!.
Qed.

Lemma drop_opened_leaves o l w hs ls a w' :
  opened_with o l → holds (LL := LL) w hs (l :: ls) →
  Rtld.drop_opened drop_group o w = Ret (a, w') → holds (LL := LL) w' hs ls.
Proof.
  intros (m & g & -> & _) (Hb & Hh & Ho) H. unfold Rtld.drop_opened in H.
  apply st_bind_Ret_inv in H as (u & w1 & H1 & H). apply borrow_inv in H1 as (s1 & H1 & ->); [|done].
  eapply drop_group_leaves; [|exact H]. cbn [Manager.into_lease Manager.lease] in H1.
  destruct (Manager.release_run release_build l (manager w)) as (u' & c' & v & Hr & Hp); [rewrite Ho; left|].
  rewrite Hr in H1. injection H1 as <- <-. split; [done|]. split; [done|]. cbn [id manager Manager.link_ctx].
  apply (Permutation_cons_inv (a := l)). by rewrite Hp.
Qed.

Lemma link_root_leaves envp request root state rtld :
  leaves (Rtld.world (Id := Id)) (link_startup_root sy link_error drop_group leak init envp request root state rtld).
Proof.
  unfold link_startup_root. apply leaves_bind; [apply leaves_at|]. intros _ s hs ls a s' Hh H.
  unfold Rtld.link_mapped_root in H. apply st_bind_Ret_inv in H as ([i r] & s1 & H1 & H).
  unfold Rtld.in_world in H1. apply bind_Ret_inv in H1 as ([x w1] & H1 & [= -> <-]).
  pose proof (open_root_leaves _ _ _ _ _ _ _ _ _ _ _ _ Hh H1) as Hop. cbn [snd fst] in Hop, H.
  destruct r as [o|e]; [|by injection H as _ <-]. destruct Hop as (l & Hl & Hh1).
  erewrite st_bind_run in H by reflexivity. apply st_bind_Ret_inv in H as ([] & s2 & H2 & [= _ <-]).
  unfold Rtld.in_world in H2. apply bind_Ret_inv in H2 as ([[] w2] & H2 & [= <-]). by eapply drop_opened_leaves.
Qed.

(** ** The whole run *)
Lemma load_object_leaves nm o : leaves id (load_bootstrap_object (Id := Id) nm o).
Proof.
  unfold load_bootstrap_object. destruct (_ || _); [apply leaves_ret|].
  apply leaves_bind; [apply leaves_process|]. intros phdrs. apply leaves_convert.
  intros w hs ls r w' Hh H. by eapply lease_load_mapped.
Qed.

Lemma prepare_kernel_leaves envp state rtld :
  leaves (Rtld.world (Id := Id)) (prepare_kernel_mapped_main sy link_error drop_group leak init envp state rtld).
Proof.
  unfold prepare_kernel_mapped_main. apply leaves_try; [apply leaves_world, load_object_leaves|]. intros raw.
  apply leaves_try; [apply link_root_leaves|]. intros _. apply leaves_ret.
Qed.
Lemma prepare_direct_leaves fuel envp state rtld :
  leaves (Rtld.world (Id := Id)) (prepare_direct_exec fuel sy link_error drop_group leak init envp state rtld).
Proof.
  unfold prepare_direct_exec. apply leaves_bind; [apply leaves_at|]. intros bytes.
  destruct (from_utf8 bytes) as [str|]; [|apply leaves_ret].
  apply leaves_try.
  { apply leaves_world, leaves_convert. intros w hs ls r w' Hh H. by eapply lease_load_exec. }
  intros exec. destruct (default _ _) as [ph pn]. apply leaves_bind; [apply leaves_at|]. intros _. destruct exec as [raw|st].
  - apply leaves_try; [apply link_root_leaves|]. intros _. apply leaves_ret.
  - apply leaves_bind; [apply leaves_at|]. intros _. apply leaves_ret.
Qed.

Lemma run_leaves fuel envp input :
  leaves (Rtld.world (Id := Id))
    (Startup.run fuel sy link_error raw_link_map from_core scope_free drop_group leak init envp input).
Proof.
  unfold Startup.run. cbv zeta. apply leaves_bind; [apply leaves_at|]. intros _. apply leaves_bind; [apply leaves_at|]. intros _.
  apply leaves_try.
  { destruct (direct input).
    - apply leaves_try; [apply leaves_at|]. intros d. apply leaves_bind; [apply leaves_at|]. intros ps.
      apply leaves_bind; [apply leaves_at|]. intros st. apply leaves_ret.
    - apply leaves_bind; [apply leaves_at|]. intros st. apply leaves_ret. }
  intros state. apply leaves_bind; [apply leaves_at|]. intros _.
  apply leaves_bind; [by intros s hs ls a s' Hh [= _ <-]|]. intros _.
  apply leaves_try; [apply leaves_at|]. intros _. apply leaves_bind; [|intros; apply leaves_ret].
  apply leaves_try; [apply leaves_world, load_object_leaves|]. intros raw.
  apply leaves_try; [apply leaves_world, register_leaves|]. intros lm.
  destruct (direct input); [apply prepare_direct_leaves|apply prepare_kernel_leaves].
Qed.

Context (relocate_relative : Z → list SelfReloc.ElfRel → st mem bool) (relocate_relr : Z → list Z → st mem bool).
Context (fmt_loader : LErr → string).

(** One run of startup leaves no handle and no lease behind. *)
Lemma startup_leaves fuel envp stack ehdr dyn :
  leaves (Rtld.world (Id := Id)) (rtld_bootstrap fuel sy link_error raw_link_map from_core scope_free drop_group leak init
    relocate_relative relocate_relr fmt_loader envp stack ehdr dyn).
Proof.
  unfold rtld_bootstrap. apply leaves_try; [apply leaves_at|]. intros input.
  apply leaves_bind; [apply leaves_at|]. intros [e|]; [apply leaves_ret|].
  apply leaves_try; [apply run_leaves|]. intros [e|err]; [apply leaves_ret|]. unfold Cli.exit, exit.
  repeat (apply leaves_bind; [apply leaves_at|]; intros _). apply leaves_ret.
Qed.

Lemma holds_inv (w : W) : holds (LL := LL) w ∅ [] → registry_inv (LL := LL) (λ _, O) [] w [].
Proof.
  intros (Hb & Hh & Ho). split; [done|]. unfold Manager.owns, Manager.all_leases. rewrite Hh, Ho. split.
  - simpl. by rewrite map_to_list_empty.
  - intros h. unfold Manager.count_of. by rewrite lookup_empty.
Qed.

Context (fmt : LErr → string) (env : option (list (list Z))) (drop_unloaded : list Id → code W tls_error unit).
Hypothesis maps_not_null : ∀ m : Mod, is_elf m = true → mod_link_map m ≠ 0.
Hypothesis drop_safe : ∀ u, gives (LL := LL) (λ _, O) [] (λ _ own', own' = []) (drop_unloaded u) [].

(** C3. A program that startup has entered, by the kernel or directly, may use
    libraries on any number of threads: whatever they open, look up and close,
    in every interleaving and with either lock, no thread gets stuck or
    panics, every close of a held handle returns 0, and in the end each handle
    counts exactly the opens that were not closed, and every lease in the registry
    is one of a handle: startup itself left neither handles nor leases (with
    constructors that leave none of their own). *)
Theorem startup_then_threads {L} {RLk : ReentrantLock L} fuel envp stack ehdr dyn s e s' progs
    (c : config W tls_error (list Z * list Z) L) :
  holds (LL := LL) (Rtld.world s) ∅ [] →
  rtld_bootstrap fuel sy link_error raw_link_map from_core scope_free drop_group leak init
    relocate_relative relocate_relr fmt_loader envp stack ehdr dyn s = Ret (Ok e, s') →
  rtc step (start (Rtld.world s') (programs fmt env drop_unloaded progs)) c →
  (∀ t code lc, threads c !! t = Some (code, lc) → can_go (rl_guards (lock c) t) code (shared c) lc)
  ∧ (∀ t held closes lc, threads c !! t = Some (Done (held, closes), lc) → Forall (λ v, v = 0) closes)
  ∧ (free c → (∀ t code lc, threads c !! t = Some (code, lc) → ∃ r, code = Done r) →
     Manager.owns (manager (shared c)) []
     ∧ ∀ h, Manager.count_of (Manager.handles (manager (shared c))) h = occurrences h (held_by (threads c))).
Proof.
  intros Hh Hrun Hsteps.
  assert (registry_inv (LL := LL) (λ _, O) [] (Rtld.world s') []) as Hinv
    by (eapply holds_inv, startup_leaves; [exact Hh|exact Hrun]).
  exact (sessions_run fmt env drop_unloaded (λ _, O) [] release_build elf_groups maps_not_null drop_safe progs _ c Hinv Hsteps).
Qed.
End handover.

(** ** An instance

    The machine of Boot.v, whose linker takes one lease per load. *)
Import Toy.
#[local] Existing Instances w_source w_build w_kernel RtldProps.toy_alias_laws boot_fds boot_linker boot_loader.
Local Abbreviation bprocess := (process ToyKernel (list Z)).
Local Abbreviation bworld := (World toy (nat * nat) nat bprocess).

#[local] Program Instance boot_leases : LinkerLeases toy_laws boot_linker := {|
  published_leases l := [l]; failed_leases l := [l] |}.
Next Obligation.
  intros paths caller c path. eexists _, _. split; [reflexivity|]. split; [done|].
  intros i [= Hi]. by refine (law_module_id c path i _).
Qed.
Next Obligation. done. Qed.
Next Obligation. done. Qed.
Next Obligation. intros plan p w hs ls Hh. by eexists _, _. Qed.
Next Obligation. intros p c. by eexists _, _. Qed.
Next Obligation. intros p c ls. apply give_back_leases. Qed.
Next Obligation.
  intros p w hs ls Hh. eexists _, _. split; [reflexivity|]. case_bool_decide as Hg; [|done].
  destruct Hg as (H1 & H2 & H3 & H4). simpl. split; [done|]. split; [done|]. split; [by apply Forall_singleton|].
  split; [apply NoDup_singleton|]. by split.
Qed.
Next Obligation. intros f c ls. apply give_back_leases. Qed.

#[local] Program Instance boot_startup_leases : StartupLeases (RL := boot_loader) (LL := toy_laws).
Next Obligation. by intros fl nm bias phdrs e w hs ls r w' Hh [= _ <-]. Qed.
Next Obligation. by intros fl path w hs ls r w' Hh [= _ <-]. Qed.
Next Obligation.
  intros c nm m fl deps l c' [= <- <-]. split; [done|]. cbn. rewrite lookup_app_r, Nat.sub_diag by done. by eexists.
Qed.
Next Obligation.
  intros p c pub c' [= <- <-]. cbn. rewrite lookup_app_r, Nat.sub_diag by done. by eexists.
Qed.

(** The state after the run of Boot.v, and two threads of the program. *)
Definition entered_state : Rtld.rt (Ctx := toy) (Id := nat) (Lease := nat * nat) (Mod := nat) (Ext := bprocess) :=
  match boot_run boot_mem with Ret (_, s) => s | _ => boot_state boot_mem end.
Lemma entered_run : boot_run boot_mem = Ret (Ok 77, entered_state).
Proof.
  unfold entered_state. assert (match boot_run boot_mem with Ret (r, _) => r = Ok 77 | _ => False end) as H by by vm_compute.
  by destruct (boot_run boot_mem) as [[r s]| | |]; subst.
Qed.

Definition boot_drop (u : list nat) : code bworld tls_error unit :=
  locked (registry_borrow (Manager.global_find [7]));; mret tt.
Definition boot_progs : gmap Z (list command) :=
  {[ 1 := [COpen [1] 2 0; CClose 0]; 2 := [COpen [0] 2 0; COpen [0] 2 0; CClose 1] ]}.
Definition boot_start : config bworld tls_error (list Z * list Z) lock_spec :=
  start (Rtld.world entered_state) (programs (LErr := Z) (Id := nat) (λ _, EmptyString) None boot_drop boot_progs).
Definition boot_turns : list Z := [1; 2] ++ replicate 13 1 ++ replicate 20 2.
Definition boot_done : config bworld tls_error (list Z * list Z) lock_spec := exec_to boot_turns boot_start.

Lemma boot_drop_safe u : gives (LL := toy_laws) (λ _, O) [] (λ _ own', own' = []) (boot_drop u) [].
Proof.
  eapply gives_bind; [apply gives_read; intros s; by eexists|]. intros a own' ->. by apply gives_ret.
Qed.

Lemma idle_leaves : leaves (LL := toy_laws) id (λ w : bworld, Ret (tt, w)).
Proof. by intros w hs ls [] w' Hh [= <-]. Qed.

Lemma boot_reached : rtc step boot_start boot_done.
Proof. apply (exec_to_sound boot_turns boot_start). by vm_compute. Qed.
Lemma boot_threads : threads boot_done = {[ 1 := (Done ([], [0]), None); 2 := (Done ([4096], [0]), None) ]}.
Proof. by vm_compute. Qed.
Lemma boot_free : free boot_done.
Proof. intros t. by vm_compute. Qed.
Lemma boot_finished t code lc : threads boot_done !! t = Some (code, lc) → ∃ r, code = Done r.
Proof.
  rewrite boot_threads. intros [[_ [= <- _]]|[_ H]]%lookup_insert_Some; [eauto|].
  apply lookup_singleton_Some in H as [_ [= <- _]]. eauto.
Qed.
Lemma boot_accounts : holds (LL := toy_laws) (Rtld.world (boot_state boot_mem)) ∅ [].
Proof. split; [reflexivity|]. by split. Qed.

(** What the program does with its libraries, from any state that startup
    leaves behind. *)
Lemma boot_trace :
  ∃ s' (c : config bworld tls_error (list Z * list Z) lock_spec),
    boot_run boot_mem = Ret (Ok 77, s')
    ∧ rtc step (start (Rtld.world s') (programs (LErr := Z) (Id := nat) (λ _, EmptyString) None boot_drop boot_progs)) c
    ∧ threads c = {[ 1 := (Done ([], [0]), None); 2 := (Done ([4096], [0]), None) ]}
    ∧ free c ∧ ∀ t code lc, threads c !! t = Some (code, lc) → ∃ r, code = Done r.
Proof.
  exists entered_state, boot_done. split; [exact entered_run|]. split; [exact boot_reached|].
  split; [exact boot_threads|]. split; [exact boot_free|exact boot_finished].
Qed.

(** Conversion unfolds the run of Boot.v before the bootstrap that it applies. *)
#[local] Strategy expand [boot_run].

Lemma startup_then_threads_witness :
  ∃ s' (c : config bworld tls_error (list Z * list Z) lock_spec),
    boot_run boot_mem = Ret (Ok 77, s')
    ∧ threads c = {[ 1 := (Done ([], [0]), None); 2 := (Done ([4096], [0]), None) ]}
    ∧ (∀ t held closes lc, threads c !! t = Some (Done (held, closes), lc) → Forall (λ v, v = 0) closes)
    ∧ ∀ h, Manager.count_of (Manager.handles (manager (shared c))) h = Sessions.occurrences h (held_by (threads c)).
Proof.
  destruct boot_trace as (s' & c & Hrun & Hsteps & Ht & Hfree & Hdone). exists s', c. split; [exact Hrun|]. split; [exact Ht|].
  unfold boot_run in Hrun.
  destruct (startup_then_threads (BU := w_build) (LK := boot_linker) (RL := boot_loader) (LL := toy_laws)
    w_symbols 8 Some boot_module (λ _, true) (λ _ w, Ret (tt, w)) w_leak w_init eq_refl toy_elf
    (λ f, idle_leaves) (λ u, idle_leaves) (λ _ _ m, Ret (false, m)) (λ _ _ m, Ret (false, m)) (λ _, "loader"%string)
    (λ _, EmptyString) None boot_drop toy_maps boot_drop_safe
    9 None 0x20000 0x13000 0x12000 (boot_state boot_mem) 77 s' boot_progs c boot_accounts Hrun Hsteps) as (_ & H1 & H2).
  split; [exact H1|]. destruct (H2 Hfree Hdone) as [_ H3]. exact H3.
Defined.
End HandoverProps.
