(* ===== verification/Entry.v ===== *)
(** * Assembly entry points (rtld/impl/src/arch/x86_64/entry.rs, the naked
    functions of src/api/dlopen.rs and dlsym.rs, src/dlopen/run.rs)

    The few instructions at the entry of the linker and of dlopen and dlsym,
    as programs of a small machine: registers, memory, and calls into the
    modelled functions by the C calling convention, which keeps the
    callee-saved registers and faults on a misaligned stack. *)

From stdpp Require Import gmap.
From S2P Require Import Prelude LinkMap Errors Machine Layout Tls Resolver Manager Open Stack SelfReloc Glibc Cli Rtld Startup.

Module Entry.
Import Machine.

(** ** Instructions over the registers [R] *)
Inductive instr (R : Type) :=
  | Mov (src dst : R)
  | Lea (addr : Z) (dst : R)          (* the address of a symbol *)
  | And (imm : Z) (dst : R)
  | Load (base dst : R)
  | Call.
Arguments Mov {R} src dst.
Arguments Lea {R} addr dst.
Arguments And {R} imm dst.
Arguments Load {R} base dst.
Arguments Call {R}.
Inductive jump (R : Type) := Jmp (symbol : Z) | JmpReg (r : R).
Arguments Jmp {R} symbol.
Arguments JmpReg {R} r.
Record routine (R : Type) := mkRoutine { body : list (instr R); exit : jump R }.
Arguments mkRoutine {R} body exit.
Arguments body {R} r.
Arguments exit {R} r.

(** ** x86-64 *)
Inductive x86 := RAX | RBX | RDI | RSI | RDX | RSP.
#[export] Instance x86_eq : EqDecision x86.
Proof. solve_decision. Defined.

Section machine.
Context {R : Type} `{EqDecision R} {T : Type}.
(** Memory inside the state, the registers of the convention, what a call
    leaves in the others, and where calls go. *)
Context (on_mem : ∀ A, st mem A → st T A).
Context (sp result_reg : R) (args : R * R * R) (saved : R → bool) (scratch : R → Z) (return_address : Z).
Context (callee : Z → Z → Z → st T (result Z Z)).

Definition set (r : R) (v : Z) (regs : R → Z) : R → Z := λ x, if decide (x = r) then v else regs x.

(** [Err status] is the exit of the process in the callee. *)
Definition step (i : instr R) (regs : R → Z) : st T (result Z (R → Z)) :=
  match i with
  | Mov src dst => mret (Ok (set dst (regs src) regs))
  | Lea addr dst => mret (Ok (set dst addr regs))
  | And imm dst => mret (Ok (set dst (Z.land (regs dst) imm) regs))
  | Load base dst => v ← on_mem _ (load64 (regs base)); mret (Ok (set dst v regs))
  | Call =>
      if negb (regs sp mod 16 =? 0) then st_fail Fault
      else
        on_mem _ (store64 (wrapping_sub (regs sp) 8) return_address);;
        v ←! callee (regs args.1.1) (regs args.1.2) (regs args.2);
        mret (Ok (λ x, if decide (x = result_reg) then v else if saved x then regs x else scratch x))
  end.
Fixpoint steps (l : list (instr R)) (regs : R → Z) : st T (result Z (R → Z)) :=
  match l with
  | [] => mret (Ok regs)
  | i :: l => regs ←! step i regs; steps l regs
  end.
(** Where control goes, with which registers. *)
Definition exec (code : routine R) (regs : R → Z) : st T (result Z (Z * (R → Z))) :=
  regs ←! steps (body code) regs;
  mret (Ok (match exit code with Jmp symbol => symbol | JmpReg r => regs r end, regs)).
End machine.

Definition x86_saved (r : x86) : bool := match r with RBX | RSP => true | _ => false end.

(** [_start]: [__ehdr_start], [_DYNAMIC] and [rtld_fini] are addresses. *)
Definition _start (ehdr_start dynamic rtld_fini : Z) : routine x86 :=
  mkRoutine
    [Mov RSP RBX; Mov RBX RDI; Lea ehdr_start RSI; Lea dynamic RDX; And (not_usize 15) RSP; Call;
     Mov RBX RSP; Lea rtld_fini RDX]
    (JmpReg RAX).

(** ** dlopen and dlsym

    Each passes the return address as a third argument and jumps on. *)
Definition dlopen_x86_64 (dlopen_with_caller : Z) : routine x86 := mkRoutine [Load RSP RDX] (Jmp dlopen_with_caller).
Definition dlsym_x86_64 (dlsym_with_caller : Z) : routine x86 := mkRoutine [Load RSP RDX] (Jmp dlsym_with_caller).

Inductive aarch64 := X0 | X1 | X2 | X30.
#[export] Instance aarch64_eq : EqDecision aarch64.
Proof. solve_decision. Defined.
Definition dlopen_aarch64 (dlopen_with_caller : Z) : routine aarch64 := mkRoutine [Mov X30 X2] (Jmp dlopen_with_caller).
Definition dlsym_aarch64 (dlsym_with_caller : Z) : routine aarch64 := mkRoutine [Mov X30 X2] (Jmp dlsym_with_caller).

Inductive riscv64 := A0 | A1 | A2 | RA.
#[export] Instance riscv64_eq : EqDecision riscv64.
Proof. solve_decision. Defined.
Definition dlopen_riscv64 (dlopen_with_caller : Z) : routine riscv64 := mkRoutine [Mov RA A2] (Jmp dlopen_with_caller).
Definition dlsym_riscv64 (dlsym_with_caller : Z) : routine riscv64 := mkRoutine [Mov RA A2] (Jmp dlsym_with_caller).

(** [caller_module_address]: an address in the code of the caller, which is
    inlined: of the next instruction, or of the instruction itself. *)
Definition caller_module_address `{Build} (pc size : Z) : Z :=
  match target_arch with X86_64 => wrapping_add pc size | Aarch64 | Riscv64 => pc end.
End Entry.

Module EntryProps.
Import Machine Entry.

Section machine.
Context {T : Type} (on_mem : ∀ A, st mem A → st T A) (get_mem : T → mem) (put_mem : mem → T → T).
Hypothesis on_mem_run : ∀ A (f : st mem A) s a m,
  f (get_mem s) = Ret (a, m) → on_mem A f s = Ret (a, put_mem m s).
Context (scratch : x86 → Z) (ret : Z) (callee : Z → Z → Z → st T (result Z Z)).
Local Abbreviation run86 := (exec on_mem RSP RAX (RDI, RSI, RDX) x86_saved scratch ret callee).

Lemma steps_cons i l regs s regs' s' :
  step on_mem RSP RAX (RDI, RSI, RDX) x86_saved scratch ret callee i regs s = Ret (Ok regs', s') →
  steps on_mem RSP RAX (RDI, RSI, RDX) x86_saved scratch ret callee (i :: l) regs s
  = steps on_mem RSP RAX (RDI, RSI, RDX) x86_saved scratch ret callee l regs' s'.
Proof. intros H. by apply try_res_ok. Qed.

(** The stack pointer at the call. *)
Definition aligned (stack : Z) : Z := stack - stack mod 16.

(** The entry calls the linker with the kernel's stack and goes where it says. *)
Lemma start_run ehdr dyn fini regs s v s' :
  24 ≤ regs RSP < 2 ^ 64 → mapped (get_mem s) (aligned (regs RSP) - 8) 8 →
  callee (regs RSP) ehdr dyn (put_mem (write (get_mem s) (aligned (regs RSP) - 8) (le_encode 8 ret)) s) = Ret (v, s') →
  ∃ regs', run86 (_start ehdr dyn fini) regs s = Ret (match v with Ok entry => Ok (entry, regs') | Err e => Err e end, s')
    ∧ regs' RSP = regs RSP ∧ regs' RDX = fini ∧ regs' RBX = regs RSP.
Proof.
  intros Hsp Hm Hc.
  assert (Z.land (regs RSP) (not_usize 15) = aligned (regs RSP)) as Hal.
  { unfold aligned. change 15 with (2 ^ 4 - 1). rewrite land_not_mask; [done|lia|]. unfold in_usize. lia. }
  assert (aligned (regs RSP) mod 16 = 0) as Hmod.
  { unfold aligned. rewrite Zminus_mod_idemp_r, Z.sub_diag. done. }
  pose proof (Z.mod_pos_bound (regs RSP) 16 ltac:(lia)).
  assert (wrapping_sub (aligned (regs RSP)) 8 = aligned (regs RSP) - 8) as Hw.
  { apply wrap_small. unfold in_usize, aligned. lia. }
  pose proof (store64_run (get_mem s) (aligned (regs RSP) - 8) ret Hm) as Hst. apply on_mem_run in Hst.
  assert (∃ regs', steps on_mem RSP RAX (RDI, RSI, RDX) x86_saved scratch ret callee (body (_start ehdr dyn fini)) regs s
    = Ret (match v with Ok entry => Ok regs' | Err e => Err e end, s')
    ∧ (∀ e, v = Ok e → regs' RAX = e) ∧ regs' RSP = regs RSP ∧ regs' RDX = fini ∧ regs' RBX = regs RSP) as (regs' & Hr & Hrax & Hregs).
  { cbn [body _start]. do 5 (erewrite steps_cons by reflexivity).
    match goal with |- context [steps _ _ _ _ _ _ _ _ (Call :: _) ?r1] => set (r5 := r1) end.
    assert (r5 RSP = aligned (regs RSP)) as H5 by exact Hal.
    assert (step on_mem RSP RAX (RDI, RSI, RDX) x86_saved scratch ret callee Call r5 s
      = Ret (match v with Ok e => Ok (λ x, if decide (x = RAX) then e else if x86_saved x then r5 x else scratch x) | Err e => Err e end, s')) as Hcall.
    { unfold step. rewrite H5, Hmod. change (negb (0 =? 0)) with false. cbv iota. rewrite Hw. erewrite st_bind_run by exact Hst.
      erewrite try_res_step by exact Hc. by destruct v. }
    destruct v as [e|status].
    - erewrite steps_cons by exact Hcall. do 2 (erewrite steps_cons by reflexivity).
      eexists. split; [reflexivity|]. split; [|done]. by intros e' [= <-].
    - exists (λ x, if decide (x = RDX) then fini else regs RSP). split; [by apply try_res_err|]. done. }
  exists regs'. split; [|exact Hregs]. unfold exec. erewrite try_res_step by exact Hr. cbn [exit _start].
  destruct v as [e|]; [by rewrite (Hrax e)|done].
Qed.

(** The entry of the linker: the kernel enters at [_start] with any stack of
    at least 24 bytes below the limit; the linker is called with the kernel's
    stack pointer and its own header and dynamic table, on an aligned stack;
    then control goes to the address that the linker returned, with the stack
    pointer that the kernel gave and the finalizer in [rdx], as the ABI asks;
    an exit of the linker is the exit of the process. *)
Theorem start_enters ehdr dyn fini regs s v s' :
  24 ≤ regs RSP < 2 ^ 64 → mapped (get_mem s) (aligned (regs RSP) - 8) 8 →
  callee (regs RSP) ehdr dyn (put_mem (write (get_mem s) (aligned (regs RSP) - 8) (le_encode 8 ret)) s) = Ret (v, s') →
  aligned (regs RSP) mod 16 = 0 ∧ regs RSP - 16 < aligned (regs RSP) ≤ regs RSP
  ∧ ∃ regs', run86 (_start ehdr dyn fini) regs s = Ret (match v with Ok entry => Ok (entry, regs') | Err e => Err e end, s')
    ∧ regs' RSP = regs RSP ∧ regs' RDX = fini.
Proof.
  intros Hsp Hm Hc. split; [|split].
  - unfold aligned. by rewrite Zminus_mod_idemp_r, Z.sub_diag.
  - unfold aligned. pose proof (Z.mod_pos_bound (regs RSP) 16 ltac:(lia)). lia.
  - destruct (start_run ehdr dyn fini regs s v s' Hsp Hm Hc) as (regs' & H1 & H2 & H3 & _). by exists regs'.
Qed.

(** The functions that dlopen and dlsym jump to. *)
Context (no_call : Z → Z → Z → st T (result Z Z)).

(** dlopen and dlsym pass their caller on: on each architecture the jump
    goes to the function with the caller, the two arguments are untouched, the
    third is the return address of the call, and the callee will return to the
    same place, since the stack, the return address and memory are as they
    were. *)
Theorem caller_passed target s rsp return_address (r86 : x86 → Z) (ra : aarch64 → Z) (rr : riscv64 → Z) :
  r86 RSP = rsp → word_at (get_mem s) rsp return_address → in_usize return_address → put_mem (get_mem s) s = s →
  (∀ code, code = dlopen_x86_64 target ∨ code = dlsym_x86_64 target → ∃ regs, run86 code r86 s = Ret (Ok (target, regs), s)
     ∧ regs RDX = return_address ∧ ∀ x, x ≠ RDX → regs x = r86 x)
  ∧ (∀ code, code = dlopen_aarch64 target ∨ code = dlsym_aarch64 target →
       ∃ regs, exec on_mem X30 X0 (X0, X1, X2) (λ _, true) (λ _, 0) 0 no_call code ra s
       = Ret (Ok (target, regs), s) ∧ regs X2 = ra X30 ∧ ∀ x, x ≠ X2 → regs x = ra x)
  ∧ (∀ code, code = dlopen_riscv64 target ∨ code = dlsym_riscv64 target →
       ∃ regs, exec on_mem RA A0 (A0, A1, A2) (λ _, true) (λ _, 0) 0 no_call code rr s
       = Ret (Ok (target, regs), s) ∧ regs A2 = rr RA ∧ ∀ x, x ≠ A2 → regs x = rr x).
Proof.
  intros Hsp Hw Hr Hs. split_and!.
  - intros code Hcode. assert (code = mkRoutine [Load RSP RDX] (Jmp target)) as -> by (by destruct Hcode as [-> | ->]).
    pose proof (load64_run (get_mem s) rsp return_address Hw Hr) as Hl. apply on_mem_run in Hl. rewrite Hs in Hl.
    eexists. split; [|split].
    + unfold exec. cbn [body exit]. erewrite try_res_step; [|erewrite steps_cons; [reflexivity|]].
      * reflexivity.
      * unfold step. rewrite Hsp. by erewrite st_bind_run by exact Hl.
    + done.
    + intros x Hx. unfold set. by rewrite decide_False.
  - intros code [-> | ->]; (eexists; split; [reflexivity|]; split; [done|]; intros x Hx; unfold set; by rewrite decide_False).
  - intros code [-> | ->]; (eexists; split; [reflexivity|]; split; [done|]; intros x Hx; unfold set; by rewrite decide_False).
Qed.
End machine.

(** ** A program without anything to link, from the first instruction *)
Section process.
Import Stack Tls Startup StartupProps.
Context {K Source : Type} {FI : Files K} {SF : StdFds K}.
Context {Ctx Id Lease Mod LErr : Type} `{ED : EqDecision Id, LC : !LinkCtx Ctx Id Lease Mod, MA : !ModuleApi Mod}.
Context {BU : Build} {IS : ImageSource Source} {KE : Heap.Kernel}.
Local Abbreviation P := (process K Source).
Local Abbreviation W := (Open.World Ctx Lease Mod P).
Local Abbreviation boot := (Rtld.rt (Ctx := Ctx) (Id := Id) (Lease := Lease) (Mod := Mod) (Ext := P)).
Context {LK : Open.Linker W Ctx Id Lease LErr} {RL : RawLoader W Open.Raw LErr}.
Context (sy : Symbols) (link_error : LErr) (raw_link_map : Open.Raw → option Z) (from_core : Open.Raw → Mod) (scope_free : Open.Raw → bool).
Context (drop_group : list Id → st W unit) (leak : list Z → st P Z) (init : Z → st W unit) (fmt_loader : LErr → string).
Context (relocate_relative : Z → list SelfReloc.ElfRel → st mem bool) (relocate_relr : Z → list Z → st mem bool).
Context (scratch : x86 → Z) (ret : Z).

Definition on_boot_memory {A} (f : st mem A) : st boot A := Rtld.in_world (Id := Id) (on_process (on_memory f)).

(** C12. From the first instruction to the program: the kernel enters the linker
    with the stack of a program that needs nothing of it; the program is
    entered at its entry point, with the stack pointer that the kernel gave
    and the finalizer in [rdx], and memory is what the linker's own relocation
    made of it, below the call that the entry pushed. *)
Theorem entered_untouched fuel envp ehdr dyn fini (regs : x86 → Z) (s : boot) m1 args envs pairs phdrs ds :
  let m := memory_of (Open.rest (Rtld.world s)) in
  24 ≤ regs RSP < 2 ^ 64 → mapped m (aligned (regs RSP) - 8) 8 →
  SelfReloc.relocate relocate_relative relocate_relr dyn ehdr
    (write m (aligned (regs RSP) - 8) (le_encode 8 ret)) = Ret (true, m1) →
  good args envs pairs → words_at m1 (regs RSP) (stack_words args envs pairs) → StackProps.enough fuel args envs pairs →
  headers_at m1 (aux_of pairs) phdrs →
  base (aux_of pairs) ≠ 0 → entry (aux_of pairs) ≠ 0 → dynamic_of (aux_of pairs) phdrs ≠ dyn →
  0 < dynamic_of (aux_of pairs) phdrs → SelfRelocProps.dynamic_at m1 (dynamic_of (aux_of pairs) phdrs) ds → zlen ds < 4096 →
  needs_nothing phdrs ds →
  ∃ regs', exec (@on_boot_memory) RSP RAX (RDI, RSI, RDX) x86_saved scratch ret
      (rtld_bootstrap fuel sy link_error raw_link_map from_core scope_free drop_group leak init
         relocate_relative relocate_relr fmt_loader envp) (_start ehdr dyn fini) regs s
      = Ret (Ok (entry (aux_of pairs), regs'), after_relocation m1 s)
    ∧ regs' RSP = regs RSP ∧ regs' RDX = fini.
Proof.
  intros m Hsp Hm Hrel Hg Hw Hf Hh Hbase Hentry Hdyn Hpos Hds Hlen Hneed.
  set (m0 := write m (aligned (regs RSP) - 8) (le_encode 8 ret)) in *.
  destruct (pass_through_untouched sy link_error raw_link_map from_core scope_free drop_group leak init fmt_loader
    relocate_relative relocate_relr fuel envp (regs RSP) ehdr dyn (after_relocation m0 s) m1 args envs pairs phdrs ds)
    as (b & input & Hb & _ & _ & _ & _ & Hrun); try done.
  rewrite (proj2 Hb Hneed) in Hrun.
  destruct (start_run (@on_boot_memory) (λ s, memory_of (Open.rest (Rtld.world s))) after_relocation
    (λ A f s a m, at_memory_run f s a m) scratch ret _ ehdr dyn fini regs s (Ok (entry (aux_of pairs))) (after_relocation m1 s)
    Hsp Hm Hrun) as (regs' & H1 & H2 & H3 & _).
  by exists regs'.
Qed.
End process.

(** ** Examples *)
Definition toy_regs : x86 → Z := λ r, match r with RSP => 65540 | _ => 7 end.
Definition toy_memory : mem := of_bytes 65528 (replicate 64 9).

Lemma start_enters_witness :
  ∃ regs', exec (λ A f, f) RSP RAX (RDI, RSI, RDX) x86_saved (λ _, 0) 42 (λ stack ehdr dyn, mret (Ok (stack + ehdr + dyn)))
      (_start 1000 2000 3000) toy_regs toy_memory
      = Ret (Ok (68540, regs'), write toy_memory 65528 (le_encode 8 42))
    ∧ regs' RSP = 65540 ∧ regs' RDX = 3000.
Proof.
  destruct (start_enters (λ A f, f) (λ m, m) (λ m _, m) (λ A f s a m H, H) (λ _, 0) 42
    (λ stack ehdr dyn, mret (Ok (stack + ehdr + dyn))) 1000 2000 3000 toy_regs toy_memory (Ok 68540)
    (write toy_memory 65528 (le_encode 8 42))) as (_ & _ & regs' & H1 & H2 & H3).
  - simpl. lia.
  - change (aligned (toy_regs RSP) - 8) with 65528. intros x Hx. unfold toy_memory, of_bytes, write.
    change (zlen (replicate 64 9)) with 64. rewrite decide_True by lia. apply lookup_lt_is_Some.
    change (length (replicate 64 9)) with 64%nat. lia.
  - reflexivity.
  - exists regs'. split; [exact H1|]. split; [exact H2|exact H3].
Defined.

Lemma caller_passed_witness :
  let m := of_bytes 65528 (le_encode 8 4242) in
  ∃ regs, exec (λ A f, f) RSP RAX (RDI, RSI, RDX) x86_saved (λ _, 0) 0 (λ _ _ _, mret (Ok 0))
      (dlsym_x86_64 77) (λ r, match r with RSP => 65528 | _ => 5 end) m = Ret (Ok (77, regs), m)
    ∧ regs RDX = 4242 ∧ regs RDI = 5.
Proof.
  intros m.
  destruct (caller_passed (λ A f, f) (λ m, m) (λ m _, m) (λ A f s a m H, H) (λ _, 0) 0 (λ _ _ _, mret (Ok 0)) (λ _ _ _, mret (Ok 0))
    77 m 65528 4242 (λ r, match r with RSP => 65528 | _ => 5 end) (λ _, 1) (λ _, 2)) as (Hx86 & _).
  - reflexivity.
  - unfold m. apply write_bytes_at.
  - apply (bool_decide_unpack _). vm_compute. exact I.
  - reflexivity.
  - destruct (Hx86 (dlsym_x86_64 77) (or_intror eq_refl)) as (regs & H1 & H2 & H3).
    exists regs. split; [exact H1|]. split; [exact H2|]. by apply H3.
Defined.

(** The program of Startup.v, with room below its stack. *)
Import Stack Tls Startup StartupProps Toy.
#[local] Existing Instances w_source w_build w_kernel w_fds w_linker w_loader.
Definition e_memory : mem := write w_memory 65528 (le_encode 8 0).
Definition e_regs : x86 → Z := λ r, match r with RSP => 65536 | _ => 0 end.
Definition e_after : mem := write e_memory 65528 (le_encode 8 42).

Lemma entered_untouched_witness :
  ∃ regs', exec (@on_boot_memory ToyKernel (list Z) toy nat (nat * nat) nat) RSP RAX (RDI, RSI, RDX) x86_saved (λ _, 0) 42
      (rtld_bootstrap (LK := w_linker) (RL := w_loader) 9 w_symbols 8 (λ _, None) (λ _, 0%nat) (λ _, true) (λ _ w, Ret (tt, w)) w_leak w_init
        (λ _ _ m, Ret (false, m)) (λ _ _ m, Ret (false, m)) (λ _, "loader"%string) None) (_start 1000 12288 31) e_regs (w_boot e_memory)
      = Ret (Ok (77, regs'), after_relocation e_after (w_boot e_memory))
    ∧ regs' RSP = 65536 ∧ regs' RDX = 31.
Proof.
  apply (entered_untouched (LK := w_linker) (RL := w_loader) w_symbols 8 (λ _, None) (λ _, 0%nat) (λ _, true)
    (λ _ w, Ret (tt, w)) w_leak w_init (λ _, "loader"%string) (λ _ _ m, Ret (false, m)) (λ _ _ m, Ret (false, m)) (λ _, 0) 42
    9 None 1000 12288 31 e_regs (w_boot e_memory) e_after [9000] [9050] w_pairs [w_header] [(5, 8); (8, 0)]).
  - simpl. lia.
  - change (memory_of (Open.rest (Rtld.world (w_boot e_memory)))) with e_memory.
    change (aligned (e_regs RSP) - 8) with 65528. intros x Hx. unfold e_memory, write.
    change (zlen (le_encode 8 0)) with 8. rewrite decide_True by lia. apply lookup_lt_is_Some.
    change (length (le_encode 8 0)) with 8%nat. lia.
  - reflexivity.
  - split; apply (bool_decide_unpack _); vm_compute; exact I.
  - apply StackProps.words_at_of_words. unfold e_after, e_memory, w_memory.
    do 5 (apply bytes_at_write_other; [|right; vm_compute; discriminate]). apply write_bytes_at.
  - unfold StackProps.enough. vm_compute. lia.
  - split_and!; [vm_compute; discriminate|vm_compute; discriminate|reflexivity|vm_compute; discriminate|vm_compute; reflexivity|].
    intros [|i] h Hi; [injection Hi as <-; reflexivity|destruct i; discriminate Hi].
  - vm_compute. discriminate.
  - vm_compute. discriminate.
  - vm_compute. discriminate.
  - vm_compute. reflexivity.
  - split; [apply StackProps.words_at_of_words|split; apply (bool_decide_unpack _); vm_compute; exact I].
    unfold e_after, e_memory, w_memory. do 3 (apply bytes_at_write_other; [|left; vm_compute; discriminate]). apply write_bytes_at.
  - vm_compute. reflexivity.
  - split_and!; [reflexivity| | |reflexivity|reflexivity]; intros d Hd;
      apply elem_of_cons in Hd as [-> |Hd%list_elem_of_singleton]; [discriminate|subst; discriminate| |subst; intros Hn; by destruct Hn].
    intros _. apply (bool_decide_unpack _). vm_compute. exact I.
Defined.
End EntryProps.
