(* ===== verification/Versions.v ===== *)
(** * Symbol versions (rtld/impl/src/versions.rs, rtld/rtld.version)

    The versions under which the linker exports its functions and variables:
    the directives of the assembly, the stubs that give dlopen and its kin two
    old versions, and the version script of the build.  Together they say
    what a versioned name is bound to. *)

From stdpp Require Import strings list.
From S2P Require Import Prelude.

Module Versions.

(** [.symver symbol, name@version] or, for the default version, [name@@version]. *)
Record symver := mkSymver { symbol : string; name : string; is_default : bool; version : string }.

(** A stub and the function that it jumps to. *)
Definition stubs : list (string * string) := [
  ("__rtld_dlopen_glibc_2_2_5", "dlopen");
  ("__rtld_dlsym_glibc_2_2_5", "dlsym");
  ("__rtld_dlclose_glibc_2_2_5", "dlclose");
  ("__rtld_dlerror_glibc_2_2_5", "dlerror");
  ("__rtld_dlopen_glibc_2_34", "dlopen");
  ("__rtld_dlsym_glibc_2_34", "dlsym");
  ("__rtld_dlclose_glibc_2_34", "dlclose");
  ("__rtld_dlerror_glibc_2_34", "dlerror")
]%string.

Definition symvers : list symver := [
  mkSymver "__libc_stack_end" "__libc_stack_end" true "GLIBC_2.2.5";
  mkSymver "_dl_debug_state" "_dl_debug_state" true "GLIBC_2.2.5";
  mkSymver "_r_debug" "_r_debug" true "GLIBC_2.2.5";
  mkSymver "__rtld_dlopen_glibc_2_2_5" "dlopen" false "GLIBC_2.2.5";
  mkSymver "__rtld_dlsym_glibc_2_2_5" "dlsym" false "GLIBC_2.2.5";
  mkSymver "__rtld_dlclose_glibc_2_2_5" "dlclose" false "GLIBC_2.2.5";
  mkSymver "__rtld_dlerror_glibc_2_2_5" "dlerror" false "GLIBC_2.2.5";
  mkSymver "__tls_get_addr" "__tls_get_addr" true "GLIBC_2.3";
  mkSymver "__rtld_version_placeholder" "__rtld_version_placeholder" true "GLIBC_2.34";
  mkSymver "__rtld_dlopen_glibc_2_34" "dlopen" false "GLIBC_2.34";
  mkSymver "__rtld_dlsym_glibc_2_34" "dlsym" false "GLIBC_2.34";
  mkSymver "__rtld_dlclose_glibc_2_34" "dlclose" false "GLIBC_2.34";
  mkSymver "__rtld_dlerror_glibc_2_34" "dlerror" false "GLIBC_2.34";
  mkSymver "_dl_find_object" "_dl_find_object" true "GLIBC_2.35";
  mkSymver "__rseq_flags" "__rseq_flags" true "GLIBC_2.35";
  mkSymver "__rseq_offset" "__rseq_offset" true "GLIBC_2.35";
  mkSymver "__rseq_size" "__rseq_size" true "GLIBC_2.35";
  mkSymver "_dl_argv" "_dl_argv" true "GLIBC_PRIVATE";
  mkSymver "_dl_find_dso_for_object" "_dl_find_dso_for_object" true "GLIBC_PRIVATE";
  mkSymver "__libc_enable_secure" "__libc_enable_secure" true "GLIBC_PRIVATE";
  mkSymver "_dl_deallocate_tls" "_dl_deallocate_tls" true "GLIBC_PRIVATE";
  mkSymver "_rtld_global_ro" "_rtld_global_ro" true "GLIBC_PRIVATE";
  mkSymver "_dl_signal_error" "_dl_signal_error" true "GLIBC_PRIVATE";
  mkSymver "_dl_signal_exception" "_dl_signal_exception" true "GLIBC_PRIVATE";
  mkSymver "_dl_audit_symbind_alt" "_dl_audit_symbind_alt" true "GLIBC_PRIVATE";
  mkSymver "__tunable_is_initialized" "__tunable_is_initialized" true "GLIBC_PRIVATE";
  mkSymver "_dl_rtld_di_serinfo" "_dl_rtld_di_serinfo" true "GLIBC_PRIVATE";
  mkSymver "_dl_allocate_tls" "_dl_allocate_tls" true "GLIBC_PRIVATE";
  mkSymver "__tunable_get_val" "__tunable_get_val" true "GLIBC_PRIVATE";
  mkSymver "_dl_catch_exception" "_dl_catch_exception" true "GLIBC_PRIVATE";
  mkSymver "_dl_allocate_tls_init" "_dl_allocate_tls_init" true "GLIBC_PRIVATE";
  mkSymver "_rtld_global" "_rtld_global" true "GLIBC_PRIVATE";
  mkSymver "__nptl_change_stack_perm" "__nptl_change_stack_perm" true "GLIBC_PRIVATE";
  mkSymver "_dl_audit_preinit" "_dl_audit_preinit" true "GLIBC_PRIVATE";
  mkSymver "_dl_exception_free" "_dl_exception_free" true "GLIBC_PRIVATE";
  mkSymver "_dl_exception_create" "_dl_exception_create" true "GLIBC_PRIVATE";
  mkSymver "_dl_exception_create_format" "_dl_exception_create_format" true "GLIBC_PRIVATE";
  mkSymver "_dl_fatal_printf" "_dl_fatal_printf" true "GLIBC_PRIVATE";
  mkSymver "_dl_get_tls_static_info" "_dl_get_tls_static_info" true "GLIBC_PRIVATE";
  mkSymver "_dl_x86_get_cpu_features" "_dl_x86_get_cpu_features" true "GLIBC_PRIVATE"
]%string.

(** ** The version script *)
Record node := mkNode { node_version : string; globals : list string; local_all : bool; parent : option string }.
Definition script : list node := [
  mkNode "GLIBC_2.2.5"
    ["__libc_stack_end"; "_dl_debug_state"; "_r_debug"]
    false None;
  mkNode "GLIBC_2.3"
    ["__tls_get_addr"]
    false (Some "GLIBC_2.2.5");
  mkNode "GLIBC_2.34"
    ["__rtld_version_placeholder"]
    false (Some "GLIBC_2.3");
  mkNode "GLIBC_2.35"
    ["_dl_find_object"; "__rseq_flags"; "__rseq_offset"; "__rseq_size"]
    false (Some "GLIBC_2.34");
  mkNode "GLIBC_PRIVATE"
    ["_dl_argv"; "_dl_find_dso_for_object"; "__libc_enable_secure"; "_dl_deallocate_tls"; "_rtld_global_ro";
     "_dl_signal_error"; "_dl_signal_exception"; "_dl_audit_symbind_alt"; "__tunable_is_initialized";
     "_dl_rtld_di_serinfo";
     "_dl_allocate_tls"; "__tunable_get_val"; "_dl_catch_exception"; "_dl_allocate_tls_init"; "_rtld_global"; "__nptl_change_stack_perm";
     "_dl_audit_preinit"; "_dl_exception_free"; "_dl_exception_create"; "_dl_exception_create_format"; "_dl_fatal_printf";
     "_dl_get_tls_static_info"; "_dl_x86_get_cpu_features"]
    true None
]%string.

(** ** What a name is bound to *)

(** The function behind a symbol: a stub is the one that it jumps to. *)
Definition behind (s : string) : string :=
  from_option (λ p, p.2) s (list_find (λ p, p.1 = s) stubs ≫= λ p, Some p.2).
(** The definition that [name@version] means. *)
Definition bound (n v : string) : option string :=
  p ← list_find (λ d, name d = n ∧ version d = v) symvers; Some (behind (symbol p.2)).
(** The version that an unversioned reference gets. *)
Definition default_version (n : string) : option string :=
  p ← list_find (λ d, name d = n ∧ is_default d = true) symvers; Some (version p.2).
(** The node of the script that lists a symbol as global. *)
Definition script_version (s : string) : option string :=
  p ← list_find (λ d, s ∈ globals d) script; Some (node_version p.2).
End Versions.

Module VersionsProps.
Import Versions.

(** Facts about all directives are decided once. *)
Lemma symvers_name : Forall (λ d, behind (symbol d) = name d) symvers.
Proof. apply (bool_decide_unpack _). by vm_compute. Qed.
Lemma symvers_script : Forall (λ d, is_default d = true → script_version (name d) = Some (version d)) symvers.
Proof. apply (bool_decide_unpack _). by vm_compute. Qed.
Lemma script_symvers : Forall (λ nd, Forall (λ s, default_version s = Some (node_version nd)) (globals nd)) script.
Proof. apply (bool_decide_unpack _). by vm_compute. Qed.

Lemma bound_Some n v f :
  bound n v = Some f → ∃ d, d ∈ symvers ∧ name d = n ∧ version d = v ∧ f = behind (symbol d).
Proof.
  unfold bound. intros ([i d] & (Hi & [Hn Hv] & _)%list_find_Some & [= <-])%bind_Some.
  exists d. split_and!; try done. by eapply list_elem_of_lookup_2.
Qed.

(** Versioned names reach the right definitions: a name under any version is
    bound to the function or variable of that name, through a stub or not, and
    to one only; a name has a default version exactly when the version script
    exports it, under the same version; and dlopen, dlsym, dlclose and dlerror
    exist under their two historic versions, without a default. *)
Theorem versions_resolve n v :
  (∀ f, bound n v = Some f → f = n)
  ∧ NoDup ((λ d, (name d, version d)) <$> symvers)
  ∧ (default_version n = Some v ↔ script_version n = Some v)
  ∧ (n ∈ ["dlopen"; "dlsym"; "dlclose"; "dlerror"]%string →
     default_version n = None ∧ (bound n v = Some n ↔ v = "GLIBC_2.2.5" ∨ v = "GLIBC_2.34")%string).
Proof.
  split_and!.
  - intros f (d & Hd & Hn & _ & ->)%bound_Some. rewrite <-Hn. exact (proj1 (Forall_forall _ _) symvers_name d Hd).
  - apply (bool_decide_unpack _). by vm_compute.
  - split.
    + unfold default_version. intros ([i d] & (Hi & [<- Hdef] & _)%list_find_Some & [= <-])%bind_Some.
      apply list_elem_of_lookup_2 in Hi. exact (proj1 (Forall_forall _ _) symvers_script d Hi Hdef).
    + unfold script_version. intros ([i nd] & (Hi & Hn & _)%list_find_Some & [= <-])%bind_Some.
      apply list_elem_of_lookup_2 in Hi.
      exact (proj1 (Forall_forall _ _) (proj1 (Forall_forall _ _) script_symvers nd Hi) n Hn).
  - intros Hn. split.
    { assert (Forall (λ n, default_version n = None) ["dlopen"; "dlsym"; "dlclose"; "dlerror"]%string) as H
        by (apply (bool_decide_unpack _); by vm_compute).
      exact (proj1 (Forall_forall _ _) H n Hn). }
    split.
    + intros (d & Hd & Hnd & <- & _)%bound_Some. rewrite <-Hnd in Hn. clear Hnd.
      assert (Forall (λ d, name d ∈ ["dlopen"; "dlsym"; "dlclose"; "dlerror"]%string →
        version d = "GLIBC_2.2.5"%string ∨ version d = "GLIBC_2.34"%string) symvers) as H
        by (apply (bool_decide_unpack _); by vm_compute).
      exact (proj1 (Forall_forall _ _) H d Hd Hn).
    + assert (Forall (λ n, Forall (λ v, bound n v = Some n) ["GLIBC_2.2.5"; "GLIBC_2.34"]%string)
        ["dlopen"; "dlsym"; "dlclose"; "dlerror"]%string) as H by (apply (bool_decide_unpack _); by vm_compute).
      intros Hv. refine (proj1 (Forall_forall _ _) (proj1 (Forall_forall _ _) H n Hn) v _). set_solver.
Qed.

Lemma versions_resolve_witness :
  bound "dlsym" "GLIBC_2.34" = Some "dlsym"%string ∧ default_version "dlsym" = None
  ∧ (default_version "_dl_find_object" = Some "GLIBC_2.35"%string ↔ script_version "_dl_find_object" = Some "GLIBC_2.35"%string).
Proof.
  destruct (versions_resolve "dlsym" "GLIBC_2.34") as (_ & _ & _ & H).
  destruct H as [H1 H2]; [apply (bool_decide_unpack _); vm_compute; exact I|].
  split; [apply H2; by right|]. split; [exact H1|]. apply (versions_resolve "_dl_find_object" "GLIBC_2.35").
Defined.
End VersionsProps.
