(* ===== verification/Host.v ===== *)
(** * Joining the host's libraries (src/runtime/host.rs)

    When the crate is loaded into a process that another linker started, its
    constructor finds that linker's debugger structure through the auxiliary
    vector, walks its link maps to libc, takes over libc's view of the process
    arguments, and registers every object that [dl_iterate_phdr] reports.  The
    objects are already mapped: their program headers and dynamic sections are
    read from memory, their link maps from the host's list. *)

From stdpp Require Import gmap.
From S2P Require Import Prelude Utf8 Errors LinkMap DebugList Machine CStr Stack Manager Open Introspect.

(** What the loader crate makes of a mapped object: its name, headers, base and
    length, the TLS offset, and the user data (its name, link map and dynamic
    table). *)
Class HostLoader (Mod LErr : Type) := {
  new_unchecked : list Z → list ElfPhdr → Z → Z → option Z → (list Z * Z * list (Z * Z)) → result LErr Mod;
  thread_pointer : Z }.

Module Host.
Import Machine CStr Stack Open.

(** ** The auxiliary vector of the process *)

(** The 16-byte chunks of the file; a rest that is too short is left out. *)
Fixpoint auxv_loop (n : nat) (data : list Z) (target_type : Z) : Z :=
  match n with
  | O => 0
  | S n =>
      let type_ := le_decode (take 8 data) in
      let val := le_decode (take 8 (drop 8 data)) in
      if type_ =? target_type then val
      else if type_ =? 0 then 0
      else auxv_loop n (drop 16 data) target_type
  end.
(** [None]: the file cannot be read. *)
Definition get_auxv (file : option (list Z)) (target_type : Z) : Z :=
  match file with
  | None => 0
  | Some data => auxv_loop (length data / 16) data target_type
  end.

(** ** Dynamic sections *)
Definition DT_NULL : Z := 0.
Definition DT_DEBUG : Z := 21.
(** PLTGOT, HASH, STRTAB, SYMTAB, RELA, INIT, FINI, REL, JMPREL, INIT_ARRAY,
    FINI_ARRAY, RELR, GNU_HASH, GNU_LIBLIST, RELACOUNT, VERSYM, VERDEF, VERNEED. *)
Definition DT_ADDR_TAGS : list Z :=
  [3; 4; 5; 6; 7; 12; 13; 17; 23; 25; 26; 36; 0x6ffffef5; 0x6ffffef9; 0x6ffffff9; 0x6ffffff0; 0x6ffffffc; 0x6ffffffe].

(** The entries before DT_NULL, then DT_NULL itself. *)
Fixpoint read_table (fuel : nat) (p : Z) : st mem (list (Z * Z)) :=
  match fuel with
  | O => st_fail OutOfFuel
  | S fuel =>
      tag ← load64 p; value ← load64 (p + 8);
      if tag =? DT_NULL then mret [(tag, value)]
      else rest ← read_table fuel (p + 16); mret ((tag, value) :: rest)
  end.
Definition recover_entry (base : Z) (e : Z * Z) : Z * Z :=
  if bool_decide (e.1 ∈ DT_ADDR_TAGS) && (base <? e.2) then (e.1, e.2 - base) else e.
Definition recover_dynamic_table (fuel : nat) (dynamic_ptr base : Z) : st mem (list (Z * Z)) :=
  table ← read_table fuel dynamic_ptr; mret (recover_entry base <$> table).

(** The state: memory, the debugger's structures and link maps of both linkers,
    and the statics. *)
Record host := mkHost {
  h_mem : mem;
  h_debug : DebugList.dstate;
  LIBC_THREAD_ATEXIT : option Z;
  IS_MUSL : bool;
  ARGC : Z; ARGV : Z; ENVP : Z }.

Definition on_mem {A} (f : st mem A) : st host A := λ s,
  '(a, m) ← f (h_mem s);
  Ret (a, mkHost m (h_debug s) (LIBC_THREAD_ATEXIT s) (IS_MUSL s) (ARGC s) (ARGV s) (ENVP s)).
Definition on_debug {A} (f : st DebugList.dstate A) : st host A := λ s,
  '(a, d) ← f (h_debug s);
  Ret (a, mkHost (h_mem s) d (LIBC_THREAD_ATEXIT s) (IS_MUSL s) (ARGC s) (ARGV s) (ENVP s)).
Definition set_thread_atexit (f : Z) : st host unit := λ s,
  Ret (tt, mkHost (h_mem s) (h_debug s) (Some f) (IS_MUSL s) (ARGC s) (ARGV s) (ENVP s)).
Definition set_musl : st host unit := λ s,
  Ret (tt, mkHost (h_mem s) (h_debug s) (LIBC_THREAD_ATEXIT s) true (ARGC s) (ARGV s) (ENVP s)).
Definition set_args (argc argv envp : Z) : st host unit := λ s,
  Ret (tt, mkHost (h_mem s) (h_debug s) (LIBC_THREAD_ATEXIT s) (IS_MUSL s) argc argv envp).

(** ** The host's debugger structure *)

(** The version field of the structure at an address. *)
Definition version_of (ptr : Z) : st host Z := on_debug (λ s,
  match DebugList.rdebugs s !! ptr with Some d => Ret (version d, s) | None => Fault end).

Fixpoint find_debug_in_dynamic (fuel : nat) (dynamic : Z) : st host Z :=
  match fuel with
  | O => st_fail OutOfFuel
  | S fuel =>
      if dynamic =? 0 then mret 0
      else
        tag ← on_mem (load64 dynamic);
        if tag =? DT_NULL then mret 0
        else
          found ← (if tag =? DT_DEBUG then
              ptr ← on_mem (load64 (dynamic + 8));
              if ptr =? 0 then mret 0
              else v ← version_of ptr; mret (if negb (v =? 0) then ptr else 0)
            else mret 0);
          if negb (found =? 0) then mret found else find_debug_in_dynamic fuel (dynamic + 16)
  end.

(** The last PT_PHDR gives the load bias and the last PT_DYNAMIC the section. *)
Definition scan_phdrs (phdr_addr : Z) (phdrs : list ElfPhdr) : option Z * option ElfPhdr :=
  foldl (λ acc phdr,
    if p_type phdr =? PT_PHDR then (Some (wrapping_sub phdr_addr (p_vaddr phdr)), acc.2)
    else if p_type phdr =? PT_DYNAMIC then (acc.1, Some phdr)
    else acc) (None, None) phdrs.

Section host.
Context {BU : Build}.

(** Without PT_PHDR: the first segment of the file holds the headers. *)
Fixpoint bias_of_load (phdr_addr : Z) (phdrs : list ElfPhdr) : outcome (option Z) :=
  match phdrs with
  | [] => Ret None
  | phdr :: phdrs =>
      if (p_type phdr =? PT_LOAD) && (p_offset phdr =? 0) then
        linked_phdr_addr ← uadd (p_vaddr phdr) 64;
        Ret (Some (wrapping_sub phdr_addr linked_phdr_addr))
      else bias_of_load phdr_addr phdrs
  end.

Definition find_in_interpreter (fuel : nat) (interpreter_base : Z) : st host Z :=
  if interpreter_base =? 0 then mret 0
  else
    h ← on_mem (read_ehdr interpreter_base);
    let '(_, e_phoff, _, e_phnum) := h in
    a ← st_lift (uadd interpreter_base e_phoff);
    phdrs ← on_mem (read_phdrs (Z.to_nat e_phnum) a);
    match LinkMap.find_phdr PT_DYNAMIC phdrs with
    | Some phdr => find_debug_in_dynamic fuel (wrapping_add interpreter_base (p_vaddr phdr))
    | None => mret 0
    end.

Definition find_r_debug (fuel : nat) (phdr_addr phnum interpreter_base : Z) : st host Z :=
  if (phdr_addr =? 0) || (phnum =? 0) then mret 0
  else
    phdrs ← on_mem (read_phdrs (Z.to_nat phnum) phdr_addr);
    let '(load_bias, dynamic_phdr) := scan_phdrs phdr_addr phdrs in
    load_bias ← (match load_bias with
                 | Some b => mret (Some b)
                 | None => st_lift (bias_of_load phdr_addr phdrs)
                 end);
    ptr ← (match load_bias, dynamic_phdr with
           | Some bias, Some phdr => find_debug_in_dynamic fuel (wrapping_add bias (p_vaddr phdr))
           | _, _ => mret 0
           end);
    if negb (ptr =? 0) then mret ptr else find_in_interpreter fuel interpreter_base.

Definition get_r_debug (fuel : nat) (file : option (list Z)) : st host Z :=
  find_r_debug fuel (get_auxv file AT_PHDR) (get_auxv file AT_PHNUM) (get_auxv file AT_BASE).
Definition get_debug_struct (fuel : nat) (file : option (list Z)) : st host (option Z) :=
  ptr ← get_r_debug fuel file;
  if ptr =? 0 then mret None
  else v ← version_of ptr; mret (if negb (v =? 0) then Some ptr else None).

(** ** Making a module of a mapped object *)
Fixpoint max_end (phdrs : list ElfPhdr) (acc : Z) : outcome Z :=
  match phdrs with
  | [] => Ret acc
  | phdr :: phdrs =>
      if p_type phdr =? PT_LOAD then
        e ← uadd (p_vaddr phdr) (p_memsz phdr); max_end phdrs (Z.max acc e)
      else max_end phdrs acc
  end.
Definition get_phdrs_and_len (base : Z) (extra : option (list ElfPhdr)) : st mem (list ElfPhdr * Z) :=
  phdrs ← (match extra with
           | Some extra => mret extra
           | None =>
               h ← read_ehdr base;
               let '(_, e_phoff, _, e_phnum) := h in
               a ← st_lift (uadd base e_phoff);
               read_phdrs (Z.to_nat e_phnum) a
           end);
  len ← st_lift (max_end phdrs 0);
  mret (phdrs, len).

(** [iter_mut().find(..)] and [set_p_vaddr]. *)
Fixpoint set_dynamic_vaddr (v : Z) (phdrs : list ElfPhdr) : list ElfPhdr :=
  match phdrs with
  | [] => []
  | p :: phdrs =>
      if p_type p =? PT_DYNAMIC then
        mkPhdr (p_type p) (p_flags p) (p_offset p) v (p_paddr p) (p_filesz p) (p_memsz p) (p_align p) :: phdrs
      else p :: set_dynamic_vaddr v phdrs
  end.

(** [str::contains] *)
Fixpoint contains (needle hay : list Z) : bool :=
  starts_with needle hay || match hay with [] => false | _ :: hay => contains needle hay end.
Definition str (s : string) : list Z := bytes_of_string s.

(** The addresses of the boxes that [from_raw] allocates. *)
Record Boxes := mkBoxes { box_name : Z; box_map : Z; box_table : Z; box_phdrs : Z }.

(** What [dl_iterate_phdr] adds to a link map: the headers, the thread's TLS
    block if there is one, and its distance from the thread pointer. *)
Record Extra := mkExtra { extra_phdrs : list ElfPhdr; tls_data : option Z; static_offset : option Z }.

Context {Mod LErr : Type} {MA : ModuleApi Mod} {HL : HostLoader Mod LErr}.

Definition from_raw (fuel : nat) (bx : Boxes) (name : list Z) (base dynamic_ptr : Z) (extra : option Extra)
    (host_link_map : Z) : st host (result LErr (option Mod)) :=
  if dynamic_ptr =? 0 then mret (Ok None)
  else
    let name_str := to_string_lossy name in
    link_map ← (if negb (host_link_map =? 0) then on_debug (DebugList.load_map host_link_map)
                else mret (LinkMap_new base 0 dynamic_ptr 0 0 0));
    s ← st_get;
    dynamic_table ← (if negb (contains (str "linux-vdso.so.1") name_str) && negb (IS_MUSL s)
                     then on_mem (recover_dynamic_table fuel dynamic_ptr base) else mret []);
    pl ← on_mem (get_phdrs_and_len base (extra_phdrs <$> extra));
    let '(use_phdrs, len) := pl in
    let use_phdrs := match dynamic_table with
                     | [] => use_phdrs
                     | _ => set_dynamic_vaddr (wrapping_sub (box_table bx) base) use_phdrs
                     end in
    let use_phdrs := match e ← extra; tls_data e with
                     | None => filter (λ p, p_type p ≠ PT_TLS) use_phdrs
                     | Some _ => use_phdrs
                     end in
    h ← on_mem (read_ehdr base);
    let '(e_entry, _, _, _) := h in
    let link_map := mkLinkMap (l_addr link_map) (box_name bx) (l_ld link_map) 0 0 (box_map bx) (l_ns link_map)
      (l_libname link_map) (l_info link_map)
      (match use_phdrs with [] => 0 | _ => box_phdrs bx end) (wrapping_add e_entry base)
      (Z.min (zlen use_phdrs) 65535) (l_ldnum link_map) (l_reserved_before_tls link_map)
      (l_tls_initimage link_map) (l_tls_initimage_size link_map) (l_tls_blocksize link_map) (l_tls_align link_map)
      (l_tls_firstbyte_offset link_map) (l_tls_offset link_map) (l_tls_modid link_map) (l_tls_dtor_count link_map)
      (l_relro_addr link_map) (l_relro_size link_map) (l_serial link_map) in
    on_debug (DebugList.alloc_map (box_map bx) link_map);;
    len ← st_lift (uadd len 0xfff);
    let len := Z.land len (not_usize 0xfff) in
    match new_unchecked name_str use_phdrs base len ((λ o, - as_isize o) <$> (e ← extra; static_offset e))
            (name, box_map bx, dynamic_table) with
    | Ok lib => mret (Ok (Some lib))
    | Err e => on_debug (DebugList.drop_extra_data (box_map bx));; mret (Err e)
    end.

(** ** What libc knows of the process *)
Definition init_libc_thread_atexit (lib : Mod) : st host unit :=
  s ← st_get;
  match LIBC_THREAD_ATEXIT s with
  | Some _ => mret tt
  | None =>
      match get_symbol lib (str "__cxa_thread_atexit_impl") with
      | Some func => set_thread_atexit func
      | None => mret tt
      end
  end.

(** [lib.get(a).or_else(|| lib.get(b))]: the address of the first symbol. *)
Definition get_either (lib : Mod) (a b : string) : option Z :=
  match get_symbol lib (str a) with Some s => Some s | None => get_symbol lib (str b) end.

(** A [Symbol] of a pointer type dereferences to the symbol's address: one more
    dereference reads the variable. *)
Definition update_libc_globals (lib : Mod) : st host unit :=
  s ← st_get;
  (if ARGC s =? 0 then
     match get_either lib "__libc_argc" "__argc" with
     | Some a => v ← on_mem (load32 a); set_args (wrap (as_i32 v)) (ARGV s) (ENVP s)
     | None => mret tt
     end
   else mret tt);;
  s ← st_get;
  (if ARGV s =? 0 then
     match get_either lib "__libc_argv" "__argv" with
     | Some a => set_args (ARGC s) a (ENVP s)
     | None => mret tt
     end
   else mret tt);;
  s ← st_get;
  (if ENVP s =? 0 then
     match get_either lib "environ" "__environ" with
     | Some a => v ← on_mem (load64 a); set_args (ARGC s) (ARGV s) v
     | None => mret tt
     end
   else mret tt).

(** ** The walk to libc *)

(** [fresh] allocates the boxes of one [from_raw]. *)
Context (fresh : st host Boxes).

(** The name of a link map: null is the empty name. *)
Definition map_name (fuel : nat) (m : LinkMap) : st host (list Z) :=
  if l_name m =? 0 then mret [] else on_mem (to_bytes fuel (l_name m)).

(** The body of the loop; the result is [iter_phdr]. *)
Definition visit_map (fuel : nat) (cur : Z) (iter_phdr : option Z) : st host (option Z) :=
  m ← on_debug (DebugList.load_map cur);
  name ← map_name fuel m;
  let ns := to_string_lossy name in
  (if contains (str "ld-musl") ns then set_musl else mret tt);;
  let is_main := bool_decide (ns = []) in
  let is_libc := (contains (str "libc") ns || contains (str "ld-musl") ns) && contains (str ".so") ns in
  if is_main || is_libc then
    bx ← fresh;
    r ← from_raw fuel bx name (l_addr m) (l_ld m) None cur;
    match r with
    | Ok (Some lib) =>
        (if is_libc then init_libc_thread_atexit lib else mret tt);;
        update_libc_globals lib;;
        mret (match iter_phdr with
              | None => if is_libc then get_symbol lib (str "dl_iterate_phdr") else None
              | Some _ => iter_phdr
              end)
    | _ => mret iter_phdr
    end
  else mret iter_phdr.
Fixpoint visit_maps (n fuel : nat) (current : Z) (iter_phdr : option Z) : st host (option Z) :=
  match n with
  | O => st_fail OutOfFuel
  | S n =>
      if current =? 0 then mret iter_phdr
      else
        m ← on_debug (DebugList.load_map current);
        iter_phdr ← visit_map fuel current iter_phdr;
        visit_maps n fuel (l_next m) iter_phdr
  end.
Definition find_iterate_phdr (fuel : nat) (start : Z) : st host (option Z) :=
  if start =? 0 then mret None
  else
    iter_phdr ← visit_maps fuel fuel start None;
    match iter_phdr with Some f => mret (Some f) | None => st_fail Panic end.

(** ** Registration *)
Context {Ctx Id Lease : Type} `{ED : EqDecision Id, LC : !LinkCtx Ctx Id Lease Mod}.
Local Abbreviation W := (World Ctx Lease Mod host).
Definition on_host {A} (f : st host A) : st W A := λ w,
  '(a, h) ← f (rest w); Ret (a, mkWorld (manager w) (borrowed w) (search_path_cell w) h).

Context (scope_free : Mod → bool).

(** The callback for the host's [dl_iterate_phdr]. *)
Definition callback (fuel : nat) (info : Introspect.CDlPhdrInfo) : st W Z :=
  let base := Introspect.dlpi_addr info in
  let phdrs := take (Z.to_nat (Introspect.dlpi_phnum info)) (Introspect.dlpi_phdr info) in
  match LinkMap.find_phdr PT_DYNAMIC phdrs with
  | None => st_fail Panic
  | Some p =>
      dynamic_ptr ← st_lift (uadd base (p_vaddr p));
      let data := Introspect.dlpi_tls_data info in
      let static_offset := if data =? 0 then None else Some (wrapping_sub thread_pointer data) in
      name ← on_host (on_mem (to_bytes fuel (Introspect.dlpi_name info)));
      host_map ← on_host (on_debug (DebugList.find_host_link_map fuel base));
      bx ← on_host fresh;
      r ← on_host (from_raw fuel bx name base dynamic_ptr
            (Some (mkExtra phdrs (if data =? 0 then None else Some data) static_offset)) host_map);
      match r with
      | Ok (Some lib) =>
          borrow_mut (Manager.register_loaded (Id := Id) (scope_free lib) lib
            (OpenFlags.union OpenFlags.RTLD_NODELETE OpenFlags.RTLD_GLOBAL));;
          mret 0
      | _ => st_fail Panic
      end
  end.

(** [iterate] calls the function at an address as [dl_iterate_phdr]. *)
Definition init (fuel : nat) (file : option (list Z)) (iterate : Z → (Introspect.CDlPhdrInfo → st W Z) → st W Z)
    : st W unit :=
  debug ← on_host (get_debug_struct fuel file);
  match debug with
  | None => mret tt
  | Some debug =>
      on_host (on_debug (DebugList.init_host_debug fuel debug));;
      d ← on_host (on_debug DebugList.load_debug);
      iter ← on_host (find_iterate_phdr fuel (map_head d));
      (match iter with Some iter => iterate iter (callback fuel);; mret tt | None => mret tt end);;
      borrow_mut (Manager.register_initial_aliases (Id := Id))
  end.

(** The exported [__cxa_thread_atexit_impl] goes to libc's, if it was found. *)
Definition __cxa_thread_atexit_impl (thread_atexit : Z → Manager.ThreadDestructor (Lease := Lease) → option Z → Z)
    (func arg dso_handle : Z) : st W Z :=
  f ← on_host (s ← st_get; mret (LIBC_THREAD_ATEXIT s));
  match f with
  | None => mret (-1)
  | Some f => borrow_mut (Manager.register_thread_destructor (Id := Id) (thread_atexit f) func arg dso_handle)
  end.

End host.
End Host.

Module HostProps.
Import Machine CStr Stack Open Host.

(** ** The auxiliary vector *)
Definition lookup_aux (target : Z) (pairs : list (Z * Z)) : Z := from_option (λ x, x.2.2) 0 (list_find (λ p, p.1 = target) pairs).

Lemma take_app_len {A} n (l k : list A) : length l = n → take n (l ++ k) = l.
Proof. intros <-. apply take_app_length. Qed.
Lemma drop_app_len {A} n (l k : list A) : length l = n → drop n (l ++ k) = k.
Proof. intros <-. apply drop_app_length. Qed.

Lemma aux_chunk k v rest :
  in_usize k → in_usize v →
  le_decode (take 8 (le_encode 8 k ++ le_encode 8 v ++ rest)) = k
  ∧ le_decode (take 8 (drop 8 (le_encode 8 k ++ le_encode 8 v ++ rest))) = v
  ∧ drop 16 (le_encode 8 k ++ le_encode 8 v ++ rest) = rest.
Proof.
  intros Hk Hv. rewrite take_app_len, drop_app_len, take_app_len by apply length_le_encode.
  rewrite !le_decode_encode. unfold in_usize in *. change (8 * Z.of_nat 8) with 64. rewrite !Z.mod_small by lia.
  split_and!; [done|done|]. rewrite app_assoc. apply drop_app_len. by rewrite length_app, !length_le_encode.
Qed.

Lemma words_bytes (ws : list Z) : length (ws ≫= le_encode 8) = (8 * length ws)%nat.
Proof. induction ws as [|w ws IH]; [done|]. cbn [mbind list_bind length]. rewrite length_app, length_le_encode, IH. lia. Qed.

(** The file holds the pairs, the terminator and whatever follows it: the
    first value of the tag before the terminator is found, or 0. *)
Lemma get_auxv_run pairs (tail : list Z) target :
  target ≠ 0 → Forall (λ p, p.1 ≠ 0 ∧ in_usize p.1 ∧ in_usize p.2) pairs →
  get_auxv (Some (((aux_words pairs ++ [0; 0]) ≫= le_encode 8) ++ tail)) target = lookup_aux target pairs.
Proof.
  intros Ht Hp. unfold get_auxv. set (data := app _ _).
  assert (length pairs < length data / 16)%nat as Hn.
  { assert (16 * S (length pairs) ≤ length data)%nat.
    { unfold data. rewrite length_app, words_bytes, length_app, StackProps.aux_words_length. simpl. lia. }
    pose proof (Nat.div_le_lower_bound (length data) 16 (S (length pairs))). lia. }
  revert Hn. generalize (length data / 16)%nat as n. intros n. unfold data. clear data. revert n.
  induction Hp as [|[k v] pairs (Hk & Huk & Huv) Hp IH]; intros [|n] Hn; simpl length in Hn; try lia.
  - cbn [auxv_loop]. change ((aux_words [] ++ [0; 0]) ≫= le_encode 8) with (le_encode 8 0 ++ le_encode 8 0 ++ []).
    rewrite <-!app_assoc. destruct (aux_chunk 0 0 ([] ++ tail)) as (-> & -> & _); [unfold in_usize; lia..|].
    destruct (Z.eqb_spec 0 target); [done|]. done.
  - cbn [auxv_loop fst snd] in *.
    change ((aux_words ((k, v) :: pairs) ++ [0; 0]) ≫= le_encode 8) with
      (le_encode 8 k ++ le_encode 8 v ++ ((aux_words pairs ++ [0; 0]) ≫= le_encode 8)).
    rewrite <-!app_assoc. destruct (aux_chunk k v (((aux_words pairs ++ [0; 0]) ≫= le_encode 8) ++ tail)) as (-> & -> & ->); [done..|].
    unfold lookup_aux. cbn [list_find fst]. destruct (Z.eqb_spec k target) as [->|Hkt]; [by rewrite decide_True by done|].
    rewrite decide_False by done. destruct (Z.eqb_spec k 0); [done|]. rewrite IH by lia. unfold lookup_aux.
    by destruct (list_find _ pairs) as [[]|].
Qed.

(** ** Dynamic sections *)
Definition table_at (m : mem) (p : Z) (ds : list (Z * Z)) : Prop :=
  words_at m p (aux_words ds ++ [DT_NULL; 0]) ∧ Forall (λ e, e.1 ≠ DT_NULL ∧ in_usize e.1 ∧ in_usize e.2) ds.

Lemma table_cons m p e ds :
  table_at m p (e :: ds) →
  load64 p m = Ret (e.1, m) ∧ load64 (p + 8) m = Ret (e.2, m) ∧ e.1 ≠ DT_NULL ∧ table_at m (p + 16) ds.
Proof.
  intros [Hw [(Hn & H1 & H2) Hall]%Forall_cons]. destruct e as [k v]. cbn [fst snd] in *.
  change (aux_words ((k, v) :: ds) ++ [DT_NULL; 0]) with (k :: v :: (aux_words ds ++ [DT_NULL; 0])) in Hw.
  split_and!; [by eapply load_word| |done|].
  - apply words_at_cons in Hw as [_ Hw]. by eapply load_word.
  - apply words_at_cons in Hw as [_ Hw]. apply words_at_cons in Hw as [_ Hw]. split; [|done].
    unfold add in Hw. by replace (p + 16) with (p + 8 * 1 + 8 * 1) by lia.
Qed.
Lemma table_nil m p : table_at m p [] → load64 p m = Ret (0, m) ∧ load64 (p + 8) m = Ret (0, m).
Proof.
  intros [Hw _]. change (aux_words [] ++ [DT_NULL; 0]) with [0; 0] in Hw. split.
  - eapply load_word; [exact Hw|unfold in_usize; lia].
  - apply words_at_cons in Hw as [_ Hw]. eapply load_word; [exact Hw|unfold in_usize; lia].
Qed.

Lemma read_table_run fuel m p ds :
  table_at m p ds → (length ds < fuel)%nat → read_table fuel p m = Ret (ds ++ [(0, 0)], m).
Proof.
  revert fuel p. induction ds as [|e ds IH]; intros [|fuel] p Hd Hf; simpl in Hf; try lia; cbn [read_table].
  - destruct (table_nil _ _ Hd) as [H1 H2]. erewrite st_bind_run by exact H1. by erewrite st_bind_run by exact H2.
  - destruct (table_cons _ _ _ _ Hd) as (H1 & H2 & Hn & Ht).
    erewrite st_bind_run by exact H1. erewrite st_bind_run by exact H2.
    destruct (Z.eqb_spec e.1 DT_NULL); [done|]. erewrite st_bind_run by (apply IH; [exact Ht|lia]). by destruct e.
Qed.

(** What the host's linker did to its table: it made the values of the tags
    [A] absolute. *)
Definition relocate_entry (base : Z) (A : list Z) (e : Z * Z) : Z * Z :=
  if decide (e.1 ∈ A) then (e.1, e.2 + base) else e.

(** C23. Recovering a dynamic table undoes the other linker's relocation,
    however many of the address tags that linker made absolute: when each of
    those had a non-zero offset, and the offsets it left alone lie below the
    base, the module gets the table that is in the file, with its terminator,
    and the host's own table is not touched. *)
Theorem recover_undoes_relocation fuel m p base A ds :
  A ⊆ DT_ADDR_TAGS → 0 ≤ base →
  table_at m p (relocate_entry base A <$> ds) →
  Forall (λ e, (e.1 ∈ A → 0 < e.2) ∧ (e.1 ∈ DT_ADDR_TAGS → e.1 ∉ A → e.2 ≤ base)) ds →
  (length ds < fuel)%nat →
  recover_dynamic_table fuel p base m = Ret (ds ++ [(0, 0)], m).
Proof.
  intros HA Hb Ht Hds Hf. unfold recover_dynamic_table.
  erewrite st_bind_run by (apply read_table_run; [exact Ht|by rewrite length_fmap]).
  unfold mret, st_ret. do 2 f_equal. rewrite fmap_app. f_equal.
  - rewrite <-list_fmap_compose. rewrite <-(list_fmap_id ds) at 2. apply list_fmap_ext.
    intros i [tag v] Hi. eapply Forall_lookup_1 in Hds as [H1 H2]; [|exact Hi]. cbn [fst snd] in *.
    unfold compose, relocate_entry, recover_entry, id. cbn [fst snd].
    destruct (decide (tag ∈ A)) as [HinA|HninA]; cbn [fst snd].
    + rewrite bool_decide_true by set_solver. specialize (H1 HinA). destruct (Z.ltb_spec base (v + base)); [|lia].
      cbn [andb]. f_equal. lia.
    + case_bool_decide as Htag; [|done]. destruct (Z.ltb_spec base v); [|done]. specialize (H2 Htag HninA). lia.
Qed.

(** ** The debugger structure *)
Section props.
Context {BU : Build}.
Implicit Types s : host.

(** The first DT_DEBUG entry that points to an initialized structure. *)
Definition debug_of (rdebugs : gmap Z RDebug) (ds : list (Z * Z)) : option Z :=
  '(_, e) ← list_find (λ e, e.1 = DT_DEBUG ∧ e.2 ≠ 0 ∧ version <$> rdebugs !! e.2 ≠ Some 0) ds; Some e.2.

Lemma find_debug_run fuel s p ds :
  p ≠ 0 → table_at (h_mem s) p ds → p + 16 * zlen ds + 16 < 2 ^ 64 → 0 ≤ p →
  Forall (λ e, e.1 = DT_DEBUG → e.2 ≠ 0 → is_Some (DebugList.rdebugs (h_debug s) !! e.2)) ds →
  (length ds < fuel)%nat →
  find_debug_in_dynamic fuel p s = Ret (default 0 (debug_of (DebugList.rdebugs (h_debug s)) ds), s).
Proof.
  intros Hp Ht Hlen H0 Hall Hf. revert fuel p Hp Ht Hlen H0 Hf.
  assert (∀ {A} (f : st mem A) a, f (h_mem s) = Ret (a, h_mem s) → on_mem f s = Ret (a, s)) as Hmem
    by (intros A f a Hfa; unfold on_mem; rewrite Hfa; by destruct s).
  induction Hall as [|e ds He Hall IH]; intros [|fuel] p Hp Ht Hlen H0 Hf; simpl in Hf; try lia;
    cbn [find_debug_in_dynamic]; rewrite (proj2 (Z.eqb_neq p 0)) by done.
  - destruct (table_nil _ _ Ht) as [H1 _]. by erewrite st_bind_run by (apply Hmem; exact H1).
  - rewrite zlen_cons in Hlen. pose proof (zlen_nonneg ds).
    destruct (table_cons _ _ _ _ Ht) as (H1 & H2 & Hn & Ht'). erewrite st_bind_run by (apply Hmem; exact H1).
    destruct (Z.eqb_spec e.1 DT_NULL); [done|]. unfold debug_of. cbn [list_find].
    assert (find_debug_in_dynamic fuel (p + 16) s = Ret (default 0 (debug_of (DebugList.rdebugs (h_debug s)) ds), s)) as Hrest
      by (apply IH; [lia|done|lia|lia|lia]).
    assert ((default 0 (debug_of (DebugList.rdebugs (h_debug s)) ds)) =
      default 0 ('(_, e) ← prod_map S id <$> list_find (λ e, e.1 = DT_DEBUG ∧ e.2 ≠ 0 ∧ version <$> DebugList.rdebugs (h_debug s) !! e.2 ≠ Some 0) ds; Some e.2)) as Hd
      by (unfold debug_of; by destruct (list_find _ ds) as [[]|]).
    destruct (Z.eqb_spec e.1 DT_DEBUG) as [Hdb|Hdb].
    + rewrite st_bind_assoc. erewrite st_bind_run by (apply Hmem; exact H2).
      destruct (Z.eqb_spec e.2 0) as [Hz|Hz].
      { rewrite st_bind_ret, Z.eqb_refl. cbn [negb]. rewrite decide_False by tauto. by rewrite Hrest, Hd. }
      destruct (He Hdb Hz) as [d Hdd]. rewrite st_bind_assoc.
      assert (version_of e.2 s = Ret (version d, s)) as Hv
        by (unfold version_of, on_debug; rewrite Hdd; by destruct s).
      erewrite st_bind_run by exact Hv. rewrite st_bind_ret.
      destruct (Z.eqb_spec (version d) 0) as [Hvz|Hvz]; cbn [negb].
      * rewrite Z.eqb_refl. cbn [negb]. rewrite decide_False; [by rewrite Hrest, Hd|]. rewrite Hdd. simpl. intros (_ & _ & Hne). congruence.
      * rewrite (proj2 (Z.eqb_neq e.2 0)) by done. cbn [negb]. rewrite decide_True; [done|]. rewrite Hdd. simpl.
        split_and!; [done|done|congruence].
    + rewrite st_bind_ret, Z.eqb_refl. cbn [negb]. rewrite decide_False by tauto. by rewrite Hrest, Hd.
Qed.

Lemma host_mem_run {A} (f : st mem A) s a : f (h_mem s) = Ret (a, h_mem s) → on_mem f s = Ret (a, s).
Proof. intros Hf. unfold on_mem. rewrite Hf. by destruct s. Qed.
Lemma on_debug_run {A} (f : st DebugList.dstate A) s a : f (h_debug s) = Ret (a, h_debug s) → on_debug f s = Ret (a, s).
Proof. intros Hf. unfold on_debug. rewrite Hf. by destruct s. Qed.

(** The debugger structure of the process is found from the program
    headers in the auxiliary vector: the first DT_DEBUG entry of the program
    that points to an initialized structure; if the program has none, the
    search goes on in the interpreter.  Nothing is changed. *)
Theorem r_debug_found fuel s phdr_addr phnum interpreter_base phdrs bias d ds :
  phdr_addr ≠ 0 → phnum ≠ 0 →
  read_phdrs (Z.to_nat phnum) phdr_addr (h_mem s) = Ret (phdrs, h_mem s) →
  scan_phdrs phdr_addr phdrs = (Some bias, Some d) →
  let p := wrapping_add bias (p_vaddr d) in
  p ≠ 0 → table_at (h_mem s) p ds → p + 16 * zlen ds + 16 < 2 ^ 64 →
  Forall (λ e, e.1 = DT_DEBUG → e.2 ≠ 0 → is_Some (DebugList.rdebugs (h_debug s) !! e.2)) ds →
  (length ds < fuel)%nat →
  find_r_debug fuel phdr_addr phnum interpreter_base s =
    match debug_of (DebugList.rdebugs (h_debug s)) ds with
    | Some ptr => Ret (ptr, s)
    | None => find_in_interpreter fuel interpreter_base s
    end.
Proof.
  intros Ha Hn Hread Hscan p Hp Ht Hlen Hall Hf. unfold find_r_debug.
  rewrite (proj2 (Z.eqb_neq _ _) Ha), (proj2 (Z.eqb_neq _ _) Hn). cbn [orb].
  erewrite st_bind_run by (apply host_mem_run; exact Hread). rewrite Hscan. rewrite st_bind_ret.
  erewrite st_bind_run by (apply find_debug_run; [exact Hp|exact Ht|done|apply wrap_range|exact Hall|exact Hf]).
  destruct (debug_of _ ds) as [ptr|] eqn:E; simpl default; [|by rewrite Z.eqb_refl].
  unfold debug_of in E. destruct (list_find _ ds) as [[i e]|] eqn:Hl; [|done]. injection E as <-.
  apply list_find_Some in Hl as (_ & (_ & Hnz & _) & _). change (default 0 (Some e.2)) with e.2. by rewrite (proj2 (Z.eqb_neq _ _) Hnz).
Qed.

(** ** Making a module *)
Definition segment_ends (phdrs : list ElfPhdr) : list Z :=
  (λ h, p_vaddr h + p_memsz h) <$> filter (λ h, p_type h = PT_LOAD) phdrs.

Lemma max_end_run phdrs acc :
  Forall (λ e, 0 ≤ e < 2 ^ 64) (segment_ends phdrs) →
  ∃ r, max_end phdrs acc = Ret r ∧ acc ≤ r ∧ Forall (λ e, e ≤ r) (segment_ends phdrs)
    ∧ (r = acc ∨ r ∈ segment_ends phdrs).
Proof.
  unfold segment_ends. revert acc. induction phdrs as [|h phdrs IH]; intros acc Hall.
  { exists acc. split_and!; [done|lia|constructor|by left]. }
  cbn [max_end]. rewrite filter_cons in *. destruct (Z.eqb_spec (p_type h) PT_LOAD) as [Hl|Hl].
  - rewrite decide_True in * by done. rewrite fmap_cons in *. apply Forall_cons in Hall as [Hh Hall].
    rewrite uadd_small by lia. rewrite bind_Ret.
    destruct (IH (Z.max acc (p_vaddr h + p_memsz h)) Hall) as (r & H1 & H2 & H3 & H4). exists r.
    split_and!; [done|lia|constructor; [lia|done]|].
    destruct H4 as [->|?]; [|right; by right]. destruct (Z.max_spec acc (p_vaddr h + p_memsz h)) as [[_ ->]|[_ ->]]; [right; left|by left].
  - rewrite decide_False in * by done. by apply IH.
Qed.

Context {Mod LErr : Type} {MA : ModuleApi Mod} {HL : HostLoader Mod LErr}.

(** The headers that the module gets. *)
Definition module_phdrs (bx : Boxes) (base : Z) (e : Extra) : list ElfPhdr :=
  let l := set_dynamic_vaddr (wrapping_sub (box_table bx) base) (extra_phdrs e) in
  match tls_data e with None => filter (λ h, p_type h ≠ PT_TLS) l | Some _ => l end.

(** C31. A library that [dl_iterate_phdr] reports becomes a module over the
    mapping that is there: the length is a whole number of pages that covers
    every segment and no page more, the dynamic section is the recovered copy,
    PT_TLS is kept exactly for a thread that has the block, with the block's
    distance below the thread pointer, and its link map is a fresh unlinked copy
    of the host's. *)
Theorem from_raw_module fuel bx nm base dynamic_ptr e host_map s m e_entry h1 h2 h3 table :
  dynamic_ptr ≠ 0 → host_map ≠ 0 → DebugList.maps (h_debug s) !! host_map = Some m →
  contains (str "linux-vdso.so.1") (to_string_lossy nm) = false → IS_MUSL s = false →
  recover_dynamic_table fuel dynamic_ptr base (h_mem s) = Ret (table, h_mem s) → table ≠ [] →
  read_ehdr base (h_mem s) = Ret ((e_entry, h1, h2, h3), h_mem s) →
  Forall (λ x, 0 ≤ x < 2 ^ 64 - 4096) (segment_ends (extra_phdrs e)) →
  ∃ len lm, len mod 4096 = 0 ∧ Forall (λ x, x ≤ len) (segment_ends (extra_phdrs e))
    ∧ (len = 0 ∨ ∃ x, x ∈ segment_ends (extra_phdrs e) ∧ len < x + 4096)
    ∧ l_real lm = box_map bx ∧ l_next lm = 0 ∧ l_prev lm = 0 ∧ l_addr lm = l_addr m ∧ l_ld lm = l_ld m
    ∧ l_phnum lm = Z.min (zlen (module_phdrs bx base e)) 65535
    ∧ ∀ lib, new_unchecked (to_string_lossy nm) (module_phdrs bx base e) base len
               ((λ o, - as_isize o) <$> static_offset e) (nm, box_map bx, table) = Ok lib →
        from_raw (LErr := LErr) fuel bx nm base dynamic_ptr (Some e) host_map s =
          Ret (Ok (Some lib), mkHost (h_mem s)
            (DebugList.with_maps (h_debug s) (<[box_map bx := lm]> (DebugList.maps (h_debug s))))
            (LIBC_THREAD_ATEXIT s) false (ARGC s) (ARGV s) (ENVP s)).
Proof.
  intros Hd Hh Hm Hv Hmusl Htab Hne Heh Hends.
  destruct (max_end_run (extra_phdrs e) 0) as (r & Hr & Hr0 & Hcov & Hin).
  { eapply Forall_impl; [exact Hends|]. simpl. lia. }
  assert (0 ≤ r < 2 ^ 64 - 4096) as Hrb.
  { destruct Hin as [->|Hin]; [lia|]. eapply Forall_forall in Hends; [|exact Hin]. simpl in Hends. lia. }
  destruct table as [|t0 table]; [done|]. set (x := r + 4095).
  assert (Z.land x (not_usize 4095) = x - x mod 4096) as Hland
    by (apply (land_not_mask x 12); unfold in_usize, x; lia).
  pose proof (Z.mod_pos_bound x 4096 ltac:(lia)) as Hmod.
  eexists (x - x mod 4096), _. split_and!; [| | | | | | | | |intros lib Hlib]; cycle 9.
  { unfold from_raw. rewrite (proj2 (Z.eqb_neq _ _) Hd), (proj2 (Z.eqb_neq _ _) Hh). cbn [negb].
    erewrite st_bind_run by (apply on_debug_run; unfold DebugList.load_map; by rewrite Hm).
    rewrite st_bind_get, Hv, Hmusl. cbn [negb andb].
    erewrite st_bind_run by (apply host_mem_run; exact Htab).
    erewrite st_bind_run.
    2:{ apply host_mem_run. unfold get_phdrs_and_len. cbn [fmap option_fmap option_map]. rewrite st_bind_ret.
        erewrite st_bind_run by (apply st_lift_run; exact Hr). reflexivity. }
    cbv beta iota. erewrite st_bind_run by (apply host_mem_run; exact Heh).
    change (match (e0 ← Some e; tls_data e0) with Some _ => _ | None => _ end) with (module_phdrs bx base e).
    cbv beta iota. erewrite st_bind_run by reflexivity.
    erewrite st_bind_run by (apply st_lift_run; rewrite uadd_small by lia; reflexivity).
    fold x. change (4095) with 4095. rewrite Hland. cbn [mbind option_bind]. rewrite Hlib. unfold mret, st_ret. cbn [LIBC_THREAD_ATEXIT IS_MUSL ARGC ARGV ENVP h_mem]. rewrite Hmusl. reflexivity. }
  - rewrite Zminus_mod_idemp_r, Z.sub_diag. done.
  - eapply Forall_impl; [exact Hcov|]. simpl. intros y Hy. unfold x in *. lia.
  - destruct Hin as [->|Hin].
    + left. reflexivity.
    + right. exists r. split; [done|]. unfold x in *. lia.
  - reflexivity.
  - reflexivity.
  - reflexivity.
  - reflexivity.
  - reflexivity.
  - reflexivity.
Qed.

(** ** Two defects *)

(** The program arguments: [ENVP] becomes the value of libc's variable, but
    [ARGV] the address of the variable. *)
Lemma argv_is_the_address lib s a b env :
  ARGC s ≠ 0 → ARGV s = 0 → ENVP s = 0 →
  get_either lib "__libc_argv" "__argv" = Some a → get_either lib "environ" "__environ" = Some b →
  load64 b (h_mem s) = Ret (env, h_mem s) →
  update_libc_globals lib s = Ret (tt, mkHost (h_mem s) (h_debug s) (LIBC_THREAD_ATEXIT s) (IS_MUSL s) (ARGC s) a env).
Proof.
  intros Hc Hv He Ha Hb Hl. unfold update_libc_globals. rewrite st_bind_get, (proj2 (Z.eqb_neq _ _) Hc), st_bind_ret, st_bind_get.
  rewrite Hv, Z.eqb_refl, Ha. erewrite st_bind_run by reflexivity. rewrite st_bind_get. cbn [ENVP]. rewrite He, Z.eqb_refl, Hb.
  erewrite st_bind_run by (apply host_mem_run; exact Hl). reflexivity.
Qed.

(** An object at base 0, as a program that is not position independent is,
    ends in a read of address 0. *)
Lemma base_zero_faults fuel bx nm dynamic_ptr e host_map s m table :
  dynamic_ptr ≠ 0 → DebugList.maps (h_debug s) !! host_map = Some m → host_map ≠ 0 →
  contains (str "linux-vdso.so.1") (to_string_lossy nm) = false → IS_MUSL s = false →
  recover_dynamic_table fuel dynamic_ptr 0 (h_mem s) = Ret (table, h_mem s) →
  Forall (λ x, 0 ≤ x < 2 ^ 64) (segment_ends (extra_phdrs e)) →
  h_mem s 0 = None →
  from_raw (LErr := LErr) fuel bx nm 0 dynamic_ptr (Some e) host_map s = Fault.
Proof.
  intros Hd Hm Hh Hv Hmusl Htab Hends H0.
  destruct (max_end_run (extra_phdrs e) 0 Hends) as (r & Hr & _).
  unfold from_raw. rewrite (proj2 (Z.eqb_neq _ _) Hd), (proj2 (Z.eqb_neq _ _) Hh). cbn [negb].
  erewrite st_bind_run by (apply on_debug_run; unfold DebugList.load_map; by rewrite Hm).
  rewrite st_bind_get, Hv, Hmusl. cbn [negb andb].
  erewrite st_bind_run by (apply host_mem_run; exact Htab).
  erewrite st_bind_run.
  2:{ apply host_mem_run. unfold get_phdrs_and_len. cbn [fmap option_fmap option_map]. rewrite st_bind_ret.
      erewrite st_bind_run by (apply st_lift_run; exact Hr). reflexivity. }
  unfold mbind at 1, st_bind at 1, on_mem at 1, read_ehdr. cbn [load_bytes].
  unfold mbind, st_bind, load8. by rewrite H0.
Qed.
End props.

(** ** Instances *)
Import Toy.
#[local] Instance w_build : Build := Build_Build true X86_64.
#[local] Instance w_loader : HostLoader nat Z := {|
  new_unchecked _ _ _ _ _ _ := Ok 3%nat;
  thread_pointer := 0x90000 |}.

(** A program at 65536 whose header is followed by its program header; its
    dynamic section at 66048 holds a string table and a DT_DEBUG entry. *)
Definition w_table : list (Z * Z) := [(5, 256); (21, 1); (10, 7)].
Definition w_ehdr : list Z :=
  replicate 24 0 ++ le_encode 8 80 ++ le_encode 8 64 ++ replicate 14 0 ++ le_encode 2 56 ++ le_encode 2 2 ++ replicate 6 0.
Definition w_phdr (ty off va sz : Z) : list Z :=
  le_encode 4 ty ++ le_encode 4 0 ++ ([off; va; va; sz; sz; 8] ≫= le_encode 8).
Definition w_dynamic : list Z := (aux_words (relocate_entry 65536 [5] <$> w_table) ++ [0; 0]) ≫= le_encode 8.
Definition w_mem : mem :=
  write (write (of_bytes 65536 w_ehdr) 65600 (w_phdr PT_PHDR 64 64 112 ++ w_phdr PT_DYNAMIC 512 512 64)) 66048 w_dynamic.
Definition w_headers : list ElfPhdr := [mkPhdr PT_PHDR 0 64 64 64 112 112 8; mkPhdr PT_DYNAMIC 0 512 512 512 64 64 8].
Definition w_host : host :=
  mkHost w_mem (DebugList.mk 1 0 {[1 := mkRDebug 1 0 None 0 0]} {[48 := LinkMap_zero]} []) None false 1 0 0.

Lemma w_table_at : table_at w_mem 66048 (relocate_entry 65536 [5] <$> w_table).
Proof.
  split; [apply StackProps.words_at_of_words, write_bytes_at|]. apply (bool_decide_unpack _). vm_compute. exact I.
Qed.

Lemma recover_undoes_relocation_witness :
  recover_dynamic_table 9 66048 65536 w_mem = Ret (w_table ++ [(0, 0)], w_mem).
Proof.
  apply (recover_undoes_relocation 9 w_mem 66048 65536 [5] w_table).
  - intros x Hx. apply list_elem_of_singleton in Hx as ->. apply (bool_decide_unpack _). vm_compute. exact I.
  - lia.
  - exact w_table_at.
  - apply Forall_forall. intros e He. apply list_elem_of_In in He.
    destruct He as [<-|[<-|[<-|[]]]]; cbn [fst snd]; split; intros; try lia.
  - simpl. lia.
Defined.

Lemma r_debug_found_witness : find_r_debug 9 65600 2 0 w_host = Ret (1, w_host).
Proof.
  assert (debug_of (DebugList.rdebugs (h_debug w_host)) (relocate_entry 65536 [5] <$> w_table) = Some 1) as Hd
    by (vm_compute; reflexivity).
  pose proof (r_debug_found 9 w_host 65600 2 0 w_headers 65536 (mkPhdr PT_DYNAMIC 0 512 512 512 64 64 8)
    (relocate_entry 65536 [5] <$> w_table)) as H.
  cbv zeta in H. rewrite Hd in H. apply H.
  - lia.
  - lia.
  - reflexivity.
  - reflexivity.
  - vm_compute. discriminate.
  - exact w_table_at.
  - vm_compute. reflexivity.
  - apply Forall_forall. intros e He. apply list_elem_of_In in He.
    destruct He as [<-|[<-|[<-|[]]]]; intros Ht Hn; try discriminate Ht. eexists. vm_compute. reflexivity.
  - simpl. lia.
Defined.

Lemma from_raw_module_witness :
  let e := mkExtra [mkPhdr PT_LOAD 0 0 0 0 100 5000 8] None None in
  ∃ lm, from_raw (LErr := Z) 9 (mkBoxes 11 12 13 14) [97] 65536 66048 (Some e) 48 w_host =
    Ret (Ok (Some 3%nat), mkHost w_mem
      (DebugList.with_maps (h_debug w_host) (<[12 := lm]> (DebugList.maps (h_debug w_host)))) None false 1 0 0)
    ∧ l_real lm = 12 ∧ l_phnum lm = 1.
Proof.
  intros e.
  destruct (from_raw_module (LErr := Z) 9 (mkBoxes 11 12 13 14) [97] 65536 66048 e 48 w_host LinkMap_zero 80 64 56 2
    (w_table ++ [(0, 0)])) as (len & lm & _ & _ & _ & H1 & _ & _ & _ & _ & H2 & H3).
  - lia.
  - lia.
  - reflexivity.
  - vm_compute. reflexivity.
  - reflexivity.
  - unfold recover_dynamic_table. erewrite st_bind_run by (apply read_table_run; [exact w_table_at|simpl; lia]). reflexivity.
  - discriminate.
  - reflexivity.
  - apply (bool_decide_unpack _). vm_compute. exact I.
  - exists lm. split; [apply H3; reflexivity|]. split; [exact H1|exact H2].
Defined.
End HostProps.
