(* ===== verification/Os.v ===== *)
(** * Reading a file through system calls (src/os/linux.rs)

    Regular files are read in one call of the size that [lseek] reports; files
    without a size, as those of /proc are, are read piece by piece.  The calls
    are a class; a second one is what the kernel documents about them. *)

From stdpp Require Import gmap.
From S2P Require Import Prelude Errors.

(** [Err] is an error number; [sys_read] returns the bytes it put in the buffer. *)
Class FileCalls (K : Type) := {
  sys_open : list Z → Z → st K (result Z Z);
  sys_lseek : Z → Z → Z → st K (result Z Z);
  sys_read : Z → Z → st K (result Z (list Z));
  sys_close : Z → st K unit }.

Module Os.
Section os.
Context {K LErr : Type} `{!FileCalls K}.
(** The text of an error number in the syscalls crate. *)
Context (errno_string : Z → string).
Local Abbreviation E := (Error LErr).

Definition O_RDONLY : Z := 0.
Definition SEEK_SET : Z := 0.
Definition SEEK_END : Z := 2.




End os.
End Os.

(** ** What the kernel documents

    An open descriptor has contents and a position.  A read fails with an error
    number (EIO, EINTR, EISDIR, ...), or it returns a part of what is left, and
    nothing only at the end; [read_errors] is the history of the failed reads.
    [lseek] to the end reports the size, or zero or an error for a file without
    one; going back to the start then succeeds. *)
Class FileCallsSpec (K : Type) `{!FileCalls K} := {
  files : K → gmap (list Z) (list Z);  (* those that can be opened *)
  descriptors : K → gmap Z (list Z * Z);
  has_size : list Z → bool;            (* by contents *)
  read_errors : K → list Z;
  open_spec path k :
    match files k !! path with
    | Some c => ∃ fd k', sys_open (path ++ [0]) Os.O_RDONLY k = Ret (Ok fd, k') ∧ descriptors k !! fd = None
                  ∧ descriptors k' = <[fd := (c, 0)]> (descriptors k) ∧ read_errors k' = read_errors k
    | None => ∃ e k', sys_open (path ++ [0]) Os.O_RDONLY k = Ret (Err e, k') ∧ descriptors k' = descriptors k
    end;
  seek_end_spec fd k c pos : descriptors k !! fd = Some (c, pos) →
    ∃ r k' pos', sys_lseek fd 0 Os.SEEK_END k = Ret (r, k') ∧ descriptors k' = <[fd := (c, pos')]> (descriptors k)
      ∧ read_errors k' = read_errors k
      ∧ (if has_size c then r = Ok (zlen c) else r = Ok 0 ∨ (∃ e, r = Err e) ∧ pos' = pos);
  seek_set_spec fd k c pos : descriptors k !! fd = Some (c, pos) →
    ∃ r k' pos', sys_lseek fd 0 Os.SEEK_SET k = Ret (r, k') ∧ descriptors k' = <[fd := (c, pos')]> (descriptors k)
      ∧ read_errors k' = read_errors k
      ∧ ((r = Ok 0 ∧ pos' = 0) ∨ (has_size c = false ∧ pos = 0 ∧ pos' = 0));
  read_spec fd n k c pos : descriptors k !! fd = Some (c, pos) → 0 < n → 0 ≤ pos →
    ∃ r k' pos', sys_read fd n k = Ret (r, k') ∧ descriptors k' = <[fd := (c, pos')]> (descriptors k)
      ∧ match r with
        | Ok d => read_errors k' = read_errors k ∧ pos' = pos + zlen d
            ∧ d = take (length d) (drop (Z.to_nat pos) c) ∧ zlen d ≤ n ∧ (d = [] → zlen c ≤ pos)
        | Err e => read_errors k' = read_errors k ++ [e]
        end;
  close_spec fd k : ∃ k', sys_close fd k = Ret (tt, k') ∧ descriptors k' = delete fd (descriptors k)
      ∧ read_errors k' = read_errors k }.

Module OsProps.
Import Os.
Section props.
Context {LErr : Type} `{FS : FileCallsSpec K}.
Context (errno_string : Z → string).









End props.

(** Contents that begin with 0 have no size, and reads give two bytes of them;
    reading at an offset in [t_bad] fails. *)
Record Toy := mkToy { t_files : gmap (list Z) (list Z); t_fds : gmap Z (list Z * Z); t_bad : list Z; t_failed : list Z }.
Definition with_fds (fds : gmap Z (list Z * Z)) (k : Toy) : Toy := mkToy (t_files k) fds (t_bad k) (t_failed k).
Definition t_sized (c : list Z) : bool := negb (bool_decide (head c = Some 0)).
#[local] Instance toy_calls : FileCalls Toy := {|
  sys_open path _ k :=
    match t_files k !! removelast path with
    | Some c => let fd := fresh (dom (t_fds k)) in Ret (Ok fd, with_fds (<[fd := (c, 0)]> (t_fds k)) k)
    | None => Ret (Err 2, k)
    end;
  sys_lseek fd _ whence k :=
    match t_fds k !! fd with
    | Some (c, pos) =>
        if whence =? SEEK_END then
          if t_sized c then Ret (Ok (zlen c), with_fds (<[fd := (c, zlen c)]> (t_fds k)) k)
          else Ret (Err 29, with_fds (<[fd := (c, pos)]> (t_fds k)) k)
        else Ret (Ok 0, with_fds (<[fd := (c, 0)]> (t_fds k)) k)
    | None => Ret (Err 9, k)
    end;
  sys_read fd n k :=
    match t_fds k !! fd with
    | Some (c, pos) =>
        if decide (pos ∈ t_bad k) then
          Ret (Err 5, mkToy (t_files k) (<[fd := (c, pos)]> (t_fds k)) (t_bad k) (t_failed k ++ [5]))
        else
          let m := if t_sized c then n else Z.min n 2 in
          let r := take (Z.to_nat m) (drop (Z.to_nat pos) c) in
          Ret (Ok r, with_fds (<[fd := (c, pos + zlen r)]> (t_fds k)) k)
    | None => Ret (Err 9, k)
    end;
  sys_close fd k := Ret (tt, with_fds (delete fd (t_fds k)) k) |}.

#[local] Program Instance toy_spec : FileCallsSpec Toy :=
  {| files := t_files; descriptors := t_fds; has_size := t_sized; read_errors := t_failed |}.
Next Obligation.
  intros path k. cbn [sys_open toy_calls]. rewrite removelast_last. destruct (t_files k !! path).
  - eexists _, _. split_and!; [done| |done|done]. apply not_elem_of_dom, is_fresh.
  - by eexists _, _.
Qed.
Next Obligation.
  intros fd k c pos Hfd. cbn [sys_lseek toy_calls]. rewrite Hfd. cbn [Z.eqb SEEK_END Pos.eqb].
  destruct (t_sized c); eexists _, _, _; (split; [done|]; split; [done|]; split; [done|]); [done|]. right. split; [by eexists|done].
Qed.
Next Obligation.
  intros fd k c pos Hfd. cbn [sys_lseek toy_calls]. rewrite Hfd. eexists _, _, _.
  split; [done|]. split; [done|]. split; [done|]. by left.
Qed.
Next Obligation.
  intros fd n k c pos Hfd Hn Hp. cbn [sys_read toy_calls]. rewrite Hfd. case_decide as Hbad.
  { eexists _, _, _. split; [done|]. by split. }
  cbv zeta. set (m := if t_sized c then n else Z.min n 2).
  assert (0 < m ≤ n) as Hm by (unfold m; destruct (t_sized c); lia).
  eexists _, _, _. split; [done|]. split; [done|]. split_and!; [done|done| | |].
  - rewrite length_take, length_drop. set (l := drop (Z.to_nat pos) c).
    assert (length l = (length c - Z.to_nat pos)%nat) as Hl by (unfold l; by rewrite length_drop). rewrite <-Hl.
    destruct (decide (Z.to_nat m ≤ length l)%nat); [by rewrite Nat.min_l by lia|]. rewrite Nat.min_r by lia. by rewrite !take_ge by lia.
  - unfold zlen. rewrite length_take. lia.
  - intros Hnil%(f_equal length). rewrite length_take, length_drop in Hnil. unfold zlen. simpl in Hnil. lia.
Qed.
Next Obligation. intros fd k. by eexists. Qed.

End OsProps.
